(* ===== verification/_CoqProject ===== *)
-Q . S2P
Prelude.v
Logger.v
Loggers.v
Regex.v
StdLib.v
TypeDesc.v
TypeRoundtrip.v
PyDatatype.v
SocketProtocol.v
Posix.v
PosixModel.v
SysVSem.v
SysVShm.v
KernelLimits.v
UnixSocketServer.v
ServerTheorems.v
UnixSocketClient.v
Reader.v
ReaderTheorems.v
Writer.v
WriterTheorems.v
SystemCalls.v
Follower.v
FollowerThreads.v
FollowerAlive.v
CInterface.v
PyObjects.v
Tools.v
ShmProtocol.v
ShmSystem.v
ShmInvariant.v
ShmRefinement.v
ShmTheorems.v
PublishRun.v
ShmSimulation.v
ServerRun.v
ServerSimulation.v
SystemRuns.v
SystemStart.v
SystemTheorems.v
SystemStop.v
GstSrc.v
GstSrcTheorems.v
GstAllocator.v
GstSink.v
GstSinkTheorems.v
GstProps.v
GstSinkProps.v
