(* ===== verification/Prelude.v ===== *)
(** * Shmdata: a verification development of the shared-memory frame library

    Shmdata (src/shmdata) publishes frames of bytes from one writer to any
    number of readers on a machine.  A [Writer] owns a System V segment and a
    pair of semaphores, and a Unix socket on which it announces the size of
    each frame; a [Reader] attaches the segment and calls the user's callback
    under a [ReadLock]; a [Follower] makes readers again as writers come and
    go; a [Type] is the textual description of the stream.  Around the
    library are a C interface, two command-line tools (src/utils), two
    GStreamer elements (src/gst) and a Python module (src/wrappers/python).
    This development models those parts and proves what they promise.

    ** Parts, files and code

    - [Prelude]: byte strings, the state-and-outcome monad [M] (a call
      returns, throws, has undefined behaviour, or sleeps), machine integers,
      reachability, automation.
    - [Logger], [Loggers]: abstract-logger.hpp and its two implementations
      (console-logger.hpp, clogger.cpp), one Module each, through the class
      [AbstractLogger], and the handlers of the Python wrapper (pyshmdata.cpp).
    - [Regex], [StdLib], [TypeDesc], [TypeRoundtrip]: type.hpp and type.cpp.
      The std::regex subset that type.cpp uses is executable, and [Type_ctor],
      [str], [escape], ... are written on top of it as in the code.
    - [Posix]: the system calls the program relies on, as type classes over an
      abstract kernel state ([SemOS], [ShmOS], [FileOS], [SockOS]), their
      documented behaviour as classes of laws ([SemLaws], [ShmLaws],
      [FileLaws], [SockLaws], [FrameLaws], [SetupLaws], [PeerLaws] for the
      other ends of connections), and four kinds of triples:
      [ktriple] (may sleep), [ktotal] (returns), [kpartial] (if it returns),
      [kt_unless] (may sleep, or reach the undefined behaviour it names).
      [PosixModel] is a concrete kernel with all the laws; the theorems are
      evaluated on it.
    - [SysVSem], [SysVShm]: sysv-sem.cpp and sysv-shm.cpp, the objects and the
      locks, one definition per constructor, destructor and method.
    - [KernelLimits]: get_shmmax and get_shmmni of sysv-shm.cpp, on an
      interface to stdio.
    - [SocketProtocol]: unix-socket-protocol.cpp, the messages and their bytes.
    - [UnixSocketServer], [ServerTheorems]: unix-socket.cpp and
      unix-socket-server.cpp; [interaction_turn] is the body of the loop of
      client_interaction.
    - [UnixSocketClient]: unix-socket-client.cpp; [interaction] is the body of
      the loop of server_interaction, [ClientSide] the callbacks.
    - [Reader], [ReaderTheorems]: reader.cpp.
    - [Writer], [WriterTheorems]: writer.cpp, with [OneWriteAccess].
    - [Follower], [FollowerThreads], [FollowerAlive]: follower.cpp and
      file-monitor.cpp, one operation after the other, then as interleaved
      threads, then under schedules that are calm (below).  The constructor
      leaves a valid reader, or a monitor with a reader that did not connect
      or with none ([constructed]).
    - [CInterface]: cwriter.cpp and cfollower.cpp; a handle is [None] or the
      C++ object.
    - [Tools]: sdflow.cpp (Module [Sdflow]) and sdcrash.cpp (Module [Sdcrash]).
    - [PyDatatype], [PyObjects]: pyshmdata.cpp, the parser of type descriptions
      and the two Python objects on a heap of reference-counted objects.
    - [GstSrc], [GstSrcTheorems]: gstshmdatasrc.c; the handlers of its three
      threads are steps of one transition system.
    - [GstAllocator], [GstSink], [GstSinkTheorems]: gstshmdatasink.c, the
      memories it allocates with their references, then the element, which
      calls [CInterface].
    - [GstProps]: the properties of the two elements (class_init, init,
      set_property, get_property, finalize and the callbacks that notify), by
      value and then with the strings as owned blocks of a heap.
      [GstSinkProps]: the whole life of the sink, as the calls made on it, and
      what can be read in between.
    - [ShmProtocol], [ShmInvariant], [ShmRefinement], [ShmTheorems]: writer,
      server thread, readers and the time-out thread together, as a transition
      system whose steps are system calls and single bytes of memcpy.
    - [ShmSystem]: one writer, the thread of its server and the readers, each
      process on one kernel; an operation of the system is a whole call of the
      code: copy_to_shm, a turn of client_interaction, a reader that attaches,
      what a reader does with the greeting and with an update, the end of a
      reader.  [SystemStart]: the system that the constructor of a writer
      starts.  [SystemCalls], [PublishRun], [ShmSimulation] (publications,
      updates, ends), [ServerRun], [ServerSimulation] (turns and readers that
      join), [SystemRuns] (any sequence): every operation is a sequence of
      steps of [ShmProtocol].  [SystemTheorems]: what follows.  [SystemStop]:
      the destructor of the writer in such a system.

    A definition has the name of the code's function, with [_ctor] and [_dtor]
    for constructors and destructors; a C++ object is a record with the names
    of its members, and a method takes it and returns it changed.  Threads
    under a mutex are functions that run one after the other; where they
    interleave, [ShmProtocol], [FollowerThreads] and [GstSrc] have the steps.

    ** What is proved

    - Protocol ([ShmTheorems]): while a callback runs the writer is out of the
      critical section and the bytes are the announced frame; every reader
      gets each frame once and in order, through resizes and crashes of
      readers; the steps refine one queue of frames per reader; there is no
      deadlock; [copy_to_shm] completes within a computed number of steps.
      These hold when the time-out fires only on readers that are dead; two
      more theorems are executions in which it does not and the lock fails.
    - System ([SystemTheorems], [SystemStop]): a new writer starts a
      well-formed system; every run of the code's operations refines the protocol, so what is
      proved of the protocol holds of the code; a frame given to [copy_to_shm]
      is the frame the callback of every client gets, through resizes, turns
      of the server, other readers that come and readers that die, and a
      reader that comes late gets all frames since it was made a client; what
      greets a reader is the description of the writer.  The recovery of a
      dead shmdata is in it as long as the path keeps its keys; an execution
      shows that it need not.  A writer that stops removes its names and
      tells its clients to quit, after the update that they may have to read;
      the frame of that update is lost, as its semaphores are gone.
    - Writer and reader ([WriterTheorems], [ReaderTheorems]): the effect of
      [copy_to_shm], with and without resize, and of a write access on the
      segment, the semaphores and every client's stream; the bytes a callback
      is given; what the constructors leave behind, and that a reader which
      connects to a server without a segment uses a null pointer.  They are proved from the
      laws of the system calls, for one process acting at a time.
    - Semaphores and segments: life of owned objects, effect of each lock.
    - Sockets: messages survive the stream; the server thread keeps its sets
      consistent, and its one undefined behaviour is FD_SET on an accepted
      descriptor beyond FD_SETSIZE; a turn removes and adds exactly the
      clients it should; the client thread obeys
      a stream of updates and a quit.
    - Type descriptions: parsing what [str] prints gives back the description;
      when printing throws; what parsing does with errors and integers.
    - Follower: it stops only with a valid reader; when disconnections fall
      while no monitor runs it follows again any number of times, and can be
      destroyed; under calm schedules (a server goes away only when no
      monitor runs, no constructor gives up on one that answers, and the
      follower is not destroyed) somebody always follows; and then, when a
      writer is there that stays and accepts, the threads have a valid reader
      again within 16 steps.  When a disconnection falls before the
      monitor has ended, executions end with nobody following, or with two
      threads that wait for each other.
    - C interface: a frame written in place reaches the callback of a C
      follower; a handle is given exactly when the writer can be used.
    - GStreamer: from its creation on, and until it is flushed or stopped, the
      source gives out the frames announced in order, each at most once, and
      leaves out at most one; they are unaltered once the token that the first
      buffer leaves is used up, and an execution shows that they need not be
      before; [create] returns once unlocked; when
      caps are refused, or the element is started again, no frame comes any
      more.  The sink publishes the bytes of a buffer like [copy_to_shm]; its
      references balance; what it does with offsets, limits and caps.  Through
      its whole life its properties give what was set or counted, in range
      unless a buffer exceeds the maximum of initial-size; the strings of the
      sink are freed once, those of the source are too but for one path.
    - Python: a dictionary has the properties of the description; a frame
      becomes a bytearray; every reference has an owner, and which stay.
    - Tools: what [print_vals] prints; the frame window; the writes of sdcrash.

    ** Bounds and fuel

    Loops over data are structural.  The loops of the threads end when
    somebody asks them to: [interaction_loop], [interactions] and
    [monitor_loop] run one turn per element of a list or per unit of [turns],
    and an element [true] is a quit that another thread stores during the
    turn; the theorems hold for every list.  One turn per message is enough
    for a client ([client_receives_stream]).  [events] reads at least one byte
    per unit of fuel, so the length of the stream is enough.  The regular
    expressions are matched by recursion on the text.  [to_short] is the
    conversion to short of [notify_update], [to_size_t] the one of sizes; clients are bounded by SHRT_MAX
    and semaphores by SEMVMX where the code relies on it, and [FD_SET] is
    undefined outside [0, FD_SETSIZE).

    ** What is not modelled

    SafeBoolIdiom only converts; the registration of the GStreamer pads and
    pad templates and of the Python types, the log handlers of the elements,
    usage texts and the example programs of src/gst have no state.  GStreamer, the Python interpreter,
    getopt, stdio and float formatting are parameters.  Timers (the waits of
    WriteLock, of start and of the sleeps are nondeterministic steps or numbers
    of turns) and the C++ memory model are left out: shared variables are read
    and written in sequence.  The parts around the library run one handler at
    a time, except for the source element.  In [ShmSystem] a call is not
    interleaved with another (their steps are in [ShmProtocol]), and a reader
    leaves when its process ends, not with a quit message.  Payloads of
    [std::any] of floating-point type are a parameter of [TypeDesc]. *)

From Stdlib Require Export Ascii ZArith Lia.
From stdpp Require Export base list strings gmap sets.

Set Default Proof Using "Type".

(** ** Byte strings

    [std::string] is a sequence of bytes; it is a [list ascii] here, so that
    the list library applies.  [$ "abc"] is a literal. *)

Abbreviation cstr := (list ascii).
Notation "$ s" := (String.list_ascii_of_string s%string)
  (at level 1, only parsing).

(** The [std::string] made from a [const char *]: up to the first 0. *)
Fixpoint c_str (bs : cstr) : cstr :=
  match bs with
  | [] => []
  | b :: bs' => if bool_decide (b = Ascii.zero) then [] else b :: c_str bs'
  end.

(** ** Outcomes and the state-and-outcome monad

    A C++ call returns, leaves by an exception, has undefined behaviour, or
    sleeps in a system call. *)

Inductive exn :=
| OutOfRange          (* std::out_of_range *)
| InvalidArgument     (* std::invalid_argument *)
| BadAnyCast.         (* std::bad_any_cast *)

#[export] Instance exn_eq_dec : EqDecision exn.
Proof. solve_decision. Defined.

Inductive outcome (A : Type) : Type :=
| Ret (a : A)
| Throw (e : exn)
| Undef
| Sleep.
Arguments Ret {A} a.
Arguments Throw {A} e.
Arguments Undef {A}.
Arguments Sleep {A}.

#[export] Instance outcome_ret : MRet outcome := fun A a => Ret a.
#[export] Instance outcome_bind : MBind outcome := fun A B k m =>
  match m with
  | Ret a => k a
  | Throw e => Throw e
  | Undef => Undef
  | Sleep => Sleep
  end.

(** The state in which an abnormal outcome occurs is kept. *)
Definition M (W A : Type) : Type := W -> outcome A * W.

#[export] Instance M_ret (W : Type) : MRet (M W) := fun A a w => (Ret a, w).
#[export] Instance M_bind (W : Type) : MBind (M W) := fun A B k m w =>
  match m w with
  | (Ret a, w') => k a w'
  | (Throw e, w') => (Throw e, w')
  | (Undef, w') => (Undef, w')
  | (Sleep, w') => (Sleep, w')
  end.

Definition lift {W A : Type} (o : outcome A) : M W A := fun w => (o, w).
Definition undef {W A : Type} : M W A := fun w => (Undef, w).
Definition sleep {W A : Type} : M W A := fun w => (Sleep, w).

(** A call that returns, followed by the rest. *)
Lemma bind_ret {W A B : Type} (m : M W A) (k : A -> M W B) w a w' :
  m w = (Ret a, w') -> (m ≫= k) w = k a w'.
Proof. intros E. unfold mbind, M_bind. by rewrite E. Qed.

Lemma bind_inv {W A B : Type} (m : M W A) (k : A -> M W B) w b w' :
  (m ≫= k) w = (Ret b, w') -> exists a w1, m w = (Ret a, w1) /\ k a w1 = (Ret b, w').
Proof. unfold mbind, M_bind. destruct (m w) as [[a|e| |] w1]; try done. intros E. by exists a, w1. Qed.

Lemma bind_ext {W A B : Type} (m : M W A) (f g : A -> M W B) w :
  (forall a w', m w = (Ret a, w') -> f a w' = g a w') -> (m ≫= f) w = (m ≫= g) w.
Proof. unfold mbind, M_bind. intros Hm. destruct (m w) as [[a|e| |] w1]; [by apply Hm|done..]. Qed.

Lemma bind_sleep {W A B : Type} (m : M W A) (k : A -> M W B) w w' :
  m w = (Sleep, w') -> (m ≫= k) w = (Sleep, w').
Proof. intros E. unfold mbind, M_bind. by rewrite E. Qed.

(** [if (b) stmt;] *)
Definition when {W : Type} (b : bool) (m : M W unit) : M W unit :=
  if b then m else mret tt.

(** ** Machine integers *)

Definition INT_MAX : Z := 2147483647.
Definition INT_MIN : Z := -2147483648.
Definition SHRT_MAX : Z := 32767.

(** Conversion of an integer to [short] (modulo 2^16, two's complement). *)
Definition to_short (z : Z) : Z := ((z + 32768) mod 65536 - 32768)%Z.

(** Conversion of an integer to [size_t] (64-bit). *)
Definition to_size_t (z : Z) : Z := (z mod 2 ^ 64)%Z.

Lemma to_short_small z : (-32768 <= z < 32768)%Z -> to_short z = z.
Proof. intros ?. unfold to_short. rewrite Z.mod_small; lia. Qed.

Lemma to_short_range z : (-32768 <= to_short z < 32768)%Z.
Proof.
  unfold to_short. pose proof (Z.mod_pos_bound (z + 32768) 65536). lia.
Qed.

(** ** Generic list lemmas *)

Section lists.
Context {A : Type}.
Implicit Types l k p : list A.

(** [strip p l] is what follows the prefix [p] of [l]. *)
Fixpoint strip (eqb : A -> A -> bool) p l : option (list A) :=
  match p, l with
  | [], _ => Some l
  | x :: p', y :: l' => if eqb x y then strip eqb p' l' else None
  | _ :: _, [] => None
  end.
End lists.

Lemma filter_ext_in {A} (P Q : A -> Prop) `{forall x, Decision (P x)}
  `{forall x, Decision (Q x)} (l : list A) :
  (forall x, x ∈ l -> P x <-> Q x) -> filter P l = filter Q l.
Proof.
  induction l as [|x l IH]; intros Hl; [done|]. rewrite !filter_cons.
  rewrite IH by (intros y Hy; apply Hl; by right).
  assert (P x <-> Q x) by (apply Hl; left).
  destruct (decide (P x)), (decide (Q x)); tauto.
Qed.

Lemma filter_all {A} (P : A -> Prop) `{forall x, Decision (P x)} (l : list A) :
  (forall x, x ∈ l -> P x) -> filter P l = l.
Proof.
  induction l as [|x l IH]; intros Hl; [done|]. rewrite filter_cons.
  rewrite decide_True by (apply Hl; left). rewrite IH; [done|]. intros y Hy. apply Hl. by right.
Qed.

(** ** Assignment to a member

    [r <| f := v |>] is the record [r] with member [f] changed.  A record type
    is [Settable] when its constructor applied to its members is given. *)

Class Settable (R : Type) := rebuild : R -> R.
Class Setter {R T : Type} (proj : R -> T) := set_member : T -> R -> R.

Ltac solve_setter :=
  lazymatch goal with
  | |- @Setter ?R ?T ?proj =>
      let eta := constr:(_ : Settable R) in
      let eta := eval hnf in eta in
      exact (fun (v : T) (r : R) =>
        ltac:(let b := eval cbv beta in (eta r) in
              let b := eval pattern (proj r) in b in
              lazymatch b with ?g _ => let b := eval cbv beta in (g v) in exact b end))
  end.
#[export] Hint Extern 1 (Setter _) => solve_setter : typeclass_instances.

#[warnings="-postfix-notation-not-level-1"]
Notation "r <| f := v |>" := (set_member (proj := f) v r)
  (at level 12, left associativity, f constr at level 11,
   format "r  '<|' f  ':='  v '|>'").

(** ** Transition systems *)

Section reach.
Context {St : Type} (init : St -> Prop) (step : St -> St -> Prop).

Inductive reachable : St -> Prop :=
| reach_init s : init s -> reachable s
| reach_step s s' : reachable s -> step s s' -> reachable s'.

(** Rule induction for invariants. *)
Lemma invariant_reachable (I : St -> Prop) :
  (forall s, init s -> I s) ->
  (forall s s', reachable s -> I s -> step s s' -> I s') ->
  forall s, reachable s -> I s.
Proof. intros Hi Hs s Hr. induction Hr; eauto. Qed.

Lemma reachable_rtc s s' : reachable s -> rtc step s s' -> reachable s'.
Proof. intros Hr Hs. induction Hs; eauto using reach_step. Qed.
End reach.

(** ** Automation *)

Create HintDb shm.
Create Rewrite HintDb shm.
#[export] Hint Resolve reach_init reach_step : shm.
#[export] Hint Rewrite @app_nil_r @length_app : shm.

(** Case analysis on the scrutinee of the goal or of a hypothesis. *)
Ltac case_goal :=
  match goal with
  | |- context [match ?x with _ => _ end] => destruct x eqn:?
  end.
Ltac case_hyp H :=
  match type of H with
  | context [match ?x with _ => _ end] => destruct x eqn:?
  end.

(** Unfold the monad down to the state transformer. *)
Ltac munfold := cbv [mbind M_bind mret M_ret outcome_bind outcome_ret lift
                     undef sleep when] in *.
