(* ===== verification/Logger.v ===== *)
(** * AbstractLogger (abstract-logger.hpp)

    The formatter of the logging interface.  Every component logs through
    it; the component models carry the sequence of logged lines. *)

From S2P Require Import Prelude.

(** The six levels that [SHMDATA_MakeLevel] instantiates. *)
Inductive level := LError | LCritical | LWarning | LMessage | LInfo | LDebug.

#[export] Instance level_eq_dec : EqDecision level.
Proof. solve_decision. Defined.

Section make_string.
(** [make_string(format, value, Fargs...)]: the loop copies [format] up to
    the first [%], appends the value and continues with the rest of the
    arguments on the rest of the format; [make_string(format)], with no
    value left, is the format itself; the end of the format drops the
    values that remain. *)
Fixpoint make_string (format : cstr) (values : list cstr) : cstr :=
  match values with
  | [] => format
  | value :: rest =>
      (fix loop (format : cstr) : cstr :=
         match format with
         | [] => []
         | c :: format' =>
             if bool_decide (c = "%"%char)
             then value ++ make_string format' rest
             else c :: loop format'
         end) format
  end.
End make_string.
