(* ===== verification/Loggers.v ===== *)
(** * Loggers (console-logger.hpp, clogger.cpp, pyshmdata.cpp)

    The two implementations of AbstractLogger, and the handlers that the Python
    wrapper gives to the second.  A component's model keeps the
    trace of its lines; [replay] gives such a trace to an implementation. *)

From S2P Require Import Prelude Logger.

(** The six virtual functions of AbstractLogger, [on_error] to [on_debug]. *)
Class AbstractLogger (W L : Type) := on_level : L -> level -> cstr -> M W unit.

(** [log->level(format, values...)] *)
Definition log_with {W L} `{AbstractLogger W L} (lg : L) (l : level) (format : cstr)
  (values : list cstr) : M W unit := on_level lg l (make_string format values).

Fixpoint replay {W L} `{AbstractLogger W L} (lg : L) (lines : list (level * cstr)) : M W unit :=
  match lines with
  | [] => mret tt
  | (l, str) :: lines' => on_level lg l str;; replay lg lines'
  end.

(** ** The console logger *)

Module Console.
(** [std::cout] and [std::cerr]. *)
Record console := mkConsole { cout : cstr; cerr : cstr }.

Record ConsoleLogger := mkConsoleLogger { debug_ : bool }.

Definition set_debug (debug : bool) (lg : ConsoleLogger) : ConsoleLogger := mkConsoleLogger debug.

Definition put_out (s : cstr) : M console unit := fun w => (Ret tt, mkConsole (cout w ++ s) (cerr w)).
Definition put_err (s : cstr) : M console unit := fun w => (Ret tt, mkConsole (cout w) (cerr w ++ s)).

(** The escape character, the colours and the end of line. *)
Definition esc : cstr := [Ascii.ascii_of_nat 27].
Definition endl : cstr := [Ascii.ascii_of_nat 10].
Definition plain : cstr := esc ++ $"[0m".

Definition on_error (str : cstr) : M console unit :=
  put_err (esc ++ $"[1;31merror: " ++ str ++ plain ++ endl).
Definition on_critical (str : cstr) : M console unit :=
  put_err (esc ++ $"[1;31mcritical: " ++ str ++ plain ++ endl).
Definition on_warning (str : cstr) : M console unit :=
  put_err (esc ++ $"[1;33mwarning: " ++ str ++ plain ++ endl).
Definition on_message (str : cstr) : M console unit := put_out ($"message: " ++ str ++ endl).
Definition on_info (str : cstr) : M console unit := put_out ($"info: " ++ str ++ endl).
Definition on_debug (lg : ConsoleLogger) (str : cstr) : M console unit :=
  when (debug_ lg) (put_out (esc ++ $"[0;33mdebug: " ++ str ++ plain ++ endl)).

#[export] Instance console_logger : AbstractLogger console ConsoleLogger := fun lg l str =>
  match l with
  | LError => on_error str
  | LCritical => on_critical str
  | LWarning => on_warning str
  | LMessage => on_message str
  | LInfo => on_info str
  | LDebug => on_debug lg str
  end.

(** ** Reference: the lines of one stream *)

Definition to_err (l : level) : bool :=
  match l with LError | LCritical | LWarning => true | _ => false end.
Definition shown (lg : ConsoleLogger) (l : level) : bool :=
  match l with LDebug => debug_ lg | _ => true end.
Definition label (l : level) : cstr :=
  match l with
  | LError => $"[1;31merror: " | LCritical => $"[1;31mcritical: "
  | LWarning => $"[1;33mwarning: " | LMessage => $"message: "
  | LInfo => $"info: " | LDebug => $"[0;33mdebug: "
  end.
Definition coloured (l : level) : bool :=
  match l with LMessage | LInfo => false | _ => true end.
Definition line (x : level * cstr) : cstr :=
  (if coloured x.1 then esc else []) ++ label x.1 ++ x.2 ++
  (if coloured x.1 then plain else []) ++ endl.

Definition out_line (lg : ConsoleLogger) (x : level * cstr) : cstr :=
  if shown lg x.1 && negb (to_err x.1) then line x else [].
Definition err_line (x : level * cstr) : cstr := if to_err x.1 then line x else [].

Lemma on_level_console lg x w :
  on_level lg x.1 x.2 w =
  (Ret tt, mkConsole (cout w ++ out_line lg x) (cerr w ++ err_line x)).
Proof.
  destruct x as [l str], w as [o e], lg as [d]. unfold on_level, console_logger.
  destruct l; try destruct d; cbv [out_line err_line shown to_err fst snd debug_ negb andb];
    rewrite ?app_nil_r; unfold line; cbn; by rewrite ?app_nil_r, <- ?app_assoc.
Qed.

(** What a trace leaves on each stream. *)
Lemma replay_console lg lines w :
  replay lg lines w =
  (Ret tt, mkConsole (cout w ++ concat (out_line lg <$> lines))
                     (cerr w ++ concat (err_line <$> lines))).
Proof.
  revert w. induction lines as [|x lines IH]; intros w.
  { cbn. rewrite !app_nil_r. by destruct w. }
  destruct x as [l str]. cbn [replay].
  rewrite (bind_ret _ _ _ _ _ (on_level_console lg (l, str) w)), IH.
  cbn [cout cerr fmap list_fmap concat]. by rewrite <- !app_assoc.
Qed.
End Console.

(** ** The logger of the C interface *)

Module CLog.
(** Six function pointers, [None] is NULL, and the user's pointer. *)
Record CLogger (W : Type) := mkCLogger {
  on_error_ : option (Z -> cstr -> M W unit);
  on_critical_ : option (Z -> cstr -> M W unit);
  on_warning_ : option (Z -> cstr -> M W unit);
  on_message_ : option (Z -> cstr -> M W unit);
  on_info_ : option (Z -> cstr -> M W unit);
  on_debug_ : option (Z -> cstr -> M W unit);
  user_data_ : Z }.
Arguments mkCLogger {W}.
Arguments on_error_ {W}.
Arguments on_critical_ {W}.
Arguments on_warning_ {W}.
Arguments on_message_ {W}.
Arguments on_info_ {W}.
Arguments on_debug_ {W}.
Arguments user_data_ {W}.

Section clogger.
Context {W : Type}.
Implicit Types (lg : CLogger W) (str : cstr).

(** [shmdata_make_logger] *)
Definition shmdata_make_logger (on_error on_critical on_warning on_message on_info on_debug :
  option (Z -> cstr -> M W unit)) (user_data : Z) : CLogger W :=
  mkCLogger on_error on_critical on_warning on_message on_info on_debug user_data.

Definition on_error lg str : M W unit :=
  match on_error_ lg with Some f => f (user_data_ lg) (c_str str) | None => mret tt end.
Definition on_critical lg str : M W unit :=
  match on_critical_ lg with Some f => f (user_data_ lg) (c_str str) | None => mret tt end.
Definition on_warning lg str : M W unit :=
  match on_warning_ lg with Some f => f (user_data_ lg) (c_str str) | None => mret tt end.
Definition on_message lg str : M W unit :=
  match on_message_ lg with Some f => f (user_data_ lg) (c_str str) | None => mret tt end.
Definition on_info lg str : M W unit :=
  match on_info_ lg with Some f => f (user_data_ lg) (c_str str) | None => mret tt end.
Definition on_debug lg str : M W unit :=
  match on_debug_ lg with Some f => f (user_data_ lg) (c_str str) | None => mret tt end.

#[export] Instance c_logger : AbstractLogger W (CLogger W) := fun lg l str =>
  match l with
  | LError => on_error lg str
  | LCritical => on_critical lg str
  | LWarning => on_warning lg str
  | LMessage => on_message lg str
  | LInfo => on_info lg str
  | LDebug => on_debug lg str
  end.
End clogger.

(** ** Reference: the calls that a program sees

    A program whose callbacks record their arguments. *)

Definition call : Type := level * Z * cstr.
Definition record_call (l : level) (ud : Z) (str : cstr) : M (list call) unit :=
  fun w => (Ret tt, w ++ [(l, ud, str)]).
Definition recorder (set : level -> bool) (ud : Z) : CLogger (list call) :=
  let cb l := if set l then Some (record_call l) else None in
  shmdata_make_logger (cb LError) (cb LCritical) (cb LWarning) (cb LMessage) (cb LInfo)
    (cb LDebug) ud.

Lemma replay_recorder set ud lines w :
  replay (recorder set ud) lines w =
  (Ret tt, w ++ ((fun x => (x.1, ud, c_str x.2)) <$> filter (fun x => set x.1 = true) lines)).
Proof.
  revert w. induction lines as [|[l str] lines IH]; intros w; [cbn; by rewrite app_nil_r|].
  cbn [replay]. rewrite filter_cons. cbn [fst].
  rewrite (bind_ret _ _ _ tt (w ++ if set l then [(l, ud, c_str str)] else [])).
  - rewrite IH, <- app_assoc. by destruct (set l).
  - unfold on_level, c_logger. destruct l; cbv [on_error on_critical on_warning on_message on_info on_debug
      recorder shmdata_make_logger on_error_ on_critical_ on_warning_ on_message_ on_info_ on_debug_];
      destruct (set _); try done; by rewrite app_nil_r.
Qed.
End CLog.

#[export] Existing Instances Console.console_logger CLog.c_logger.

(** ** The handlers of the Python wrapper *)

Module PyLog.
(** The standard output, and the booleans that pointers designate (the members
    [show_debug_messages] of the Python objects). *)
Record process := mkProcess { stdout : cstr; bools : gmap Z bool }.

Definition printf (s : cstr) : M process unit :=
  fun w => (Ret tt, mkProcess (stdout w ++ s) (bools w)).
Definition newline : cstr := [Ascii.ascii_of_nat 10].

Definition log_error_handler (user_data : Z) (str : cstr) : M process unit :=
  printf ($"Error: " ++ str ++ newline).
Definition log_critical_handler (user_data : Z) (str : cstr) : M process unit :=
  printf ($"Critical: " ++ str ++ newline).
Definition log_warning_handler (user_data : Z) (str : cstr) : M process unit :=
  printf ($"Warning: " ++ str ++ newline).
Definition log_message_handler (user_data : Z) (str : cstr) : M process unit :=
  printf ($"Message: " ++ str ++ newline).
Definition log_info_handler (user_data : Z) (str : cstr) : M process unit :=
  printf ($"Info: " ++ str ++ newline).
(** [*((bool* )user_data)], undefined through a pointer to nothing. *)
Definition log_debug_handler (user_data : Z) (str : cstr) : M process unit :=
  fun w => match bools w !! user_data with
           | Some show_debug => when show_debug (printf ($"Debug: " ++ str ++ newline)) w
           | None => (Undef, w)
           end.

(** The logger of [Writer_new] and [Reader_new]. *)
Definition object_logger (show_debug_messages : Z) : CLog.CLogger process :=
  CLog.shmdata_make_logger (Some log_error_handler) (Some log_critical_handler)
    (Some log_warning_handler) (Some log_message_handler) (Some log_info_handler)
    (Some log_debug_handler) show_debug_messages.

(** ** Reference: the lines printed *)

Definition prefix (l : level) : cstr :=
  match l with
  | LError => $"Error: " | LCritical => $"Critical: " | LWarning => $"Warning: "
  | LMessage => $"Message: " | LInfo => $"Info: " | LDebug => $"Debug: "
  end.
Definition printed (show_debug : bool) (x : level * cstr) : cstr :=
  if match x.1 with LDebug => show_debug | _ => true end
  then prefix x.1 ++ c_str x.2 ++ newline else [].

Lemma on_level_python show p x w : bools w !! p = Some show ->
  on_level (object_logger p) x.1 x.2 w = (Ret tt, mkProcess (stdout w ++ printed show x) (bools w)).
Proof.
  intros Hp. destruct x as [l str], w as [o m].
  unfold on_level, CLog.c_logger, CLog.on_error, CLog.on_critical, CLog.on_warning, CLog.on_message,
    CLog.on_info, CLog.on_debug, printed. destruct l; try done.
  cbn in Hp |- *. unfold log_debug_handler. cbn [bools]. rewrite Hp.
  destruct show; cbn; by rewrite ?app_nil_r.
Qed.

Lemma replay_python show p lines w : bools w !! p = Some show ->
  replay (object_logger p) lines w =
  (Ret tt, mkProcess (stdout w ++ concat (printed show <$> lines)) (bools w)).
Proof.
  revert w. induction lines as [|[l str] lines IH]; intros w Hp.
  { cbn. rewrite app_nil_r. by destruct w. }
  cbn [replay]. rewrite (bind_ret _ _ _ _ _ (on_level_python show p (l, str) w Hp)), IH by done.
  cbn [stdout bools fmap list_fmap concat]. by rewrite <- app_assoc.
Qed.
End PyLog.

(** The loggers on a trace of lines.  The console logger writes the
    errors, the critical errors and the warnings to [cerr], the messages, the
    information and, unless it is silenced, the debug lines to [cout], each in
    order; the C logger calls exactly the callbacks that are not NULL, in
    order, each with the user's pointer and the text up to its first NUL; that
    of a Python object prints each line up to its first NUL with its level, the
    debug lines only if the object has [show_debug_messages]. *)
Theorem loggers_deliver (lines : list (level * cstr)) (debug : bool) (w : Console.console)
  (set : level -> bool) (ud : Z) (calls : list CLog.call) (show : bool) (o : cstr) :
  replay (Console.set_debug debug (Console.mkConsoleLogger true)) lines w =
    (Ret tt, Console.mkConsole
       (Console.cout w ++ concat (Console.out_line (Console.mkConsoleLogger debug) <$> lines))
       (Console.cerr w ++ concat (Console.err_line <$> lines))) /\
  replay (CLog.recorder set ud) lines calls =
    (Ret tt, calls ++ ((fun x => (x.1, ud, c_str x.2)) <$> filter (fun x => set x.1 = true) lines)) /\
  replay (PyLog.object_logger ud) lines (PyLog.mkProcess o {[ud := show]}) =
    (Ret tt, PyLog.mkProcess (o ++ concat (PyLog.printed show <$> lines)) {[ud := show]}).
Proof.
  split; [apply Console.replay_console|]. split; [apply CLog.replay_recorder|].
  apply (PyLog.replay_python show). cbn. apply lookup_singleton_eq.
Qed.
