(* ===== verification/Regex.v ===== *)
(** * The std::regex subset that type.cpp uses

    Every regular expression of type.cpp is a sequence of character classes,
    each taken once, [*] or [+].  The matcher is the ECMAScript one: greedy
    with backtracking, leftmost search.  [regex_replace], [regex_match],
    [regex_search] and the [-1] token iterator are those of the C++ library
    on this subset (no replacement text of the program holds a [$]).

    The last section gives each operation an equation by cases on the head of
    the text, and [regex_replace_tokens], from which every replacement of
    type.cpp is computed on a text described token by token. *)

From S2P Require Import Prelude.

Inductive quant := One | Star | Plus.

Record atom := Atom { cls : ascii -> bool; qty : quant }.

Abbreviation regex := (list atom).

(** ** Building blocks *)

Definition is_char (a c : ascii) : bool := bool_decide (c = a).
Definition is_digit (c : ascii) : bool :=
  ((48 <=? nat_of_ascii c) && (nat_of_ascii c <=? 57))%nat.
Definition is_upper (c : ascii) : bool :=
  ((65 <=? nat_of_ascii c) && (nat_of_ascii c <=? 90))%nat.
Definition is_lower (c : ascii) : bool :=
  ((97 <=? nat_of_ascii c) && (nat_of_ascii c <=? 122))%nat.
(** [\w]: alphanumeric or underscore, C locale. *)
Definition is_word (c : ascii) : bool :=
  is_digit c || is_upper c || is_lower c || is_char "_" c.
(** [\s]: space, \t, \n, \v, \f, \r. *)
Definition is_space (c : ascii) : bool :=
  is_char " " c || ((9 <=? nat_of_ascii c) && (nat_of_ascii c <=? 13))%nat.

(** A literal text as a regular expression. *)
Definition lit (p : cstr) : regex := map (fun a => Atom (is_char a) One) p.

(** ** Matching *)

Section run.
(** What the end of the match must satisfy: anything for a search, the end
    of the text for [regex_match]. *)
Context (accept : cstr -> bool).

(** [rx_run r s] matches [r] at the head of [s] and returns what follows
    the match, the first in backtracking order. *)
Fixpoint rx_run (r : regex) (s : cstr) {struct r} : option cstr :=
  match r with
  | [] => if accept s then Some s else None
  | a :: r' =>
      let star := fix star (s : cstr) : option cstr :=
        match s with
        | c :: s' =>
            if cls a c
            then match star s' with Some x => Some x | None => rx_run r' s end
            else rx_run r' s
        | [] => rx_run r' []
        end in
      match qty a with
      | One =>
          match s with
          | c :: s' => if cls a c then rx_run r' s' else None
          | [] => None
          end
      | Star => star s
      | Plus =>
          match s with
          | c :: s' => if cls a c then star s' else None
          | [] => None
          end
      end
  end.
End run.

Definition rx_match : regex -> cstr -> option cstr := rx_run (fun _ => true).

(** [std::regex_match(s, r)]: the whole text matches. *)
Definition regex_match (s : cstr) (r : regex) : bool :=
  match rx_run (fun t => bool_decide (t = [])) r s with
  | Some _ => true
  | None => false
  end.

(** [std::regex_search]: the leftmost match as (prefix, match, suffix). *)
Fixpoint regex_search (s : cstr) (r : regex) : option (cstr * cstr * cstr) :=
  match rx_match r s with
  | Some rest => Some ([], take (length s - length rest) s, rest)
  | None =>
      match s with
      | [] => None
      | c :: s' =>
          match regex_search s' r with
          | Some (p, m, t) => Some (c :: p, m, t)
          | None => None
          end
      end
  end.

(** [std::regex_replace]; the fuel is the length of the text, enough because
    each match of an expression with a mandatory character is not empty. *)
Fixpoint replace_fuel (n : nat) (r : regex) (rep s : cstr) : cstr :=
  match regex_search s r with
  | None => s
  | Some (p, _, t) =>
      match n with
      | O => s
      | S n' => p ++ rep ++ replace_fuel n' r rep t
      end
  end.

Definition regex_replace (s : cstr) (r : regex) (rep : cstr) : cstr :=
  replace_fuel (length s) r rep s.

(** [sregex_token_iterator(.., r, -1)]: the pieces between the matches; the
    piece after the last match is left out when it is empty, and a text
    without a match is its own single piece. *)
Fixpoint pieces_fuel (n : nat) (r : regex) (s : cstr) : list cstr :=
  match regex_search s r with
  | None => if bool_decide (s = []) then [] else [s]
  | Some (p, _, t) =>
      match n with
      | O => [s]
      | S n' => p :: pieces_fuel n' r t
      end
  end.

Definition regex_tokens (s : cstr) (r : regex) : list cstr :=
  match regex_search s r with
  | None => [s]
  | Some (p, _, t) => p :: pieces_fuel (length s) r t
  end.

(** ** Properties of the matcher *)

(** At least one character is mandatory. *)
Definition mandatory (r : regex) : bool :=
  existsb (fun a => match qty a with Star => false | _ => true end) r.

Lemma rx_run_suffix acc r s rest :
  rx_run acc r s = Some rest -> exists m, s = m ++ rest.
Proof.
  revert s rest. induction r as [|a r IH]; intros s rest; simpl.
  { destruct (acc s); [|done]. intros [= ->]. by exists []. }
  set (star := fix star (s : cstr) : option cstr := _).
  assert (Hstar : forall s rest, star s = Some rest -> exists m, s = m ++ rest).
  { clear s rest. intros s. induction s as [|c s IHs]; intros rest; simpl.
    { intros H. exact (IH _ _ H). }
    destruct (cls a c); [|apply IH].
    destruct (star s) as [x|] eqn:E; [|apply IH].
    intros [= <-]. destruct (IHs _ eq_refl) as [m ->]. by exists (c :: m). }
  destruct (qty a); [|apply Hstar|];
    (destruct s as [|c s]; [done|]); (destruct (cls a c); [|done]); intros H;
    [apply IH in H|apply Hstar in H]; destruct H as [m ->]; by exists (c :: m).
Qed.

Lemma rx_run_length acc r s rest :
  rx_run acc r s = Some rest ->
  length rest + (if mandatory r then 1 else 0) <= length s.
Proof.
  revert s rest. induction r as [|a r IH]; intros s rest; simpl.
  { destruct (acc s); [|done]. intros [= ->]. lia. }
  set (star := fix star (s : cstr) : option cstr := _).
  assert (Hstar : forall s rest, star s = Some rest ->
    length rest + (if mandatory r then 1 else 0) <= length s).
  { clear s rest. intros s. induction s as [|c s IHs]; intros rest; simpl.
    { apply IH. }
    destruct (cls a c); [|apply IH].
    destruct (star s) as [x|] eqn:E; [|apply IH].
    intros [= <-]. specialize (IHs _ eq_refl). lia. }
  unfold mandatory in *; simpl.
  destruct (qty a); simpl; [|apply Hstar|];
    (destruct s as [|c s]; [done|]); (destruct (cls a c); [|done]); intros H;
    [apply IH in H|apply Hstar in H]; simpl; lia.
Qed.

Lemma rx_match_suffix r s rest : rx_match r s = Some rest -> exists m, s = m ++ rest.
Proof. apply rx_run_suffix. Qed.

Lemma rx_match_shorter r s rest :
  mandatory r = true -> rx_match r s = Some rest -> length rest < length s.
Proof. intros Hr H. apply rx_run_length in H. rewrite Hr in H. lia. Qed.

Lemma rx_match_nil r : mandatory r = true -> rx_match r [] = None.
Proof.
  intros Hr. destruct (rx_match r []) eqn:E; [|done].
  apply (rx_match_shorter _ _ _ Hr) in E. simpl in E. lia.
Qed.

Lemma rx_match_lit p s : rx_match (lit p) s = strip (fun a c => is_char a c) p s.
Proof.
  revert s. induction p as [|a p IH]; intros [|c s]; simpl; try done.
  unfold rx_match in IH. destruct (is_char a c); [apply IH|done].
Qed.

Lemma rx_match_lit_Some p s : rx_match (lit p) (p ++ s) = Some s.
Proof.
  rewrite rx_match_lit. induction p as [|a p IH]; simpl; [done|].
  unfold is_char in *. by rewrite bool_decide_eq_true_2.
Qed.

Lemma rx_match_lit_inv p s rest : rx_match (lit p) s = Some rest -> s = p ++ rest.
Proof.
  rewrite rx_match_lit. revert s.
  induction p as [|a p IH]; intros [|c s]; simpl; try congruence.
  unfold is_char in *. case_bool_decide; [|done]. intros H'%IH. by subst.
Qed.

Lemma mandatory_lit p : p <> [] -> mandatory (lit p) = true.
Proof. by destruct p. Qed.

(** ** Search, replacement and tokens by cases on the head of the text *)

Lemma regex_search_parts r s p m t :
  regex_search s r = Some (p, m, t) -> s = p ++ m ++ t /\ rx_match r (m ++ t) = Some t.
Proof.
  assert (Hhead : forall s rest, rx_match r s = Some rest ->
    take (length s - length rest) s ++ rest = s).
  { intros s0 rest H. destruct (rx_match_suffix _ _ _ H) as [m0 ->].
    rewrite length_app, Nat.add_sub, take_app_length. done. }
  revert p m t. induction s as [|c s IH]; intros p m t; cbn [regex_search];
    destruct (rx_match r _) as [rest|] eqn:E; try done.
  - intros H; injection H as <- <- <-.
    pose proof (Hhead _ _ E) as Hh. rewrite take_nil in Hh. simpl in *. by subst.
  - intros H; injection H as <- <- <-.
    pose proof (Hhead _ _ E) as Hh. cbn [length] in Hh. by rewrite !Hh.
  - destruct (regex_search s r) as [[[p' m'] t']|]; [|done].
    intros [= <- <- <-]. destruct (IH _ _ _ eq_refl) as [-> H]. by split.
Qed.

Lemma regex_search_shorter r s p m t :
  mandatory r = true -> regex_search s r = Some (p, m, t) -> length t < length s.
Proof.
  intros Hr H. apply regex_search_parts in H as [-> H].
  apply (rx_match_shorter _ _ _ Hr) in H. rewrite !length_app in *. lia.
Qed.

(** More fuel than the length of the text changes nothing. *)
Lemma replace_fuel_enough r rep n n' s :
  mandatory r = true -> length s <= n -> length s <= n' ->
  replace_fuel n r rep s = replace_fuel n' r rep s.
Proof.
  intros Hr. revert n' s. induction n as [|n IH]; intros n' s Hn Hn'.
  - destruct s; [|simpl in Hn; lia]. destruct n'; simpl; by rewrite rx_match_nil.
  - destruct n' as [|n'].
    + destruct s; [|simpl in Hn'; lia]. simpl. by rewrite rx_match_nil.
    + simpl. destruct (regex_search s r) as [[[p m] t]|] eqn:E; [|done].
      apply (regex_search_shorter _ _ _ _ _ Hr) in E.
      do 2 f_equal. apply IH; lia.
Qed.

(** The fuel-free equation of [regex_replace]. *)
Lemma regex_replace_unfold r rep s :
  mandatory r = true ->
  regex_replace s r rep =
  match regex_search s r with
  | None => s
  | Some (p, _, t) => p ++ rep ++ regex_replace t r rep
  end.
Proof.
  intros Hr. unfold regex_replace.
  destruct (regex_search s r) as [[[p m] t]|] eqn:E.
  - pose proof (regex_search_shorter _ _ _ _ _ Hr E).
    destruct (length s) as [|n] eqn:En; [lia|]. simpl. rewrite E. do 2 f_equal.
    apply replace_fuel_enough; [done|lia|lia].
  - destruct (length s); simpl; by rewrite E.
Qed.

Lemma regex_replace_match r rep s rest :
  mandatory r = true -> rx_match r s = Some rest ->
  regex_replace s r rep = rep ++ regex_replace rest r rep.
Proof.
  intros Hr H. rewrite regex_replace_unfold by done.
  destruct s; simpl; by rewrite H.
Qed.

Lemma regex_replace_skip r rep c s :
  mandatory r = true -> rx_match r (c :: s) = None ->
  regex_replace (c :: s) r rep = c :: regex_replace s r rep.
Proof.
  intros Hr H. rewrite !(regex_replace_unfold r rep) by done. simpl. rewrite H.
  by destruct (regex_search s r) as [[[p m] t]|].
Qed.

Lemma regex_replace_nil r rep : mandatory r = true -> regex_replace [] r rep = [].
Proof. intros Hr. unfold regex_replace. simpl. by rewrite rx_match_nil. Qed.

(** A prefix in which no match starts is copied. *)
Lemma regex_replace_app r rep u s :
  mandatory r = true ->
  (forall v w, u = v ++ w -> w <> [] -> rx_match r (w ++ s) = None) ->
  regex_replace (u ++ s) r rep = u ++ regex_replace s r rep.
Proof.
  intros Hr. induction u as [|c u IH]; intros Hu; [done|].
  simpl. rewrite regex_replace_skip; [|done|by apply (Hu [] (c :: u))].
  f_equal. apply IH. intros v w -> Hw. by apply (Hu (c :: v)).
Qed.

(** Replacement on a text given token by token: each token is replaced as a
    whole, or no match starts in it. *)
Section tokens.
Context {T : Type} (e e' : T -> cstr) (r : regex) (rep : cstr).
Context (P : list T -> Prop).
Hypothesis r_mandatory : mandatory r = true.
Hypothesis P_tail : forall t ts, P (t :: ts) -> P ts.
Hypothesis token_cases : forall t ts, P (t :: ts) ->
  (rx_match r (e t ++ flat_map e ts) = Some (flat_map e ts) /\ e' t = rep) \/
  (e' t = e t /\ forall v w, e t = v ++ w -> w <> [] ->
     rx_match r (w ++ flat_map e ts) = None).

Lemma regex_replace_tokens ts :
  P ts -> regex_replace (flat_map e ts) r rep = flat_map e' ts.
Proof using r_mandatory P_tail token_cases.
  induction ts as [|t ts IH]; intros HP; simpl; [by apply regex_replace_nil|].
  destruct (token_cases _ _ HP) as [[Hm ->]|[-> Hn]].
  - rewrite (regex_replace_match _ _ _ _ r_mandatory Hm), IH; eauto.
  - rewrite regex_replace_app, IH; eauto.
Qed.
End tokens.

Lemma pieces_fuel_enough r n n' s :
  mandatory r = true -> length s <= n -> length s <= n' ->
  pieces_fuel n r s = pieces_fuel n' r s.
Proof.
  intros Hr. revert n' s. induction n as [|n IH]; intros n' s Hn Hn'.
  - destruct s; [|simpl in Hn; lia]. destruct n'; simpl; by rewrite rx_match_nil.
  - destruct n' as [|n'].
    + destruct s; [|simpl in Hn'; lia]. simpl. by rewrite rx_match_nil.
    + simpl. destruct (regex_search s r) as [[[p m] t]|] eqn:E; [|done].
      apply (regex_search_shorter _ _ _ _ _ Hr) in E. f_equal. apply IH; lia.
Qed.

(** The first match is after [u], where none starts. *)
Lemma regex_search_app r u s rest :
  (forall v w, u = v ++ w -> w <> [] -> rx_match r (w ++ s) = None) ->
  rx_match r s = Some rest ->
  exists m, regex_search (u ++ s) r = Some (u, m, rest).
Proof.
  induction u as [|c u IH]; intros Hu Hs; simpl.
  - destruct s; simpl; rewrite Hs; eauto.
  - pose proof (Hu [] (c :: u) eq_refl ltac:(done)) as Hc. simpl in Hc. rewrite Hc.
    destruct IH as [m ->]; [|done|by exists m].
    intros v w -> Hw. by apply (Hu (c :: v)).
Qed.

Lemma regex_search_none r u :
  mandatory r = true ->
  (forall v w, u = v ++ w -> w <> [] -> rx_match r w = None) ->
  regex_search u r = None.
Proof.
  intros Hr. induction u as [|c u IH]; intros Hu; simpl.
  - by rewrite rx_match_nil.
  - rewrite (Hu [] (c :: u)) by done. rewrite IH; [done|].
    intros v w -> Hw. by apply (Hu (c :: v)).
Qed.

(** ** Greedy repetition, mandatory characters, one-character patterns *)

(** [u] is taken by the repetition and what follows it cannot be. *)
Lemma rx_run_star acc p r u s x :
  Forall (fun c => p c = true) u ->
  match s with c :: _ => p c = false | [] => True end ->
  rx_run acc r s = Some x -> rx_run acc (Atom p Star :: r) (u ++ s) = Some x.
Proof.
  intros Hu Hs Hr. induction Hu as [|c u Hc Hu IH].
  - destruct s as [|c s]; [exact Hr|]. simpl. by rewrite Hs.
  - simpl in *. rewrite Hc. by rewrite IH.
Qed.

Lemma rx_run_plus acc p r u s x :
  Forall (fun c => p c = true) u -> u <> [] ->
  match s with c :: _ => p c = false | [] => True end ->
  rx_run acc r s = Some x -> rx_run acc (Atom p Plus :: r) (u ++ s) = Some x.
Proof.
  intros Hu Hne Hs Hr. destruct u as [|c u]; [done|]. inversion_clear Hu as [|?? Hc Hu'].
  pose proof (rx_run_star acc p r u s x Hu' Hs Hr) as H. simpl in *. by rewrite Hc.
Qed.

(** A text that lacks the characters of a mandatory atom has no match. *)
Lemma rx_run_needs acc p r r' s :
  Forall (fun c => p c = false) s -> rx_run acc (r' ++ Atom p One :: r) s = None.
Proof.
  intros Hs. revert s Hs. induction r' as [|a r' IH]; intros s Hs; simpl.
  { destruct Hs as [|c s Hc Hs]; [done|]. by rewrite Hc. }
  set (star := fix star (s : cstr) : option cstr := _).
  assert (Hstar : forall s, Forall (fun c => p c = false) s -> star s = None).
  { intros s0 Hs0. induction Hs0 as [|c s0 Hc Hs0 IHs]; simpl; [by apply IH|].
    destruct (cls a c); [rewrite IHs|]; apply IH; by constructor. }
  destruct (qty a); [|by apply Hstar|];
    (destruct Hs as [|c s Hc Hs]; [done|]); (destruct (cls a c); [|done]);
    [by apply IH|by apply Hstar].
Qed.

Lemma is_char_true a c : is_char a c = true <-> c = a.
Proof. unfold is_char. by rewrite bool_decide_eq_true. Qed.
Lemma is_char_false a c : is_char a c = false <-> c <> a.
Proof. unfold is_char. by rewrite bool_decide_eq_false. Qed.

Lemma rx_match_lit_head a p c s : c <> a -> rx_match (lit (a :: p)) (c :: s) = None.
Proof. intros Hc%is_char_false. unfold rx_match. simpl. by rewrite Hc. Qed.

(** Replacing one character is a map on the characters. *)
Lemma regex_replace_char x rep s :
  regex_replace s (lit [x]) rep = flat_map (fun c => if is_char x c then rep else [c]) s.
Proof.
  induction s as [|c s IH]; cbn [flat_map].
  - by apply regex_replace_nil.
  - destruct (is_char x c) eqn:E.
    + apply is_char_true in E. subst c.
      rewrite (regex_replace_match _ _ _ s); [by rewrite IH|done|].
      apply (rx_match_lit_Some [x]).
    + apply is_char_false in E.
      rewrite regex_replace_skip; [by rewrite IH|done|by apply rx_match_lit_head].
Qed.

(** A pattern whose first character does not occur. *)
Lemma regex_replace_lit_skip a p rep u s :
  Forall (fun c => c <> a) u ->
  regex_replace (u ++ s) (lit (a :: p)) rep = u ++ regex_replace s (lit (a :: p)) rep.
Proof.
  intros Hu. apply regex_replace_app; [done|].
  intros v [|c w] ->; [done|]. intros _. simpl. apply rx_match_lit_head.
  apply Forall_app in Hu as [_ Hu]. by inversion Hu.
Qed.

(** [contains p s]: the text [p] occurs in [s]. *)
Fixpoint contains (p s : cstr) : bool :=
  match strip (fun a c => is_char a c) p s with
  | Some _ => true
  | None => match s with [] => false | _ :: s' => contains p s' end
  end.

Lemma contains_tail p c s : contains p (c :: s) = false -> contains p s = false.
Proof. simpl. by destruct (strip _ _ _). Qed.

Lemma contains_prefix p s : contains p s = false -> forall u, s <> p ++ u.
Proof.
  intros H u ->. pose proof (rx_match_lit_Some p u) as Hm. rewrite rx_match_lit in Hm.
  destruct (p ++ u); simpl in H; by rewrite Hm in H.
Qed.

(** The repetition at the head of the text. *)
Lemma rx_run_star_cons acc p r c s :
  rx_run acc (Atom p Star :: r) (c :: s) =
  if p c
  then match rx_run acc (Atom p Star :: r) s with
       | Some x => Some x
       | None => rx_run acc r (c :: s)
       end
  else rx_run acc r (c :: s).
Proof. reflexivity. Qed.

Lemma rx_run_one_cons acc p r c s :
  rx_run acc (Atom p One :: r) (c :: s) = if p c then rx_run acc r s else None.
Proof. reflexivity. Qed.
