(* ===== verification/StdLib.v ===== *)
(** * std::map, std::to_string and the integer readers

    The C++ library types that type.cpp relies on.  A
    [std::map<std::string, V>] is an association list sorted by key (byte
    order), because [Type::str] iterates it in that order. *)

From Stdlib Require Import Sorted.
From S2P Require Import Prelude Regex.

(** ** std::map<std::string, V> *)

(** [std::string::operator<]: lexicographic on unsigned bytes. *)
Fixpoint str_ltb (a b : cstr) : bool :=
  match a, b with
  | _, [] => false
  | [], _ :: _ => true
  | x :: a', y :: b' =>
      if bool_decide (x = y) then str_ltb a' b'
      else (nat_of_ascii x <? nat_of_ascii y)%nat
  end.

Definition str_lt (a b : cstr) : Prop := str_ltb a b = true.

Lemma str_lt_irrefl a : ~ str_lt a a.
Proof.
  unfold str_lt. induction a as [|x a IH]; simpl; [done|].
  by rewrite bool_decide_eq_true_2.
Qed.

#[export] Instance str_lt_trans : Transitive str_lt.
Proof.
  unfold str_lt. intros a. induction a as [|x a IH]; intros [|y b] [|z c]; simpl; try done.
  repeat case_bool_decide; subst; rewrite ?Nat.ltb_lt; eauto; try congruence; try lia.
Qed.

Lemma str_lt_total a b : ~ str_lt a b -> a <> b -> str_lt b a.
Proof.
  unfold str_lt. revert b. induction a as [|x a IH]; intros [|y b]; simpl; try done.
  case_bool_decide as Hxy; subst.
  - rewrite bool_decide_eq_true_2 by done. intros H Hne. apply IH; congruence.
  - rewrite bool_decide_eq_false_2 by congruence. rewrite !Nat.ltb_lt. intros H _.
    assert (nat_of_ascii x <> nat_of_ascii y).
    { intros E. apply Hxy. rewrite <- (ascii_nat_embedding x), <- (ascii_nat_embedding y).
      by rewrite E. }
    lia.
Qed.

Section smap.
Context {V : Type}.
Implicit Types (m : list (cstr * V)) (k : cstr) (v : V).

(** [m.emplace(k, v)]: inserts in key order, does nothing on a bound key. *)
Fixpoint emplace k v m : list (cstr * V) :=
  match m with
  | [] => [(k, v)]
  | (k', v') :: m' =>
      if bool_decide (k = k') then m
      else if str_ltb k k' then (k, v) :: m
      else (k', v') :: emplace k v m'
  end.

(** [m.find(k)]. *)
Fixpoint find k m : option V :=
  match m with
  | [] => None
  | (k', v) :: m' => if bool_decide (k = k') then Some v else find k m'
  end.

(** The order invariant of std::map. *)
Definition map_ok m : Prop := StronglySorted str_lt (map fst m).

Lemma find_emplace_ne k k' v m : k <> k' -> find k' (emplace k v m) = find k' m.
Proof.
  intros Hne. induction m as [|[k0 v0] m IH]; simpl.
  - by rewrite bool_decide_eq_false_2 by congruence.
  - case_bool_decide; [done|]. destruct (str_ltb k k0); simpl.
    + by rewrite (bool_decide_eq_false_2 (k' = k)) by congruence.
    + by rewrite IH.
Qed.

Lemma find_None_lt k m : Forall (str_lt k) (map fst m) -> find k m = None.
Proof.
  induction m as [|[k0 v0] m IH]; simpl; [done|]. inversion_clear 1.
  rewrite bool_decide_eq_false_2; [by apply IH|].
  intros ->. by eapply str_lt_irrefl.
Qed.

(** The first value stays. *)
Lemma find_emplace_eq k v m :
  map_ok m ->
  find k (emplace k v m) = match find k m with Some v' => Some v' | None => Some v end.
Proof.
  unfold map_ok. induction m as [|[k0 v0] m IH]; simpl; intros Hs.
  - by rewrite bool_decide_eq_true_2.
  - inversion_clear Hs. case_bool_decide as Hk; simpl.
    + by rewrite bool_decide_eq_true_2.
    + destruct (str_ltb k k0) eqn:Hlt; simpl.
      * rewrite bool_decide_eq_true_2 by done. rewrite find_None_lt; [done|].
        eapply Forall_impl; [done|]. intros x Hx. by etrans.
      * rewrite bool_decide_eq_false_2 by done. by apply IH.
Qed.

Lemma emplace_In k v m p : p ∈ emplace k v m -> p = (k, v) \/ p ∈ m.
Proof.
  induction m as [|[k0 v0] m IH]; simpl.
  - set_solver.
  - case_bool_decide; [by right|]. destruct (str_ltb k k0); rewrite ?elem_of_cons in *; naive_solver.
Qed.

Lemma emplace_ok k v m : map_ok m -> map_ok (emplace k v m).
Proof.
  unfold map_ok. induction m as [|[k0 v0] m IH]; simpl; intros Hs.
  - by repeat constructor.
  - case_bool_decide as Hk; [done|]. inversion_clear Hs as [|?? Hss Hall].
    destruct (str_ltb k k0) eqn:Hlt; simpl.
    + repeat constructor; try done.
      eapply Forall_impl; [done|]. intros x Hx. by etrans.
    + constructor; [by apply IH|]. apply Forall_forall. intros x Hx.
      apply list_elem_of_fmap in Hx as [[k1 v1] [-> Hx]].
      apply emplace_In in Hx as [[= -> ->]|Hx].
      * simpl. apply str_lt_total; [unfold str_lt; congruence|done].
      * rewrite Forall_forall in Hall. apply Hall.
        apply list_elem_of_fmap. by exists (k1, v1).
Qed.

Lemma emplace_bound k v v' m : find k m = Some v' -> map_ok m -> emplace k v m = m.
Proof.
  unfold map_ok. induction m as [|[k0 v0] m IH]; simpl; [done|]. intros Hf Hs.
  inversion_clear Hs. case_bool_decide as Hk; [done|].
  destruct (str_ltb k k0) eqn:Hlt.
  - rewrite find_None_lt in Hf; [done|].
    eapply Forall_impl; [done|]. intros x Hx. by etrans.
  - by rewrite IH.
Qed.

(** Inserting after every key. *)
Lemma emplace_snoc k v m :
  Forall (fun p => str_lt p.1 k) m -> emplace k v m = m ++ [(k, v)].
Proof.
  induction m as [|[k0 v0] m IH]; simpl; [done|]. inversion_clear 1 as [|?? Hlt Hf].
  simpl in Hlt. rewrite bool_decide_eq_false_2.
  - destruct (str_ltb k k0) eqn:E; [|by rewrite IH].
    exfalso. by eapply (str_lt_irrefl k0), (str_lt_trans k0 k k0).
  - intros ->. by eapply str_lt_irrefl.
Qed.
End smap.
#[export] Hint Resolve emplace_ok : shm.

(** ** Decimal integers *)

Definition digit_char (d : Z) : ascii := ascii_of_nat (48 + Z.to_nat d).
Definition digit_val (c : ascii) : Z := (Z.of_nat (nat_of_ascii c) - 48)%Z.

(** Decimal digits of a natural number; [n] bounds their count. *)
Fixpoint dec_fuel (n : nat) (z : Z) : cstr :=
  match n with
  | O => []
  | S n' =>
      if (z <? 10)%Z then [digit_char z]
      else dec_fuel n' (z / 10) ++ [digit_char (z mod 10)]
  end.

Definition dec (z : Z) : cstr := dec_fuel (S (Z.to_nat (Z.log2 z))) z.

(** [std::to_string] on every integer type. *)
Definition to_string (z : Z) : cstr :=
  if (z <? 0)%Z then "-"%char :: dec (- z) else dec z.

Definition digits_val (acc : Z) (s : cstr) : Z :=
  fold_left (fun a c => 10 * a + digit_val c)%Z s acc.

(** The longest prefix of digits, and the rest. *)
Fixpoint span_digits (s : cstr) : cstr * cstr :=
  match s with
  | c :: s' =>
      if is_digit c then let (d, r) := span_digits s' in (c :: d, r) else ([], s)
  | [] => ([], [])
  end.

Fixpoint skip_space (s : cstr) : cstr :=
  match s with
  | c :: s' => if is_space c then skip_space s' else s
  | [] => []
  end.

(** An optional sign. *)
Definition read_sign (s : cstr) : bool * cstr :=
  match s with
  | "-"%char :: s' => (true, s')
  | "+"%char :: s' => (false, s')
  | _ => (false, s)
  end.

(** [std::stoi]: blanks, sign, digits; throws without a digit or when the
    value is not an [int]. *)
Definition stoi (s : cstr) : outcome Z :=
  let (neg, s') := read_sign (skip_space s) in
  match span_digits s' with
  | ([], _) => Throw InvalidArgument
  | (ds, _) =>
      let v := digits_val 0 ds in
      let z := if neg then (- v)%Z else v in
      if ((INT_MIN <=? z) && (z <=? INT_MAX))%Z then Ret z else Throw OutOfRange
  end.

(** [iss >> i] with [int i]: [None] when the stream has nothing but blanks,
    in which case [i] is not assigned; without a digit [i] is 0, out of range
    it is the nearest [int]. *)
Definition read_int (s : cstr) : option Z :=
  match skip_space s with
  | [] => None
  | s0 =>
      let (neg, s') := read_sign s0 in
      let v := digits_val 0 (fst (span_digits s')) in
      let z := if neg then (- v)%Z else v in
      Some (Z.max INT_MIN (Z.min INT_MAX z))
  end.

(** *** Printing then reading *)

Lemma nat_of_digit_char d : (0 <= d < 10)%Z -> nat_of_ascii (digit_char d) = 48 + Z.to_nat d.
Proof. intros ?. apply nat_ascii_embedding. lia. Qed.

Lemma digit_val_char d : (0 <= d < 10)%Z -> digit_val (digit_char d) = d.
Proof. intros ?. unfold digit_val. rewrite nat_of_digit_char by done. lia. Qed.

Lemma is_digit_char d : (0 <= d < 10)%Z -> is_digit (digit_char d) = true.
Proof.
  intros ?. unfold is_digit. rewrite nat_of_digit_char by done.
  apply andb_true_iff. rewrite !Nat.leb_le. lia.
Qed.

Lemma dec_fuel_spec n z :
  (0 <= z < 2 ^ Z.of_nat n)%Z -> (0 < n)%nat ->
  Forall (fun c => is_digit c = true) (dec_fuel n z) /\
  dec_fuel n z <> [] /\ forall acc, exists k, digits_val acc (dec_fuel n z) = (acc * k + z)%Z.
Proof.
  revert z. induction n as [|n IH]; intros z Hz Hn; [lia|]. simpl.
  destruct (Z.ltb_spec z 10).
  - split; [repeat constructor; apply is_digit_char; lia|]. split; [done|].
    intros acc. exists 10%Z. simpl. rewrite digit_val_char; lia.
  - pose proof (Z.mod_pos_bound z 10). pose proof (Z.div_mod z 10).
    rewrite Nat2Z.inj_succ, Z.pow_succ_r in Hz by lia.
    assert (Hn' : (0 < n)%nat).
    { destruct n; [|lia]. simpl in Hz. lia. }
    destruct (IH (z / 10)%Z) as (Hd & Hne & Hv); [lia|done|]. split_and!.
    + apply Forall_app. split; [done|]. repeat constructor. apply is_digit_char. lia.
    + by destruct (dec_fuel n (z / 10)).
    + intros acc. destruct (Hv acc) as [k Hk]. exists (10 * k)%Z.
      unfold digits_val in *. rewrite fold_left_app, Hk. simpl.
      rewrite digit_val_char; lia.
Qed.

Lemma dec_spec z :
  (0 <= z)%Z ->
  Forall (fun c => is_digit c = true) (dec z) /\ dec z <> [] /\ digits_val 0 (dec z) = z.
Proof.
  intros Hz. destruct (dec_fuel_spec (S (Z.to_nat (Z.log2 z))) z) as (Hd & Hne & Hv).
  - split; [done|]. destruct (Z.eq_dec z 0%Z) as [->|]; [simpl; lia|].
    pose proof (Z.log2_spec z). pose proof (Z.log2_nonneg z).
    rewrite Nat2Z.inj_succ, Z2Nat.id; lia.
  - lia.
  - split_and!; [done..|]. destruct (Hv 0%Z) as [k Hk]. unfold dec. rewrite Hk. lia.
Qed.

Lemma span_digits_all ds rest :
  Forall (fun c => is_digit c = true) ds ->
  match rest with [] => True | c :: _ => is_digit c = false end ->
  span_digits (ds ++ rest) = (ds, rest).
Proof.
  intros Hd Hr. induction Hd as [|c ds Hc Hd IH]; simpl.
  - destruct rest; simpl; [done|]. by rewrite Hr.
  - by rewrite Hc, IH.
Qed.

Lemma digit_not_space c : is_digit c = true -> is_space c = false.
Proof. destruct c as [[] [] [] [] [] [] [] []]; vm_compute; congruence. Qed.

Lemma digit_not_sign c s : is_digit c = true -> read_sign (c :: s) = (false, c :: s).
Proof. destruct c as [[] [] [] [] [] [] [] []]; vm_compute; congruence. Qed.

(** The readers on printed integers. *)
Lemma to_string_shape z :
  exists c s, to_string z = c :: s /\ is_space c = false /\
    read_sign (c :: s) = ((z <? 0)%Z, dec (Z.abs z)).
Proof.
  unfold to_string. destruct (Z.ltb_spec z 0).
  - exists "-"%char, (dec (- z)). by rewrite Z.abs_neq by lia.
  - rewrite Z.abs_eq by lia. destruct (dec_spec z) as (Hd & Hne & _); [lia|].
    destruct (dec z) as [|c s]; [done|]. exists c, s. inversion_clear Hd.
    split_and!; [done|by apply digit_not_space|by apply digit_not_sign].
Qed.

Lemma span_dec z : (0 <= z)%Z -> span_digits (dec z) = (dec z, []).
Proof.
  intros Hz. rewrite <- (app_nil_r (dec z)) at 1.
  apply span_digits_all; [by apply dec_spec|done].
Qed.

Lemma stoi_to_string z :
  stoi (to_string z) =
  if ((INT_MIN <=? z) && (z <=? INT_MAX))%Z then Ret z else Throw OutOfRange.
Proof.
  unfold stoi. destruct (to_string_shape z) as (c & s & -> & Hc & Hs).
  cbn [skip_space]. rewrite Hc, Hs, span_dec by lia.
  destruct (dec_spec (Z.abs z)) as (_ & Hne & Hv); [lia|].
  destruct (dec (Z.abs z)) as [|d ds]; [done|]. rewrite Hv.
  assert ((if (z <? 0)%Z then - Z.abs z else Z.abs z)%Z = z) as -> by
    (destruct (Z.ltb_spec z 0); lia).
  done.
Qed.

Lemma read_int_to_string z : (INT_MIN <= z <= INT_MAX)%Z -> read_int (to_string z) = Some z.
Proof.
  intros Hz. unfold read_int. destruct (to_string_shape z) as (c & s & -> & Hc & Hs).
  cbn [skip_space]. rewrite Hc, Hs, span_dec by lia. simpl.
  destruct (dec_spec (Z.abs z)) as (_ & _ & ->); [lia|].
  f_equal. destruct (Z.ltb_spec z 0); lia.
Qed.

Example to_string_ex : to_string (-435) = $"-435". Proof. reflexivity. Qed.
