(* ===== verification/TypeDesc.v ===== *)
(** * Type descriptions (type.hpp, type.cpp)

    [Type(str)] parses a caps-like description
    [name, key=value, key=(type)value, ...]; [str()] prints it back.

    [FP] is the type of the floating-point payloads of a [std::any] and
    [fp_to_string] their [std::to_string]; nothing else depends on them. *)

From S2P Require Import Prelude Regex StdLib.

(** ** Data *)

(** The contents a [std::any] can have, by the [typeid] that [str()] tests. *)
Inductive any (FP : Type) :=
| AString (s : cstr)
| AInt (z : Z)
| ALong (z : Z)
| ALongLong (z : Z)
| AUnsigned (z : Z)
| AULong (z : Z)
| AULongLong (z : Z)
| AFloat (f : FP)
| ADouble (f : FP)
| ALongDouble (f : FP)
| AOther (type_name : cstr).
Arguments AString {FP} s.
Arguments AInt {FP} z.
Arguments ALong {FP} z.
Arguments ALongLong {FP} z.
Arguments AUnsigned {FP} z.
Arguments AULong {FP} z.
Arguments AULongLong {FP} z.
Arguments AFloat {FP} f.
Arguments ADouble {FP} f.
Arguments ALongDouble {FP} f.
Arguments AOther {FP} type_name.

Record type_desc (FP : Type) := TypeDesc {
  name_ : cstr;
  properties_ : list (cstr * any FP);
  str_types_ : list (cstr * cstr);
  parsing_errors_ : cstr;
  serialization_errors_ : cstr }.
Arguments TypeDesc {FP}.
Arguments name_ {FP} t : rename.
Arguments properties_ {FP} t : rename.
Arguments str_types_ {FP} t : rename.
Arguments parsing_errors_ {FP} t : rename.
Arguments serialization_errors_ {FP} t : rename.

(** ** escape, unescape *)

Definition dquote : ascii := ascii_of_nat 34.

Definition escape (str : cstr) : cstr :=
  let coma_rgx := lit $"\," in
  let equal_rgx := lit $"\=" in
  regex_replace (regex_replace str coma_rgx $"__COMA__") equal_rgx $"__EQUAL__".

Definition unescape (str : cstr) : cstr :=
  let coma_rgx := lit $"__COMA__" in
  let equal_rgx := lit $"__EQUAL__" in
  let quot_rgx := lit [dquote] in
  let lparent_rgx := lit $"\(" in
  let rparent_rgx := lit $"\)" in
  regex_replace
    (regex_replace
       (regex_replace
          (regex_replace (regex_replace str coma_rgx $",") quot_rgx [])
          equal_rgx
          $"=")
       lparent_rgx
       $"(")
    rparent_rgx
    $")".

(** ** Parsing *)

Definition split_rgx : regex :=
  [Atom (is_char " ") Star; Atom (is_char ",") One; Atom (is_char " ") Star].
Definition space_rgx : regex :=
  [Atom is_space Star; Atom (is_char "=") One; Atom is_space Star].
Definition is_key_char (c : ascii) : bool := is_word c || is_char "-" c.
Definition keyval_rgx : regex :=
  [Atom is_key_char Plus; Atom (is_char "=") One;
   Atom (fun c => negb (is_char "=" c)) Plus].
Definition literal_type_regex : regex :=
  [Atom (is_char "(") One; Atom is_word Plus; Atom (is_char ")") One].

(** [s.find(c)] as the text before the first [c] and the text after it. *)
Fixpoint cut_at (c : ascii) (s : cstr) : cstr * cstr :=
  match s with
  | [] => ([], [])
  | x :: s' => if bool_decide (x = c) then ([], s')
               else let (a, b) := cut_at c s' in (x :: a, b)
  end.

Section parse.
Context {FP : Type}.
Implicit Types t : type_desc FP.

(** Lines 52 to 63: an optional minus and digits only is an [int];
    [*unescaped.begin()] needs a first character. *)
Definition int_or_string (unescaped : cstr) : outcome (any FP) :=
  match unescaped with
  | [] => Undef
  | c :: rest =>
      let is_negative := is_char "-" c in
      if negb (bool_decide (unescaped = $"-")) &&
         forallb is_digit (if is_negative then rest else unescaped)
      then z ← stoi unescaped; Ret (AInt z)
      else Ret (AString unescaped)
  end.

Definition add_parsing_error (t : type_desc FP) (tok : cstr) : type_desc FP :=
  TypeDesc (name_ t) (properties_ t) (str_types_ t)
    (parsing_errors_ t ++
     $"wrong parameter syntax (expecting param_name=param_value, but got " ++ tok)
    (serialization_errors_ t).

(** [properties_.emplace(key, value)] *)
Definition set_prop (key : cstr) (value : any FP) (t : type_desc FP) : type_desc FP :=
  TypeDesc (name_ t) (emplace key value (properties_ t)) (str_types_ t)
    (parsing_errors_ t) (serialization_errors_ t).

Definition set_str_type (key custom_type : cstr) (t : type_desc FP) : type_desc FP :=
  TypeDesc (name_ t) (properties_ t) (emplace key custom_type (str_types_ t))
    (parsing_errors_ t) (serialization_errors_ t).

(** The body of the [for] loop of the constructor on one token.  An [int]
    that the stream does not assign is read uninitialised. *)
Definition parse_token (t : type_desc FP) (tok : cstr) : outcome (type_desc FP) :=
  if bool_decide (tok = []) then Ret t
  else
    let prop := regex_replace tok space_rgx $"=" in
    if negb (regex_match prop keyval_rgx) then Ret (add_parsing_error t tok)
    else
      let (key, value) := cut_at "=" prop in
      any_value ← int_or_string (unescape value);
      match regex_search value literal_type_regex with
      | Some (_, sm, _) =>
          let tail := drop (length sm) value in
          if bool_decide (sm = $"(int)")
          then match read_int tail with
               | Some tmp_int => Ret (set_prop key (AInt tmp_int) t)
               | None => Undef
               end
          else Ret (set_prop key (AString (unescape tail))
                      (set_str_type key (take (length sm - 2) (drop 1 sm)) t))
      | None => Ret (set_prop key any_value t)
      end.

Fixpoint parse_tokens (t : type_desc FP) (toks : list cstr) : outcome (type_desc FP) :=
  match toks with
  | [] => Ret t
  | tok :: toks' => t' ← parse_token t tok; parse_tokens t' toks'
  end.

(** Lines 26 to 29: the first non-empty token is the name. *)
Fixpoint take_name (toks : list cstr) : cstr * list cstr :=
  match toks with
  | [] => ([], [])
  | tok :: toks' => if bool_decide (tok = []) then take_name toks' else (tok, toks')
  end.

(** [Type::Type(str)] *)
Definition Type_ctor (str : cstr) : outcome (type_desc FP) :=
  let (name, toks) := take_name (regex_tokens (escape str) split_rgx) in
  parse_tokens (TypeDesc name [] [] [] []) toks.

(** [Type::name()], [get], [get_properties]; an empty [std::any] is [None]. *)
Definition name (t : type_desc FP) : cstr := name_ t.
Definition get (t : type_desc FP) (key : cstr) : option (any FP) :=
  find key (properties_ t).
Definition get_properties (t : type_desc FP) : list (cstr * any FP) := properties_ t.

(** [set_prop(key, custom_type, value)] *)
Definition set_prop_custom (key custom_type value : cstr) (t : type_desc FP)
  : type_desc FP :=
  set_str_type key custom_type (set_prop key (AString value) t).
End parse.

(** ** Serialization *)

Section serialize.
Context {FP : Type} (fp_to_string : FP -> cstr).

Definition get_serialized_string_value (value : any FP) : outcome cstr :=
  match value with
  | AString s =>
      let coma_rgx := lit $"," in
      let equal_rgx := lit $"=" in
      let lparent_rgx := lit $"(" in
      let rparent_rgx := lit $")" in
      let res :=
        regex_replace
          (regex_replace
             (regex_replace (regex_replace s coma_rgx $"\,") equal_rgx $"\=")
             lparent_rgx
             $"\(")
          rparent_rgx
          $"\)" in
      Ret (if existsb (is_char " ") res || existsb (is_char ",") res
              || existsb (is_char "=") res
           then dquote :: res ++ [dquote] else res)
  | _ => Throw BadAnyCast
  end.

(** One iteration of the loop of [str()]: the text added to [res] and to
    [serialization_errors_]. *)
Definition str_prop (str_types : list (cstr * cstr)) (it : cstr * any FP)
  : outcome (cstr * cstr) :=
  let (key, value) := it in
  let out (ty v : cstr) : outcome (cstr * cstr) :=
    Ret ($", " ++ key ++ $"=(" ++ ty ++ $")" ++ v, []) in
  match find key str_types with
  | Some ty => v ← get_serialized_string_value value; out ty v
  | None =>
      match value with
      | AString _ => v ← get_serialized_string_value value; out $"string" v
      | AInt z => out $"int" (to_string z)
      | ALong z => out $"long" (to_string z)
      | ALongLong z => out $"long long" (to_string z)
      | AUnsigned z => out $"unsigned" (to_string z)
      | AULong z => out $"unsigned long" (to_string z)
      | AULongLong z => out $"unsigned long long" (to_string z)
      | AFloat f => out $"float" (fp_to_string f)
      | ADouble f => out $"double" (fp_to_string f)
      | ALongDouble f => out $"long double" (fp_to_string f)
      | AOther ty =>
          Ret ([], $"unknown type for key " ++ key ++ $" cpp type name is " ++ ty)
      end
  end.

Fixpoint str_props (str_types : list (cstr * cstr)) (m : list (cstr * any FP))
  : outcome (cstr * cstr) :=
  match m with
  | [] => Ret ([], [])
  | it :: m' =>
      '(s, e) ← str_prop str_types it;
      '(s', e') ← str_props str_types m';
      Ret (s ++ s', e ++ e')
  end.

(** [Type::str()]: the text, and the object with its mutable
    [serialization_errors_]. *)
Definition str (t : type_desc FP) : outcome (cstr * type_desc FP) :=
  '(s, e) ← str_props (str_types_ t) (properties_ t);
  Ret (name_ t ++ s,
       TypeDesc (name_ t) (properties_ t) (str_types_ t) (parsing_errors_ t)
         (serialization_errors_ t ++ e)).
End serialize.
