(* ===== verification/TypeRoundtrip.v ===== *)
(** * Round trip of type descriptions

    [Type(t.str())] gives back the name and the properties of [t], for
    descriptions made of [int] and string properties.  The texts that the
    regular-expression passes produce are described character by character
    ([ser_enc], [esc_enc], ...) and each pass is shown to map one description
    to the next. *)

From S2P Require Import Prelude Regex StdLib TypeDesc.

(** ** Character encodings between the passes *)

Abbreviation bs := "\"%char.

Definition special (c : ascii) : bool :=
  is_char "," c || is_char "=" c || is_char "(" c || is_char ")" c.
Definition paren (c : ascii) : bool := is_char "(" c || is_char ")" c.

(** After [get_serialized_string_value]. *)
Definition ser_enc (c : ascii) : cstr := if special c then [bs; c] else [c].
(** After the first and the second pass of [escape]. *)
Definition esc1_enc (c : ascii) : cstr :=
  if is_char "," c then $"__COMA__" else ser_enc c.
Definition esc_enc (c : ascii) : cstr :=
  if is_char "=" c then $"__EQUAL__" else esc1_enc c.
(** After the [__COMA__], [__EQUAL__] and left parenthesis passes of [unescape]. *)
Definition une1_enc (c : ascii) : cstr := if is_char "," c then [c] else esc_enc c.
Definition une2_enc (c : ascii) : cstr := if paren c then [bs; c] else [c].
Definition une3_enc (c : ascii) : cstr := if is_char ")" c then [bs; c] else [c].

Definition quoted (s : cstr) : cstr :=
  if existsb (fun c => is_char " " c || is_char "," c || is_char "=" c) s
  then dquote :: s ++ [dquote] else s.

(** Case analysis on a character against the special ones. *)
Ltac char_cases c :=
  repeat match goal with
  | |- context [is_char ?a c] =>
      destruct (is_char a c) eqn:?;
      [match goal with H : is_char a c = true |- _ =>
         apply is_char_true in H; subst c end|]
  end.

Ltac char_simpl :=
  repeat (simpl; match goal with H : is_char _ _ = false |- _ => rewrite !H end);
  simpl.

Lemma flat_map_flat_map {A B C} (f : B -> list C) (g : A -> list B) l :
  flat_map f (flat_map g l) = flat_map (fun a => flat_map f (g a)) l.
Proof. induction l as [|a l IH]; simpl; [done|]. by rewrite flat_map_app, IH. Qed.

Lemma flat_map_pointwise {A B} (f g : A -> list B) l :
  Forall (fun a => f a = g a) l -> flat_map f l = flat_map g l.
Proof. induction 1 as [|a l Ha Hl IH]; simpl; [done|]. by rewrite Ha, IH. Qed.

Lemma Forall_all {A} (P : A -> Prop) l : (forall a, P a) -> Forall P l.
Proof. intros HP. apply Forall_forall. auto. Qed.

(** ** The serialized value *)

Lemma serialize_passes s :
  regex_replace
    (regex_replace (regex_replace (regex_replace s (lit $",") $"\,") (lit $"=") $"\=")
      (lit $"(") $"\(") (lit $")") $"\)" = flat_map ser_enc s.
Proof.
  simpl String.list_ascii_of_string. rewrite !regex_replace_char, !flat_map_flat_map.
  apply flat_map_pointwise, Forall_all. intros c. unfold ser_enc, special.
  char_cases c; by char_simpl.
Qed.

Lemma existsb_ser_enc p s :
  (forall c, existsb p (ser_enc c) = p c) -> existsb p (flat_map ser_enc s) = existsb p s.
Proof.
  intros Hp. induction s as [|c s IH]; simpl; [done|]. by rewrite existsb_app, Hp, IH.
Qed.

Lemma existsb_or {A} (p q : A -> bool) l :
  existsb p l || existsb q l = existsb (fun a => p a || q a) l.
Proof.
  induction l as [|a l IH]; simpl; [done|]. rewrite <- IH.
  by destruct (p a), (q a), (existsb p l), (existsb q l).
Qed.

Lemma serialized_value {FP} s :
  get_serialized_string_value (@AString FP s) = Ret (flat_map ser_enc (quoted s)).
Proof.
  unfold get_serialized_string_value. rewrite serialize_passes.
  rewrite !existsb_ser_enc.
  - rewrite !existsb_or. unfold quoted. f_equal.
    destruct (existsb _ s); [|done]. simpl. by rewrite flat_map_app.
  - intros c. unfold ser_enc, special. char_cases c; by char_simpl.
  - intros c. unfold ser_enc, special. char_cases c; by char_simpl.
  - intros c. unfold ser_enc, special. char_cases c; by char_simpl.
Qed.

(** ** Passes on a backslash pair

    [f x] is the pair [\x]; every other encoding starts with another
    character than [x], and a backslash in it is either followed inside the
    encoding by another character than [x] or is the plain backslash. *)
Section pair_pass.
Context (x : ascii) (rep : cstr) (f f' : ascii -> cstr).
Hypothesis x_not_bs : x <> bs.
Hypothesis f_x : f x = [bs; x] /\ f' x = rep.
Hypothesis f_other : forall c, c <> x -> f' c = f c /\
  match f c with
  | [] => False
  | [d] => d = c
  | [d; y] => d <> x /\ y <> x /\ y <> bs
  | d :: l => d <> x /\ d <> bs /\ Forall (fun z => z <> bs) l
  end.

Lemma pair_head c s rest : c <> x -> head (f c ++ flat_map f s ++ rest) <> Some x.
Proof using All.
  intros Hc. destruct (f_other c Hc) as [_ H].
  destruct (f c) as [|d [|y [|z l]]]; simpl; intuition congruence.
Qed.

Lemma pair_no_match c R :
  c <> x -> (c = bs -> head R <> Some x) ->
  forall v w, f c = v ++ w -> w <> [] -> rx_match (lit [bs; x]) (w ++ R) = None.
Proof using All.
  intros Hc HR v w E Hw. destruct (f_other c Hc) as [_ H]. rewrite E in H.
  destruct w as [|d w]; [done|]. rewrite rx_match_lit. simpl.
  destruct (is_char bs d) eqn:Ed; [|done]. apply is_char_true in Ed as ->.
  assert (Hy : head (w ++ R) <> Some x).
  { destruct v as [|a [|b [|b' v]]]; destruct w as [|y [|z w]]; simpl in *;
      rewrite ?Forall_cons, ?Forall_app, ?Forall_cons in H; subst;
      intuition congruence. }
  destruct (w ++ R) as [|y l]; [done|]. simpl in *.
  destruct (is_char x y) eqn:Ey; [|done]. apply is_char_true in Ey. congruence.
Qed.

Lemma pair_pass s rest :
  (last s = Some bs -> head rest <> Some x) ->
  regex_replace (flat_map f s ++ rest) (lit [bs; x]) rep =
  flat_map f' s ++ regex_replace rest (lit [bs; x]) rep.
Proof using All.
  induction s as [|c s IH]; intros Hl; cbn [flat_map]; [done|].
  rewrite <- !app_assoc.
  assert (IH' : regex_replace (flat_map f s ++ rest) (lit [bs; x]) rep =
    flat_map f' s ++ regex_replace rest (lit [bs; x]) rep).
  { apply IH. intros H. apply Hl. by destruct s. }
  destruct (decide (c = x)) as [->|Hc].
  - destruct f_x as [-> ->].
    rewrite (regex_replace_match _ _ _ (flat_map f s ++ rest)); [by rewrite IH'|done|].
    apply (rx_match_lit_Some [bs; x]).
  - rewrite regex_replace_app, IH'; [by rewrite (proj1 (f_other c Hc))|done|].
    apply pair_no_match; [done|]. intros ->. destruct s as [|c' s]; simpl.
    + by apply Hl.
    + rewrite <- app_assoc. destruct (decide (c' = x)) as [->|Hc'].
      * rewrite (proj1 f_x). simpl. congruence.
      * by apply pair_head.
Qed.
End pair_pass.

Ltac pair_cases c :=
  unfold ser_enc, esc_enc, esc1_enc, une1_enc, une2_enc, une3_enc, ser_enc, special, paren;
  char_cases c; char_simpl; try congruence; split; try done; repeat constructor;
  try done; try by apply is_char_false.

(** [escape] on an encoded value. *)
Lemma escape_value s rest :
  (last s = Some bs -> head rest <> Some ","%char /\ head rest <> Some "="%char) ->
  (forall r, regex_replace rest (lit [bs; ","%char]) $"__COMA__" = r ->
     last s = Some bs -> head r <> Some "="%char) ->
  escape (flat_map ser_enc s ++ rest) = flat_map esc_enc s ++ escape rest.
Proof.
  intros Hl Hr. unfold escape. simpl String.list_ascii_of_string.
  rewrite (pair_pass "," $"__COMA__" ser_enc esc1_enc).
  - rewrite (pair_pass "=" $"__EQUAL__" esc1_enc esc_enc); [done|done|done| |].
    + intros c Hc%is_char_false. pair_cases c.
    + intros Hls. by apply (Hr _ eq_refl).
  - done.
  - done.
  - intros c Hc%is_char_false. pair_cases c.
  - intros Hls. by apply Hl.
Qed.

(** ** Marker passes of [unescape] *)

(** A prefix made of characters that only their own encoding starts with is a
    prefix of the text. *)
Lemma plain_prefix (f : ascii -> cstr) p ts r :
  (forall c, match f c with
             | [] => False
             | h :: l => Forall (fun a => a = h -> c = a /\ l = []) p
             end) ->
  strip (fun a c => is_char a c) p (flat_map f ts) = Some r -> exists ts', ts = p ++ ts'.
Proof.
  revert ts. induction p as [|a p IH]; intros ts Hf H; [by exists ts|].
  destruct ts as [|c ts]; simpl in *; [done|].
  pose proof (Hf c) as Hc. destruct (f c) as [|h l]; simpl in *; [done|].
  destruct (is_char a h) eqn:E; [|done]. apply is_char_true in E as ->.
  apply Forall_cons in Hc as [Hc _]. destruct (Hc eq_refl) as [-> ->].
  destruct (IH ts) as [ts' ->]; [|done|by exists ts'].
  intros c. pose proof (Hf c). destruct (f c); [done|]. by eapply Forall_cons_1.
Qed.

Section marker_pass.
(** The marker is [__w__]; it encodes [x]. *)
Context (x : ascii) (w : cstr) (f f' : ascii -> cstr).
Let marker : cstr := $"__" ++ w ++ $"__".
Hypothesis f_x : f x = marker /\ f' x = [x].
Hypothesis f_plain : forall c, match f c with
  | [] => False
  | h :: l => Forall (fun a => a = h -> c = a /\ l = []) w
  end.
(** The encodings of the other characters: a character, a pair that starts
    with a backslash, or another marker [__a...__] with [a] not in [w]. *)
Hypothesis f_other : forall c, c <> x -> f' c = f c /\
  (f c = [c] \/ f c = [bs; c] \/
   exists a l, f c = $"__" ++ a :: l ++ $"__" /\ head w <> Some a /\
     Forall (fun b => b <> "_"%char) (a :: l)).
Hypothesis w_start : exists a w', w = a :: w' /\ a <> "_"%char /\ a <> bs.

Lemma marker_no_match1 ts R :
  contains w ts = false ->
  strip (fun a c => is_char a c) (w ++ R) (flat_map f ts) = None.
Proof using All.
  intros Hw. destruct (strip _ _ _) eqn:E; [|done]. exfalso.
  assert (E' : exists r, strip (fun a c => is_char a c) w (flat_map f ts) = Some r).
  { revert E. generalize (flat_map f ts). clear. induction w as [|a w' IH]; simpl; [eauto|].
    intros [|b k]; [done|]. destruct (is_char a b); [|done]. apply IH. }
  destruct E' as [r E']. destruct (plain_prefix f w ts r) as [ts' ->]; [done|done|].
  by eapply contains_prefix.
Qed.

(** A text that an underscore precedes. *)
Lemma marker_no_match2 ts R :
  contains w ts = false ->
  strip (fun a c => is_char a c) ("_"%char :: w ++ R) (flat_map f ts) = None.
Proof using All.
  intros Hw. destruct ts as [|c ts]; [done|].
  pose proof (marker_no_match1 _ R (contains_tail _ _ _ Hw)) as H1.
  destruct w_start as (a & w' & Ew & Ha & Hbs). cbn [flat_map].
  destruct (decide (c = x)) as [->|Hc].
  - rewrite (proj1 f_x). unfold marker. rewrite Ew. simpl.
    destruct (is_char a "_") eqn:E; [|done]. apply is_char_true in E. congruence.
  - destruct (f_other c Hc) as [_ [->|[->|(b & l & -> & _)]]]; simpl.
    + destruct (is_char "_" c); [done|done].
    + done.
    + rewrite Ew. simpl.
      destruct (is_char a "_") eqn:E; [|done]. apply is_char_true in E. congruence.
Qed.

Lemma marker_pass ts :
  contains w ts = false ->
  regex_replace (flat_map f ts) (lit marker) [x] = flat_map f' ts.
Proof using All.
  intros Hw.
  apply (regex_replace_tokens f f' (lit marker) [x] (fun ts => contains w ts = false));
    [done|intros ??; apply contains_tail| |done].
  clear ts Hw. intros c ts Hw.
  destruct w_start as (a & w' & Ew & Ha & Hbs).
  destruct (decide (c = x)) as [->|Hc].
  { left. destruct f_x as [-> ->]. split; [apply rx_match_lit_Some|done]. }
  right. destruct (f_other c Hc) as [-> Hf]. split; [done|]. intros v u E Hu.
  apply contains_tail in Hw.
  pose proof (marker_no_match1 ts $"__" Hw) as H1.
  pose proof (marker_no_match2 ts $"__" Hw) as H2.
  rewrite rx_match_lit. change marker with ("_"%char :: "_"%char :: w ++ $"__").
  destruct Hf as [Hf|[Hf|(b & l & Hf & Hb & Hl)]]; rewrite Hf in E.
  - destruct v as [|? [|]]; simplify_eq/=; try done.
    destruct (is_char "_" c); [exact H2|done].
  - destruct v as [|? [|? [|]]]; simplify_eq/=; try done.
    destruct (is_char "_" c); [exact H2|done].
  - destruct v as [|? [|? v]]; simpl in E;
      [subst u; simpl; subst w; simpl|injection E as _ <-; simpl|injection E as _ _ E].
    + rewrite (proj2 (is_char_false a b)); [done|].
      intros ->. by apply Hb.
    + rewrite (proj2 (is_char_false "_" b)); [done|].
      by apply Forall_cons in Hl as [? _].
    + apply (app_eq_inv (b :: l) $"__") in E as [[k [Ebl ->]]|[k [-> Ek]]].
      * destruct k as [|h k]; [exact H1|]. rewrite Ebl in Hl.
        apply Forall_app in Hl as [_ [Hh _]%Forall_cons]. simpl.
        by rewrite (proj2 (is_char_false "_" h)).
      * destruct k as [|? [|? [|]]]; simplify_eq/=; [exact H1|exact H2].
Qed.
End marker_pass.

(** ** Occurrence and quoting *)

Lemma strip_app p s : strip (fun a c => is_char a c) p (p ++ s) = Some s.
Proof. rewrite <- rx_match_lit. apply rx_match_lit_Some. Qed.

Lemma contains_spec p s : contains p s = true <-> exists u v, s = u ++ p ++ v.
Proof.
  split.
  - induction s as [|c s IH]; simpl; destruct (strip _ p _) as [r|] eqn:E; try done.
    + intros _. exists [], r. rewrite <- rx_match_lit in E. by apply rx_match_lit_inv in E.
    + intros _. exists [], r. rewrite <- rx_match_lit in E. by apply rx_match_lit_inv in E.
    + intros H. destruct (IH H) as (u & v & ->). by exists (c :: u), v.
  - intros (u & v & ->). induction u as [|c u IH]; simpl.
    + destruct (p ++ v) eqn:E; simpl; rewrite <- E, strip_app; done.
    + by destruct (strip _ p _).
Qed.

Lemma contains_quoted p s :
  p <> [] -> Forall (fun c => c <> dquote) p -> contains p s = false ->
  contains p (quoted s) = false.
Proof.
  intros Hp Hd Hs. unfold quoted. destruct (existsb _ s); [|done].
  apply not_true_is_false. intros (u & v & E)%contains_spec.
  apply not_true_iff_false in Hs. apply Hs. apply contains_spec.
  destruct u as [|d u]; simpl in E.
  - destruct p as [|a p]; [done|]. simplify_eq/=. by apply Forall_cons in Hd as [? _].
  - injection E as _ E. destruct (decide (v = [])) as [->|Hv].
    + rewrite app_nil_r in E. destruct (exists_last Hp) as (p' & a & ->).
      rewrite app_assoc in E. apply app_inj_tail in E as [_ <-].
      apply Forall_app in Hd as [_ Hd]. by apply Forall_cons in Hd as [? _].
    + destruct (exists_last Hv) as (v' & a & ->). rewrite !app_assoc in E.
      apply app_inj_tail in E as [-> _]. exists u, v'. by rewrite app_assoc.
Qed.

(** ** The value read back *)

Lemma flat_map_no_quote (f : ascii -> cstr) s :
  (forall c, c <> dquote -> Forall (fun d => d <> dquote) (f c)) ->
  f dquote = [dquote] ->
  Forall (fun c => c <> dquote) s ->
  flat_map (fun c => if is_char dquote c then [] else [c]) (flat_map f (quoted s)) =
  flat_map f s.
Proof.
  intros Hf Hq Hs.
  assert (H : flat_map (fun c => if is_char dquote c then [] else [c]) (flat_map f s)
    = flat_map f s).
  { rewrite flat_map_flat_map. apply flat_map_pointwise.
    eapply Forall_impl; [exact Hs|]. intros c Hc. specialize (Hf c Hc). simpl.
    induction Hf as [|d l Hd Hl IH]; simpl; [done|].
    apply is_char_false in Hd. by rewrite Hd, IH. }
  unfold quoted. destruct (existsb _ s); [|done]. cbn [flat_map].
  rewrite flat_map_app. cbn [flat_map]. rewrite Hq, !flat_map_app, H. simpl.
  rewrite Hq. simpl. by rewrite app_nil_r.
Qed.

Ltac enc_unfold :=
  unfold une3_enc, une2_enc, une1_enc, esc_enc, esc1_enc, ser_enc, special, paren.
Ltac marker_plain c :=
  enc_unfold; char_cases c; char_simpl; repeat (apply Forall_cons; split);
  try apply Forall_nil; intros; simplify_eq; auto.
Ltac marker_other c :=
  intros c ?%is_char_false; enc_unfold; char_cases c; char_simpl; try congruence;
  (split; [done|]); auto;
  right; right; exists "E"%char, $"QUAL"; (split; [reflexivity|]; split; [discriminate|];
  repeat constructor; discriminate).

Lemma unescape_value s :
  Forall (fun c => c <> dquote) s ->
  contains $"COMA" s = false -> contains $"EQUAL" s = false ->
  unescape (flat_map esc_enc (quoted s)) = s.
Proof.
  intros Hd Hcoma Hequal. unfold unescape.
  rewrite (marker_pass "," $"COMA" esc_enc une1_enc); [|done| | | |].
  - rewrite (regex_replace_char dquote), flat_map_no_quote; [| |done|done]; [|
      intros c Hc%is_char_false; enc_unfold; char_cases c; char_simpl;
      repeat constructor; try discriminate; by apply is_char_false].
    rewrite (marker_pass "=" $"EQUAL" une1_enc une2_enc); [|done| | | |done].
    + rewrite <- (app_nil_r (flat_map une2_enc s)).
      rewrite (pair_pass "(" $"(" une2_enc une3_enc); [|done|done| |done].
      * rewrite regex_replace_nil by done.
        rewrite (pair_pass ")" $")" une3_enc (fun c => [c])); [|done|done| |done].
        -- rewrite regex_replace_nil by done. rewrite app_nil_r. clear.
           induction s as [|c s IH]; simpl; [done|by rewrite IH].
        -- intros c Hc%is_char_false. pair_cases c.
      * intros c Hc%is_char_false. pair_cases c.
    + intros c. marker_plain c.
    + marker_other c.
    + do 2 eexists. split; [reflexivity|]. split; discriminate.
  - intros c. marker_plain c.
  - marker_other c.
  - do 2 eexists. split; [reflexivity|]. split; discriminate.
  - apply contains_quoted; [done| |done]. repeat constructor; discriminate.
Qed.

(** ** Well-formed descriptions *)

Definition ok_name (n : cstr) : bool :=
  negb (bool_decide (n = [])) && forallb (fun c => negb (is_char "," c)) n
  && forallb (fun c => negb (is_char bs c)) n
  && negb (bool_decide (last n = Some " "%char)).

Definition ok_key (k : cstr) : bool :=
  negb (bool_decide (k = [])) && forallb is_key_char k.

Definition ok_type (ty : cstr) : bool :=
  negb (bool_decide (ty = [])) && forallb is_word ty
  && negb (bool_decide (ty = $"int")).

(** No double quote, none of the two marker words, and no backslash that would
    meet the separator of the next property. *)
Definition ok_value (s : cstr) : bool :=
  forallb (fun c => negb (is_char dquote c)) s
  && negb (contains $"COMA" s) && negb (contains $"EQUAL" s)
  && negb (bool_decide (last (quoted s) = Some bs)).

Section wf.
Context {FP : Type}.

Definition prop_type (st : list (cstr * cstr)) (it : cstr * any FP) : cstr :=
  match it with
  | (k, AString _) => match find k st with Some ty => ty | None => $"string" end
  | _ => $"int"
  end.

Definition ok_prop (st : list (cstr * cstr)) (it : cstr * any FP) : bool :=
  ok_key it.1 &&
  match it with
  | (k, AString s) => ok_value s && ok_type (prop_type st it)
  | (k, AInt z) =>
      (INT_MIN <=? z)%Z && (z <=? INT_MAX)%Z && bool_decide (find k st = None)
  | _ => false
  end.

Definition wf_desc (t : type_desc FP) : bool :=
  ok_name (name_ t) && forallb (ok_prop (str_types_ t)) (properties_ t).

(** The printed value of a property, and its image by [escape]. *)
Definition body (it : cstr * any FP) : cstr :=
  match it.2 with
  | AString s => flat_map ser_enc (quoted s)
  | AInt z => to_string z
  | _ => []
  end.
Definition esc_body (it : cstr * any FP) : cstr :=
  match it.2 with
  | AString s => flat_map esc_enc (quoted s)
  | AInt z => to_string z
  | _ => []
  end.
(** [key=(type)value] *)
Definition tok (st : list (cstr * cstr)) (b : cstr * any FP -> cstr)
  (it : cstr * any FP) : cstr :=
  it.1 ++ $"=(" ++ prop_type st it ++ $")" ++ b it.
Definition toks st b (m : list (cstr * any FP)) : cstr :=
  flat_map (fun it => $", " ++ tok st b it) m.

(** The custom type names a description has after its round trip. *)
Definition types_of (st : list (cstr * cstr)) (m : list (cstr * any FP))
  : list (cstr * cstr) :=
  flat_map (fun it => match it with
                      | (k, AString _) => [(k, prop_type st it)]
                      | _ => []
                      end) m.
End wf.

Ltac split_bools :=
  repeat match goal with
  | H : _ && _ = true |- _ => apply andb_true_iff in H as [? ?]
  | H : negb _ = true |- _ => apply negb_true_iff in H
  | H : bool_decide _ = true |- _ => apply bool_decide_eq_true in H
  | H : bool_decide _ = false |- _ => apply bool_decide_eq_false in H
  end.

Lemma forallb_Forall' {A} (p : A -> bool) l :
  forallb p l = true <-> Forall (fun a => p a = true) l.
Proof. rewrite forallb_forall, Forall_forall. by setoid_rewrite <- list_elem_of_In. Qed.

Lemma ok_value_inv s :
  ok_value s = true ->
  Forall (fun c => c <> dquote) s /\ contains $"COMA" s = false /\
  contains $"EQUAL" s = false /\ last (quoted s) <> Some bs.
Proof.
  unfold ok_value. intros. split_bools. split_and!; [|done..].
  eapply Forall_impl; [by apply forallb_Forall'|]. intros c Hc. simpl in Hc.
  apply negb_true_iff in Hc. by apply is_char_false.
Qed.

Lemma ok_prop_cases {FP} st (it : cstr * any FP) :
  ok_prop st it = true ->
  ok_key it.1 = true /\
  ((exists s, it.2 = AString s /\ ok_value s = true /\ ok_type (prop_type st it) = true) \/
   (exists z, it.2 = AInt z /\ (INT_MIN <= z <= INT_MAX)%Z /\ find it.1 st = None /\
      prop_type st it = $"int")).
Proof.
  destruct it as [k v]. unfold ok_prop. intros [Hk H]%andb_true_iff. split; [done|].
  destruct v; simpl in *; try done; split_bools.
  - left. eauto.
  - right. exists z. rewrite Z.leb_le in *. done.
Qed.

(** ** Printing *)

Lemma str_prop_ok {FP} (fts : FP -> cstr) st it :
  ok_prop st it = true -> str_prop fts st it = Ret ($", " ++ tok st body it, []).
Proof.
  intros H. destruct (ok_prop_cases st it H) as [_ [(s & E & _)|(z & E & _ & Hn & _)]];
    destruct it as [k v]; simpl in E; subst v; unfold str_prop, tok, body;
    cbn [fst snd prop_type].
  - rewrite serialized_value. by destruct (find k st).
  - simpl in Hn. by rewrite Hn.
Qed.

Lemma str_ok {FP} (fts : FP -> cstr) (t : type_desc FP) :
  wf_desc t = true ->
  str fts t = Ret (name_ t ++ toks (str_types_ t) body (properties_ t), t).
Proof.
  unfold wf_desc. intros [_ H]%andb_true_iff. unfold str.
  assert (E : str_props fts (str_types_ t) (properties_ t) =
    Ret (toks (str_types_ t) body (properties_ t), [])).
  { induction (properties_ t) as [|it m IH]; simpl; [done|].
    simpl in H. apply andb_true_iff in H as [Hit Hm].
    rewrite (str_prop_ok fts _ _ Hit). simpl. rewrite (IH Hm). done. }
  rewrite E. simpl. rewrite app_nil_r. by destruct t.
Qed.

(** ** escape on a printed description *)

Definition no_bs (u : cstr) : Prop := Forall (fun c => c <> bs) u.

Lemma escape_raw u s : no_bs u -> escape (u ++ s) = u ++ escape s.
Proof.
  intros Hu. unfold escape. simpl String.list_ascii_of_string.
  by rewrite !regex_replace_lit_skip.
Qed.

Lemma escape_nil : escape [] = [].
Proof. reflexivity. Qed.

Lemma Forall_ascii (p : ascii -> bool) (P : ascii -> Prop) u :
  (forall c, p c = true -> P c) -> forallb p u = true -> Forall P u.
Proof. intros Hp H. eapply Forall_impl; [by apply forallb_Forall'|done]. Qed.

(** A fact on every character, by computation on the 256 of them. *)
Ltac all_chars :=
  let c := fresh "c" in
  intros c; destruct c as [[] [] [] [] [] [] [] []]; vm_compute; congruence.

Lemma key_no_bs c : is_key_char c = true -> c <> bs. Proof. revert c. all_chars. Qed.
Lemma key_no_comma c : is_key_char c = true -> c <> ","%char. Proof. revert c. all_chars. Qed.
Lemma key_no_equal c : is_key_char c = true -> c <> "="%char. Proof. revert c. all_chars. Qed.
Lemma key_no_space c : is_key_char c = true -> is_space c = false. Proof. revert c. all_chars. Qed.
Lemma word_key c : is_word c = true -> is_key_char c = true. Proof. revert c. all_chars. Qed.
Lemma word_no_rpar c : is_word c = true -> is_char ")" c = false. Proof. revert c. all_chars. Qed.
Lemma digit_key c : is_digit c = true -> is_key_char c = true. Proof. revert c. all_chars. Qed.

Lemma to_string_key z : forallb is_key_char (to_string z) = true.
Proof.
  apply forallb_Forall'. unfold to_string.
  assert (Hd : forall y, (0 <= y)%Z -> Forall (fun c => is_key_char c = true) (dec y)).
  { intros y Hy. destruct (dec_spec y Hy) as [H _].
    eapply Forall_impl; [exact H|]. intros c. apply digit_key. }
  destruct (Z.ltb_spec z 0); [constructor; [done|]|]; apply Hd; lia.
Qed.

Lemma to_string_ne z : to_string z <> [].
Proof. by destruct (to_string_shape z) as (c & s & -> & _). Qed.

Lemma ok_key_inv k : ok_key k = true -> k <> [] /\ forallb is_key_char k = true.
Proof. unfold ok_key. intros. by split_bools. Qed.

Lemma ok_type_inv ty :
  ok_type ty = true -> ty <> [] /\ forallb is_word ty = true /\ ty <> $"int".
Proof. unfold ok_type. intros. by split_bools. Qed.

Lemma forallb_impl {A} (p q : A -> bool) l :
  (forall a, p a = true -> q a = true) -> forallb p l = true -> forallb q l = true.
Proof. rewrite !forallb_forall. eauto. Qed.

Lemma prop_type_word {FP} st (it : cstr * any FP) :
  ok_prop st it = true -> prop_type st it <> [] /\ forallb is_word (prop_type st it) = true.
Proof.
  intros [_ [(s & _ & _ & H%ok_type_inv)|(z & _ & _ & _ & ->)]]%ok_prop_cases.
  - by destruct H as (? & ? & _).
  - by split.
Qed.

(** The part of a token before the value. *)
Definition tok_head {FP} st (it : cstr * any FP) : cstr :=
  it.1 ++ $"=(" ++ prop_type st it ++ $")".

Lemma tok_split {FP} st b (it : cstr * any FP) : tok st b it = tok_head st it ++ b it.
Proof. unfold tok, tok_head. by rewrite <- !app_assoc. Qed.

Lemma tok_head_Forall {FP} st (it : cstr * any FP) (P : ascii -> Prop) :
  ok_prop st it = true -> (forall c, is_key_char c = true -> P c) ->
  P "="%char -> P "("%char -> P ")"%char -> Forall P (tok_head st it).
Proof.
  intros H HP He Hl Hr. destruct (prop_type_word st it H) as [_ Hw].
  destruct (ok_prop_cases st it H) as [[_ Hk]%ok_key_inv _].
  unfold tok_head. repeat (apply Forall_app; split); repeat (constructor; try done).
  - by eapply Forall_ascii.
  - eapply Forall_ascii; [|exact Hw]. intros c Hc. by apply HP, word_key.
Qed.

Lemma escape_body {FP} st (it : cstr * any FP) rest :
  ok_prop st it = true -> escape (body it ++ rest) = esc_body it ++ escape rest.
Proof.
  intros [_ [(s & E & Hv & _)|(z & E & _)]]%ok_prop_cases; unfold body, esc_body; rewrite E.
  - destruct (ok_value_inv _ Hv) as (_ & _ & _ & Hl).
    apply escape_value; [done|]. intros ? _ ?. done.
  - apply escape_raw. eapply Forall_ascii; [exact key_no_bs|apply to_string_key].
Qed.

Lemma escape_toks {FP} st (m : list (cstr * any FP)) :
  forallb (ok_prop st) m = true -> escape (toks st body m) = toks st esc_body m.
Proof.
  induction m as [|it m IH]; intros H; [reflexivity|].
  simpl in H. apply andb_true_iff in H as [Hit Hm]. unfold toks in *. cbn [flat_map].
  rewrite !tok_split, <- !app_assoc, escape_raw
    by (unfold no_bs; repeat constructor; discriminate).
  rewrite escape_raw by (apply (tok_head_Forall st it); [done|apply key_no_bs|done..]).
  by rewrite (escape_body st it), IH.
Qed.

Lemma ok_name_inv n :
  ok_name n = true ->
  n <> [] /\ Forall (fun c => c <> ","%char) n /\ no_bs n /\ last n <> Some " "%char.
Proof.
  unfold ok_name. intros. split_bools. split_and!; try done.
  - apply (Forall_ascii (fun c => negb (is_char "," c))); [|done].
    intros c Hc%negb_true_iff. by apply is_char_false.
  - apply (Forall_ascii (fun c => negb (is_char bs c))); [|done].
    intros c Hc%negb_true_iff. by apply is_char_false.
Qed.

(** ** Splitting at the separators *)

Definition splittable (u : cstr) : Prop :=
  Forall (fun c => c <> ","%char) u /\ last u <> Some " "%char.

Lemma split_no_match u R :
  splittable u -> forall v w, u = v ++ w -> w <> [] -> rx_match split_rgx (w ++ R) = None.
Proof.
  intros [Hc Hl] v w -> Hw.
  assert (Hl' : last w <> Some " "%char).
  { rewrite last_app in Hl. destruct (last w) eqn:E; [congruence|].
    by apply last_None in E. }
  apply Forall_app in Hc as [_ Hc]. clear Hl v. unfold split_rgx, rx_match.
  induction w as [|c w IH]; [done|]. apply Forall_cons in Hc as [Hc1 Hc].
  cbn [app]. rewrite rx_run_star_cons.
  assert (Hn : rx_run (fun _ => true) [Atom (is_char ",") One; Atom (is_char " ") Star]
                (c :: w ++ R) = None).
  { simpl. apply is_char_false in Hc1. by rewrite Hc1. }
  rewrite Hn. destruct (is_char " " c) eqn:E; [|done].
  apply is_char_true in E as ->.
  destruct w as [|d w]; [done|]. rewrite IH; done.
Qed.

Lemma split_match c R : c <> " "%char -> rx_match split_rgx ($", " ++ c :: R) = Some (c :: R).
Proof.
  intros Hc%is_char_false. unfold rx_match, split_rgx.
  change ($", " ++ c :: R) with ([] ++ ","%char :: [" "%char] ++ c :: R).
  apply rx_run_star; [done|done|]. cbn [rx_run cls qty].
  change (is_char "," ",") with true. cbv iota.
  apply (rx_run_star (fun _ => true) _ [] [" "%char]); [by repeat constructor|done|done].
Qed.

Lemma last_Forall {A} (P : A -> Prop) l a : Forall P l -> last l = Some a -> P a.
Proof. intros Hl Ha. apply last_Some in Ha as [l' ->]. by apply Forall_app in Hl as [_ [? _]%Forall_cons]. Qed.

Lemma esc_enc_no_comma s : Forall (fun c => c <> ","%char) (flat_map esc_enc s).
Proof.
  induction s as [|c s IH]; [constructor|]. cbn [flat_map]. apply Forall_app. split; [|done].
  enc_unfold. char_cases c; char_simpl; repeat constructor; try discriminate.
  by apply is_char_false.
Qed.

Lemma esc_enc_no_equal s : Forall (fun c => c <> "="%char) (flat_map esc_enc s).
Proof.
  induction s as [|c s IH]; [constructor|]. cbn [flat_map]. apply Forall_app. split; [|done].
  enc_unfold. char_cases c; char_simpl; repeat constructor; try discriminate.
  by apply is_char_false.
Qed.

Lemma esc_enc_last s : last (flat_map esc_enc (quoted s)) <> Some " "%char.
Proof.
  unfold quoted. destruct (existsb _ s) eqn:E.
  - cbn [flat_map]. rewrite flat_map_app, app_assoc. cbn [flat_map].
    rewrite app_nil_r, last_app. discriminate.
  - intros H. eapply (last_Forall (fun c => c <> " "%char)) in H; [by apply H|].
    clear H. induction s as [|c s IH]; [constructor|]. simpl in E.
    apply orb_false_iff in E as [Ec E]. cbn [flat_map]. apply Forall_app. split; [|by apply IH].
    apply orb_false_iff in Ec as [Ec _]; apply orb_false_iff in Ec as [Ec _].
    enc_unfold. char_cases c; char_simpl; repeat constructor; try discriminate.
    by apply is_char_false.
Qed.

Lemma esc_body_no {FP} st (it : cstr * any FP) :
  ok_prop st it = true ->
  Forall (fun c => c <> ","%char) (esc_body it) /\
  Forall (fun c => c <> "="%char) (esc_body it) /\ last (esc_body it) <> Some " "%char.
Proof.
  intros [_ [(s & E & _)|(z & E & _)]]%ok_prop_cases; unfold esc_body; rewrite E.
  - split_and!; [apply esc_enc_no_comma|apply esc_enc_no_equal|apply esc_enc_last].
  - split_and!; [eapply Forall_ascii; [|apply to_string_key]..|].
    + apply key_no_comma.
    + apply key_no_equal.
    + intros H. apply (last_Forall (fun c => c <> " "%char)) in H; [by apply H|].
      eapply Forall_ascii; [|apply to_string_key]. intros c Hc ->. by apply key_no_space in Hc.
Qed.

Lemma tok_splittable {FP} st (it : cstr * any FP) :
  ok_prop st it = true -> splittable (tok st esc_body it).
Proof.
  intros H. destruct (esc_body_no st it H) as (Hc & _ & Hl). rewrite tok_split. split.
  - apply Forall_app. split; [|done]. apply tok_head_Forall; try done. apply key_no_comma.
  - rewrite last_app. destruct (last (esc_body it)); [done|].
    unfold tok_head. rewrite !app_assoc, last_app. discriminate.
Qed.

Lemma tok_start {FP} st b (it : cstr * any FP) :
  ok_prop st it = true -> exists c l, tok st b it = c :: l /\ is_space c = false.
Proof.
  intros [[Hne Hk]%ok_key_inv _]%ok_prop_cases. unfold tok.
  destruct it.1 as [|c k]; [done|]. simpl in Hk. apply andb_true_iff in Hk as [Hk _].
  do 2 eexists. split; [reflexivity|]. by apply key_no_space.
Qed.

Lemma split_step {FP} st (u : cstr) (it : cstr * any FP) rest :
  splittable u -> ok_prop st it = true ->
  exists m, regex_search (u ++ $", " ++ tok st esc_body it ++ rest) split_rgx =
    Some (u, m, tok st esc_body it ++ rest).
Proof.
  intros Hu Hit. destruct (tok_start st esc_body it Hit) as (c & l & -> & Hc).
  apply regex_search_app; [by apply split_no_match|]. apply (split_match c (l ++ rest)).
  intros ->. done.
Qed.

Lemma split_end u : splittable u -> regex_search u split_rgx = None.
Proof.
  intros Hu. apply regex_search_none; [done|]. intros v w E Hw.
  rewrite <- (app_nil_r w). by eapply split_no_match.
Qed.

Lemma pieces_toks {FP} st (m : list (cstr * any FP)) it n :
  forallb (ok_prop st) (it :: m) = true -> length m <= n ->
  pieces_fuel n split_rgx (tok st esc_body it ++ toks st esc_body m) =
  map (tok st esc_body) (it :: m).
Proof.
  revert it n. induction m as [|it' m IH]; intros it n H Hn; unfold toks in *;
    cbn [flat_map map] in *; cbn [forallb] in H; apply andb_true_iff in H as [Hit H].
  - rewrite app_nil_r. destruct (tok_start st esc_body it Hit) as (c & l & E & _).
    destruct n; cbn [pieces_fuel]; rewrite (split_end _ (tok_splittable st it Hit)), E; done.
  - simpl in Hn. destruct n as [|n]; [lia|]. cbn [pieces_fuel].
    pose proof (proj1 (andb_true_iff _ _) H) as [Hit' _].
    rewrite <- app_assoc.
    destruct (split_step st (tok st esc_body it) it'
      (flat_map (fun it => $", " ++ tok st esc_body it) m)) as [w ->]; [|done|].
    { by apply tok_splittable. }
    f_equal. apply IH; [done|lia].
Qed.

Lemma length_toks {FP} st b (m : list (cstr * any FP)) : length m <= length (toks st b m).
Proof.
  unfold toks. induction m as [|it m IH]; cbn [flat_map length]; [lia|].
  rewrite !length_app. change (length $", ") with 2. lia.
Qed.

Lemma regex_tokens_desc {FP} st (n : cstr) (m : list (cstr * any FP)) :
  ok_name n = true -> forallb (ok_prop st) m = true ->
  regex_tokens (n ++ toks st esc_body m) split_rgx = n :: map (tok st esc_body) m.
Proof.
  intros (Hne & Hc & Hb & Hl)%ok_name_inv Hm. assert (Hs : splittable n) by done.
  unfold regex_tokens. destruct m as [|it m].
  - unfold toks. simpl. rewrite app_nil_r. by rewrite split_end.
  - unfold toks. cbn [flat_map]. rewrite <- app_assoc.
    pose proof (proj1 (andb_true_iff _ _) Hm) as [Hit _].
    destruct (split_step st n it (flat_map (fun it => $", " ++ tok st esc_body it) m) Hs Hit)
      as [w ->].
    f_equal. apply pieces_toks; [done|].
    pose proof (length_toks st esc_body m) as Hlen. unfold toks in Hlen.
    rewrite !length_app. lia.
Qed.

(** ** Parsing one token *)

Lemma space_rgx_none s : Forall (fun c => c <> "="%char) s -> rx_match space_rgx s = None.
Proof.
  intros Hs. apply (rx_run_needs _ _ _ [Atom is_space Star]).
  eapply Forall_impl; [exact Hs|]. intros c. apply is_char_false.
Qed.

Lemma space_rgx_skip u s :
  Forall (fun c => is_space c = false /\ c <> "="%char) u ->
  forall v w, u = v ++ w -> w <> [] -> rx_match space_rgx (w ++ s) = None.
Proof.
  intros Hu v w -> Hw. destruct w as [|c w]; [done|].
  apply Forall_app in Hu as [_ [[Hc He%is_char_false] _]%Forall_cons].
  unfold rx_match, space_rgx. cbn [app]. rewrite rx_run_star_cons, Hc.
  cbn [rx_run cls qty]. by rewrite He.
Qed.

(** [=] is alone between a key and a value that starts with a parenthesis. *)
Lemma space_rgx_replace k v :
  forallb is_key_char k = true -> Forall (fun c => c <> "="%char) v ->
  regex_replace (k ++ $"=(" ++ v) space_rgx $"=" = k ++ $"=(" ++ v.
Proof.
  intros Hk Hv. rewrite regex_replace_app; [|done|].
  - f_equal. rewrite (regex_replace_match _ _ _ ("("%char :: v)); [|done|done].
    simpl. do 2 f_equal. rewrite regex_replace_unfold by done.
    rewrite regex_search_none; [done|done|]. intros u w E _. apply space_rgx_none.
    assert (H : Forall (fun c => c <> "="%char) ("("%char :: v)) by (constructor; done).
    rewrite E in H. by apply Forall_app in H as [_ H].
  - apply space_rgx_skip. eapply Forall_ascii; [|exact Hk].
    intros c Hc. split; [by apply key_no_space|by apply key_no_equal].
Qed.

Lemma keyval_match k v :
  k <> [] -> forallb is_key_char k = true -> v <> [] -> Forall (fun c => c <> "="%char) v ->
  regex_match (k ++ "="%char :: v) keyval_rgx = true.
Proof.
  intros Hk Hkc Hv Hvc. unfold regex_match, keyval_rgx.
  rewrite (rx_run_plus _ is_key_char _ k _ []); [done| |done|done|].
  { by apply forallb_Forall'. }
  rewrite rx_run_one_cons. change (is_char "=" "=") with true. cbv iota.
  rewrite <- (app_nil_r v). apply rx_run_plus; [|done|done|done].
  eapply Forall_impl; [exact Hvc|]. intros c Hc%is_char_false. by rewrite Hc.
Qed.

Lemma cut_key k v :
  forallb is_key_char k = true -> cut_at "=" (k ++ "="%char :: v) = (k, v).
Proof.
  induction k as [|c k IH]; simpl; [done|]. intros [Hc Hk]%andb_true_iff.
  rewrite bool_decide_eq_false_2 by (by apply key_no_equal). by rewrite IH.
Qed.

Lemma literal_type_found ty v :
  ty <> [] -> forallb is_word ty = true ->
  regex_search ($"(" ++ ty ++ $")" ++ v) literal_type_regex =
  Some ([], $"(" ++ ty ++ $")", v).
Proof.
  intros Hne Hw.
  assert (H : rx_match literal_type_regex ($"(" ++ ty ++ $")" ++ v) = Some v).
  { unfold rx_match, literal_type_regex.
    change ($"(" ++ ty ++ $")" ++ v) with ("("%char :: ty ++ ")"%char :: v).
    change (rx_run (fun _ => true) [Atom is_word Plus; Atom (is_char ")") One]
      (ty ++ ")"%char :: v) = Some v).
    apply rx_run_plus; [by apply forallb_Forall'|done|done|done]. }
  destruct (regex_search_app literal_type_regex [] ($"(" ++ ty ++ $")" ++ v) v) as [m Hm].
  { intros a w E Hw0. symmetry in E. apply app_eq_nil in E as [_ ->]. done. }
  { done. }
  cbn [app] in Hm. pose proof Hm as Hp. apply regex_search_parts in Hp as [E _].
  cbn [app] in Hm. rewrite Hm. do 3 f_equal. rewrite !app_assoc in E.
  by apply app_inv_tail in E.
Qed.

(** The integer test on a text that starts with a parenthesis. *)
Lemma int_or_string_paren {FP} s :
  @int_or_string FP ("("%char :: s) = Ret (AString ("("%char :: s)).
Proof. reflexivity. Qed.

Lemma unescape_paren s : exists s', unescape ("("%char :: s) = "("%char :: s'.
Proof.
  unfold unescape. simpl String.list_ascii_of_string.
  do 5 (rewrite regex_replace_skip; [|done|by apply rx_match_lit_head]).
  by eexists.
Qed.

Lemma take_inner ty : take (length ($"(" ++ ty ++ $")") - 2) (drop 1 ($"(" ++ ty ++ $")")) = ty.
Proof.
  simpl. rewrite length_app. simpl. rewrite drop_0.
  replace (length ty + 1 - 1) with (length ty) by lia. apply take_app_length.
Qed.

(** What parsing a printed token does to the description. *)
Definition read_prop {FP} st (it : cstr * any FP) (t : type_desc FP) : type_desc FP :=
  match it.2 with
  | AString _ => set_prop it.1 it.2 (set_str_type it.1 (prop_type st it) t)
  | _ => set_prop it.1 it.2 t
  end.

Lemma parse_tok {FP} st (it : cstr * any FP) t :
  ok_prop st it = true -> parse_token t (tok st esc_body it) = Ret (read_prop st it t).
Proof.
  intros H. destruct (prop_type_word st it H) as [Hne Hw].
  destruct (esc_body_no st it H) as (_ & Hbe & _).
  destruct (ok_prop_cases st it H) as [[Hkne Hk]%ok_key_inv Hcases].
  destruct it as [k v]. cbn [fst snd] in *.
  set (ty := prop_type st (k, v)) in *. set (b := esc_body (k, v)) in *.
  assert (Hve : Forall (fun c => c <> "="%char) (ty ++ $")" ++ b)).
  { apply Forall_app. split; [|constructor; [discriminate|done]].
    eapply Forall_ascii; [|exact Hw]. intros c Hc. by apply key_no_equal, word_key. }
  unfold parse_token, tok. cbn [fst].
  change (prop_type st (k, v)) with ty. change (esc_body (k, v)) with b.
  rewrite bool_decide_eq_false_2 by (by destruct k).
  rewrite space_rgx_replace by done.
  change ($"=(" ++ ty ++ $")" ++ b) with ("="%char :: $"(" ++ ty ++ $")" ++ b).
  rewrite keyval_match; [|done|done|done|by constructor].
  cbn [negb]. rewrite cut_key by done.
  change ($"(" ++ ty ++ $")" ++ b) with ("("%char :: ty ++ $")" ++ b).
  destruct (unescape_paren (ty ++ $")" ++ b)) as [s' ->].
  rewrite int_or_string_paren. cbn [mbind outcome_bind].
  change ("("%char :: ty ++ $")" ++ b) with ($"(" ++ ty ++ $")" ++ b).
  rewrite literal_type_found by done. cbv beta iota zeta.
  rewrite take_inner.
  assert (Ev : drop (length ($"(" ++ ty ++ $")")) ($"(" ++ ty ++ $")" ++ b) = b).
  { rewrite <- (drop_app_length ($"(" ++ ty ++ $")") b) at 2. by rewrite <- !app_assoc. }
  rewrite Ev.
  destruct Hcases as [(s & -> & Hv & (_ & _ & Hint)%ok_type_inv)|(z & -> & Hz & _ & Hty)].
  - rewrite bool_decide_eq_false_2.
    + destruct (ok_value_inv _ Hv) as (? & ? & ? & _). subst b. cbv beta iota delta [esc_body snd].
      by rewrite unescape_value.
    + intros E. apply Hint. change ($"(int)") with ($"(" ++ $"int" ++ $")") in E.
      apply (app_inv_head $"("), app_inv_tail in E. done.
  - fold ty in Hty. rewrite Hty, bool_decide_eq_true_2 by done. subst b.
    cbv beta iota delta [esc_body snd]. by rewrite read_int_to_string.
Qed.

Lemma parse_toks {FP} st (m P : list (cstr * any FP)) Q n pe se :
  forallb (ok_prop st) m = true -> map_ok m ->
  Forall (fun it => Forall (fun p => str_lt p.1 it.1) P /\
                    Forall (fun q => str_lt q.1 it.1) Q) m ->
  parse_tokens (TypeDesc n P Q pe se) (map (tok st esc_body) m) =
  Ret (TypeDesc n (P ++ m) (Q ++ types_of st m) pe se).
Proof.
  revert P Q. induction m as [|it m IH]; intros P Q Hok Hs Hlt.
  { simpl. by rewrite !app_nil_r. }
  cbn [forallb map parse_tokens] in *. apply andb_true_iff in Hok as [Hit Hok].
  apply Forall_cons in Hlt as [[HP HQ] Hlt]. rewrite parse_tok by done.
  unfold map_ok in Hs. simpl in Hs. inversion_clear Hs as [|?? Hs' Hall].
  cbn [mbind outcome_bind].
  assert (E : read_prop st it (TypeDesc n P Q pe se) =
    TypeDesc n (P ++ [it]) (Q ++ types_of st [it]) pe se).
  { destruct it as [k v]. unfold read_prop, types_of. simpl in *.
    destruct v; unfold set_prop, set_str_type; cbn;
      rewrite ?emplace_snoc by done; by rewrite ?app_nil_r. }
  rewrite E, IH; [|done|done|].
  - rewrite <- !app_assoc. unfold types_of. simpl. by rewrite app_nil_r.
  - apply Forall_forall. intros it' Hin. rewrite Forall_forall in Hlt.
    destruct (Hlt _ Hin) as [HP' HQ'].
    assert (Hit' : str_lt it.1 it'.1).
    { rewrite Forall_forall in Hall. apply Hall, list_elem_of_fmap. by exists it'. }
    split; apply Forall_app; split; try done; [by constructor|].
    destruct it as [k v]. unfold types_of. simpl. destruct v; by repeat constructor.
Qed.

(** [Type(t.str())] on a well-formed description. *)
Lemma Type_ctor_toks {FP} (t : type_desc FP) :
  wf_desc t = true -> map_ok (properties_ t) ->
  Type_ctor (name_ t ++ toks (str_types_ t) body (properties_ t)) =
  Ret (TypeDesc (name_ t) (properties_ t)
         (types_of (str_types_ t) (properties_ t)) [] []).
Proof.
  unfold wf_desc. intros [Hn Hp]%andb_true_iff Hs. unfold Type_ctor.
  destruct (ok_name_inv _ Hn) as (Hne & _ & Hb & _).
  rewrite escape_raw, escape_toks, regex_tokens_desc by done. cbn [take_name].
  rewrite bool_decide_eq_false_2 by done.
  rewrite parse_toks; [done|done|done|].
  apply Forall_forall. intros it _. by split; constructor.
Qed.

(** The type names recorded by the parser give the same text again. *)
Lemma find_types_of {FP} st (m : list (cstr * any FP)) it :
  map_ok m -> it ∈ m ->
  find it.1 (types_of st m) =
  match it.2 with AString _ => Some (prop_type st it) | _ => None end.
Proof.
  unfold map_ok. induction m as [|it0 m IH]; intros Hs Hin; [by apply not_elem_of_nil in Hin|].
  simpl in Hs. inversion_clear Hs as [|?? Hs' Hall].
  assert (Hnotin : forall k, Forall (str_lt k) (map fst m) -> find k (types_of st m) = None).
  { intros k Hk. apply find_None_lt. clear -Hk. induction m as [|[k0 v0] m IH]; [constructor|].
    simpl in Hk. apply Forall_cons in Hk as [H1 H2]. unfold types_of. simpl.
    destruct v0; simpl; auto. }
  apply elem_of_cons in Hin as [->|Hin].
  - destruct it0 as [k v]. unfold types_of. simpl in *.
    destruct v; simpl; rewrite ?bool_decide_eq_true_2 by done; auto.
  - rewrite <- (IH Hs' Hin). destruct it0 as [k0 v0]. unfold types_of. cbn [flat_map].
    destruct v0; try done. simpl.
    rewrite bool_decide_eq_false_2; [done|]. intros E.
    rewrite Forall_forall in Hall. apply (str_lt_irrefl k0). simpl in Hall.
    rewrite <- E at 2. apply Hall, list_elem_of_fmap. by exists it.
Qed.

Lemma prop_type_types_of {FP} st (m : list (cstr * any FP)) it :
  map_ok m -> it ∈ m -> prop_type (types_of st m) it = prop_type st it.
Proof.
  intros Hs Hin. pose proof (find_types_of st m it Hs Hin) as H.
  destruct it as [k v]. simpl in *. destruct v; try done. by rewrite H.
Qed.

(** ** Properties *)

(** C14: parsing what [str()] prints gives back the name and every property,
    without a parsing error, and printing the parsed description gives the
    same text; for descriptions of [int] and string properties whose strings
    hold no double quote and neither marker word of [escape]. *)
Theorem type_roundtrip {FP} (fts : FP -> cstr) (t : type_desc FP) :
  wf_desc t = true -> map_ok (properties_ t) ->
  exists s t', str fts t = Ret (s, t) /\ Type_ctor s = Ret t' /\
    name t' = name t /\ get_properties t' = get_properties t /\
    parsing_errors_ t' = [] /\ str fts t' = Ret (s, t').
Proof.
  intros Hwf Hs. exists (name_ t ++ toks (str_types_ t) body (properties_ t)).
  eexists. split; [by apply str_ok|]. split; [by apply Type_ctor_toks|].
  split_and!; [done..|]. rewrite str_ok.
  - cbn [name_ str_types_ properties_]. do 3 f_equal. unfold toks.
    apply flat_map_pointwise, Forall_forall. intros it Hin.
    unfold tok. by rewrite prop_type_types_of.
  - unfold wf_desc in *. apply andb_true_iff in Hwf as [Hn Hp].
    cbn [name_ str_types_ properties_]. rewrite Hn. simpl.
    apply forallb_forall. intros it Hin. rewrite forallb_forall in Hp.
    pose proof (Hp it Hin) as Hit. apply list_elem_of_In in Hin.
    pose proof (find_types_of (str_types_ t) _ it Hs Hin) as Hf.
    pose proof (prop_type_types_of (str_types_ t) _ it Hs Hin) as Hpt.
    unfold ok_prop in *. destruct it as [k v]. cbn [fst snd] in *.
    destruct v; try done; [by rewrite Hpt|]. simpl in Hf. rewrite Hf.
    by apply andb_true_iff in Hit as [-> [-> _]%andb_true_iff].
Qed.

Definition type_example : type_desc Empty_set :=
  set_prop $"width" (AInt 4096)
    (set_prop_custom $"pixel-aspect-ratio" $"fraction" $"1/1"
      (set_prop $"label" (AString $"unexpected = comma, (and more)")
        (TypeDesc $"video/x-raw" [] [] [] []))).

Lemma type_roundtrip_witness :
  exists s t', str (fun f : Empty_set => match f with end) type_example = Ret (s, type_example) /\
    Type_ctor s = Ret t' /\ name t' = name type_example /\
    get_properties t' = get_properties type_example /\ parsing_errors_ t' = [] /\
    str (fun f : Empty_set => match f with end) t' = Ret (s, t').
Proof.
  apply (type_roundtrip (fun f : Empty_set => match f with end) type_example).
  - vm_compute. reflexivity.
  - vm_compute. repeat constructor.
Defined.

(** An unquoted property value that is the decimal text of an integer
    becomes an [int] property; one that does not fit an [int] leaves the
    constructor by [std::out_of_range]. *)
Theorem integer_property {FP} (z : Z) :
  @int_or_string FP (to_string z) =
  if ((INT_MIN <=? z) && (z <=? INT_MAX))%Z then Ret (AInt z) else Throw OutOfRange.
Proof.
  assert (Hd : forall y, (0 <= y)%Z -> forallb is_digit (dec y) = true /\ dec y <> []).
  { intros y Hy. destruct (dec_spec y Hy) as (H & Hne & _). by rewrite forallb_Forall'. }
  pose proof (stoi_to_string z) as Hst.
  unfold int_or_string. unfold to_string in *. destruct (Z.ltb_spec z 0) as [Hz|Hz].
  - destruct (Hd (- z)%Z) as [Hdig Hne]; [lia|]. change (is_char "-" "-") with true.
    cbv iota. rewrite Hdig, bool_decide_eq_false_2 by (intros [= ?]; done).
    simpl negb. cbv [andb]. rewrite Hst. by destruct (INT_MIN <=? z)%Z, (z <=? INT_MAX)%Z.
  - destruct (Hd z) as [Hdig Hne]; [lia|]. destruct (dec z) as [|c s] eqn:E; [done|].
    assert (Hc : is_digit c = true).
    { cbn [forallb] in Hdig. by apply andb_true_iff in Hdig as [? _]. }
    assert (Hm : is_char "-" c = false).
    { apply is_char_false. intros ->. done. }
    rewrite Hm, Hdig, bool_decide_eq_false_2.
    + simpl negb. cbv [andb]. rewrite Hst. by destruct (INT_MIN <=? z)%Z, (z <=? INT_MAX)%Z.
    + intros Eq. injection Eq as Ec Es. subst c. discriminate Hc.
Qed.

(** *** Errors of printing and parsing *)

Lemma str_prop_outcome {FP} (fts : FP -> cstr) st k v :
  match str_prop fts st (k, v) with
  | Ret _ => find k st = None \/ exists s, v = AString s
  | Throw e => e = BadAnyCast /\ is_Some (find k st) /\ forall s, v <> AString s
  | _ => False
  end.
Proof.
  unfold str_prop. destruct (find k st); destruct v; simpl; split_and?; try done; eauto.
Qed.

Lemma str_props_outcome {FP} (fts : FP -> cstr) st m :
  match str_props fts st m with
  | Ret _ => forall k v, (k, v) ∈ m -> find k st = None \/ exists s, v = AString s
  | Throw e => e = BadAnyCast /\ exists k v, (k, v) ∈ m /\
      is_Some (find k st) /\ forall s, v <> AString s
  | _ => False end.
Proof.
  induction m as [|[k v] m IH]; simpl; [intros k v Hin; by apply not_elem_of_nil in Hin|].
  pose proof (str_prop_outcome fts st k v) as Ho. unfold str_prop in *.
  destruct (match find k st with Some _ => _ | None => _ end) as [[s e]|x| |]; simpl; try done.
  - destruct (str_props fts st m) as [[s' e']|x| |]; simpl; try done.
    + intros k' v' [[= -> ->]|Hin]%elem_of_cons; eauto.
    + destruct IH as [-> (k' & v' & Hin & H)]. split; [done|].
      exists k', v'. split; [by constructor|done].
  - destruct Ho as (-> & Hf & Hv). split; [done|]. exists k, v. split; [by constructor|done].
Qed.

Lemma str_throws {FP} (fts : FP -> cstr) (t : type_desc FP) k v :
  (k, v) ∈ properties_ t -> is_Some (find k (str_types_ t)) -> (forall s, v <> AString s) ->
  str fts t = Throw BadAnyCast.
Proof.
  intros Hin [ty Hty] Hv. unfold str.
  pose proof (str_props_outcome fts (str_types_ t) (properties_ t)) as H.
  destruct (str_props fts (str_types_ t) (properties_ t)) as [[s e]|x| |]; simpl; try done.
  - destruct (H k v Hin) as [?|[s' ->]]; [congruence|]. by destruct (Hv s').
  - by destruct H as [-> _].
Qed.

(** [str()] throws [std::bad_any_cast] exactly when some property has a
    custom type name and a value that is not a string; otherwise it returns. *)
Theorem str_throws_iff {FP} (fts : FP -> cstr) (t : type_desc FP) :
  (str fts t = Throw BadAnyCast <->
   exists k v, (k, v) ∈ properties_ t /\ is_Some (find k (str_types_ t)) /\
     forall s, v <> AString s) /\
  (str fts t = Throw BadAnyCast \/ exists s t', str fts t = Ret (s, t')).
Proof.
  split; [split; [|intros (k & v & Hin & Hf & Hv); by apply (str_throws fts t k v)]|];
    unfold str; pose proof (str_props_outcome fts (str_types_ t) (properties_ t)) as H;
    destruct (str_props fts (str_types_ t) (properties_ t)) as [[s e]|x| |]; simpl; try done;
    [by destruct H|eauto|destruct H as [-> _]; by left].
Qed.

(** The defect: giving a bound [int] property a custom type name makes every
    later [str()] throw, although [set_prop] reports nothing. *)
Lemma custom_type_on_int_throws {FP} (fts : FP -> cstr) t k z ty v :
  map_ok (properties_ t) -> map_ok (str_types_ t) ->
  get t k = Some (AInt z) ->
  str fts (set_prop_custom k ty v t) = Throw BadAnyCast.
Proof.
  intros Hp Hs Hget. unfold set_prop_custom, set_str_type, set_prop.
  apply (str_throws _ _ k (AInt z)); cbn [properties_ str_types_].
  - rewrite (emplace_bound _ _ _ _ Hget Hp). unfold get in Hget.
    induction (properties_ t) as [|[k' v'] m IH]; [done|]. simpl in Hget.
    case_bool_decide; simplify_eq; [by constructor|]. apply elem_of_cons. right.
    apply IH; [|done]. unfold map_ok in *. simpl in Hp. by inversion Hp.
  - rewrite find_emplace_eq by done. destruct (find _ _); eauto.
  - done.
Qed.

(** On every text, when the constructor returns, both maps of the
    description are in key order without duplicates, as [std::map] keeps
    them, and the setters preserve it. *)
Theorem parsed_maps_ok {FP} (s : cstr) (t : type_desc FP) :
  Type_ctor s = Ret t ->
  (map_ok (properties_ t) /\ map_ok (str_types_ t)) /\
  forall k v ty w,
    map_ok (properties_ (set_prop k v t)) /\
    map_ok (properties_ (set_prop_custom k ty w t)) /\
    map_ok (str_types_ (set_prop_custom k ty w t)).
Proof.
  intros H. assert (Hok : map_ok (properties_ t) /\ map_ok (str_types_ t)).
  { unfold Type_ctor in H. destruct (take_name _) as [n toks].
    assert (H0 : map_ok (properties_ (@TypeDesc FP n [] [] [] [])) /\
                 map_ok (str_types_ (@TypeDesc FP n [] [] [] []))) by (split; constructor).
    revert H H0. generalize (@TypeDesc FP n [] [] [] []).
    induction toks as [|tok toks IH]; intros t0 H H0; simpl in H; [congruence|].
    destruct (parse_token t0 tok) as [t1| | |] eqn:E; try done.
    apply (IH t1 H). clear H IH. unfold parse_token in E.
    repeat (case_match; try done); simplify_eq/=; try done;
      destruct (int_or_string _) as [a| | |]; simplify_eq/=;
      repeat (case_match; try done); simplify_eq/=; destruct_and?; split; auto with shm. }
  split; [done|]. destruct Hok. intros. split_and!; by apply emplace_ok.
Qed.

Lemma parsed_maps_ok_witness :
  exists t : type_desc Empty_set, Type_ctor $"a, w=3, h=(int)4" = Ret t /\
    map_ok (properties_ t) /\ map_ok (str_types_ t).
Proof.
  eexists. split; [vm_compute; reflexivity|].
  apply (parsed_maps_ok $"a, w=3, h=(int)4"). vm_compute. reflexivity.
Defined.

(** A token that is not [param_name=param_value] (after the blanks around
    [=] are removed) adds one parsing error that quotes it and changes
    nothing else; the constructor goes on with the next token. *)
Theorem malformed_token {FP} (t : type_desc FP) (tok : cstr) (toks : list cstr) :
  tok <> [] -> regex_match (regex_replace tok space_rgx $"=") keyval_rgx = false ->
  parse_tokens t (tok :: toks) = parse_tokens (add_parsing_error t tok) toks /\
  get_properties (add_parsing_error t tok) = get_properties t /\
  contains tok (parsing_errors_ (add_parsing_error t tok)) = true.
Proof.
  intros Hne Hm. split_and!.
  - simpl. unfold parse_token. rewrite bool_decide_eq_false_2, Hm by done. done.
  - done.
  - apply contains_spec. unfold add_parsing_error. cbn [parsing_errors_].
    exists (parsing_errors_ t ++
      $"wrong parameter syntax (expecting param_name=param_value, but got "), [].
    rewrite (app_nil_r tok). apply app_assoc.
Qed.

Lemma malformed_token_witness :
  exists t : type_desc Empty_set,
    parse_tokens (TypeDesc $"a" [] [] [] []) [$"oops"; $"w=3"] = Ret t /\
    get t $"w" = Some (AInt 3).
Proof.
  destruct (malformed_token (@TypeDesc Empty_set $"a" [] [] [] []) $"oops" [$"w=3"])
    as [-> _]; [discriminate|vm_compute; reflexivity|].
  eexists. split; vm_compute; reflexivity.
Defined.
