(* ===== verification/PyDatatype.v ===== *)
(** * Type descriptions seen from Python (wrappers/python/pyshmdata.cpp)

    [Reader_parse_datatype] makes a Python dictionary of the description of a
    shmdata.  A dictionary is an association list in insertion order;
    [FP], [stof] and [fdiv] stand for the floating-point part.  Descriptions
    are valid UTF-8, so that [PyUnicode_FromString] does not fail. *)

From S2P Require Import Prelude Regex StdLib TypeDesc TypeRoundtrip.

(** ** std::string *)

(** [s.find(c)]; [None] is [npos]. *)
Fixpoint find_char (c : ascii) (s : cstr) : option nat :=
  match s with
  | [] => None
  | x :: s' => if bool_decide (x = c) then Some 0 else S <$> find_char c s'
  end.

(** [s.substr(pos, n)], [s.replace(pos, n, "")]: [n] is a [size_t]. *)
Definition substr (s : cstr) (pos : nat) (n : Z) : outcome cstr :=
  if (length s <? pos)%nat then Throw OutOfRange
  else Ret (take (Z.to_nat (Z.min n (Z.of_nat (length s)))) (drop pos s)).
Definition erase (s : cstr) (pos : nat) (n : Z) : outcome cstr :=
  if (length s <? pos)%nat then Throw OutOfRange
  else Ret (take pos s ++ drop (pos + Z.to_nat (Z.min n (Z.of_nat (length s)))) s).
Definition npos : Z := (2 ^ 64 - 1)%Z.

(** ** Python values *)

Inductive pyvalue (FP : Type) :=
| PStr (s : cstr)
| PInt (z : Z)
| PFloat (f : FP).
Arguments PStr {FP} s.
Arguments PInt {FP} z.
Arguments PFloat {FP} f.

(** [PyDict_SetItem]: a key that is there keeps its place. *)
Fixpoint dict_set {V} (k : cstr) (v : V) (d : list (cstr * V)) : list (cstr * V) :=
  match d with
  | [] => [(k, v)]
  | (k', v') :: d' => if bool_decide (k = k') then (k, v) :: d' else (k', v') :: dict_set k v d'
  end.

(** [Py_BuildValue("I", i)]: the argument is read as an [unsigned int]. *)
Definition build_unsigned (z : Z) : Z := (z mod 2 ^ 32)%Z.

Section parse.
Context {FP : Type} (stof : cstr -> outcome FP) (fdiv : FP -> FP -> FP).

(** The first loop: spaces are removed one by one. *)
Fixpoint remove_spaces (fuel : nat) (datatype : cstr) : outcome cstr :=
  match find_char " " datatype with
  | None => Ret datatype
  | Some space_pos =>
      match fuel with
      | O => Sleep
      | S fuel' => d ← erase datatype space_pos 1; remove_spaces fuel' d
      end
  end.

(** The value of a fraction, numerator and denominator exchanged in the names
    of the code. *)
Definition parse_fraction (val : cstr) : outcome FP :=
  a ← (match find_char "/" val with
       | Some p => substr val 0 (Z.of_nat p) | None => substr val 0 npos end);
  denominator ← stof a;
  b ← (match find_char "/" val with
       | Some p => substr val (p + 1) npos | None => substr val 0 npos end);
  numerator ← stof b;
  Ret (fdiv denominator numerator).

(** Lines 508 to 526. *)
Definition parse_value (val : cstr) : outcome (pyvalue FP) :=
  match find_char "(" val, find_char ")" val with
  | Some open_parenthesis, Some close_parenthesis =>
      ty ← substr val (open_parenthesis + 1) (to_size_t (Z.of_nat close_parenthesis - 1));
      rest ← erase val open_parenthesis
               (to_size_t (Z.of_nat close_parenthesis - Z.of_nat open_parenthesis + 1));
      if bool_decide (ty = $"int") then z ← stoi rest; Ret (PInt (build_unsigned z))
      else if bool_decide (ty = $"fraction") then f ← parse_fraction rest; Ret (PFloat f)
      else Ret (PStr rest)
  | _, _ => Ret (PStr val)
  end.

(** Lines 495 to 532. *)
Definition parse_item (sub : cstr) (dict : list (cstr * pyvalue FP))
  : outcome (list (cstr * pyvalue FP)) :=
  match find_char "=" sub with
  | None => Ret (dict_set $"type" (PStr sub) dict)
  | Some equal_pos =>
      val ← substr sub (equal_pos + 1) npos;
      key ← (if bool_decide (head sub = Some " "%char) then substr sub 1 (Z.of_nat equal_pos)
             else substr sub 0 (Z.of_nat equal_pos));
      value ← parse_value val;
      Ret (dict_set key value dict)
  end.

(** [while (!datatype.empty())] *)
Fixpoint parse_items (fuel : nat) (datatype : cstr) (dict : list (cstr * pyvalue FP))
  : outcome (list (cstr * pyvalue FP)) :=
  match datatype with
  | [] => Ret dict
  | _ =>
      match fuel with
      | O => Sleep
      | S fuel' =>
          '(sub, rest) ← (match find_char "," datatype with
                          | None => Ret (datatype, [])
                          | Some comma_pos =>
                              a ← substr datatype 0 (Z.of_nat comma_pos);
                              b ← substr datatype (comma_pos + 1) npos;
                              Ret (a, b)
                          end);
          dict' ← parse_item sub dict;
          parse_items fuel' rest dict'
      end
  end.

(** [Sleep], a loop that does not end, does not occur
    ([parse_datatype_tokens]). *)
Definition Reader_parse_datatype (type_descr : cstr) : outcome (list (cstr * pyvalue FP)) :=
  datatype ← remove_spaces (length type_descr) type_descr;
  parse_items (length datatype) datatype [].
End parse.

(** ** Reference definitions *)

(** The items between commas; nothing after a final comma. *)
Fixpoint items (cur s : cstr) : list cstr :=
  match s with
  | [] => if bool_decide (cur = []) then [] else [cur]
  | c :: s' => if is_char "," c then cur :: items [] s' else items (cur ++ [c]) s'
  end.
Definition no_space (s : cstr) : cstr := filter (fun c => c <> " "%char) s.

Section reference.
Context {FP : Type} (stof : cstr -> outcome FP) (fdiv : FP -> FP -> FP).

Fixpoint parse_all (toks : list cstr) (dict : list (cstr * pyvalue FP))
  : outcome (list (cstr * pyvalue FP)) :=
  match toks with
  | [] => Ret dict
  | tok :: toks' => d ← parse_item stof fdiv tok dict; parse_all toks' d
  end.

(** The value a property of type [ty] printed as [b] has in Python. *)
Definition py_value (ty b : cstr) : outcome (pyvalue FP) :=
  if bool_decide (ty = $"int") then z ← stoi b; Ret (PInt (z mod 2 ^ 32)%Z)
  else if bool_decide (ty = $"fraction") then f ← parse_fraction stof fdiv b; Ret (PFloat f)
  else Ret (PStr b).

Fixpoint py_properties (st : list (cstr * cstr)) (m : list (cstr * any FP))
  (dict : list (cstr * pyvalue FP)) : outcome (list (cstr * pyvalue FP)) :=
  match m with
  | [] => Ret dict
  | it :: m' => v ← py_value (prop_type st it) (body it); py_properties st m' (dict_set it.1 v dict)
  end.
End reference.

(** A string without commas, equal signs, parentheses, spaces, quotes. *)
Definition plain_char (c : ascii) : bool :=
  negb (special c) && negb (is_char " " c) && negb (is_char dquote c) && negb (is_char bs c).
Definition plain_prop {FP} (it : cstr * any FP) : bool :=
  match it.2 with AString s => forallb plain_char s | _ => true end.

(** ** Lemmas on searches *)

Lemma find_char_skip c u v :
  Forall (fun x => x <> c) u -> find_char c (u ++ c :: v) = Some (length u).
Proof.
  induction 1 as [|x u Hx Hu IH]; simpl; [by rewrite bool_decide_eq_true_2|].
  by rewrite bool_decide_eq_false_2, IH.
Qed.

Lemma find_char_none c u : Forall (fun x => x <> c) u -> find_char c u = None.
Proof. induction 1 as [|x u Hx Hu IH]; simpl; [done|]. by rewrite bool_decide_eq_false_2, IH. Qed.

Lemma find_char_spec c s :
  match find_char c s with
  | None => Forall (fun x => x <> c) s
  | Some p => exists u v, s = u ++ c :: v /\ length u = p /\ Forall (fun x => x <> c) u
  end.
Proof.
  induction s as [|x s IH]; simpl; [constructor|]. case_bool_decide as Hx.
  - subst x. by exists [], s.
  - destruct (find_char c s) as [p|]; simpl; [|by constructor].
    destruct IH as (u & v & -> & <- & Hu). exists (x :: u), v.
    split; [done|]. split; [done|]. by constructor.
Qed.

Lemma substr_middle u w v :
  substr (u ++ w ++ v) (length u) (Z.of_nat (length w)) = Ret w.
Proof.
  unfold substr. rewrite !length_app.
  destruct (Nat.ltb_spec (length u + (length w + length v)) (length u)); [lia|].
  rewrite Z.min_l, Nat2Z.id by lia. by rewrite drop_app_length, take_app_length.
Qed.

Lemma substr_prefix u v : substr (u ++ v) 0 (Z.of_nat (length u)) = Ret u.
Proof. apply (substr_middle [] u v). Qed.

Lemma substr_suffix u v :
  (Z.of_nat (length (u ++ v)) <= npos)%Z -> substr (u ++ v) (length u) npos = Ret v.
Proof.
  intros Hl. unfold substr. rewrite length_app in *.
  destruct (Nat.ltb_spec (length u + length v) (length u)); [lia|].
  rewrite Z.min_r, Nat2Z.id by lia. rewrite drop_app_length, take_ge; [done|lia].
Qed.

Lemma erase_middle u w v :
  erase (u ++ w ++ v) (length u) (Z.of_nat (length w)) = Ret (u ++ v).
Proof.
  unfold erase. rewrite !length_app.
  destruct (Nat.ltb_spec (length u + (length w + length v)) (length u)); [lia|].
  rewrite Z.min_l, Nat2Z.id by lia. rewrite take_app_length, app_assoc.
  rewrite <- length_app, drop_app_length. done.
Qed.

(** ** The loops *)

Lemma no_space_app u v : no_space (u ++ v) = no_space u ++ no_space v.
Proof. apply filter_app. Qed.

Lemma no_space_id u : Forall (fun c => c <> " "%char) u -> no_space u = u.
Proof.
  intros Hu. apply filter_all. intros c Hc. rewrite Forall_forall in Hu. by apply Hu.
Qed.

Lemma remove_spaces_eq fuel s : length s <= fuel -> remove_spaces fuel s = Ret (no_space s).
Proof.
  revert s. induction fuel as [|fuel IH]; intros s Hs; simpl;
    pose proof (find_char_spec " " s) as Hf; destruct (find_char " " s) as [p|];
    try by rewrite no_space_id.
  - destruct Hf as (u & v & -> & _). rewrite length_app in Hs. simpl in Hs. lia.
  - destruct Hf as (u & v & -> & <- & Hu).
    change (erase _ _ 1%Z) with
      (erase (u ++ [" "%char] ++ v) (length u) (Z.of_nat (length [" "%char]))).
    rewrite erase_middle. simpl. rewrite IH.
    + by rewrite !no_space_app.
    + rewrite length_app in *. simpl in Hs. lia.
Qed.

Lemma items_cons cur u v :
  Forall (fun x => x <> ","%char) u -> items cur (u ++ ","%char :: v) = (cur ++ u) :: items [] v.
Proof.
  intros Hu. revert cur. induction Hu as [|x u Hx Hu IH]; intros cur; simpl.
  - by rewrite app_nil_r.
  - unfold is_char. rewrite bool_decide_eq_false_2 by done. by rewrite IH, <- app_assoc.
Qed.

Lemma items_last cur u :
  Forall (fun x => x <> ","%char) u -> cur ++ u <> [] -> items cur u = [cur ++ u].
Proof.
  intros Hu. revert cur. induction Hu as [|x u Hx Hu IH]; intros cur Hne; simpl.
  - rewrite app_nil_r in *. by rewrite bool_decide_eq_false_2.
  - unfold is_char. rewrite bool_decide_eq_false_2 by done.
    by rewrite IH, <- app_assoc by (by rewrite <- app_assoc).
Qed.

Section loops.
Context {FP : Type} (stof : cstr -> outcome FP) (fdiv : FP -> FP -> FP).

Lemma parse_items_eq fuel s dict :
  length s <= fuel -> (Z.of_nat (length s) <= npos)%Z ->
  parse_items stof fdiv fuel s dict = parse_all stof fdiv (items [] s) dict.
Proof.
  revert s dict. induction fuel as [|fuel IH]; intros s dict Hs Hn.
  { destruct s; [done|simpl in Hs; lia]. }
  destruct s as [|c s0] eqn:E; [done|]. rewrite <- E in *. cbn [parse_items].
  assert (Hbody : forall sub rest, length rest < length s ->
    items [] s = sub :: items [] rest ->
    (dict' ← parse_item stof fdiv sub dict; parse_items stof fdiv fuel rest dict') =
    parse_all stof fdiv (items [] s) dict).
  { intros sub rest Hl ->. cbn [parse_all]. destruct (parse_item _ _ _ _); simpl; [|done..].
    apply IH; lia. }
  pose proof (find_char_spec "," s) as Hf. rewrite E at 1. cbv iota.
  destruct (find_char "," s) as [p|].
  - destruct Hf as (u & v & Es & <- & Hu). rewrite Es in *. rewrite substr_prefix. simpl.
    replace (length u + 1)%nat with (length (u ++ [","%char])) by (rewrite length_app; simpl; lia).
    replace (u ++ ","%char :: v) with ((u ++ [","%char]) ++ v) in Hn |- * by (by rewrite <- app_assoc).
    rewrite substr_suffix by done. simpl. rewrite <- app_assoc. simpl.
    apply Hbody; [rewrite length_app; simpl; lia|]. by rewrite items_cons.
  - simpl. apply Hbody; [by rewrite E; simpl; lia|]. by rewrite items_last; [|done|by rewrite E].
Qed.

Lemma parse_all_app toks toks' dict :
  parse_all stof fdiv (toks ++ toks') dict =
  (d ← parse_all stof fdiv toks dict; parse_all stof fdiv toks' d).
Proof.
  revert dict. induction toks as [|tok toks IH]; intros dict; simpl; [done|].
  destruct (parse_item _ _ _ _); simpl; [apply IH|done..].
Qed.

Lemma parse_datatype_eq s :
  (Z.of_nat (length s) <= npos)%Z ->
  Reader_parse_datatype stof fdiv s = parse_all stof fdiv (items [] (no_space s)) [].
Proof.
  intros Hs. unfold Reader_parse_datatype. rewrite remove_spaces_eq by done. simpl.
  apply parse_items_eq; [done|]. pose proof (length_filter (fun c => c <> " "%char) s).
  unfold no_space. lia.
Qed.

(** [Reader_parse_datatype] ends, and is the left-to-right parse of the
    comma-separated items of the text without its spaces, for any text that
    fits in memory. *)
Theorem parse_datatype_tokens s :
  (Z.of_nat (length s) <= npos)%Z ->
  Reader_parse_datatype stof fdiv s = parse_all stof fdiv (items [] (no_space s)) [].
Proof. apply parse_datatype_eq. Qed.
End loops.

(** ** Agreement with the C++ description *)

Lemma key_plain c : is_key_char c = true -> plain_char c = true.
Proof. revert c. all_chars. Qed.

Lemma plain_not c x :
  plain_char c = true -> plain_char x = false -> c <> x.
Proof. by intros Hc Hx ->; rewrite Hc in Hx. Qed.

Lemma plain_all u x :
  forallb plain_char u = true -> plain_char x = false -> Forall (fun c => c <> x) u.
Proof.
  intros Hu Hx. apply (Forall_ascii plain_char); [|done]. intros c Hc. by apply (plain_not c x).
Qed.

Lemma plain_body {FP} (it : cstr * any FP) :
  plain_prop it = true -> (match it.2 with AString _ | AInt _ => True | _ => False end) ->
  forallb plain_char (body it) = true.
Proof.
  unfold plain_prop, body. destruct it.2 as [s|z|z|z|z|z|z|f|f|f|ty]; try done; intros Hp _.
  - assert (Hq : quoted s = s).
    { unfold quoted. destruct (existsb _ s) eqn:E; [|done].
      apply existsb_exists in E as (c & Hc & Hi). rewrite forallb_forall in Hp.
      specialize (Hp c Hc). revert Hp Hi. revert c Hc. clear. intros c _. revert c. all_chars. }
    rewrite Hq. clear Hq. induction s as [|c s IH]; [done|]. simpl in *.
    apply andb_true_iff in Hp as [Hc Hp]. unfold ser_enc at 1.
    assert (Hs : special c = false).
    { unfold plain_char in Hc. destruct (special c); [done|done]. }
    rewrite Hs. simpl. by rewrite Hc, IH.
  - eapply forallb_impl; [|apply to_string_key]. intros c. apply key_plain.
Qed.

Section agreement.
Context {FP : Type} (stof : cstr -> outcome FP) (fdiv : FP -> FP -> FP).

Lemma parse_value_typed ty b :
  forallb is_word ty = true -> forallb plain_char b = true ->
  (Z.of_nat (length ($"(" ++ ty ++ $")" ++ b)) <= npos)%Z ->
  parse_value stof fdiv ($"(" ++ ty ++ $")" ++ b) = py_value stof fdiv ty b.
Proof.
  intros Hty Hb Hn. unfold parse_value.
  assert (Hty' : forallb plain_char ty = true).
  { eapply forallb_impl; [|exact Hty]. intros c Hc. by apply key_plain, word_key. }
  assert (Hc : find_char ")" ($"(" ++ ty ++ $")" ++ b) = Some (S (length ty))).
  { apply (find_char_skip ")" ("("%char :: ty) b). constructor; [done|]. by apply plain_all. }
  rewrite Hc. cbn [find_char app String.list_ascii_of_string].
  rewrite bool_decide_eq_true_2 by done. cbv iota.
  rewrite !length_app in Hn. cbn [length String.list_ascii_of_string] in Hn.
  unfold npos in Hn. unfold to_size_t. rewrite !Z.mod_small by lia.
  pose proof (substr_middle $"(" ty ($")" ++ b)) as Hsub.
  pose proof (erase_middle [] ($"(" ++ ty ++ $")") b) as Her.
  rewrite !length_app in Her. rewrite <- !app_assoc in Her.
  cbn [app length String.list_ascii_of_string] in Hsub, Her.
  replace (Z.of_nat (S (length ty)) - 1)%Z with (Z.of_nat (length ty)) by lia.
  replace (Z.of_nat (S (length ty)) - Z.of_nat 0 + 1)%Z
    with (Z.of_nat (1 + (length ty + 1))) by lia.
  change (0 + 1)%nat with 1%nat. rewrite Hsub. cbn [mbind outcome_bind]. by rewrite Her.
Qed.

Lemma parse_item_typed k ty b dict :
  ok_key k = true -> forallb is_word ty = true -> forallb plain_char b = true ->
  (Z.of_nat (length (k ++ $"=(" ++ ty ++ $")" ++ b)) <= npos)%Z ->
  parse_item stof fdiv (k ++ $"=(" ++ ty ++ $")" ++ b) dict =
  (v ← py_value stof fdiv ty b; Ret (dict_set k v dict)).
Proof.
  intros [Hne Hk]%ok_key_inv Hty Hb Hn. unfold parse_item.
  assert (Hk' : Forall (fun c => c <> "="%char) k).
  { apply plain_all; [|done]. eapply forallb_impl; [|exact Hk]. intros c. apply key_plain. }
  change (k ++ $"=(" ++ ty ++ $")" ++ b) with (k ++ "="%char :: $"(" ++ ty ++ $")" ++ b) in *.
  rewrite find_char_skip by done. rewrite substr_prefix.
  replace (length k + 1)%nat with (length (k ++ $"=")) by (rewrite length_app; simpl; lia).
  replace (k ++ "="%char :: $"(" ++ ty ++ $")" ++ b)
    with ((k ++ $"=") ++ $"(" ++ ty ++ $")" ++ b) in * by (by rewrite <- app_assoc).
  rewrite substr_suffix by done. rewrite bool_decide_eq_false_2.
  - cbn [mbind outcome_bind]. rewrite parse_value_typed; [done..|]. rewrite length_app in Hn. lia.
  - destruct k as [|c k]; [done|]. cbn [forallb] in Hk. apply andb_true_iff in Hk as [Hc _].
    simpl. intros [= ->]. discriminate Hc.
Qed.

(** The printed tokens of a plain description. *)
Lemma tok_plain st (it : cstr * any FP) x :
  ok_prop st it = true -> plain_prop it = true -> plain_char x = false ->
  x <> "="%char -> x <> "("%char -> x <> ")"%char ->
  Forall (fun c => c <> x) (tok st body it).
Proof.
  intros Hit Hp Hx H1 H2 H3. pose proof (prop_type_word st it Hit) as [_ Hty].
  pose proof (ok_prop_cases st it Hit) as [[_ Hk]%ok_key_inv Hv].
  unfold tok. rewrite !Forall_app. split_and!.
  - apply plain_all; [|done]. eapply forallb_impl; [|exact Hk]. intros c. apply key_plain.
  - repeat constructor; congruence.
  - apply plain_all; [|done]. eapply forallb_impl; [|exact Hty]. intros c Hc. by apply key_plain, word_key.
  - repeat constructor; congruence.
  - apply plain_all; [|done]. apply plain_body; [done|].
    by destruct Hv as [(s & -> & _)|(z & -> & _)].
Qed.

Lemma no_space_toks st (m : list (cstr * any FP)) :
  forallb (ok_prop st) m = true -> forallb plain_prop m = true ->
  no_space (toks st body m) = flat_map (fun it => ","%char :: tok st body it) m.
Proof.
  induction m as [|it m IH]; [done|]. cbn [forallb].
  intros [Hi Hm]%andb_true_iff [Hp Hpm]%andb_true_iff.
  unfold toks. cbn [flat_map]. rewrite !no_space_app. fold (toks st body m).
  rewrite IH by done. rewrite (no_space_id (tok st body it)); [done|]. by apply tok_plain.
Qed.

Lemma items_toks st u (m : list (cstr * any FP)) :
  forallb (ok_prop st) m = true -> forallb plain_prop m = true ->
  Forall (fun c => c <> ","%char) u -> u <> [] ->
  items [] (u ++ flat_map (fun it => ","%char :: tok st body it) m) = u :: map (tok st body) m.
Proof.
  revert u. induction m as [|it m IH]; intros u; simpl.
  - intros _ _ Hu Hne. rewrite app_nil_r. by rewrite items_last.
  - intros [Hi Hm]%andb_true_iff [Hp Hpm]%andb_true_iff Hu Hne.
    rewrite items_cons by done. rewrite IH; [done|done|done|by apply tok_plain|].
    unfold tok. by destruct (it.1).
Qed.

Lemma parse_all_toks st (m : list (cstr * any FP)) dict :
  forallb (ok_prop st) m = true -> forallb plain_prop m = true ->
  Forall (fun it => Z.of_nat (length (tok st body it)) <= npos)%Z m ->
  parse_all stof fdiv (map (tok st body) m) dict = py_properties stof fdiv st m dict.
Proof.
  revert dict. induction m as [|it m IH]; intros dict; [done|]. cbn [forallb map parse_all py_properties].
  intros [Hi Hm]%andb_true_iff [Hp Hpm]%andb_true_iff [Hl Hlm]%Forall_cons.
  pose proof (prop_type_word st it Hi) as [_ Hty].
  pose proof (ok_prop_cases st it Hi) as [Hk Hv].
  change (tok st body it) with (it.1 ++ $"=(" ++ prop_type st it ++ $")" ++ body it). rewrite parse_item_typed; [|done|done| |done].
  - destruct (py_value _ _ _ _); simpl; [by apply IH|done..].
  - apply plain_body; [done|]. by destruct Hv as [(s & -> & _)|(z & -> & _)].
Qed.

Lemma tok_length st (it : cstr * any FP) m :
  it ∈ m -> length (tok st body it) <= length (toks st body m).
Proof.
  induction m as [|it0 m IH]; intros Hit; [by apply not_elem_of_nil in Hit|].
  unfold toks. cbn [flat_map]. rewrite !length_app. fold (toks st body m).
  apply elem_of_cons in Hit as [->|Hit]; [lia|]. specialize (IH Hit). lia.
Qed.

(** C21: on the text that [Type::str] prints for a description whose strings
    are plain, Python's dictionary has the name under type, and property by
    property the value of the C++ description: strings unchanged, an [int]
    modulo 2^32, a fraction as its quotient. *)
Theorem python_reads_description (fts : FP -> cstr) (t : type_desc FP) :
  wf_desc t = true -> forallb plain_prop (properties_ t) = true ->
  Forall (fun c => c <> "="%char) (name_ t) ->
  exists s, str fts t = Ret (s, t) /\
    ((Z.of_nat (length s) <= npos)%Z ->
     Reader_parse_datatype stof fdiv s =
     py_properties stof fdiv (str_types_ t) (properties_ t) [($"type", PStr (no_space (name_ t)))]).
Proof.
  intros Hwf Hp Heq. exists (name_ t ++ toks (str_types_ t) body (properties_ t)).
  split; [by apply str_ok|]. intros Hn. rewrite parse_datatype_eq by done.
  unfold wf_desc in Hwf. apply andb_true_iff in Hwf as [Hname Hprops].
  apply ok_name_inv in Hname as (Hne & Hcomma & _ & Hlast).
  rewrite no_space_app, no_space_toks by done.
  assert (Hne' : no_space (name_ t) <> []).
  { destruct (name_ t) as [|c u _] using rev_ind; [done|]. rewrite last_snoc in Hlast.
    rewrite no_space_app. unfold no_space at 2. rewrite filter_cons_True by congruence.
    intros E%app_nil. by destruct E. }
  assert (Hsub : forall x, Forall (fun c => c <> x) (name_ t) ->
    Forall (fun c => c <> x) (no_space (name_ t))).
  { intros x Hx. apply Forall_forall. intros c [_ Hc]%list_elem_of_filter.
    rewrite Forall_forall in Hx. by apply Hx. }
  rewrite items_toks by auto. cbn [parse_all]. unfold parse_item at 1.
  rewrite find_char_none by auto. cbn [mbind outcome_bind dict_set].
  apply parse_all_toks; [done|done|]. apply Forall_forall. intros it Hit.
  pose proof (tok_length (str_types_ t) it (properties_ t) Hit) as Ht.
  rewrite length_app in Hn. lia.
Qed.
End agreement.

(** ** A concrete description

    The [int] -5 of the C++ description is 4294967291 in Python. *)

Definition py_example : type_desc Empty_set :=
  set_prop $"width" (AInt 512)
    (set_prop $"offset" (AInt (-5))
      (set_prop $"format" (AString $"RGBA") (TypeDesc $"video/x-raw" [] [] [] []))).
Definition no_stof (s : cstr) : outcome Empty_set := Throw InvalidArgument.
Definition no_fdiv (a b : Empty_set) : Empty_set := a.

Lemma python_reads_description_witness : exists s,
  str (fun f : Empty_set => match f with end) py_example = Ret (s, py_example) /\
  Reader_parse_datatype no_stof no_fdiv s =
    Ret [($"type", PStr $"video/x-raw"); ($"format", PStr $"RGBA");
         ($"offset", PInt 4294967291); ($"width", PInt 512)].
Proof.
  destruct (python_reads_description no_stof no_fdiv (fun f : Empty_set => match f with end)
    py_example) as (s & E & H); [reflexivity|reflexivity|by repeat constructor|].
  exists s. split; [exact E|]. rewrite H; [reflexivity|].
  vm_compute in E. injection E as <-. by vm_compute.
Defined.

Lemma parse_datatype_tokens_witness :
  Reader_parse_datatype no_stof no_fdiv $"audio/x-raw , rate = (int)44100,," =
    parse_all no_stof no_fdiv [ $"audio/x-raw"; $"rate=(int)44100"; [] ] [] /\
  parse_all no_stof no_fdiv [ $"audio/x-raw"; $"rate=(int)44100"; [] ] [] =
    Ret [($"type", PStr []); ($"rate", PInt 44100)].
Proof.
  split; [|reflexivity].
  apply (parse_datatype_tokens no_stof no_fdiv $"audio/x-raw , rate = (int)44100,,").
  by vm_compute.
Defined.
