(* ===== verification/SocketProtocol.v ===== *)
(** * Messages of the socket protocol (unix-socket-protocol.hpp, .cpp)

    The three messages as C++ objects and as bytes on the stream: they are
    sent and received as object representations (64-bit little-endian
    machine), so the padding after the two bytes of [msg_type_] is a field of
    the model. *)

From S2P Require Import Prelude.

(** ** Little-endian integers *)

Definition byte_of (z : Z) : ascii := ascii_of_N (Z.to_N (z mod 256)).
Definition byte_val (b : ascii) : Z := Z.of_N (N_of_ascii b).

Fixpoint le (n : nat) (z : Z) : cstr :=
  match n with
  | O => []
  | S n' => byte_of z :: le n' (z / 256)
  end.

Fixpoint le_val (bs : cstr) : Z :=
  match bs with
  | [] => 0
  | b :: bs' => byte_val b + 256 * le_val bs'
  end%Z.

(** ** The messages *)

Definition user_data_size : nat := 4096.

(** [user_data_] has [user_data_size] bytes, the paddings have 6. *)
Record onConnectData := OnConnectData {
  cd_msg_type_ : Z; cd_pad : cstr; shm_size_ : Z; user_data_ : cstr }.
Record UpdateMsg := mkUpdateMsg { um_msg_type_ : Z; um_pad : cstr; um_size_ : Z }.
Record QuitMsg := mkQuitMsg { qm_msg_type_ : Z }.

(** [std::array<char, 4096>{{}}] *)
Definition zeros (n : nat) : cstr := replicate n Ascii.zero.

(** [onConnectData::onConnectData(shm_size, user_data)]: [std::copy] and the
    store of the final 0 are undefined outside the array. *)
Definition onConnectData_ctor (pad : cstr) (shm_size : Z) (user_data : cstr)
  : outcome onConnectData :=
  let size := length user_data in
  if (size <? user_data_size)%nat
  then Ret (OnConnectData 0 pad shm_size
              (<[size := Ascii.zero]> (user_data ++ drop size (zeros user_data_size))))
  else Undef.

(** The default constructors. *)
Definition default_connect (pad : cstr) : onConnectData :=
  OnConnectData 0 pad 0 (zeros user_data_size).
Definition default_update (pad : cstr) : UpdateMsg := mkUpdateMsg 1 pad 0.
Definition quit_msg : QuitMsg := mkQuitMsg 2.

(** ** Object representations *)

Definition connect_bytes (d : onConnectData) : cstr :=
  le 2 (cd_msg_type_ d) ++ cd_pad d ++ le 8 (shm_size_ d) ++ user_data_ d.
Definition update_bytes (m : UpdateMsg) : cstr :=
  le 2 (um_msg_type_ m) ++ um_pad m ++ le 8 (um_size_ m).
Definition quit_bytes (m : QuitMsg) : cstr := le 2 (qm_msg_type_ m).

Definition sizeof_connect : nat := 16 + user_data_size.
Definition sizeof_update : nat := 16.
Definition sizeof_quit : nat := 2.

Definition connect_of (mem : cstr) : onConnectData :=
  OnConnectData (le_val (take 2 mem)) (take 6 (drop 2 mem)) (le_val (take 8 (drop 8 mem)))
    (drop 16 mem).
Definition update_of (mem : cstr) : UpdateMsg :=
  mkUpdateMsg (le_val (take 2 mem)) (take 6 (drop 2 mem)) (le_val (take 8 (drop 8 mem))).

(** [read(fd, &object, sizeof(object))] that got [bs]. *)
Definition overwrite (bs mem : cstr) : cstr := bs ++ drop (length bs) mem.
Definition read_connect (bs : cstr) (d : onConnectData) : onConnectData :=
  connect_of (overwrite bs (connect_bytes d)).
Definition read_update (bs : cstr) (m : UpdateMsg) : UpdateMsg :=
  update_of (overwrite bs (update_bytes m)).

(** What the client does with a message ([server_interaction]). *)
Inductive event := EUpdate (size : Z) | EQuit | EOther.
Definition event_of (m : UpdateMsg) : event :=
  if (um_msg_type_ m =? 1)%Z then EUpdate (um_size_ m)
  else if (um_msg_type_ m =? 2)%Z then EQuit else EOther.

(** The events a connected client sees on a stream of bytes, one [read] of
    [sizeof_update] bytes per event, until a quit or the end of the stream.
    [fuel] bounds the number of reads. *)
Fixpoint events (fuel : nat) (m : UpdateMsg) (stream : cstr) : list event :=
  match fuel, stream with
  | S fuel', _ :: _ =>
      let m' := read_update (take sizeof_update stream) m in
      event_of m' ::
      match event_of m' with
      | EQuit => []
      | _ => events fuel' m' (drop sizeof_update stream)
      end
  | _, _ => []
  end.

(** The bytes of consecutive update messages. *)
Fixpoint update_stream (pad : cstr) (sizes : list Z) : cstr :=
  match sizes with
  | [] => []
  | z :: sizes' => update_bytes (mkUpdateMsg 1 pad z) ++ update_stream pad sizes'
  end.

(** ** Lemmas *)

Lemma byte_val_of z : byte_val (byte_of z) = (z mod 256)%Z.
Proof.
  unfold byte_val, byte_of. pose proof (Z.mod_pos_bound z 256 ltac:(lia)) as Hb.
  rewrite N_ascii_embedding; [by rewrite Z2N.id by lia|].
  change 256%N with (Z.to_N 256). apply Z2N.inj_lt; lia.
Qed.

Lemma byte_val_range b : (0 <= byte_val b < 256)%Z.
Proof. unfold byte_val. pose proof (N_ascii_bounded b). lia. Qed.

Lemma byte_of_val b : byte_of (byte_val b) = b.
Proof.
  unfold byte_of. rewrite Z.mod_small by apply byte_val_range.
  unfold byte_val. rewrite N2Z.id. apply ascii_N_embedding.
Qed.

Lemma length_le n z : length (le n z) = n.
Proof. revert z. induction n; simpl; auto. Qed.

Lemma le_val_le n z : le_val (le n z) = (z mod 256 ^ Z.of_nat n)%Z.
Proof.
  revert z. induction n as [|n IH]; intros z.
  - simpl. by rewrite Z.mod_1_r.
  - cbn [le le_val]. rewrite byte_val_of, IH, Nat2Z.inj_succ, Z.pow_succ_r by lia.
    rewrite Z.rem_mul_r; [done|lia|]. apply Z.pow_pos_nonneg; lia.
Qed.

Lemma le_val_small n z : (0 <= z < 256 ^ Z.of_nat n)%Z -> le_val (le n z) = z.
Proof. intros Hz. by rewrite le_val_le, Z.mod_small. Qed.

Lemma le_le_val bs : le (length bs) (le_val bs) = bs.
Proof.
  induction bs as [|b bs IH]; [done|]. cbn [length le le_val].
  pose proof (byte_val_range b). f_equal.
  - transitivity (byte_of (byte_val b)); [|apply byte_of_val].
    unfold byte_of. by rewrite (Z.mul_comm 256), Z.mod_add by lia.
  - rewrite (Z.mul_comm 256), Z.div_add, Z.div_small by lia. exact IH.
Qed.

(** An object of exact size is overwritten completely. *)
Lemma overwrite_all bs mem : length mem <= length bs -> overwrite bs mem = bs.
Proof. intros Hl. unfold overwrite. by rewrite drop_ge, app_nil_r. Qed.

Section fields.
Context (t pad n : cstr).
Hypothesis Ht : length t = 2.
Hypothesis Hpad : length pad = 6.
Hypothesis Hn : length n = 8.

Lemma field_type rest : take 2 (t ++ pad ++ n ++ rest) = t.
Proof using Ht. by rewrite take_app_length'. Qed.
Lemma field_pad rest : take 6 (drop 2 (t ++ pad ++ n ++ rest)) = pad.
Proof using Ht Hpad. by rewrite drop_app_length', take_app_length'. Qed.
Lemma field_size rest : take 8 (drop 8 (t ++ pad ++ n ++ rest)) = n.
Proof using Ht Hpad Hn.
  rewrite (app_assoc t pad), drop_app_length', take_app_length'; [done..|].
  rewrite length_app. lia.
Qed.
Lemma field_rest rest : drop 16 (t ++ pad ++ n ++ rest) = rest.
Proof using Ht Hpad Hn.
  rewrite (app_assoc t pad), (app_assoc (t ++ pad)), drop_app_length'; [done|].
  rewrite !length_app. lia.
Qed.
End fields.

Lemma update_of_bytes m :
  (0 <= um_msg_type_ m < 65536)%Z -> length (um_pad m) = 6 -> (0 <= um_size_ m < 2 ^ 64)%Z ->
  update_of (update_bytes m) = m.
Proof.
  intros Ht Hp Hs. destruct m as [t p z]. unfold update_of, update_bytes.
  cbn [um_msg_type_ um_pad um_size_] in *.
  rewrite <- (app_nil_r (le 8 z)).
  rewrite field_type, field_pad, field_size by (done || apply length_le).
  by rewrite !le_val_small.
Qed.

Lemma connect_of_bytes d :
  (0 <= cd_msg_type_ d < 65536)%Z -> length (cd_pad d) = 6 -> (0 <= shm_size_ d < 2 ^ 64)%Z ->
  connect_of (connect_bytes d) = d.
Proof.
  intros Ht Hp Hs. destruct d as [t p z u]. unfold connect_of, connect_bytes.
  cbn [cd_msg_type_ cd_pad shm_size_ user_data_] in *.
  rewrite field_type, field_pad, field_size, field_rest by (done || apply length_le).
  by rewrite !le_val_small.
Qed.

Lemma length_update_bytes m : length (um_pad m) = 6 -> length (update_bytes m) = sizeof_update.
Proof.
  intros Hp. unfold update_bytes, sizeof_update. rewrite !length_app, !length_le. lia.
Qed.

Lemma c_str_app s rest : Ascii.zero ∉ s -> c_str (s ++ Ascii.zero :: rest) = s.
Proof.
  induction s as [|c s IH]; [done|]. rewrite not_elem_of_cons. intros [Hne Hs]. simpl.
  rewrite bool_decide_eq_false_2 by congruence. by rewrite IH.
Qed.

Lemma ctor_user_data pad size text :
  length text < user_data_size ->
  onConnectData_ctor pad size text =
  Ret (OnConnectData 0 pad size
         (text ++ Ascii.zero :: zeros (user_data_size - S (length text)))).
Proof.
  intros Hl. unfold onConnectData_ctor. destruct (Nat.ltb_spec (length text) user_data_size); [|lia].
  do 2 f_equal. unfold zeros. rewrite drop_replicate.
  rewrite <- (Nat.add_0_r (length text)) at 1. rewrite insert_app_r. f_equal.
  destruct (user_data_size - length text) as [|n] eqn:E; [lia|].
  replace (user_data_size - S (length text)) with n by lia. done.
Qed.

(** One update message in front of the stream. *)
Lemma events_update fuel m pad size stream :
  length (um_pad m) = 6 -> length pad = 6 -> (0 <= size < 2 ^ 64)%Z ->
  events (S fuel) m (update_bytes (mkUpdateMsg 1 pad size) ++ stream) =
  EUpdate size :: events fuel (mkUpdateMsg 1 pad size) stream.
Proof.
  intros Hm Hp Hs. set (u := mkUpdateMsg 1 pad size).
  assert (Hl : length (update_bytes u) = sizeof_update) by (by apply length_update_bytes).
  assert (E : read_update (take sizeof_update (update_bytes u ++ stream)) m = u).
  { rewrite take_app_length' by done. unfold read_update. rewrite overwrite_all.
    - by apply update_of_bytes.
    - by rewrite Hl, length_update_bytes. }
  destruct (update_bytes u ++ stream) as [|b rest] eqn:Es.
  { apply app_eq_nil in Es as [Es _]. by rewrite Es in Hl. }
  cbn [events]. rewrite E, <- Es, drop_app_length' by done. done.
Qed.

(** The two bytes of a quit message, whatever the object held before. *)
Lemma event_quit m : event_of (read_update (quit_bytes quit_msg) m) = EQuit.
Proof. done. Qed.

(** ** Properties *)

(** The connection message.  A description shorter than 4096 bytes
    without a zero byte reaches the client unchanged, with the size of the
    segment, whatever the client's object held; a longer one makes the
    constructor write outside its array. *)
Theorem connect_roundtrip pad size text d0 :
  length pad = 6 -> (0 <= size < 2 ^ 64)%Z -> Ascii.zero ∉ text ->
  length (connect_bytes d0) = sizeof_connect ->
  if (length text <? user_data_size)%nat
  then exists d, onConnectData_ctor pad size text = Ret d /\
    length (connect_bytes d) = sizeof_connect /\
    read_connect (connect_bytes d) d0 = d /\
    shm_size_ d = size /\ c_str (user_data_ d) = text
  else onConnectData_ctor pad size text = Undef.
Proof.
  intros Hp Hs Hz H0. destruct (Nat.ltb_spec (length text) user_data_size) as [Hl|Hl].
  - rewrite (ctor_user_data pad size text Hl). eexists. split; [done|].
    match goal with |- length (connect_bytes ?x) = _ /\ _ => set (d := x) end.
    assert (Hd : length (connect_bytes d) = sizeof_connect).
    { unfold connect_bytes, sizeof_connect. rewrite !length_app, !length_le.
      cbn [cd_pad user_data_ d]. unfold zeros. rewrite Hp, length_app. cbn [length].
      rewrite length_replicate. lia. }
    split; [done|]. split; [|split; [done|]].
    + unfold read_connect. rewrite overwrite_all by (by rewrite Hd, H0).
      by apply connect_of_bytes.
    + by apply c_str_app.
  - unfold onConnectData_ctor. by destruct (Nat.ltb_spec (length text) user_data_size); [lia|].
Qed.

Lemma connect_roundtrip_witness : exists d,
  onConnectData_ctor (zeros 6) 921600 $"video/x-raw" = Ret d /\
  c_str (user_data_ d) = $"video/x-raw" /\
  onConnectData_ctor (zeros 6) 1 (replicate user_data_size "x"%char) = Undef.
Proof.
  destruct (connect_roundtrip (zeros 6) 921600 $"video/x-raw" (default_connect (zeros 6)))
    as (d & E & _ & _ & _ & Ec); [reflexivity|lia|vm_compute; intros H|reflexivity|].
  - repeat (apply elem_of_cons in H as [H|H]; [discriminate|]). by apply not_elem_of_nil in H.
  - exists d. split; [exact E|]. split; [exact Ec|]. by vm_compute.
Defined.

(** Framing of the stream.  However update messages and a final quit
    queue up, reads of 16 bytes give back exactly the sizes sent, in order,
    then the quit, and nothing else. *)
Theorem stream_framing fuel m pad sizes :
  length (um_pad m) = 6 -> length pad = 6 -> Forall (fun z => 0 <= z < 2 ^ 64)%Z sizes ->
  length sizes < fuel ->
  events fuel m (update_stream pad sizes) = EUpdate <$> sizes /\
  events fuel m (update_stream pad sizes ++ quit_bytes quit_msg) = (EUpdate <$> sizes) ++ [EQuit].
Proof.
  revert fuel m. induction sizes as [|z sizes IH]; intros [|fuel] m Hm Hp Hs Hf;
    cbn [length] in Hf; try lia; [by split|].
  apply Forall_cons in Hs as [Hz Hs]. cbn [update_stream].
  rewrite <- app_assoc, !events_update by done.
  destruct (IH fuel (mkUpdateMsg 1 pad z)) as [E1 E2]; [done|done|done|lia|].
  split; simpl; f_equal; [exact E1|exact E2].
Qed.

Lemma stream_framing_witness :
  events 3 (default_update (zeros 6))
    (update_bytes (mkUpdateMsg 1 (zeros 6) 70000) ++ update_bytes (mkUpdateMsg 1 (zeros 6) 5) ++
     quit_bytes quit_msg) = [EUpdate 70000; EUpdate 5; EQuit].
Proof.
  pose proof (stream_framing 3 (default_update (zeros 6)) (zeros 6) [70000%Z; 5%Z]) as H.
  apply H; [reflexivity|reflexivity| |cbn [length]; lia].
  repeat constructor; lia.
Defined.
