(* ===== verification/Posix.v ===== *)
(** * The operating-system interface

    Shmdata is a thin layer over System V semaphores, System V shared memory
    and Unix sockets.  That code is not part of the repository: each group of
    system calls is a type class over an abstract kernel state [K], and a
    second class states, as laws, the documented behaviour of the calls that
    theorems rely on (semop(2), semctl(2), semget(2), shmget(2), shmat(2)).
    [PosixModel.v] gives a concrete kernel that satisfies the laws.

    A failing call returns -1 and sets [errno]. *)

From S2P Require Import Prelude Logger.

(** ** The world of a process: kernel state and log *)

Record world (K : Type) := World { kern : K; logs : list (level * cstr) }.
Arguments World {K} kern logs.
Arguments kern {K} w : rename.
Arguments logs {K} w : rename.

Section syscalls.
Context {K : Type}.

(** A system call that always returns. *)
Definition sys {A} (f : K -> A * K) : M (world K) A := fun w =>
  let (a, k) := f (kern w) in (Ret a, World k (logs w)).

(** A system call that may put the thread to sleep. *)
Definition sys_wait {A} (f : K -> option (A * K)) : M (world K) A := fun w =>
  match f (kern w) with
  | Some (a, k) => (Ret a, World k (logs w))
  | None => (Sleep, w)
  end.

(** [log_->level(format, values...)] *)
Definition log (l : level) (format : cstr) (values : list cstr) : M (world K) unit :=
  fun w => (Ret tt, World (kern w) (logs w ++ [(l, make_string format values)])).
End syscalls.

Class ErrnoOS (K : Type) := {
  errno : K -> Z;
  strerror : Z -> cstr }.

(** [int err = errno; log_->level(format, strerror(err));] *)
Definition log_errno {K} `{ErrnoOS K} (l : level) (format : cstr) : M (world K) unit :=
  fun w => log l format [strerror (errno (kern w))] w.

(** ** System V semaphores *)

Record sembuf := Sembuf { sem_num : nat; sem_op : Z; sem_flg : Z }.

Definition SEMVMX : Z := 32767.
Definition IPC_CREAT : Z := 512.
Definition IPC_EXCL : Z := 1024.
Definition ERANGE : Z := 34.
Definition EFBIG : Z := 27.
Definition EINVAL : Z := 22.

Inductive ops_result := OpsDone (vs : list Z) | OpsSleep | OpsErr (err : Z).

(** semop(2): the operations are performed in array order and atomically, that
    is all or none; zero waits for zero, a negative operation waits until the
    value is large enough. *)
Fixpoint run_ops (ops : list sembuf) (vs : list Z) : ops_result :=
  match ops with
  | [] => OpsDone vs
  | op :: ops' =>
      match vs !! sem_num op with
      | None => OpsErr EFBIG
      | Some v =>
          if (sem_op op =? 0)%Z && negb (v =? 0)%Z then OpsSleep
          else if (v + sem_op op <? 0)%Z then OpsSleep
          else if (SEMVMX <? v + sem_op op)%Z then OpsErr ERANGE
          else run_ops ops' (<[sem_num op := (v + sem_op op)%Z]> vs)
      end
  end.

Class SemOS (K : Type) := {
  semget : Z -> Z -> Z -> K -> Z * K;          (* key, nsems, semflg *)
  semctl_rmid : Z -> K -> Z * K;               (* semctl(semid, 0, IPC_RMID, 0) *)
  semctl_setval : Z -> nat -> Z -> K -> Z * K; (* semid, semnum, val *)
  semop : Z -> list sembuf -> K -> option (Z * K);
  (** The values of a set that this process may alter; the set a key names;
      whether this process runs as its creator. *)
  sem_vals : K -> Z -> option (list Z);
  sem_key : K -> Z -> option Z;
  sem_mine : K -> Z -> bool }.

(** Nothing changed in the other sets. *)
Definition sem_frame {K} `{SemOS K} (id : Z) (k k' : K) : Prop :=
  forall id', id' <> id -> sem_vals k' id' = sem_vals k id'.

Class SemLaws (K : Type) `{ErrnoOS K, SemOS K} : Prop := {
  semop_done k id ops vs vs' :
    sem_vals k id = Some vs -> run_ops ops vs = OpsDone vs' ->
    exists k', semop id ops k = Some (0%Z, k') /\ sem_vals k' id = Some vs' /\
      sem_frame id k k' /\ sem_key k' = sem_key k /\ sem_mine k' = sem_mine k;
  semop_sleep k id ops vs :
    sem_vals k id = Some vs -> run_ops ops vs = OpsSleep -> semop id ops k = None;
  (** There is no such set, or the process may not alter it. *)
  semop_gone k id ops :
    sem_vals k id = None ->
    exists k', semop id ops k = Some ((-1)%Z, k') /\ sem_vals k' id = None;
  setval_law k id n v vs :
    sem_vals k id = Some vs -> n < length vs -> (0 <= v <= SEMVMX)%Z ->
    exists k', semctl_setval id n v k = (0%Z, k') /\
      sem_vals k' id = Some (<[n := v]> vs) /\ sem_frame id k k' /\
      sem_key k' = sem_key k /\ sem_mine k' = sem_mine k;
  (** Creation of a set, all values zero, or failure. *)
  semget_create k key n perm :
    sem_key k key = None -> (0 < n)%Z -> (0 <= perm < 512)%Z ->
    exists id k', semget key n (Z.lor (Z.lor IPC_CREAT IPC_EXCL) perm) k = (id, k') /\
      ((id < 0)%Z \/ ((0 <= id)%Z /\ sem_vals k id = None /\ sem_frame id k k' /\
        sem_vals k' id = Some (replicate (Z.to_nat n) 0%Z) /\
        sem_key k' key = Some id /\ sem_mine k' id = true));
  (** Exclusive creation fails on a key in use and changes nothing. *)
  semget_excl k key n perm id :
    sem_key k key = Some id -> (0 <= perm < 512)%Z ->
    exists k', semget key n (Z.lor (Z.lor IPC_CREAT IPC_EXCL) perm) k = ((-1)%Z, k') /\
      sem_vals k' = sem_vals k /\ sem_key k' = sem_key k /\ sem_mine k' = sem_mine k;
  (** The creator removes a set; its key becomes free. *)
  rmid_law k id vs :
    sem_vals k id = Some vs -> sem_mine k id = true ->
    exists k', semctl_rmid id k = (0%Z, k') /\ sem_vals k' id = None /\ sem_frame id k k' /\
      (forall key, sem_key k key = Some id -> sem_key k' key = None) }.

(** ** System V shared memory *)

Class ShmOS (K : Type) := {
  shmget : Z -> Z -> Z -> K -> Z * K;       (* key, size, shmflg *)
  shmat : Z -> K -> option Z * K;           (* None stands for (void * )-1 *)
  shmdt : Z -> K -> Z * K;
  shmctl_rmid : Z -> K -> Z * K;
  (** Stores through a pointer; [None] if some byte is not mapped. *)
  store : Z -> cstr -> K -> option K;
  (** Loads of [n] bytes. *)
  load : Z -> nat -> K -> option cstr;
  (** The bytes of a segment, the segment a key names, the segment attached at
      an address, whether this process runs as the segment's creator. *)
  seg_bytes : K -> Z -> option cstr;
  seg_key : K -> Z -> option Z;
  seg_at : K -> Z -> option Z;
  seg_mine : K -> Z -> bool }.

Class ShmLaws (K : Type) `{ErrnoOS K, ShmOS K} : Prop := {
  shmget_create k key size perm :
    seg_key k key = None -> (0 <= size)%Z -> (0 <= perm < 512)%Z ->
    exists id k', shmget key size (Z.lor (Z.lor IPC_CREAT IPC_EXCL) perm) k = (id, k') /\
      ((id < 0)%Z \/ ((0 <= id)%Z /\ seg_bytes k id = None /\
        seg_bytes k' id = Some (replicate (Z.to_nat size) Ascii.zero) /\
        seg_key k' key = Some id /\ seg_mine k' id = true /\
        (forall id', id' <> id -> seg_bytes k' id' = seg_bytes k id') /\ seg_at k' = seg_at k));
  shmget_excl k key size perm id :
    seg_key k key = Some id -> (0 <= perm < 512)%Z ->
    exists k', shmget key size (Z.lor (Z.lor IPC_CREAT IPC_EXCL) perm) k = ((-1)%Z, k') /\
      seg_bytes k' = seg_bytes k /\ seg_key k' = seg_key k /\ seg_at k' = seg_at k /\
      seg_mine k' = seg_mine k;
  (** Without IPC_CREAT, the segment the key names if it is large enough. *)
  shmget_open k key id m :
    seg_key k key = Some id -> seg_bytes k id = Some m ->
    exists r k', shmget key 0 0 k = (r, k') /\ (r = id \/ (r < 0)%Z) /\ (0 <= id)%Z /\
      seg_bytes k' = seg_bytes k /\ seg_key k' = seg_key k /\ seg_at k' = seg_at k /\
      seg_mine k' = seg_mine k;
  shmat_law k id m :
    seg_bytes k id = Some m ->
    exists a k', shmat id k = (a, k') /\ seg_bytes k' = seg_bytes k /\
      seg_key k' = seg_key k /\ seg_mine k' = seg_mine k /\
      match a with
      | Some p => seg_at k p = None /\ seg_at k' p = Some id /\
                  forall q, q <> p -> seg_at k' q = seg_at k q
      | None => seg_at k' = seg_at k
      end;
  store_law k p id m bs :
    seg_at k p = Some id -> seg_bytes k id = Some m -> length bs <= length m ->
    exists k', store p bs k = Some k' /\ seg_bytes k' id = Some (bs ++ drop (length bs) m) /\
      (forall id', id' <> id -> seg_bytes k' id' = seg_bytes k id') /\
      seg_key k' = seg_key k /\ seg_at k' = seg_at k /\ seg_mine k' = seg_mine k;
  load_law k p id m n :
    seg_at k p = Some id -> seg_bytes k id = Some m -> n <= length m ->
    load p n k = Some (take n m);
  shmdt_law k p id :
    seg_at k p = Some id ->
    exists k', shmdt p k = (0%Z, k') /\ seg_at k' p = None /\
      (forall q, q <> p -> seg_at k' q = seg_at k q) /\
      (forall id', id' <> id -> seg_bytes k' id' = seg_bytes k id') /\
      (forall key, seg_key k key = Some id -> seg_bytes k' id = seg_bytes k id) /\
      seg_key k' = seg_key k /\ seg_mine k' = seg_mine k /\
      (forall q, q <> p -> seg_at k q = Some id -> seg_bytes k' id = seg_bytes k id);
  (** A removed segment has no key; it exists as long as it is attached. *)
  shm_rmid_law k id m :
    seg_bytes k id = Some m -> seg_mine k id = true ->
    exists k', shmctl_rmid id k = (0%Z, k') /\
      (forall key, seg_key k key = Some id -> seg_key k' key = None) /\
      (forall key, seg_key k key <> Some id -> seg_key k' key = seg_key k key) /\
      (forall id', id' <> id -> seg_bytes k' id' = seg_bytes k id') /\
      seg_at k' = seg_at k /\
      (forall q, seg_at k q = Some id -> seg_bytes k' id = seg_bytes k id) }.

(** ** Files and Unix sockets *)

Class FileOS (K : Type) := {
  stat : cstr -> K -> option Z * K;          (* st_mode, None stands for -1 *)
  unlink : cstr -> K -> Z * K;
  chmod : cstr -> Z -> K -> Z * K;
  ftok : cstr -> ascii -> K -> Z * K;
  (** The key of a file, -1 if there is none. *)
  file_key : K -> cstr -> ascii -> Z }.

Class FileLaws (K : Type) `{FileOS K} : Prop := {
  ftok_law path c k :
    file_key k path c <> (-1)%Z -> ftok path c k = (file_key k path c, k) }.

Definition S_IFMT : Z := 61440.
Definition S_IFSOCK : Z := 49152.
Definition EACCES : Z := 13.
Definition ENAMETOOLONG : Z := 36.
Definition ECONNREFUSED : Z := 111.

(** [sizeof(sockaddr_un::sun_path)] *)
Definition sizeof_sun_path : nat := 108.

Class SockOS (K : Type) := {
  socket : K -> Z * K;                       (* AF_UNIX, SOCK_STREAM *)
  fcntl_getfl : Z -> K -> Z * K;
  fcntl_setfl : Z -> Z -> K -> Z * K;
  bind : Z -> cstr -> K -> Z * K;
  listen : Z -> Z -> K -> Z * K;
  connect : Z -> cstr -> K -> Z * K;
  accept : Z -> K -> Z * K;
  send : Z -> cstr -> K -> Z * K;            (* MSG_NOSIGNAL *)
  recv : Z -> nat -> K -> (Z * cstr) * K;    (* read(2), with the bytes read *)
  close : Z -> K -> Z * K;
  select : gset Z -> K -> (Z * gset Z) * K;  (* the descriptors ready to read *)
  (** The descriptors open in this process, the bytes sent on each, the bytes
      to read on each. *)
  fds : K -> gset Z;
  out : K -> Z -> cstr;
  inq : K -> Z -> cstr }.

Class SockLaws (K : Type) `{ErrnoOS K, SockOS K} : Prop := {
  accept_law fd k c k' :
    accept fd k = (c, k') ->
    ((c < 0)%Z /\ fds k' = fds k /\ out k' = out k) \/
    ((0 <= c)%Z /\ (c ∉ fds k) /\ fds k' = fds k ∪ {[c]} /\ out k' c = [] /\
     forall d, d <> c -> out k' d = out k d);
  (** A message is sent whole or not at all, on an open descriptor. *)
  send_law fd bs k r k' :
    send fd bs k = (r, k') ->
    fds k' = fds k /\
    ((r = (-1)%Z /\ out k' = out k) \/
     (r = Z.of_nat (length bs) /\ (0 <= fd)%Z /\ fd ∈ fds k /\ out k' fd = out k fd ++ bs /\
      forall d, d <> fd -> out k' d = out k d));
  recv_law fd n k r bs k' :
    recv fd n k = ((r, bs), k') ->
    fds k' = fds k /\ (forall d, out k' d = out k d) /\
    (((r < 0)%Z /\ bs = []) \/ (r = Z.of_nat (length bs) /\ length bs <= n));
  (** What is there is read at once; the rest stays. *)
  recv_ready fd n k :
    fd ∈ fds k -> inq k fd <> [] -> (0 < n)%nat ->
    exists k', recv fd n k = ((Z.of_nat (length (take n (inq k fd))), take n (inq k fd)), k') /\
      inq k' fd = drop n (inq k fd);
  (** A descriptor with something to read is ready. *)
  select_ready s fd k :
    fd ∈ s -> s ⊆ fds k -> inq k fd <> [] ->
    exists r rs k', select s k = ((r, rs), k') /\ (0 < r)%Z /\ fd ∈ rs /\
      fds k' = fds k /\ forall d, inq k' d = inq k d;
  close_law fd k r k' :
    close fd k = (r, k') ->
    fds k' = fds k ∖ {[fd]} /\ forall d, d <> fd -> out k' d = out k d;
  select_law s k r rs k' :
    select s k = ((r, rs), k') ->
    fds k' = fds k /\ out k' = out k /\ ((r < 0)%Z \/ rs ⊆ s) }.

(** The other end of a descriptor: whether it is a connection that was
    accepted, whether the process there has ended (or closed it), and whether
    it had not read everything then, in which case reading fails with
    ECONNRESET instead of meeting the end of the stream.  Two events:
    [peer_end fd unread] is the end of that process, [peer_write fd bs] that
    it writes. *)

Record peer := Peer { p_connected : bool; p_closed : bool; p_reset : bool }.
Class PeerOS (K : Type) := {
  peer_of : K -> Z -> peer;
  peer_end : Z -> bool -> K -> K;
  peer_write : Z -> cstr -> K -> K }.
Definition peer_closed {K} `{PeerOS K} (k : K) (fd : Z) : bool := p_closed (peer_of k fd).

(** ** Independence

    What the calls of one group leave alone in the others. *)

Definition sem_view {K} `{SemOS K} (k : K) := (sem_vals k, sem_key k, sem_mine k).
Definition shm_view {K} `{ShmOS K} (k : K) := (seg_bytes k, seg_key k, seg_at k, seg_mine k).
Definition sock_view {K} `{SockOS K, FileOS K} (k : K) := (fds k, out k, inq k, file_key k).

Class FrameLaws (K : Type) `{SemOS K, ShmOS K, SockOS K, FileOS K} : Prop := {
  semop_frame id ops k r k' : semop id ops k = Some (r, k') ->
    shm_view k' = shm_view k /\ sock_view k' = sock_view k;
  setval_frame id n v k r k' : semctl_setval id n v k = (r, k') ->
    shm_view k' = shm_view k /\ sock_view k' = sock_view k;
  send_frame fd bs k r k' : send fd bs k = (r, k') ->
    shm_view k' = shm_view k /\ sem_view k' = sem_view k;
  store_frame p bs k k' : store p bs k = Some k' ->
    sem_view k' = sem_view k /\ sock_view k' = sock_view k;
  shmget_frame key size flg k r k' : shmget key size flg k = (r, k') ->
    sem_view k' = sem_view k /\ sock_view k' = sock_view k;
  shmat_frame id k r k' : shmat id k = (r, k') ->
    sem_view k' = sem_view k /\ sock_view k' = sock_view k;
  shmdt_frame p k r k' : shmdt p k = (r, k') ->
    sem_view k' = sem_view k /\ sock_view k' = sock_view k;
  shm_rmid_frame id k r k' : shmctl_rmid id k = (r, k') ->
    sem_view k' = sem_view k /\ sock_view k' = sock_view k }.

(** The names and owners of the semaphore sets. *)
Definition sem_names {K} `{SemOS K} (k : K) := (sem_key k, sem_mine k).
Lemma sem_names_view {K} `{SemOS K} (k k' : K) :
  sem_view k' = sem_view k -> sem_names k' = sem_names k.
Proof. unfold sem_view, sem_names. congruence. Qed.

(** The descriptors other than [fd] are as they were. *)
Definition peers_but {K} `{SockOS K, PeerOS K} (fd : Z) (k k' : K) : Prop :=
  forall d, d <> fd -> inq k' d = inq k d /\ peer_of k' d = peer_of k d.

(** A message can be sent exactly to a peer that has not ended; only accept,
    read and close, and the two events, change what is known of a peer. *)
Class PeerLaws (K : Type) `{SemOS K, ShmOS K, SockOS K, FileOS K, PeerOS K} : Prop := {
  send_closed fd bs k : peer_closed k fd = true -> (send fd bs k).1 = (-1)%Z;
  send_open fd bs k : fd ∈ fds k -> (0 <= fd)%Z -> peer_closed k fd = false ->
    (send fd bs k).1 <> (-1)%Z;
  peer_end_law fd b k : fd ∈ fds k ->
    sem_view (peer_end fd b k) = sem_view k /\ shm_view (peer_end fd b k) = shm_view k /\
    fds (peer_end fd b k) = fds k /\ file_key (peer_end fd b k) = file_key k /\
    (forall d, out (peer_end fd b k) d = out k d) /\
    (forall d, inq (peer_end fd b k) d = inq k d) /\
    peer_of (peer_end fd b k) fd = Peer (p_connected (peer_of k fd)) true b /\
    forall d, d <> fd -> peer_of (peer_end fd b k) d = peer_of k d;
  peer_write_law fd bs k : fd ∈ fds k -> peer_closed k fd = false ->
    sem_view (peer_write fd bs k) = sem_view k /\ shm_view (peer_write fd bs k) = shm_view k /\
    fds (peer_write fd bs k) = fds k /\ file_key (peer_write fd bs k) = file_key k /\
    (forall d, out (peer_write fd bs k) d = out k d) /\
    (forall d, peer_of (peer_write fd bs k) d = peer_of k d) /\
    inq (peer_write fd bs k) fd = inq k fd ++ bs /\
    forall d, d <> fd -> inq (peer_write fd bs k) d = inq k d;
  (** The end of a stream, or the reset, is read once all has been read. *)
  recv_closed fd n k : fd ∈ fds k -> inq k fd = [] -> peer_closed k fd = true ->
    (recv fd n k).1 = ((if p_reset (peer_of k fd) then -1 else 0)%Z, []);
  recv_frame fd n k : let k' := (recv fd n k).2 in
    sem_view k' = sem_view k /\ shm_view k' = shm_view k /\ file_key k' = file_key k /\
    peers_but fd k k' /\ (inq k fd <> [] -> peer_of k' fd = peer_of k fd);
  (** A connection is ready when there is something to read, or its end. *)
  select_sound s k r rs k' fd : select s k = ((r, rs), k') -> (0 <= r)%Z -> fd ∈ rs ->
    p_connected (peer_of k fd) = true -> inq k fd <> [] \/ peer_closed k fd = true;
  select_frame s k : let k' := (select s k).2 in
    sem_view k' = sem_view k /\ shm_view k' = shm_view k /\ file_key k' = file_key k /\
    forall d, inq k' d = inq k d /\ peer_of k' d = peer_of k d;
  accept_frame fd k : let (c, k') := accept fd k in
    sem_view k' = sem_view k /\ shm_view k' = shm_view k /\ file_key k' = file_key k /\
    peers_but c k k' /\ ((0 <= c)%Z -> p_connected (peer_of k' c) = true);
  close_frame fd k : let k' := (close fd k).2 in
    sem_view k' = sem_view k /\ shm_view k' = shm_view k /\ file_key k' = file_key k /\
    peers_but fd k k';
  peer_semop id ops k r k' : semop id ops k = Some (r, k') ->
    sem_names k' = sem_names k /\ peer_of k' = peer_of k;
  peer_setval id n v k : sem_names (semctl_setval id n v k).2 = sem_names k /\
    peer_of (semctl_setval id n v k).2 = peer_of k;
  peer_send fd bs k : file_key (send fd bs k).2 = file_key k /\
    forall d, inq (send fd bs k).2 d = inq k d /\ peer_of (send fd bs k).2 d = peer_of k d;
  peer_store p bs k k' : store p bs k = Some k' -> peer_of k' = peer_of k;
  peer_ftok path c k : (ftok path c k).1 = file_key k path c /\
    sem_view (ftok path c k).2 = sem_view k /\ shm_view (ftok path c k).2 = shm_view k /\
    sock_view (ftok path c k).2 = sock_view k /\ peer_of (ftok path c k).2 = peer_of k;
  peer_shmget key size flg k : peer_of (shmget key size flg k).2 = peer_of k;
  peer_shmat id k : peer_of (shmat id k).2 = peer_of k;
  peer_shmdt p k : peer_of (shmdt p k).2 = peer_of k;
  peer_shm_rmid id k : peer_of (shmctl_rmid id k).2 = peer_of k;
  peer_semget key n flg k : let k' := (semget key n flg k).2 in
    shm_view k' = shm_view k /\ sock_view k' = sock_view k /\ peer_of k' = peer_of k;
  peer_rmid id k : let k' := (semctl_rmid id k).2 in
    shm_view k' = shm_view k /\ sock_view k' = sock_view k /\ peer_of k' = peer_of k;
  (** A name goes, the connections stay. *)
  peer_unlink path k : let k' := (unlink path k).2 in
    fds k' = fds k /\ out k' = out k /\ inq k' = inq k /\ peer_of k' = peer_of k;
  (** Without IPC_CREAT, the set that the key names. *)
  semget_open k key n id : sem_key k key = Some id ->
    ((semget key n 0 k).1 = id \/ ((semget key n 0 k).1 < 0)%Z) /\
    sem_view (semget key n 0 k).2 = sem_view k }.

(** What the calls that set a listening socket up leave alone. *)
Definition ipc_view {K} `{SemOS K, ShmOS K} (k : K) := (sem_view k, shm_view k).
Class SetupLaws (K : Type) `{SemOS K, ShmOS K, SockOS K, FileOS K} : Prop := {
  socket_law k : let (fd, k') := socket k in
    ipc_view k' = ipc_view k /\
    (fd = (-1)%Z \/ ((0 <= fd)%Z /\ fds k' = fds k ∪ {[fd]}));
  getfl_frame fd k : let k' := (fcntl_getfl fd k).2 in ipc_view k' = ipc_view k /\ fds k' = fds k;
  setfl_frame fd flags k : let k' := (fcntl_setfl fd flags k).2 in
    ipc_view k' = ipc_view k /\ fds k' = fds k;
  bind_frame fd path k : let k' := (bind fd path k).2 in ipc_view k' = ipc_view k /\ fds k' = fds k;
  chmod_frame path mode k : let k' := (chmod path mode k).2 in
    ipc_view k' = ipc_view k /\ fds k' = fds k;
  listen_frame fd n k : let k' := (listen fd n k).2 in ipc_view k' = ipc_view k /\ fds k' = fds k;
  stat_frame path k : ipc_view (stat path k).2 = ipc_view k;
  unlink_frame path k : ipc_view (unlink path k).2 = ipc_view k }.

(** [int err = errno;] *)
Definition get_errno {K} `{ErrnoOS K} : M (world K) Z := fun w => (Ret (errno (kern w)), w).

(** ** Triples on the kernel state

    [ktriple P m Q]: from a kernel state with [P], the call [m] sleeps, or
    returns with [Q]; it has no undefined behaviour and throws nothing.
    [ktotal P m Q]: it does not sleep either. *)

Section ktriple.
Context {K : Type} `{ErrnoOS K}.

Definition kt (sleeps : bool) {A} (P : K -> Prop) (m : M (world K) A) (Q : A -> K -> Prop)
  : Prop :=
  forall w, P (kern w) ->
  match m w with
  | (Ret a, w') => Q a (kern w')
  | (Sleep, _) => if sleeps then True else False
  | _ => False
  end.

Context {b : bool}.

Lemma kt_bind {A B} P (m : M (world K) A) (f : A -> M (world K) B) Q R :
  kt b P m Q -> (forall a, kt b (Q a) (f a) R) -> kt b P (m ≫= f) R.
Proof.
  intros Hm Hf w Hw. specialize (Hm w Hw). unfold mbind, M_bind.
  destruct (m w) as [[a|e| |] w']; try done. by apply Hf.
Qed.

Lemma kt_ret {A} (a : A) (P : K -> Prop) (Q : A -> K -> Prop) :
  (forall k, P k -> Q a k) -> kt b P (mret a) Q.
Proof. intros HP w Hw. simpl. auto. Qed.

Lemma kt_conseq {A} (P P' : K -> Prop) (m : M (world K) A) (Q Q' : A -> K -> Prop) :
  kt b P m Q -> (forall k, P' k -> P k) -> (forall a k, Q a k -> Q' a k) -> kt b P' m Q'.
Proof.
  intros Hm HP HQ w Hw. specialize (Hm w (HP _ Hw)).
  destruct (m w) as [[a|e| |] w']; try done. by apply HQ.
Qed.

Lemma kt_sys {A} (f : K -> A * K) (P : K -> Prop) (Q : A -> K -> Prop) :
  (forall k a k', P k -> f k = (a, k') -> Q a k') -> kt b P (sys f) Q.
Proof. intros Hf w Hw. unfold sys. destruct (f (kern w)) as [a k'] eqn:E. simpl. eauto. Qed.

Lemma kt_log (P : K -> Prop) l fmt vs : kt b P (log l fmt vs) (fun _ => P).
Proof. by intros w Hw. Qed.

Lemma kt_log_errno (P : K -> Prop) l fmt : kt b P (log_errno l fmt) (fun _ => P).
Proof. by intros w Hw. Qed.

Lemma kt_get_errno (P : K -> Prop) : kt b P get_errno (fun _ => P).
Proof. by intros w Hw. Qed.

Lemma kt_when (P : K -> Prop) c m : (c = true -> kt b P m (fun _ => P)) ->
  kt b P (when c m) (fun _ => P).
Proof. destruct c; intros Hm; [by apply Hm|]. by intros w Hw. Qed.

(** What a triple says of one execution. *)
Lemma ktotal_run {A} P (m : M (world K) A) Q w :
  kt false P m Q -> P (kern w) -> exists a w', m w = (Ret a, w') /\ Q a (kern w').
Proof.
  intros Hm Hw. specialize (Hm w Hw). destruct (m w) as [[a|e| |] w']; try done. by eexists _, _.
Qed.

(** A part of the precondition that does not depend on the state. *)
Lemma kt_pure {A} (F : Prop) P (m : M (world K) A) Q :
  (F -> kt b P m Q) -> kt b (fun k => F /\ P k) m Q.
Proof. intros Hm w [HF Hw]. by apply Hm. Qed.

Lemma kt_conj {A} P P' (m : M (world K) A) Q Q' :
  kt b P m Q -> kt b P' m Q' ->
  kt b (fun k => P k /\ P' k) m (fun a k => Q a k /\ Q' a k).
Proof.
  intros H1 H2 w [Hw Hw']. specialize (H1 w Hw). specialize (H2 w Hw').
  by destruct (m w) as [[a|e| |] w'].
Qed.

(** Keep a precondition that only adds to what a call needs. *)
Lemma kt_seq {B} (P : K -> Prop) (m : M (world K) unit) (f : M (world K) B) R :
  kt b P m (fun _ => P) -> kt b P f R -> kt b P (m;; f) R.
Proof. intros Hm Hf. by apply (kt_bind P m (fun _ => f) (fun _ => P)). Qed.
End ktriple.

(** *** Triples with a guarded undefined behaviour

    [kt_unless U P m Q]: from a kernel state with [P], the call [m] sleeps, or
    returns with [Q], or reaches an undefined behaviour in a state with [U]; it
    throws nothing. *)
Section kt_unless.
Context {K : Type} `{ErrnoOS K} (U : K -> Prop).

Definition kt_unless {A} (P : K -> Prop) (m : M (world K) A) (Q : A -> K -> Prop) : Prop :=
  forall w, P (kern w) ->
  match m w with
  | (Ret a, w') => Q a (kern w')
  | (Sleep, _) => True
  | (Undef, w') => U (kern w')
  | (Throw _, _) => False
  end.

Lemma kt_unless_kt {A} P (m : M (world K) A) Q : kt true P m Q -> kt_unless P m Q.
Proof. intros Hm w Hw. specialize (Hm w Hw). by destruct (m w) as [[a|e| |] w']. Qed.

Lemma kt_unless_bind {A B} P (m : M (world K) A) (f : A -> M (world K) B) Q R :
  kt_unless P m Q -> (forall a, kt_unless (Q a) (f a) R) -> kt_unless P (m ≫= f) R.
Proof.
  intros Hm Hf w Hw. specialize (Hm w Hw). unfold mbind, M_bind.
  destruct (m w) as [[a|e| |] w']; try done. by apply Hf.
Qed.

Lemma kt_unless_conseq {A} (P P' : K -> Prop) (m : M (world K) A) (Q Q' : A -> K -> Prop) :
  kt_unless P m Q -> (forall k, P' k -> P k) -> (forall a k, Q a k -> Q' a k) -> kt_unless P' m Q'.
Proof.
  intros Hm HP HQ w Hw. specialize (Hm w (HP _ Hw)).
  destruct (m w) as [[a|e| |] w']; try done. by apply HQ.
Qed.
End kt_unless.

(** *** Partial triples

    [kpartial P m Q]: if [m] returns from a state with [P], then [Q]. *)

Section kpartial.
Context {K : Type} `{ErrnoOS K}.

Definition kpartial {A} (P : K -> Prop) (m : M (world K) A) (Q : A -> K -> Prop) : Prop :=
  forall w a w', P (kern w) -> m w = (Ret a, w') -> Q a (kern w').

(** [m] keeps a view of the kernel state. *)
Definition keeps {X A} (f : K -> X) (m : M (world K) A) : Prop :=
  forall x, kpartial (fun k => f k = x) m (fun _ k => f k = x).

Lemma kp_bind {A B} P (m : M (world K) A) (f : A -> M (world K) B) Q R :
  kpartial P m Q -> (forall a, kpartial (Q a) (f a) R) -> kpartial P (m ≫= f) R.
Proof.
  intros Hm Hf w b w' Hw E. unfold mbind, M_bind in E.
  destruct (m w) as [[a|e| |] w1] eqn:E1; try done. by apply (Hf a w1); [apply (Hm w)|].
Qed.

Lemma kp_ret {A} (a : A) (P : K -> Prop) (Q : A -> K -> Prop) :
  (forall k, P k -> Q a k) -> kpartial P (mret a) Q.
Proof. intros HP w b w' Hw [= <- <-]. auto. Qed.

Lemma kp_sys {A} (f : K -> A * K) (P : K -> Prop) (Q : A -> K -> Prop) :
  (forall k a k', P k -> f k = (a, k') -> Q a k') -> kpartial P (sys f) Q.
Proof.
  intros Hf w b w' Hw. unfold sys. destruct (f (kern w)) as [a k'] eqn:E. intros [= <- <-]. eauto.
Qed.

Lemma kp_conseq {A} (P P' : K -> Prop) (m : M (world K) A) (Q Q' : A -> K -> Prop) :
  kpartial P m Q -> (forall k, P' k -> P k) -> (forall a k, Q a k -> Q' a k) -> kpartial P' m Q'.
Proof. intros Hm HP HQ w a w' Hw E. eauto. Qed.

Lemma kp_pure {A} (F : Prop) P (m : M (world K) A) Q :
  (F -> kpartial P m Q) -> kpartial (fun k => F /\ P k) m Q.
Proof. intros Hm w a w' [HF Hw]. by apply Hm. Qed.

Lemma kp_undef {A} (P : K -> Prop) (Q : A -> K -> Prop) : kpartial P undef Q.
Proof. by intros w b w' Hw E. Qed.

Lemma kp_true {A} P (m : M (world K) A) : kpartial P m (fun _ _ => True).
Proof. done. Qed.

(** Statements about the value returned only. *)
Definition returns {A} (m : M (world K) A) (Q : A -> Prop) : Prop :=
  kpartial (fun _ => True) m (fun a _ => Q a).

Lemma returns_bind {A B} (m : M (world K) A) (f : A -> M (world K) B) (Q : A -> Prop) R :
  returns m Q -> (forall a, Q a -> returns (f a) R) -> returns (m ≫= f) R.
Proof.
  intros Hm Hf. eapply kp_bind; [apply Hm|]. intros a w b w' Ha E. by apply (Hf a Ha w b w').
Qed.

Lemma returns_skip {A B} (m : M (world K) A) (f : A -> M (world K) B) R :
  (forall a, returns (f a) R) -> returns (m ≫= f) R.
Proof. intros Hf. apply (returns_bind m f (fun _ => True)); [done|auto]. Qed.

Lemma returns_ret {A} (a : A) (Q : A -> Prop) : Q a -> returns (mret a) Q.
Proof. intros Hq. by apply kp_ret. Qed.

Lemma returns_undef {A} (Q : A -> Prop) : returns undef Q.
Proof. apply kp_undef. Qed.

Lemma keeps_bind {X A B} (f : K -> X) (m : M (world K) A) (g : A -> M (world K) B) :
  keeps f m -> (forall a, keeps f (g a)) -> keeps f (m ≫= g).
Proof. intros Hm Hg x. eapply kp_bind; [apply Hm|]. intros a. apply Hg. Qed.

Lemma keeps_ret {X A} (f : K -> X) (a : A) : keeps f (mret a).
Proof. intros x. by apply kp_ret. Qed.

Lemma keeps_sys {X A} (f : K -> X) (g : K -> A * K) :
  (forall k a k', g k = (a, k') -> f k' = f k) -> keeps f (sys g).
Proof. intros Hg x. apply kp_sys. intros k a k' <- E. eauto. Qed.

Lemma keeps_log {X} (f : K -> X) l fmt vs : keeps f (log l fmt vs).
Proof. by intros x w a w' Hw [= <- <-]. Qed.

Lemma keeps_log_errno {X} (f : K -> X) l fmt : keeps f (log_errno l fmt).
Proof. by intros x w a w' Hw [= <- <-]. Qed.

Lemma keeps_when {X} (f : K -> X) c m : keeps f m -> keeps f (when c m).
Proof. destruct c; [done|]. intros _. apply keeps_ret. Qed.

(** A triple says what it says of one execution. *)
Lemma kt_partial {b A} P (m : M (world K) A) Q : kt b P m Q -> kpartial P m Q.
Proof. intros Hm w a w' Hw E. specialize (Hm w Hw). by rewrite E in Hm. Qed.

(** Use of a kept view. *)
Lemma keeps_run {X A} (f : K -> X) (m : M (world K) A) w a w' :
  keeps f m -> m w = (Ret a, w') -> f (kern w') = f (kern w).
Proof. intros Hm. by apply (Hm (f (kern w)) w). Qed.
End kpartial.

Abbreviation ktriple := (kt true).
Abbreviation ktotal := (kt false).
#[export] Hint Resolve kt_log kt_log_errno kt_get_errno kt_ret kt_when : shm.
#[export] Hint Resolve keeps_bind keeps_ret keeps_log keeps_log_errno keeps_when : shm.
#[export] Hint Resolve returns_ret returns_undef : shm.
