(* ===== verification/PosixModel.v ===== *)
(** * A concrete kernel

    Finite maps for the semaphore sets, the segments and their keys; it
    satisfies the laws of [Posix.v], so that theorems proved from the laws can
    be evaluated.  [k_first] is the first identifier the kernel hands out (0
    on a freshly booted Linux).  The bytes of a removed segment are kept, and
    this process is the creator of everything. *)

From S2P Require Import Prelude Logger StdLib Posix.

(** A socket: bytes to read, whether the peer has closed, bytes sent, whether
    the peer left something unread. *)
Record sock := Sock { sk_in : cstr; sk_eof : bool; sk_out : cstr; sk_reset : bool }.
Abbreviation open_sock bs := (Sock bs false [] false).

(** A file of type socket: its inode, and what its listener sends to a new
    client, if there is one. *)
Record file := File { f_ino : nat; f_greeting : option cstr }.

(** The open sockets, the one that listens, the connections that wait, the
    files of type socket, the inode of the next one: as on tmpfs, the inode of
    a file that was removed is not used again. *)
Record net := Net {
  n_socks : gmap Z sock; n_listen : Z; n_backlog : nat; n_files : gmap cstr file; n_ino : nat }.
Definition empty_net : net := Net ∅ (-1) 0 ∅ 2.

Record kernel := Kernel {
  k_errno : Z;
  k_first : nat;
  k_sems : gmap nat (list Z);
  k_semkeys : gmap Z nat;
  k_segs : gmap nat cstr;
  k_segkeys : gmap Z nat;
  k_at : gmap nat nat;            (* addresses to segments *)
  k_net : net }.

Definition with_errno e k := Kernel e (k_first k) (k_sems k) (k_semkeys k) (k_segs k)
  (k_segkeys k) (k_at k) (k_net k).
Definition with_sets v ks k := Kernel (k_errno k) (k_first k) v ks (k_segs k)
  (k_segkeys k) (k_at k) (k_net k).
Definition with_segs v ks at' k := Kernel (k_errno k) (k_first k) (k_sems k) (k_semkeys k)
  v ks at' (k_net k).
Definition with_net v k := Kernel (k_errno k) (k_first k) (k_sems k) (k_semkeys k)
  (k_segs k) (k_segkeys k) (k_at k) v.

Definition EEXIST : Z := 17.
Definition ENOENT : Z := 2.

(** The bits IPC_CREAT and IPC_EXCL. *)
Definition has_creat (flg : Z) : bool := Z.testbit flg 9.
Definition has_excl (flg : Z) : bool := Z.testbit flg 10.

(** Identifiers are non-negative. *)
Definition at_id {A} (m : gmap nat A) (id : Z) : option A :=
  if (id <? 0)%Z then None else m !! Z.to_nat id.
(** A new identifier, not below [k_first]. *)
Definition new_id {A} (first : nat) (m : gmap nat A) : nat :=
  fresh (dom m ∪ set_seq 0 first : gset nat).
(** The bindings of keys to other identifiers. *)
Definition unbind (id : nat) (keys : gmap Z nat) : gmap Z nat :=
  filter (fun kv => snd kv <> id) keys.

#[export] Instance kernel_errno : ErrnoOS kernel := {
  errno := k_errno;
  strerror := to_string }.

#[export] Instance kernel_sem : SemOS kernel := {
  semget key n flg k :=
    match k_semkeys k !! key with
    | Some id =>
        if has_creat flg && has_excl flg then ((-1)%Z, with_errno EEXIST k)
        else (Z.of_nat id, k)
    | None =>
        if has_creat flg
        then
          let id := new_id (k_first k) (k_sems k) in
          (Z.of_nat id, with_sets (<[id := replicate (Z.to_nat n) 0%Z]> (k_sems k))
                          (<[key := id]> (k_semkeys k)) k)
        else ((-1)%Z, with_errno ENOENT k)
    end;
  semctl_rmid id k :=
    match at_id (k_sems k) id with
    | Some _ => (0%Z, with_sets (delete (Z.to_nat id) (k_sems k))
                        (unbind (Z.to_nat id) (k_semkeys k)) k)
    | None => ((-1)%Z, with_errno EINVAL k)
    end;
  semctl_setval id n v k :=
    match at_id (k_sems k) id with
    | Some vs => (0%Z, with_sets (<[Z.to_nat id := <[n := v]> vs]> (k_sems k)) (k_semkeys k) k)
    | None => ((-1)%Z, with_errno EINVAL k)
    end;
  semop id ops k :=
    match at_id (k_sems k) id with
    | Some vs =>
        match run_ops ops vs with
        | OpsDone vs' => Some (0%Z, with_sets (<[Z.to_nat id := vs']> (k_sems k)) (k_semkeys k) k)
        | OpsSleep => None
        | OpsErr e => Some ((-1)%Z, with_errno e k)
        end
    | None => Some ((-1)%Z, with_errno EINVAL k)
    end;
  sem_vals k id := at_id (k_sems k) id;
  sem_key k key := Z.of_nat <$> k_semkeys k !! key;
  sem_mine _ _ := true }.

Definition at_addr (k : kernel) (p : Z) : option nat := at_id (k_at k) p.

#[export] Instance kernel_shm : ShmOS kernel := {
  shmget key size flg k :=
    match k_segkeys k !! key with
    | Some id =>
        if has_creat flg && has_excl flg then ((-1)%Z, with_errno EEXIST k)
        else if (size <=? Z.of_nat (length (default [] (k_segs k !! id))))%Z
        then (Z.of_nat id, k) else ((-1)%Z, with_errno EINVAL k)
    | None =>
        if has_creat flg
        then
          let id := new_id (k_first k) (k_segs k) in
          (Z.of_nat id, with_segs (<[id := replicate (Z.to_nat size) Ascii.zero]> (k_segs k))
                          (<[key := id]> (k_segkeys k)) (k_at k) k)
        else ((-1)%Z, with_errno ENOENT k)
    end;
  shmat id k :=
    match at_id (k_segs k) id with
    | Some _ =>
        let p := new_id 1 (k_at k) in
        (Some (Z.of_nat p), with_segs (k_segs k) (k_segkeys k) (<[p := Z.to_nat id]> (k_at k)) k)
    | None => (None, with_errno EINVAL k)
    end;
  shmdt p k :=
    match at_addr k p with
    | Some _ => (0%Z, with_segs (k_segs k) (k_segkeys k) (delete (Z.to_nat p) (k_at k)) k)
    | None => ((-1)%Z, with_errno EINVAL k)
    end;
  shmctl_rmid id k :=
    match at_id (k_segs k) id with
    | Some _ => (0%Z, with_segs (k_segs k) (unbind (Z.to_nat id) (k_segkeys k)) (k_at k) k)
    | None => ((-1)%Z, with_errno EINVAL k)
    end;
  store p bs k :=
    id ← at_addr k p;
    m ← k_segs k !! id;
    if (length bs <=? length m)%nat
    then Some (with_segs (<[id := bs ++ drop (length bs) m]> (k_segs k)) (k_segkeys k) (k_at k) k)
    else None;
  load p n k :=
    id ← at_addr k p;
    m ← k_segs k !! id;
    if (n <=? length m)%nat then Some (take n m) else None;
  seg_bytes k id := at_id (k_segs k) id;
  seg_key k key := Z.of_nat <$> k_segkeys k !! key;
  seg_at k p := Z.of_nat <$> at_addr k p;
  seg_mine _ _ := true }.

(** A new descriptor, above the standard ones. *)
Definition new_fd (m : gmap Z sock) : Z :=
  Z.of_nat (fresh (set_map Z.to_nat (dom m : gset Z) ∪ set_seq 0 3 : gset nat)).
Definition put_sock (fd : Z) (s : sock) (n : net) : net :=
  Net (<[fd := s]> (n_socks n)) (n_listen n) (n_backlog n) (n_files n) (n_ino n).
(** [ftok], made of the inode and of the character. *)
Definition ftok_key (ino : nat) (c : ascii) : Z :=
  (Z.of_nat ino * 256 + Z.of_nat (nat_of_ascii c))%Z.

Definition EMFILE : Z := 24.
Definition EBADF : Z := 9.
Definition EAGAIN : Z := 11.
Definition EADDRINUSE : Z := 98.

#[export] Instance kernel_files : FileOS kernel := {
  stat path k :=
    ((fun _ => S_IFSOCK) <$> n_files (k_net k) !! path, k);
  unlink path k :=
    let n := k_net k in
    if bool_decide (is_Some (n_files n !! path))
    then (0%Z, with_net (Net (n_socks n) (n_listen n) (n_backlog n) (delete path (n_files n)) (n_ino n)) k)
    else ((-1)%Z, with_errno ENOENT k);
  chmod path mode k := (0%Z, k);
  ftok path c k :=
    match n_files (k_net k) !! path with
    | Some f => (ftok_key (f_ino f) c, k)
    | None => ((-1)%Z, with_errno ENOENT k)
    end;
  file_key k path c :=
    match n_files (k_net k) !! path with Some f => ftok_key (f_ino f) c | None => (-1)%Z end }.

#[export] Instance kernel_file_laws : FileLaws kernel.
Proof. split. simpl. intros path c k. by destruct (n_files (k_net k) !! path). Qed.

#[export] Instance kernel_sock : SockOS kernel := {
  socket k :=
    let fd := new_fd (n_socks (k_net k)) in
    (fd, with_net (put_sock fd (open_sock []) (k_net k)) k);
  fcntl_getfl fd k := (2%Z, k);
  fcntl_setfl fd flags k := (0%Z, k);
  bind fd path k :=
    let n := k_net k in
    if bool_decide (is_Some (n_files n !! path)) then ((-1)%Z, with_errno EADDRINUSE k)
    else (0%Z, with_net (Net (n_socks n) (n_listen n) (n_backlog n)
                          (<[path := File (n_ino n) (Some [])]> (n_files n)) (S (n_ino n))) k);
  listen fd backlog k :=
    let n := k_net k in
    (0%Z, with_net (Net (n_socks n) fd (n_backlog n) (n_files n) (n_ino n)) k);
  connect fd path k :=
    match n_files (k_net k) !! path with
    | Some (File _ (Some greeting)) => (0%Z, with_net (put_sock fd (open_sock greeting) (k_net k)) k)
    | _ => ((-1)%Z, with_errno ECONNREFUSED k)
    end;
  accept fd k :=
    let n := k_net k in
    let c := new_fd (n_socks n) in
    if bool_decide (fd = n_listen n /\ is_Some (n_socks n !! fd) /\ (0 < n_backlog n)%nat /\
                    (c < 1024)%Z)
    then (c, with_net (Net (<[c := open_sock []]> (n_socks n)) (n_listen n)
                         (pred (n_backlog n)) (n_files n) (n_ino n)) k)
    else ((-1)%Z, with_errno EMFILE k);
  send fd bs k :=
    match n_socks (k_net k) !! fd with
    | Some s =>
        if (0 <=? fd)%Z && negb (sk_eof s)
        then (Z.of_nat (length bs),
              with_net (put_sock fd (Sock (sk_in s) (sk_eof s) (sk_out s ++ bs) (sk_reset s)) (k_net k)) k)
        else ((-1)%Z, with_errno EBADF k)
    | None => ((-1)%Z, with_errno EBADF k)
    end;
  recv fd n k :=
    match n_socks (k_net k) !! fd with
    | Some (Sock [] eof o r) =>
        if eof then (((if r then -1 else 0)%Z, []), k) else (((-1)%Z, []), with_errno EAGAIN k)
    | Some (Sock bs eof o r) =>
        ((Z.of_nat (length (take n bs)), take n bs),
         with_net (put_sock fd (Sock (drop n bs) eof o r) (k_net k)) k)
    | None => (((-1)%Z, []), with_errno EBADF k)
    end;
  close fd k :=
    let n := k_net k in
    (if bool_decide (fd ∈ dom (n_socks n)) then 0%Z else (-1)%Z,
     with_net (Net (delete fd (n_socks n)) (n_listen n) (n_backlog n) (n_files n) (n_ino n)) k);
  select s k :=
    let n := k_net k in
    let ready := filter (fun fd => true =
      match n_socks n !! fd with
      | Some (Sock bs eof _ _) =>
          negb (bool_decide (bs = [])) || eof ||
          bool_decide (fd = n_listen n /\ (0 < n_backlog n)%nat)
      | None => false
      end) s in
    ((Z.of_nat (size ready), ready), k);
  fds k := dom (n_socks (k_net k));
  out k fd := match n_socks (k_net k) !! fd with Some s => sk_out s | None => [] end;
  inq k fd := match n_socks (k_net k) !! fd with Some s => sk_in s | None => [] end }.

#[export] Instance kernel_peer : PeerOS kernel := {
  peer_of k fd :=
    match n_socks (k_net k) !! fd with
    | Some s => Peer (negb (fd =? n_listen (k_net k))%Z) (sk_eof s) (sk_reset s)
    | None => Peer false true false
    end;
  peer_end fd b k :=
    match n_socks (k_net k) !! fd with
    | Some s => with_net (put_sock fd (Sock (sk_in s) true (sk_out s) b) (k_net k)) k
    | None => k
    end;
  peer_write fd bs k :=
    match n_socks (k_net k) !! fd with
    | Some s =>
        with_net (put_sock fd (Sock (sk_in s ++ bs) (sk_eof s) (sk_out s) (sk_reset s)) (k_net k)) k
    | None => k
    end }.

(** A kernel whose first identifier is [first]. *)
Definition boot (first : nat) : world kernel := World (Kernel 0 first ∅ ∅ ∅ ∅ ∅ empty_net) [].

(** ** The laws *)

Section ids.
Context {A : Type}.
Implicit Types (m : gmap nat A).

Lemma new_id_fresh first m : m !! new_id first m = None.
Proof.
  apply not_elem_of_dom. unfold new_id.
  pose proof (is_fresh (dom m ∪ set_seq 0 first : gset nat)). set_solver.
Qed.

Lemma at_id_nat m i : at_id m (Z.of_nat i) = m !! i.
Proof. unfold at_id. destruct (Z.ltb_spec (Z.of_nat i) 0); [lia|]. by rewrite Nat2Z.id. Qed.

Lemma at_id_some m id x : at_id m id = Some x -> exists i, id = Z.of_nat i /\ m !! i = Some x.
Proof.
  unfold at_id. destruct (Z.ltb_spec id 0); [done|]. intros Hm.
  exists (Z.to_nat id). split; [lia|done].
Qed.

Lemma at_id_insert m i x : at_id (<[i := x]> m) (Z.of_nat i) = Some x.
Proof. rewrite at_id_nat. apply lookup_insert_eq. Qed.

Lemma at_id_insert_ne m i x id : id <> Z.of_nat i -> at_id (<[i := x]> m) id = at_id m id.
Proof.
  intros Hne. unfold at_id. destruct (Z.ltb_spec id 0); [done|].
  apply lookup_insert_ne. lia.
Qed.

Lemma at_id_delete m i : at_id (delete i m) (Z.of_nat i) = None.
Proof. rewrite at_id_nat. apply lookup_delete_eq. Qed.

Lemma at_id_delete_ne m i id : id <> Z.of_nat i -> at_id (delete i m) id = at_id m id.
Proof.
  intros Hne. unfold at_id. destruct (Z.ltb_spec id 0); [done|].
  apply lookup_delete_ne. lia.
Qed.
End ids.

Lemma unbind_eq (id : nat) (keys : gmap Z nat) key :
  Z.of_nat <$> keys !! key = Some (Z.of_nat id) ->
  Z.of_nat <$> unbind id keys !! key = None.
Proof.
  intros H. unfold unbind. rewrite map_lookup_filter.
  destruct (keys !! key) as [i|] eqn:E; simpl in *; [|done].
  injection H as H. apply Nat2Z.inj in H as ->. by rewrite option_guard_False by (intros Hx; by apply Hx).
Qed.

Lemma unbind_ne (id : nat) (keys : gmap Z nat) key :
  Z.of_nat <$> keys !! key <> Some (Z.of_nat id) ->
  Z.of_nat <$> unbind id keys !! key = Z.of_nat <$> keys !! key.
Proof.
  intros H. unfold unbind. rewrite map_lookup_filter.
  destruct (keys !! key) as [i|] eqn:E; simpl in *; [|done].
  rewrite option_guard_True; [done|]. simpl. intros ->. by apply H.
Qed.

#[local] Arguments has_creat : simpl never.
#[local] Arguments has_excl : simpl never.

Lemma creat_bits perm :
  has_creat (Z.lor (Z.lor IPC_CREAT IPC_EXCL) perm) = true /\
  has_excl (Z.lor (Z.lor IPC_CREAT IPC_EXCL) perm) = true.
Proof. unfold has_creat, has_excl. by rewrite !Z.lor_spec. Qed.

#[export] Instance kernel_sem_laws : SemLaws kernel.
Proof.
  split; unfold sem_frame; simpl.
  - intros k id ops vs vs' Hv Ho. rewrite Hv, Ho. eexists. split; [done|].
    apply at_id_some in Hv as (i & -> & Hi). simpl. rewrite Nat2Z.id, at_id_insert.
    repeat split; try done. intros id' Hne. by apply at_id_insert_ne.
  - intros k id ops vs Hv Ho. by rewrite Hv, Ho.
  - intros k id ops Hv. rewrite Hv. by eexists.
  - intros k id n v vs Hv Hn Hr. rewrite Hv. eexists. split; [done|].
    apply at_id_some in Hv as (i & -> & Hi). simpl. rewrite Nat2Z.id, at_id_insert.
    repeat split; try done. intros id' Hne. by apply at_id_insert_ne.
  - intros k key n perm Hk Hn Hp. apply fmap_None in Hk. rewrite Hk.
    rewrite (proj1 (creat_bits perm)). eexists _, _. split; [done|]. right. simpl.
    rewrite at_id_insert, lookup_insert_eq, at_id_nat, new_id_fresh.
    repeat split; try lia; try done. intros id' Hne. by apply at_id_insert_ne.
  - intros k key n perm id Hk Hp. destruct (k_semkeys k !! key); [|done].
    destruct (creat_bits perm) as [-> ->]. by eexists.
  - intros k id vs Hv _. rewrite Hv. eexists. split; [done|].
    apply at_id_some in Hv as (i & -> & Hi). simpl. rewrite Nat2Z.id, at_id_delete.
    split; [done|]. split; [intros; by apply at_id_delete_ne|]. intros key. apply unbind_eq.
Qed.

#[export] Instance kernel_shm_laws : ShmLaws kernel.
Proof.
  split; simpl; unfold at_addr.
  - intros k key size perm Hk Hn Hp. apply fmap_None in Hk. rewrite Hk.
    rewrite (proj1 (creat_bits perm)). eexists _, _. split; [done|]. right. simpl.
    rewrite at_id_insert, lookup_insert_eq, at_id_nat, new_id_fresh.
    repeat split; try lia; try done. intros id' Hne. by apply at_id_insert_ne.
  - intros k key size perm id Hk Hp. destruct (k_segkeys k !! key); [|done].
    destruct (creat_bits perm) as [-> ->]. by eexists.
  - intros k key id m Hk Hm. destruct (k_segkeys k !! key) as [i|]; [|done].
    injection Hk as <-. simpl. exists (Z.of_nat i), k.
    destruct (Z.leb_spec 0 (Z.of_nat (length (default [] (k_segs k !! i))))); [|lia].
    repeat split; try done; [by left|lia].
  - intros k id m Hm. rewrite Hm. eexists _, _. split; [done|]. simpl.
    repeat split; try done.
    + rewrite at_id_nat, new_id_fresh. done.
    + rewrite at_id_insert. simpl. apply at_id_some in Hm as (i & -> & _). by rewrite Nat2Z.id.
    + intros q Hq. by rewrite at_id_insert_ne.
  - intros k p id m bs Hp Hm Hl. destruct (at_id (k_at k) p) as [i|]; [|done].
    injection Hp as <-. rewrite at_id_nat in Hm. simpl. rewrite Hm. simpl.
    destruct (Nat.leb_spec (length bs) (length m)); [|lia]. eexists. split; [done|]. simpl.
    rewrite at_id_insert. repeat split; try done. intros id' Hne. by apply at_id_insert_ne.
  - intros k p id m n Hp Hm Hn. destruct (at_id (k_at k) p) as [i|]; [|done].
    injection Hp as <-. rewrite at_id_nat in Hm. simpl. rewrite Hm. simpl.
    destruct (Nat.leb_spec n (length m)); [done|lia].
  - intros k p id Hp. destruct (at_id (k_at k) p) as [i|] eqn:E; [|done].
    eexists. split; [done|]. simpl. apply at_id_some in E as (j & -> & _).
    rewrite Nat2Z.id, at_id_delete. repeat split; try done.
    intros q Hq. by rewrite at_id_delete_ne.
  - intros k id m Hm _. rewrite Hm. eexists. split; [done|]. simpl.
    apply at_id_some in Hm as (i & -> & Hi). rewrite Nat2Z.id.
    split; [intros key; apply unbind_eq|]. split; [intros key; apply unbind_ne|].
    split; [done|]. split; [done|]. intros q _. by rewrite at_id_nat.
Qed.

Lemma new_fd_fresh m : new_fd m ∉ (dom m : gset Z).
Proof.
  unfold new_fd. set (n := fresh _).
  pose proof (is_fresh (set_map Z.to_nat (dom m : gset Z) ∪ set_seq 0 3 : gset nat)) as Hn.
  fold n in Hn. intros Hin. apply Hn, elem_of_union_l, elem_of_map.
  exists (Z.of_nat n). split; [lia|done].
Qed.

#[export] Instance kernel_sock_laws : SockLaws kernel.
Proof.
  split; simpl.
  - intros fd k c k' E. case_bool_decide as Hb; injection E as <- <-.
    + right. pose proof (new_fd_fresh (n_socks (k_net k))) as Hn. simpl.
      split; [unfold new_fd; lia|]. split; [done|]. split; [set_solver|].
      rewrite lookup_insert_eq. split; [done|]. intros d Hd. by rewrite lookup_insert_ne.
    + left. by repeat split.
  - intros fd bs k r k' E. destruct (n_socks (k_net k) !! fd) as [s|] eqn:Hs.
    + destruct (Z.leb_spec 0 fd); destruct (sk_eof s); simpl in E; injection E as <- <-;
        simpl; try (by split; [|left]).
      assert (Hd : fd ∈ (dom (n_socks (k_net k)) : gset Z)) by (by apply elem_of_dom).
      split; [set_solver|]. right. rewrite lookup_insert_eq. repeat split; try done.
      intros d Hne. by rewrite lookup_insert_ne.
    + injection E as <- <-. by split; [|left].
  - intros fd n k r bs k' E.
    destruct (n_socks (k_net k) !! fd) as [[[|b l] eof o r0]|] eqn:Hs.
    + destruct eof, r0; injection E as <- <- <-; (split; [done|]); (split; [done|]);
        [left|right|left..]; simpl; split; try done; lia.
    + injection E as <- <- <-. simpl.
      assert (Hd : fd ∈ (dom (n_socks (k_net k)) : gset Z)) by (by apply elem_of_dom).
      split; [set_solver|]. split; [|right; split; [done|rewrite length_take; simpl; lia]].
      intros d. destruct (decide (d = fd)) as [->|Hne];
        [by rewrite lookup_insert_eq, Hs|by rewrite lookup_insert_ne].
    + injection E as <- <- <-. repeat split. by left.
  - intros fd n k Hfd Hin Hn. destruct (n_socks (k_net k) !! fd) as [[[|b l] eof o r0]|]; try done.
    eexists. split; [done|]. simpl. by rewrite lookup_insert_eq.
  - intros s fd k Hs Hsub Hin. eexists _, _, k. split; [done|].
    assert (Hr : fd ∈ filter (fun fd => true = match n_socks (k_net k) !! fd with
      | Some (Sock bs eof _ _) => negb (bool_decide (bs = [])) || eof ||
          bool_decide (fd = n_listen (k_net k) /\ (0 < n_backlog (k_net k))%nat)
      | None => false end) s).
    { apply elem_of_filter. split; [|done].
      destruct (n_socks (k_net k) !! fd) as [[[|b l] eof o r0]|]; done. }
    split; [|by split]. match type of Hr with _ ∈ ?X =>
      assert (size X <> 0) by (apply size_non_empty_iff; intros E; by apply E in Hr); lia end.
  - intros fd k r k' E. injection E as <- <-. simpl. split; [set_solver|].
    intros d Hd. by rewrite lookup_delete_ne.
  - intros s k r rs k' E. injection E as <- <- <-. repeat split. right. set_solver.
Qed.

#[export] Instance kernel_frame_laws : FrameLaws kernel.
Proof.
  split; simpl; intros; repeat (case_match; simplify_eq/=); try done.
  apply bind_Some in H as (id & _ & H). apply bind_Some in H as (m & _ & H).
  case_match; by simplify_eq/=.
Qed.

#[export] Instance kernel_peer_laws : PeerLaws kernel.
Proof.
  split; simpl; unfold peer_closed, peers_but; simpl.
  - intros fd bs k H. destruct (n_socks (k_net k) !! fd); [|done].
    simpl in H. by rewrite H, andb_false_r.
  - intros fd bs k Hd Hfd H. apply elem_of_dom in Hd as [s Hs]. rewrite Hs in *. simpl in H.
    rewrite (proj2 (Z.leb_le 0 fd)), H by done. simpl. lia.
  - intros fd b k Hd. assert (Hd' := Hd). apply elem_of_dom in Hd' as [s Hs]. rewrite Hs.
    do 2 (split; [done|]). simpl. split; [set_solver|]. split; [done|].
    do 2 (split; [intros d; destruct (decide (d = fd)) as [->|Hne];
      [by rewrite lookup_insert_eq, Hs|by rewrite lookup_insert_ne]|]).
    rewrite lookup_insert_eq. split; [done|]. intros d Hne. by rewrite lookup_insert_ne.
  - intros fd bs k Hd Hc. assert (Hd' := Hd). apply elem_of_dom in Hd' as [s Hs]. rewrite Hs.
    do 2 (split; [done|]). simpl. split; [set_solver|]. split; [done|].
    do 2 (split; [intros d; destruct (decide (d = fd)) as [->|Hne];
      [by rewrite lookup_insert_eq, Hs|by rewrite lookup_insert_ne]|]).
    rewrite lookup_insert_eq. split; [done|]. intros d Hne. by rewrite lookup_insert_ne.
  - intros fd n k Hd Hin Hc. apply elem_of_dom in Hd as [s Hs]. rewrite Hs in *.
    destruct s as [bs eof o r]. simpl in *. by subst.
  - intros fd n k. destruct (n_socks (k_net k) !! fd) as [[[|b l] eof o r]|] eqn:E; simpl; try done.
    + by destruct eof.
    + rewrite lookup_insert_eq. do 3 (split; [done|]). split; [|done].
      intros d Hne. by rewrite lookup_insert_ne.
  - intros s k r rs k' fd [= <- <- <-] _ Hfd Hp. apply elem_of_filter in Hfd as [Hr _].
    destruct (n_socks (k_net k) !! fd) as [[bs eof o b]|]; [|done]. simpl in *.
    destruct bs; [right|by left]. destruct eof; [done|]. simpl in Hr.
    symmetry in Hr. apply bool_decide_eq_true in Hr as [-> _]. by rewrite Z.eqb_refl in Hp.
  - done.
  - intros fd k. case_bool_decide as Hb; simpl; [|by repeat split].
    do 3 (split; [done|]). split; [intros d Hne; by rewrite lookup_insert_ne|].
    intros _. rewrite lookup_insert_eq. simpl. apply negb_true_iff, Z.eqb_neq.
    destruct Hb as (-> & [x Hx] & _). intros E. apply (new_fd_fresh (n_socks (k_net k))).
    rewrite E. apply elem_of_dom. by eexists.
  - intros fd k. do 3 (split; [done|]). intros d Hne. by rewrite lookup_delete_ne.
  - intros id ops k r k' H. by repeat (case_match; simplify_eq/=).
  - intros id n v k. by destruct (at_id (k_sems k) id).
  - intros fd bs k. destruct (n_socks (k_net k) !! fd) as [s|] eqn:E; [|done].
    destruct (_ && _); [|done]. split; [done|]. intros d. simpl. destruct (decide (d = fd)) as [->|Hne].
    + by rewrite lookup_insert_eq, E.
    + by rewrite lookup_insert_ne.
  - intros p bs k k' H. apply bind_Some in H as (id & _ & H). apply bind_Some in H as (m & _ & H).
    case_match; by simplify_eq/=.
  - intros path c k. by destruct (n_files (k_net k) !! path).
  - intros key size flg k. by repeat case_match.
  - intros id k. by destruct (at_id (k_segs k) id).
  - intros p k. by destruct (at_addr k p).
  - intros id k. by destruct (at_id (k_segs k) id).
  - intros key n flg k. by repeat case_match.
  - intros id k. by destruct (at_id (k_sems k) id).
  - intros path k. by case_bool_decide.
  - intros k key n id H. destruct (k_semkeys k !! key); [|done]. simpl in *. injection H as <-.
    split; [by left|done].
Qed.

#[export] Instance kernel_setup_laws : SetupLaws kernel.
Proof.
  split; simpl; try done.
  - intros k. split; [done|]. right. split; [unfold new_fd; lia|].
    rewrite dom_insert_L. apply union_comm_L.
  - intros fd path k. by case_bool_decide.
  - intros path k. by case_bool_decide.
Qed.
