(* ===== verification/SysVSem.v ===== *)
(** * Semaphores and locks (sysv-sem.hpp, sysv-sem.cpp)

    Semaphore 0 counts the readers that have not read the last frame, plus one
    while a writer holds the lock; semaphore 1 is 1 while a writer holds the
    lock. *)

From S2P Require Import Prelude Logger Posix PosixModel.

(** ** The operation arrays of namespace semops *)

Definition read_start : list sembuf := [Sembuf 1 0 0].
Definition read_end : list sembuf := [Sembuf 0 (-1) 0].
Definition write_start : list sembuf := [Sembuf 0 0 0; Sembuf 1 1 0; Sembuf 0 1 0].
Definition write_end : list sembuf := [Sembuf 0 (-1) 0; Sembuf 1 (-1) 0].
(** The array built by [commit_readers]. *)
Definition read_commit_reader (num_reader : Z) : list sembuf := [Sembuf 0 num_reader 0].

(** ** Objects *)

Record sysVSem := SysVSem { sem_key_ : Z; sem_owner_ : bool; semid_ : Z }.
Record ReadLock := mkReadLock { rl_sem_ : sysVSem; rl_valid_ : bool }.
Record WriteLock := mkWriteLock { wl_sem_ : sysVSem; wl_valid_ : bool }.

(** [sysVSem::is_valid] *)
Definition sysVSem_is_valid (s : sysVSem) : bool := (0 <? semid_ s)%Z.

Section sem.
Context {K : Type} `{ErrnoOS K, SemOS K}.

Definition force_semaphore_cleaning (key : Z) : M (world K) bool :=
  semid ← sys (semget key 2 0);
  if (semid <? 0)%Z
  then (log_errno LDebug $"semget (forcing semaphore cleaning): %";; mret false)
  else
    r ← sys (semctl_rmid semid);
    when (negb (r =? 0)%Z) (log_errno LError $"semctl removing semaphore %");;
    mret true.

(** [sysVSem::sysVSem] *)
Definition sysVSem_ctor (key : Z) (owner : bool) (unix_permission : Z)
  : M (world K) sysVSem :=
  semid ← sys (semget key 2
                 (if owner then Z.lor (Z.lor IPC_CREAT IPC_EXCL) unix_permission else 0%Z));
  when (semid <? 0)%Z (log_errno LDebug $"semget: %");;
  mret (SysVSem key owner semid).

(** [sysVSem::~sysVSem] *)
Definition sysVSem_dtor (s : sysVSem) : M (world K) unit :=
  when (sysVSem_is_valid s && sem_owner_ s)
    (r ← sys (semctl_rmid (semid_ s));
     when (negb (r =? 0)%Z) (log_errno LError $"semctl removing semaphore %")).

Definition cancel_commited_reader (s : sysVSem) : M (world K) unit :=
  r ← sys_wait (semop (semid_ s) read_end);
  when (r =? -1)%Z (log_errno LError $"semop cancel: %").

(** [ReadLock::ReadLock], [ReadLock::~ReadLock] *)
Definition ReadLock_ctor (sem : sysVSem) : M (world K) ReadLock :=
  r ← sys_wait (semop (semid_ sem) read_start);
  if (r =? -1)%Z
  then (log_errno LDebug $"semop ReadLock %";; mret (mkReadLock sem false))
  else mret (mkReadLock sem true).

Definition ReadLock_dtor (l : ReadLock) : M (world K) unit :=
  when (rl_valid_ l) (_ ← sys_wait (semop (semid_ (rl_sem_ l)) read_end); mret tt).

(** The body of [read_semaphore_reset_thread] once its wait is over. *)
Definition read_semaphore_reset (sem : sysVSem)
  (got_semaphore_in_a_reasonable_time : bool) : M (world K) unit :=
  when (negb got_semaphore_in_a_reasonable_time)
    (_ ← sys (semctl_setval (semid_ sem) 0 0); mret tt).

(** [WriteLock::WriteLock] when no other process acts meanwhile: if the
    [semop] sleeps, the reset thread times out with the flag false; the
    [semop] is then tried again by the kernel.  The interleavings with other
    processes, and the timer, are steps of [ShmProtocol.v]. *)
Definition write_start_wait (sem : sysVSem) : M (world K) Z := fun w =>
  match semop (semid_ sem) write_start (kern w) with
  | Some (r, k) => (Ret r, World k (logs w))
  | None =>
      (read_semaphore_reset sem false;;
       sys_wait (semop (semid_ sem) write_start)) w
  end.

Definition WriteLock_ctor (sem : sysVSem) : M (world K) WriteLock :=
  result ← write_start_wait sem;
  if (result =? -1)%Z
  then (log_errno LError $"semop WriteLock: %";; mret (mkWriteLock sem false))
  else mret (mkWriteLock sem true).

Definition commit_readers (l : WriteLock) (num_reader : Z) : M (world K) bool :=
  r ← sys_wait (semop (semid_ (wl_sem_ l)) (read_commit_reader num_reader));
  if (r =? -1)%Z
  then (log_errno LError $"semop commit readers: %";; mret false)
  else mret true.

(** [WriteLock::~WriteLock] *)
Definition WriteLock_dtor (l : WriteLock) : M (world K) unit :=
  when (wl_valid_ l) (_ ← sys_wait (semop (semid_ (wl_sem_ l)) write_end); mret tt).
End sem.

(** [n] readers, one after the other, each in a [ReadLock]. *)
Section reads.
Context {K : Type} `{ErrnoOS K, SemOS K}.

Fixpoint reads (n : nat) (s : sysVSem) : M (world K) unit :=
  match n with
  | O => mret tt
  | S n' => l ← ReadLock_ctor s; ReadLock_dtor l;; reads n' s
  end.

(** What [copy_to_shm] does to the semaphores between lock and unlock. *)
Definition commit_and_unlock (l : WriteLock) (num_readers : Z) : M (world K) unit :=
  when (0 <? num_readers)%Z (_ ← commit_readers l num_readers; mret tt);;
  WriteLock_dtor l.
End reads.

(** The set made by an owner with key 9. *)
Definition sem9 : sysVSem := SysVSem 9 true 1.
Definition with_sem9 (vs : list Z) : world kernel :=
  World (Kernel 0 1 {[1 := vs]} {[9%Z := 1]} ∅ ∅ ∅ empty_net) [].

(** ** Effect of the operation arrays on the two values *)

Section ops.
Implicit Types a b n : Z.

Lemma run_read_start a b :
  run_ops read_start [a; b] =
  if (b =? 0)%Z then OpsDone [a; b] else OpsSleep.
Proof.
  unfold run_ops, read_start. simpl. destruct (Z.eqb_spec b 0) as [->|]; simpl; [|done].
  by rewrite Z.add_0_r.
Qed.

Lemma run_read_end a b :
  (a <= SEMVMX)%Z ->
  run_ops read_end [a; b] = if (0 <? a)%Z then OpsDone [(a - 1)%Z; b] else OpsSleep.
Proof.
  intros Ha. unfold run_ops, read_end, SEMVMX in *. simpl.
  destruct (Z.ltb_spec 0 a); destruct (Z.ltb_spec (a + -1) 0); try lia; [|done].
  destruct (Z.ltb_spec 32767 (a + -1)); [lia|]. done.
Qed.

Lemma run_write_start a b :
  (0 <= b < SEMVMX)%Z ->
  run_ops write_start [a; b] =
  if (a =? 0)%Z then OpsDone [1%Z; (b + 1)%Z] else OpsSleep.
Proof.
  intros Hb. unfold run_ops, write_start, SEMVMX in *. simpl.
  destruct (Z.eqb_spec a 0) as [->|]; simpl; [|done].
  destruct (Z.ltb_spec (b + 1) 0); [lia|].
  destruct (Z.ltb_spec 32767 (b + 1)); [lia|]. done.
Qed.

Lemma run_commit a b n :
  (0 <= a)%Z -> (0 < n)%Z -> (a + n <= SEMVMX)%Z ->
  run_ops (read_commit_reader n) [a; b] = OpsDone [(a + n)%Z; b].
Proof.
  intros Ha Hn Hm. unfold run_ops, read_commit_reader, SEMVMX in *. simpl.
  destruct (Z.eqb_spec n 0); [lia|]. simpl.
  destruct (Z.ltb_spec (a + n) 0); [lia|].
  destruct (Z.ltb_spec 32767 (a + n)); [lia|]. done.
Qed.

Lemma run_write_end a b :
  (a <= SEMVMX)%Z -> (b <= SEMVMX)%Z ->
  run_ops write_end [a; b] =
  if (0 <? a)%Z && (0 <? b)%Z then OpsDone [(a - 1)%Z; (b - 1)%Z] else OpsSleep.
Proof.
  intros Ha Hb. unfold run_ops, write_end, SEMVMX in *. simpl.
  destruct (Z.ltb_spec 0 a); destruct (Z.ltb_spec (a + -1) 0); try lia; [|done]. simpl.
  destruct (Z.ltb_spec 32767 (a + -1)); [lia|]. simpl.
  destruct (Z.ltb_spec 0 b); destruct (Z.ltb_spec (b + -1) 0); try lia; [|done].
  destruct (Z.ltb_spec 32767 (b + -1)); [lia|]. done.
Qed.
End ops.

(** ** The locks against the interface *)

Section props.
Context {K : Type} `{SemLaws K}.
Implicit Types (w : world K) (s : sysVSem) (a b n : Z).

(** The values of the set of a semaphore object. *)
Definition sem_holds s (vs : list Z) w : Prop := sem_vals (kern w) (semid_ s) = Some vs.

Lemma sys_semop_done s ops vs vs' w :
  sem_holds s vs w -> run_ops ops vs = OpsDone vs' ->
  exists w', sys_wait (semop (semid_ s) ops) w = (Ret 0%Z, w') /\
    sem_holds s vs' w' /\ logs w' = logs w.
Proof.
  intros Hv Hr. destruct (semop_done _ _ _ _ _ Hv Hr) as (k' & E & Hv' & _).
  exists (World k' (logs w)). unfold sys_wait. by rewrite E.
Qed.

Lemma sys_semop_sleep s ops vs w :
  sem_holds s vs w -> run_ops ops vs = OpsSleep ->
  sys_wait (semop (semid_ s) ops) w = (Sleep, w).
Proof. intros Hv Hr. unfold sys_wait. by rewrite (semop_sleep _ _ _ _ Hv Hr). Qed.

Lemma ReadLock_ctor_spec s a b w :
  sem_holds s [a; b] w ->
  if (b =? 0)%Z
  then exists w', ReadLock_ctor s w = (Ret (mkReadLock s true), w') /\ sem_holds s [a; b] w'
  else ReadLock_ctor s w = (Sleep, w).
Proof.
  intros Hv. pose proof (run_read_start a b) as Hr. destruct (Z.eqb_spec b 0).
  - destruct (sys_semop_done _ _ _ _ _ Hv Hr) as (w' & E & Hv' & _).
    exists w'. unfold ReadLock_ctor. munfold. rewrite E. by split.
  - unfold ReadLock_ctor. munfold. by rewrite (sys_semop_sleep _ _ _ _ Hv Hr).
Qed.

Lemma ReadLock_dtor_spec s a b w :
  sem_holds s [a; b] w -> (a <= SEMVMX)%Z ->
  if (0 <? a)%Z
  then exists w', ReadLock_dtor (mkReadLock s true) w = (Ret tt, w') /\
         sem_holds s [(a - 1)%Z; b] w'
  else ReadLock_dtor (mkReadLock s true) w = (Sleep, w).
Proof.
  intros Hv Ha. pose proof (run_read_end a b Ha) as Hr.
  unfold ReadLock_dtor. cbn [rl_valid_ rl_sem_]. destruct (Z.ltb_spec 0 a).
  - destruct (sys_semop_done _ _ _ _ _ Hv Hr) as (w' & E & Hv' & _).
    exists w'. munfold. rewrite E. by split.
  - munfold. by rewrite (sys_semop_sleep _ _ _ _ Hv Hr).
Qed.

Lemma WriteLock_ctor_spec s a b w :
  sem_holds s [a; b] w -> (0 <= a)%Z -> (0 <= b < SEMVMX)%Z ->
  exists w', WriteLock_ctor s w = (Ret (mkWriteLock s true), w') /\
    sem_holds s [1%Z; (b + 1)%Z] w'.
Proof.
  intros Hv Ha Hb. unfold WriteLock_ctor, write_start_wait. munfold.
  pose proof (run_write_start a b Hb) as Hr. destruct (Z.eqb_spec a 0) as [->|Hne].
  - destruct (semop_done _ _ _ _ _ Hv Hr) as (k' & -> & Hv' & _).
    by exists (World k' (logs w)).
  - rewrite (semop_sleep _ _ _ _ Hv Hr). unfold read_semaphore_reset, sys. munfold. simpl.
    destruct (setval_law (kern w) (semid_ s) 0 0 [a; b]) as (k' & -> & Hv' & _);
      [done|simpl; lia|unfold SEMVMX; lia|]. simpl in Hv'.
    pose proof (run_write_start 0 b Hb) as Hr'. simpl in Hr'.
    destruct (sys_semop_done s write_start [0%Z; b] [1%Z; (b + 1)%Z] (World k' (logs w)) Hv' Hr')
      as (w' & E & Hv'' & _).
    rewrite E. by exists w'.
Qed.

Lemma commit_readers_spec s a b n w :
  sem_holds s [a; b] w -> (0 <= a)%Z -> (0 < n)%Z -> (a + n <= SEMVMX)%Z ->
  exists w', commit_readers (mkWriteLock s true) n w = (Ret true, w') /\
    sem_holds s [(a + n)%Z; b] w'.
Proof.
  intros Hv Ha Hn Hm.
  destruct (sys_semop_done _ _ _ _ _ Hv (run_commit a b n Ha Hn Hm)) as (w' & E & Hv' & _).
  exists w'. unfold commit_readers. munfold. cbn [wl_sem_]. rewrite E. by split.
Qed.

Lemma WriteLock_dtor_spec s a b w :
  sem_holds s [a; b] w -> (a <= SEMVMX)%Z -> (b <= SEMVMX)%Z ->
  if (0 <? a)%Z && (0 <? b)%Z
  then exists w', WriteLock_dtor (mkWriteLock s true) w = (Ret tt, w') /\
         sem_holds s [(a - 1)%Z; (b - 1)%Z] w'
  else WriteLock_dtor (mkWriteLock s true) w = (Sleep, w).
Proof.
  intros Hv Ha Hb. pose proof (run_write_end a b Ha Hb) as Hr.
  unfold WriteLock_dtor. cbn [wl_valid_ wl_sem_]. destruct (_ && _).
  - destruct (sys_semop_done _ _ _ _ _ Hv Hr) as (w' & E & Hv' & _).
    exists w'. munfold. rewrite E. by split.
  - munfold. by rewrite (sys_semop_sleep _ _ _ _ Hv Hr).
Qed.

Lemma reads_spec (n : nat) s w :
  (Z.of_nat n <= SEMVMX)%Z -> sem_holds s [Z.of_nat n; 0%Z] w ->
  exists w', reads n s w = (Ret tt, w') /\ sem_holds s [0%Z; 0%Z] w'.
Proof.
  revert w. induction n as [|n IH]; intros w Hn Hv; [by exists w|].
  destruct (ReadLock_ctor_spec s _ _ w Hv) as (w1 & E1 & Hv1).
  pose proof (ReadLock_dtor_spec s _ _ w1 Hv1 Hn) as Hd.
  destruct (Z.ltb_spec 0 (Z.of_nat (S n))); [|lia]. destruct Hd as (w2 & E2 & Hv2).
  replace (Z.of_nat (S n) - 1)%Z with (Z.of_nat n) in Hv2 by lia.
  destruct (IH w2) as (w3 & E3 & Hv3); [lia|done|]. exists w3. split; [|done].
  cbn [reads]. unfold mbind at 1, M_bind at 1. rewrite E1. cbn beta.
  unfold mbind at 1, M_bind at 1. by rewrite E2.
Qed.

Lemma commit_and_unlock_spec s (n : nat) w :
  (Z.of_nat n < SEMVMX)%Z -> sem_holds s [1%Z; 1%Z] w ->
  exists w', commit_and_unlock (mkWriteLock s true) (Z.of_nat n) w = (Ret tt, w') /\
    sem_holds s [Z.of_nat n; 0%Z] w'.
Proof.
  intros Hn Hv. unfold commit_and_unlock, when. destruct (Z.ltb_spec 0 (Z.of_nat n)).
  - destruct (commit_readers_spec s 1 1 (Z.of_nat n) w) as (w1 & E1 & Hv1); [done|lia..|].
    pose proof (WriteLock_dtor_spec s _ _ w1 Hv1) as Hd.
    destruct (Z.ltb_spec 0 (1 + Z.of_nat n)); [|lia].
    destruct Hd as (w2 & E2 & Hv2); [lia|done|]. exists w2. split.
    + unfold mbind, M_bind. rewrite E1. exact E2.
    + replace (Z.of_nat n) with (1 + Z.of_nat n - 1)%Z by lia. exact Hv2.
  - destruct (WriteLock_dtor_spec s 1 1 w Hv) as (w2 & E2 & Hv2); [done|done|].
    exists w2. split; [exact E2|]. assert (n = 0) as -> by lia. exact Hv2.
Qed.

(** One cycle of the locks.  From idle semaphores a writer gets the lock,
    which makes readers and other writers sleep; after it commits [n] readers
    and unlocks, a writer sleeps (if [n] is not 0) until [n] readers have
    locked and unlocked, and the semaphores are idle again. *)
Theorem lock_cycle s (n : nat) w :
  (Z.of_nat n < SEMVMX)%Z -> sem_holds s [0%Z; 0%Z] w ->
  exists w1 w2 w3,
    WriteLock_ctor s w = (Ret (mkWriteLock s true), w1) /\
    ReadLock_ctor s w1 = (Sleep, w1) /\
    sys_wait (semop (semid_ s) write_start) w1 = (Sleep, w1) /\
    commit_and_unlock (mkWriteLock s true) (Z.of_nat n) w1 = (Ret tt, w2) /\
    (n <> 0 -> sys_wait (semop (semid_ s) write_start) w2 = (Sleep, w2)) /\
    reads n s w2 = (Ret tt, w3) /\ sem_holds s [0%Z; 0%Z] w3.
Proof.
  intros Hn Hv. destruct (WriteLock_ctor_spec s 0 0 w Hv) as (w1 & E1 & Hv1); [done|done|].
  destruct (commit_and_unlock_spec s n w1 Hn Hv1) as (w2 & E2 & Hv2).
  destruct (reads_spec n s w2) as (w3 & E3 & Hv3); [lia|done|].
  exists w1, w2, w3. split; [done|]. split; [apply (ReadLock_ctor_spec s 1 1 w1 Hv1)|].
  split; [by apply (sys_semop_sleep s write_start [1%Z; 1%Z])|]. split; [done|].
  split; [|by split]. intros Hne. apply (sys_semop_sleep s write_start [Z.of_nat n; 0%Z]); [done|].
  rewrite run_write_start by (unfold SEMVMX; lia).
  by destruct (Z.eqb_spec (Z.of_nat n) 0); [lia|].
Qed.

(** A writer is never blocked by readers for ever.  Whatever number of
    decrements is owed (by dead readers, say), [WriteLock::WriteLock] returns
    a valid lock, the time-out thread having reset the semaphore if needed. *)
Theorem write_lock_acquires s a b w :
  sem_holds s [a; b] w -> (0 <= a)%Z -> (0 <= b < SEMVMX)%Z ->
  exists w', WriteLock_ctor s w = (Ret (mkWriteLock s true), w') /\
    sem_holds s [1%Z; (b + 1)%Z] w'.
Proof. apply WriteLock_ctor_spec. Qed.

(** Life of an owned semaphore set.  With a free key the constructor
    either fails with an invalid object or creates a set of two zeros under
    the key; the destructor then removes it and frees the key, unless its
    identifier is 0: such an object counts as invalid and the set stays. *)
Theorem owner_lifecycle key perm w :
  sem_key (kern w) key = None -> (0 <= perm < 512)%Z ->
  exists s w1, sysVSem_ctor key true perm w = (Ret s, w1) /\
    ((semid_ s < 0)%Z /\ sysVSem_is_valid s = false \/
     sem_holds s [0%Z; 0%Z] w1 /\ sem_key (kern w1) key = Some (semid_ s) /\
     exists w2, sysVSem_dtor s w1 = (Ret tt, w2) /\
       if sysVSem_is_valid s then sem_key (kern w2) key = None
       else semid_ s = 0%Z /\ w2 = w1).
Proof.
  intros Hk Hp. destruct (semget_create (kern w) key 2 perm Hk) as (id & k' & E & Hc);
    [lia|done|].
  unfold sysVSem_ctor, sys. munfold. rewrite E.
  destruct Hc as [Hneg|(Hid & _ & _ & Hv & Hk' & Hm)].
  - eexists _, _. split; [by destruct (Z.ltb_spec id 0); [|lia]|]. left.
    unfold sysVSem_is_valid. simpl. split; [done|]. destruct (Z.ltb_spec 0 id); [lia|done].
  - destruct (Z.ltb_spec id 0); [lia|]. eexists _, _. split; [done|]. right.
    split; [exact Hv|]. split; [exact Hk'|].
    unfold sysVSem_dtor, sysVSem_is_valid, sys. munfold.
    cbn [semid_ sem_owner_ kern logs]. destruct (Z.ltb_spec 0 id).
    + destruct (rmid_law k' id _ Hv Hm) as (k2 & E2 & _ & _ & Hfree). simpl. rewrite E2.
      eexists. split; [done|]. simpl. by apply Hfree.
    + eexists. split; [done|]. split; [lia|done].
Qed.

(** A second owner does no harm.  On a key in use the constructor gives
    an invalid object, and neither it nor the destructor touches the sets. *)
Theorem second_owner_harmless key perm id w :
  sem_key (kern w) key = Some id -> (0 <= perm < 512)%Z ->
  exists s w1, sysVSem_ctor key true perm w = (Ret s, w1) /\ sysVSem_is_valid s = false /\
    exists w2, sysVSem_dtor s w1 = (Ret tt, w2) /\
      sem_vals (kern w2) = sem_vals (kern w) /\ sem_key (kern w2) = sem_key (kern w).
Proof.
  intros Hk Hp. destruct (semget_excl (kern w) key 2 perm id Hk Hp) as (k' & E & Hv & Hk' & _).
  unfold sysVSem_ctor, sys. munfold. rewrite E. eexists _, _. split; [done|]. split; [done|].
  eexists. by split.
Qed.
End props.

(** ** Concrete instances *)

Lemma lock_cycle_witness : exists w1 w2 w3,
  WriteLock_ctor sem9 (with_sem9 [0%Z; 0%Z]) = (Ret (mkWriteLock sem9 true), w1) /\
  commit_and_unlock (mkWriteLock sem9 true) 3 w1 = (Ret tt, w2) /\
  reads 3 sem9 w2 = (Ret tt, w3) /\ sem_holds sem9 [0%Z; 0%Z] w3.
Proof.
  destruct (lock_cycle sem9 3 (with_sem9 [0%Z; 0%Z])) as (w1 & w2 & w3 & H);
    [reflexivity|reflexivity|]. exists w1, w2, w3. tauto.
Defined.

Lemma write_lock_acquires_witness : exists w',
  WriteLock_ctor sem9 (with_sem9 [4%Z; 0%Z]) = (Ret (mkWriteLock sem9 true), w') /\
  sem_holds sem9 [1%Z; 1%Z] w'.
Proof.
  apply (write_lock_acquires sem9 4 0 (with_sem9 [4%Z; 0%Z])); [reflexivity|lia|].
  unfold SEMVMX. lia.
Defined.

Lemma owner_lifecycle_witness : exists s w1,
  sysVSem_ctor 9 true 432 (boot 0) = (Ret s, w1) /\ semid_ s = 0%Z /\
  sysVSem_is_valid s = false /\ sem_key (kern w1) 9 = Some 0%Z.
Proof.
  destruct (owner_lifecycle 9 432 (boot 0)) as (s & w1 & E & _); [reflexivity|lia|].
  exists s, w1. split; [exact E|]. vm_compute in E. injection E as <- <-. by vm_compute.
Defined.

Lemma second_owner_harmless_witness : exists s w1,
  sysVSem_ctor 9 true 432 (with_sem9 [2%Z; 0%Z]) = (Ret s, w1) /\ sysVSem_is_valid s = false.
Proof.
  destruct (second_owner_harmless 9 432 1 (with_sem9 [2%Z; 0%Z])) as (s & w1 & E & Hv & _);
    [reflexivity|lia|]. by exists s, w1.
Defined.
