(* ===== verification/SysVShm.v ===== *)
(** * Shared memory segments (sysv-shm.hpp, sysv-shm.cpp) *)

From S2P Require Import Prelude Logger Posix PosixModel.

Record sysVShm := SysVShm {
  shm_key_ : Z; size_ : Z; shmid_ : Z; shm_owner_ : bool;
  shm_ : option Z }.                       (* None: (void * )-1 *)

(** [sysVShm::is_valid], [sysVShm::get_mem], [sysVShm::get_size] *)
Definition sysVShm_is_valid (s : sysVShm) : bool :=
  negb (shm_key_ s =? -1)%Z && (0 <=? shmid_ s)%Z &&
  match shm_ s with Some _ => true | None => false end.
Definition get_mem (s : sysVShm) : option Z := shm_ s.
Definition get_size (s : sysVShm) : Z := size_ s.

Section shm.
Context {K : Type} `{ErrnoOS K, ShmOS K}.

(** [memset(p, 0, n)], [memcpy(p, bs, n)] *)
Definition store_at (p : Z) (bs : cstr) : M (world K) unit := fun w =>
  match store p bs (kern w) with
  | Some k => (Ret tt, World k (logs w))
  | None => (Undef, w)
  end.

Definition force_shm_cleaning (key : Z) : M (world K) bool :=
  shmid ← sys (shmget key 0 0);
  if (shmid <? 0)%Z
  then (log_errno LDebug $"shmget (forcing shm cleaning): %";; mret false)
  else
    r ← sys (shmctl_rmid shmid);
    when (negb (r =? 0)%Z) (log_errno LError $"shmctl removing shm: %");;
    mret true.

(** [sysVShm::sysVShm] *)
Definition sysVShm_ctor (key size : Z) (owner : bool) (unix_permission : Z)
  : M (world K) sysVShm :=
  shmid ← sys (shmget key size
                 (if owner then Z.lor (Z.lor IPC_CREAT IPC_EXCL) unix_permission else 0%Z));
  if (key =? -1)%Z
  then (log_errno LWarning $"ftok: %";; mret (SysVShm key size shmid owner None))
  else if (shmid <? 0)%Z
  then (log_errno LWarning $"shmget: %";; mret (SysVShm key size shmid owner None))
  else
    shm ← sys (shmat shmid);
    match shm with
    | None => log_errno LWarning $"shmat: %";; mret (SysVShm key size shmid owner None)
    | Some p =>
        store_at p (replicate (Z.to_nat size) Ascii.zero);;
        mret (SysVShm key size shmid owner (Some p))
    end.

(** [sysVShm::~sysVShm] *)
Definition sysVShm_dtor (s : sysVShm) : M (world K) unit :=
  match shm_ s with
  | Some p =>
      when (sysVShm_is_valid s)
        (r ← sys (shmdt p); when (r =? -1)%Z (log_errno LError $"shmdt: %"))
  | None => mret tt
  end;;
  when ((0 <? shmid_ s)%Z && shm_owner_ s)
    (r ← sys (shmctl_rmid (shmid_ s));
     when (r <? 0)%Z (log_errno LError $"shmctl removing shared mem: %")).
End shm.

(** [unix_permission]'s default value (0600). *)
Definition shm_default_permission : Z := 384.

(** [shm_.reset(); shm_.reset(new sysVShm(key, size, log, true))], the
    replacement of the segment by a writer. *)
Definition replace_shm {K} `{ErrnoOS K, ShmOS K} (s : sysVShm) (key size : Z)
  : M (world K) sysVShm :=
  sysVShm_dtor s;; sysVShm_ctor key size true shm_default_permission.

(** A segment of 3 bytes with identifier 1, key 5, attached at address 2. *)
Definition shm5 : sysVShm := SysVShm 5 3 1 true (Some 2%Z).
Definition with_shm5 : world kernel :=
  World (Kernel 0 1 ∅ ∅ {[1 := $"abc"]} {[5%Z := 1]} {[2 := 1]} empty_net) [].

(** ** The objects against the interface *)

Section props.
Context {K : Type} `{ShmLaws K}.
Implicit Types (w : world K) (s : sysVShm) (key size perm id : Z).

(** The segment of [s] holds [m], is named by its key and attached at [p]. *)
Definition shm_holds s (p : Z) (m : cstr) w : Prop :=
  shm_ s = Some p /\ seg_bytes (kern w) (shmid_ s) = Some m /\
  seg_key (kern w) (shm_key_ s) = Some (shmid_ s) /\ seg_at (kern w) p = Some (shmid_ s) /\
  (0 <= shmid_ s)%Z /\ shm_key_ s <> (-1)%Z.

(** Everything mapped stays so with its bytes, but for the address [o]. *)
Definition stays (o : option Z) (k k' : K) : Prop :=
  forall q i m, Some q <> o -> seg_at k q = Some i -> seg_bytes k i = Some m ->
  seg_at k' q = Some i /\ seg_bytes k' i = Some m.

Lemma stays_trans o k k' k'' : stays o k k' -> stays o k' k'' -> stays o k k''.
Proof. intros Hs Hs' q i m Hq Ha Hb. destruct (Hs q i m Hq Ha Hb). by apply Hs'. Qed.

Lemma stays_none o k k' : stays None k k' -> stays o k k'.
Proof. intros Hs q i m _. by apply Hs. Qed.

Lemma shm_holds_valid s p m w : shm_holds s p m w -> sysVShm_is_valid s = true.
Proof.
  intros (Hp & _ & _ & _ & Hid & Hk). unfold sysVShm_is_valid. rewrite Hp.
  destruct (Z.eqb_spec (shm_key_ s) (-1)), (Z.leb_spec 0 (shmid_ s)); done || lia.
Qed.

Lemma store_at_spec p id m bs w :
  seg_at (kern w) p = Some id -> seg_bytes (kern w) id = Some m -> length bs <= length m ->
  exists w', store_at p bs w = (Ret tt, w') /\
    seg_bytes (kern w') id = Some (bs ++ drop (length bs) m) /\
    seg_key (kern w') = seg_key (kern w) /\ seg_at (kern w') = seg_at (kern w) /\
    seg_mine (kern w') = seg_mine (kern w) /\ logs w' = logs w /\
    forall i, i <> id -> seg_bytes (kern w') i = seg_bytes (kern w) i.
Proof.
  intros Ha Hm Hl. destruct (store_law _ _ _ _ _ Ha Hm Hl) as (k' & E & Hb & Ho & Hk & Ha' & Hn).
  unfold store_at. rewrite E. by eexists.
Qed.

Lemma invalid_unattached s : shm_ s = None -> sysVShm_is_valid s = false.
Proof. intros E. unfold sysVShm_is_valid. by rewrite E, andb_false_r. Qed.

(** The constructor from [shmat] on. *)
Lemma attach_spec key size id (owner : bool) m w :
  key <> (-1)%Z -> (0 <= id)%Z -> seg_bytes (kern w) id = Some m ->
  seg_key (kern w) key = Some id -> Z.to_nat size <= length m ->
  exists s w1,
    (shm ← sys (shmat id);
     match shm with
     | None => log_errno LWarning $"shmat: %";; mret (SysVShm key size id owner None)
     | Some p => store_at p (replicate (Z.to_nat size) Ascii.zero);;
                 mret (SysVShm key size id owner (Some p))
     end) w = (Ret s, w1) /\
    shm_key_ s = key /\ size_ s = size /\ shmid_ s = id /\ shm_owner_ s = owner /\
    seg_mine (kern w1) = seg_mine (kern w) /\ seg_key (kern w1) = seg_key (kern w) /\
    (forall q i, seg_at (kern w) q = Some i -> seg_at (kern w1) q = Some i) /\
    (forall i, i <> id \/ (size <= 0)%Z -> seg_bytes (kern w1) i = seg_bytes (kern w) i) /\
    (shm_ s = None \/ exists p, seg_at (kern w) p = None /\
       shm_holds s p (replicate (Z.to_nat size) Ascii.zero ++ drop (Z.to_nat size) m) w1).
Proof.
  intros Hk Hid Hm Hkey Hl.
  destruct (shmat_law _ _ _ Hm) as (a & k1 & E & Hb1 & Hk1 & Hn1 & Ha).
  unfold sys. munfold. rewrite E. destruct a as [p|].
  - destruct Ha as (Hfree & Ha & Hne).
    destruct (store_at_spec p id m (replicate (Z.to_nat size) Ascii.zero) (World k1 (logs w)))
      as (w1 & E1 & Hb & Hk2 & Ha2 & Hn2 & _ & Hbo); simpl in *.
    + done.
    + by rewrite Hb1.
    + rewrite length_replicate. lia.
    + rewrite E1. eexists _, _. split; [done|]. simpl. repeat split; try congruence.
      * intros q i Hq. rewrite Ha2, Hne; [done|]. by intros ->; rewrite Hfree in Hq.
      * intros i Hi. destruct (decide (i = id)) as [->|Hi']; [|by rewrite Hbo, Hb1].
        destruct Hi as [|Hi]; [done|]. by rewrite Hb, Hm, length_replicate, Z2Nat.nonpos.
      * right. exists p. unfold shm_holds. simpl. repeat split; try congruence.
        by rewrite length_replicate in Hb.
  - eexists _, _. split; [done|]. simpl. repeat split; try congruence. by left.
Qed.

(** The destructor of an attached object. *)
Lemma dtor_spec s p m w :
  shm_holds s p m w -> (shm_owner_ s = true -> seg_mine (kern w) (shmid_ s) = true) ->
  exists w', sysVShm_dtor s w = (Ret tt, w') /\ stays (Some p) (kern w) (kern w') /\
    if (0 <? shmid_ s)%Z && shm_owner_ s
    then seg_key (kern w') (shm_key_ s) = None
    else seg_key (kern w') = seg_key (kern w) /\ seg_at (kern w') p = None /\
         seg_bytes (kern w') (shmid_ s) = Some m.
Proof.
  intros Hh Hn. pose proof (shm_holds_valid _ _ _ _ Hh) as Hv.
  destruct Hh as (Hp & Hb & Hk & Ha & Hid & _).
  destruct (shmdt_law _ _ _ Ha) as (k1 & E1 & Ha1 & Hq1 & Hi1 & Hb1 & Hk1 & Hn1 & Hat1).
  assert (Hst : stays (Some p) (kern w) k1).
  { intros q i m' Hq Hat Hbi. assert (Hqp : q <> p) by congruence. split; [by rewrite Hq1|].
    destruct (decide (i = shmid_ s)) as [->|Hi]; [by rewrite (Hat1 q)|by rewrite Hi1]. }
  specialize (Hb1 _ Hk). rewrite Hb in Hb1.
  unfold sysVShm_dtor, sys. rewrite Hp. munfold. rewrite Hv. simpl. rewrite E1. simpl.
  destruct ((0 <? shmid_ s)%Z && shm_owner_ s) eqn:Ho.
  - apply andb_true_iff in Ho as [_ Ho]. specialize (Hn Ho). rewrite <- Hn1 in Hn.
    destruct (shm_rmid_law _ _ _ Hb1 Hn) as (k2 & E2 & Hk2 & _ & Hi2 & Ha2 & Hat2).
    cbn [kern logs]. rewrite E2. simpl. eexists. split; [done|]. simpl. split.
    + apply (stays_trans _ _ k1); [done|]. intros q i m' Hq Hat Hbi. split; [by rewrite Ha2|].
      destruct (decide (i = shmid_ s)) as [->|Hi]; [by rewrite (Hat2 q)|by rewrite Hi2].
    + apply Hk2. by rewrite Hk1.
  - eexists. split; [done|]. simpl. by rewrite Hk1.
Qed.

(** The constructor of an owner on a free key. *)
Lemma owner_ctor_spec key size perm w :
  key <> (-1)%Z -> seg_key (kern w) key = None -> (0 <= size)%Z -> (0 <= perm < 512)%Z ->
  exists s w1, sysVShm_ctor key size true perm w = (Ret s, w1) /\
    (shm_ s = None \/ exists p, seg_at (kern w) p = None /\
      seg_bytes (kern w) (shmid_ s) = None /\ stays None (kern w) (kern w1) /\
      shm_holds s p (replicate (Z.to_nat size) Ascii.zero) w1 /\ size_ s = size /\
      shm_key_ s = key /\ shm_owner_ s = true /\ seg_mine (kern w1) (shmid_ s) = true /\
      seg_key (kern w1) key = Some (shmid_ s)).
Proof.
  intros Hk Hfree Hs Hp. destruct (shmget_create (kern w) key size perm Hfree Hs Hp)
    as (id & k1 & E & Hc). unfold sysVShm_ctor. unfold mbind, M_bind at 1. unfold sys at 1.
  rewrite E. rewrite (proj2 (Z.eqb_neq key (-1)) Hk).
  destruct Hc as [Hneg|(Hid & Hnone & Hb & Hk1 & Hn & Hbo & Hat)].
  - rewrite (proj2 (Z.ltb_lt id 0) Hneg). eexists _, _. split; [done|]. by left.
  - rewrite (proj2 (Z.ltb_ge id 0) Hid).
    destruct (attach_spec key size id true _ (World k1 (logs w)) Hk Hid Hb Hk1)
      as (s & w1 & E1 & Ek & Es & Ei & Eo & Hn1 & Hk2 & Hq & Hbi & Ha); [by rewrite length_replicate|].
    exists s, w1. split; [exact E1|]. destruct Ha as [Ha|(p & Hp0 & Ha)].
    + by left.
    + right. exists p. rewrite drop_ge, app_nil_r in Ha by (by rewrite length_replicate).
      simpl in *. rewrite Hat in Hp0. split; [done|]. split; [congruence|]. split.
      { intros q i m _ Hqi Hm. split; [apply Hq; by rewrite Hat|].
        assert (i <> id) by congruence. rewrite Hbi, Hbo; auto. }
      split; [done|]. repeat split; try done; [by rewrite Hn1, Ei|].
      destruct Ha as (_ & _ & Hkey & _). by rewrite <- Ek at 1.
Qed.

(** Life of an owned segment.  With a free key the constructor gives an
    invalid object, or a segment of [size] zero bytes under the key, attached;
    the destructor detaches it and frees the key, unless its identifier is 0:
    then the segment stays under its key. *)
Theorem owned_segment_lifecycle key size perm w :
  key <> (-1)%Z -> seg_key (kern w) key = None -> (0 <= size)%Z -> (0 <= perm < 512)%Z ->
  exists s w1, sysVShm_ctor key size true perm w = (Ret s, w1) /\
    (sysVShm_is_valid s = false \/ exists p,
      shm_holds s p (replicate (Z.to_nat size) Ascii.zero) w1 /\ size_ s = size /\
      exists w2, sysVShm_dtor s w1 = (Ret tt, w2) /\
        if (0 <? shmid_ s)%Z then seg_key (kern w2) key = None
        else seg_key (kern w2) key = Some 0%Z).
Proof.
  intros Hk Hfree Hs Hp. destruct (owner_ctor_spec key size perm w Hk Hfree Hs Hp)
    as (s & w1 & E & Hc). exists s, w1. split; [exact E|].
  destruct Hc as [Hc|(p & _ & _ & _ & Hh & Hs1 & Ek & Eo & Hn & Hkey)];
    [left; by apply invalid_unattached|]. right. exists p.
  split; [done|]. split; [done|].
  destruct (dtor_spec s p _ w1 Hh (fun _ => Hn)) as (w2 & E2 & _ & H2). exists w2. split; [done|].
  rewrite Eo, andb_true_r, Ek in H2. destruct (Z.ltb_spec 0 (shmid_ s)); [done|].
  destruct H2 as [-> _]. rewrite Hkey. f_equal. destruct Hh as (_ & _ & _ & _ & Hid & _). lia.
Qed.

(** The constructor of a non-owner on a key in use. *)
Lemma reader_ctor_spec key id m perm w :
  key <> (-1)%Z -> seg_key (kern w) key = Some id -> seg_bytes (kern w) id = Some m ->
  exists s w1, sysVShm_ctor key 0 false perm w = (Ret s, w1) /\ shm_owner_ s = false /\
    stays None (kern w) (kern w1) /\
    (forall q i, seg_at (kern w) q = Some i -> seg_at (kern w1) q = Some i) /\
    seg_key (kern w1) = seg_key (kern w) /\ seg_mine (kern w1) = seg_mine (kern w) /\
    (forall i, seg_bytes (kern w1) i = seg_bytes (kern w) i) /\
    (shm_ s = None \/ exists p, seg_at (kern w) p = None /\
       shm_holds s p m w1 /\ shmid_ s = id /\ shm_key_ s = key).
Proof.
  intros Hk Hkey Hm. destruct (shmget_open (kern w) key id m Hkey Hm)
    as (r & k1 & E & Hr & Hid & Hb & Hk1 & Hat & Hn). unfold sysVShm_ctor.
  unfold mbind, M_bind at 1. unfold sys at 1. rewrite E.
  rewrite (proj2 (Z.eqb_neq key (-1)) Hk). destruct Hr as [->|Hneg].
  - rewrite (proj2 (Z.ltb_ge id 0) Hid).
    destruct (attach_spec key 0 id false m (World k1 (logs w)) Hk Hid)
      as (s & w1 & E1 & Ek & Es & Ei & Eo & Hn1 & Hk2 & Hq & Hbi & Ha); simpl in *;
      [by rewrite Hb|by rewrite Hk1|lia|].
    exists s, w1. split; [exact E1|]. split; [done|].
    rewrite Hat in Hq, Ha. assert (Hbi' : forall i, seg_bytes (kern w1) i = seg_bytes (kern w) i)
      by (intros i; rewrite Hbi by (right; lia); by rewrite Hb).
    split; [intros q i m' _ Hqi Hm'; by rewrite Hbi', Hq with (i := i)|].
    split; [done|]. split; [congruence|]. split; [congruence|]. split; [done|]. destruct Ha as [Ha|(p & Hf & Ha)].
    + by left.
    + right. by exists p.
  - rewrite (proj2 (Z.ltb_lt r 0) Hneg). eexists _, _. split; [done|]. split; [done|].
    simpl. split; [intros q i m' _; by rewrite Hat, Hb|].
    split; [by rewrite Hat|]. do 2 (split; [done|]). split; [by rewrite Hb|]. by left.
Qed.

(** A reader attaches what the key names.  On a key in use, a
    non-owner object is invalid, or attached to the segment the key names with
    its bytes unchanged; its destructor detaches and leaves the segment. *)
Theorem reader_attaches_segment key id m perm w :
  key <> (-1)%Z -> seg_key (kern w) key = Some id -> seg_bytes (kern w) id = Some m ->
  exists s w1, sysVShm_ctor key 0 false perm w = (Ret s, w1) /\
    (sysVShm_is_valid s = false \/ exists p, shm_holds s p m w1 /\ shmid_ s = id /\
      exists w2, sysVShm_dtor s w1 = (Ret tt, w2) /\ seg_at (kern w2) p = None /\
        seg_key (kern w2) key = Some id /\ seg_bytes (kern w2) id = Some m).
Proof.
  intros Hk Hkey Hm. destruct (reader_ctor_spec key id m perm w Hk Hkey Hm)
    as (s & w1 & E & Eo & _ & _ & _ & _ & _ & Hc). exists s, w1. split; [exact E|].
  destruct Hc as [Hc|(p & _ & Hh & Ei & Ek)];
    [left; by apply invalid_unattached|]. right. exists p.
  split; [done|]. split; [done|].
  destruct (dtor_spec s p _ w1 Hh) as (w2 & E2 & _ & H2); [by rewrite Eo|].
  exists w2. split; [done|]. rewrite Eo, andb_false_r in H2. destruct H2 as (H2 & H3 & H4).
  destruct Hh as (_ & _ & Hkey1 & _). by rewrite H2, <- Ek, Hkey1, <- Ei.
Qed.

(** A replacement by the owner. *)
Lemma replace_shm_spec s p m size w :
  shm_holds s p m w -> shm_owner_ s = true -> seg_mine (kern w) (shmid_ s) = true ->
  (0 <= size)%Z ->
  exists s' w', replace_shm s (shm_key_ s) size w = (Ret s', w') /\
    (shm_ s' = None \/ (0 < shmid_ s)%Z /\ stays (Some p) (kern w) (kern w') /\
       shm_key_ s' = shm_key_ s /\ shm_owner_ s' = true /\
       seg_mine (kern w') (shmid_ s') = true /\ exists p',
       (forall q i m', q <> p -> seg_at (kern w) q = Some i -> seg_bytes (kern w) i = Some m' ->
          q <> p' /\ i <> shmid_ s') /\
       shm_holds s' p' (replicate (Z.to_nat size) Ascii.zero) w').
Proof.
  intros Hh Ho Hn Hs. destruct (dtor_spec s p m w Hh (fun _ => Hn)) as (w1 & E1 & Hst & Hd).
  rewrite Ho, andb_true_r in Hd. unfold replace_shm, mbind, M_bind. rewrite E1.
  assert (Hkey : shm_key_ s <> (-1)%Z) by apply Hh.
  destruct (Z.ltb_spec 0 (shmid_ s)) as [Hid|Hid].
  - destruct (owner_ctor_spec (shm_key_ s) size shm_default_permission w1)
      as (s' & w2 & E2 & H2); [done|done|done|unfold shm_default_permission; lia|].
    exists s', w2. split; [exact E2|].
    destruct H2 as [H2|(p' & Hp' & Hno & Hst' & H2 & _ & Ek & Eo & Hmine & _)]; [by left|].
    right. split; [done|]. split; [by eapply stays_trans, stays_none|].
    do 3 (split; [done|]). exists p'. split; [|done]. intros q i m' Hq Hat Hbi.
    destruct (Hst q i m') as [Ha Hb]; [congruence|done|done|]. split; congruence.
  - destruct Hd as (Hk1 & _). assert (Hk : seg_key (kern w1) (shm_key_ s) = Some (shmid_ s))
      by (rewrite Hk1; apply Hh).
    destruct (shmget_excl _ _ size shm_default_permission _ Hk) as (k' & E & _);
      [unfold shm_default_permission; lia|].
    unfold sysVShm_ctor, mbind, M_bind, sys. rewrite E.
    rewrite (proj2 (Z.eqb_neq (shm_key_ s) (-1)) Hkey). eexists _, _. split; [done|].
    by left.
Qed.

(** Replacement of a segment by a larger one.  If the identifier of
    the old segment is not 0, the new object is invalid or holds [size] zero
    bytes under the same key; if it is 0, the new object is always invalid. *)
Theorem replace_segment s p m size w :
  shm_holds s p m w -> shm_owner_ s = true -> seg_mine (kern w) (shmid_ s) = true ->
  (0 <= size)%Z ->
  exists s' w', replace_shm s (shm_key_ s) size w = (Ret s', w') /\
    (sysVShm_is_valid s' = false \/ (0 < shmid_ s)%Z /\ exists p',
       shm_holds s' p' (replicate (Z.to_nat size) Ascii.zero) w').
Proof.
  intros Hh Ho Hn Hs. destruct (replace_shm_spec s p m size w Hh Ho Hn Hs) as (s' & w' & E & Hc).
  exists s', w'. split; [exact E|]. destruct Hc as [Hc|(Hid & _ & _ & _ & _ & p' & _ & Hc)];
    [left; by apply invalid_unattached|]. right. split; [done|]. by exists p'.
Qed.
End props.

(** ** What the objects leave alone *)

Section frame.
Context {K : Type} `{FileOS K} `{ErrnoOS K} `{SemOS K} `{ShmOS K} `{SockOS K} `{!FrameLaws K}.
Implicit Types (k : K).

Definition other_views (k : K) := (sem_view k, sock_view k).

Lemma other_views_eq k k' : other_views k' = other_views k ->
  sem_view k' = sem_view k /\ sock_view k' = sock_view k.
Proof. unfold other_views. intros [= E1 E2 E3 E4 E5 E6 E7]. unfold sem_view, sock_view. split; congruence. Qed.

Lemma keeps_shm {A} (f : K -> A * K) :
  (forall k r k', f k = (r, k') -> sem_view k' = sem_view k /\ sock_view k' = sock_view k) ->
  keeps other_views (sys f).
Proof. intros Hf. apply keeps_sys. intros k r k' E. unfold other_views. by destruct (Hf _ _ _ E) as [-> ->]. Qed.

Lemma keeps_store_at p bs : keeps other_views (store_at p bs).
Proof using All.
  intros x w r w' Hw. unfold store_at. destruct (store p bs (kern w)) as [k'|] eqn:E; [|done].
  intros [= <- <-]. simpl. rewrite <- Hw. unfold other_views.
  by destruct (store_frame _ _ _ _ E) as [-> ->].
Qed.

Lemma keeps_shmget key size flg : keeps other_views (sys (shmget key size flg)).
Proof using All. apply keeps_shm, shmget_frame. Qed.
Lemma keeps_shmat id : keeps other_views (sys (shmat id)).
Proof using All. apply keeps_shm, shmat_frame. Qed.
Lemma keeps_shmdt p : keeps other_views (sys (shmdt p)).
Proof using All. apply keeps_shm, shmdt_frame. Qed.
Lemma keeps_rmid id : keeps other_views (sys (shmctl_rmid id)).
Proof using All. apply keeps_shm, shm_rmid_frame. Qed.
#[local] Hint Resolve keeps_store_at keeps_shmget keeps_shmat keeps_shmdt keeps_rmid : shm.

Lemma keeps_sysVShm_ctor key size owner perm : keeps other_views (sysVShm_ctor key size owner perm).
Proof using All.
  unfold sysVShm_ctor. apply keeps_bind; [auto with shm|]. intros shmid.
  destruct (key =? -1)%Z; [auto with shm|]. destruct (shmid <? 0)%Z; [auto with shm|].
  apply keeps_bind; [auto with shm|]. intros [p|]; auto with shm.
Qed.

Lemma keeps_sysVShm_dtor s : keeps other_views (sysVShm_dtor s).
Proof using All.
  unfold sysVShm_dtor. apply keeps_bind.
  - destruct (shm_ s); auto with shm.
  - intros _. apply keeps_when. auto with shm.
Qed.

Lemma keeps_replace s key size : keeps other_views (replace_shm s key size).
Proof using All. unfold replace_shm. auto using keeps_sysVShm_ctor, keeps_sysVShm_dtor with shm. Qed.
End frame.

(** ** Concrete instances *)

Lemma owned_segment_lifecycle_witness : exists s w1 w2,
  sysVShm_ctor 5 3 true 432 (boot 1) = (Ret s, w1) /\ sysVShm_is_valid s = true /\
  seg_bytes (kern w1) (shmid_ s) = Some (replicate 3 Ascii.zero) /\
  sysVShm_dtor s w1 = (Ret tt, w2) /\ seg_key (kern w2) 5 = None.
Proof.
  destruct (owned_segment_lifecycle 5 3 432 (boot 1)) as (s & w1 & E & H);
    [lia|reflexivity|lia|lia|]. exists s, w1. pose proof E as E'. vm_compute in E'.
  injection E' as Es _. destruct H as [H|(p & Hh & _ & w2 & E2 & H2)].
  - rewrite <- Es in H. vm_compute in H. discriminate.
  - exists w2. split; [exact E|]. split; [apply (shm_holds_valid s p _ w1 Hh)|].
    split; [apply Hh|]. split; [exact E2|]. rewrite <- Es in H2. exact H2.
Defined.

Lemma reader_attaches_segment_witness : exists s w1,
  sysVShm_ctor 5 0 false 384 with_shm5 = (Ret s, w1) /\ shmid_ s = 1%Z /\
  seg_bytes (kern w1) 1 = Some $"abc".
Proof.
  destruct (reader_attaches_segment 5 1 $"abc" 384 with_shm5) as (s & w1 & E & _);
    [lia|reflexivity|reflexivity|]. exists s, w1. split; [exact E|].
  vm_compute in E. injection E as <- <-. by vm_compute.
Defined.

Lemma replace_segment_witness : exists s' w',
  replace_shm shm5 5 8 with_shm5 = (Ret s', w') /\ sysVShm_is_valid s' = true /\
  seg_bytes (kern w') (shmid_ s') = Some (replicate 8 Ascii.zero).
Proof.
  destruct (replace_segment shm5 2 $"abc" 8 with_shm5) as (s' & w' & E & _);
    [by repeat split|reflexivity|reflexivity|lia|]. exists s', w'. split; [exact E|].
  vm_compute in E. injection E as <- <-. by vm_compute.
Defined.
