(* ===== verification/KernelLimits.v ===== *)
(** * Limits of the kernel (sysv-shm.cpp)

    [get_shmmax] and [get_shmmni] read one number from a file of /proc (the
    build for Linux).  Streams of the C library are an interface over the
    kernel state; [fscanf] with the format %lu is a function of the bytes to
    read. *)

From S2P Require Import Prelude Logger Regex StdLib Posix.

Class StdioOS (K : Type) := {
  fopen : cstr -> K -> option Z * K;        (* mode r, None stands for NULL *)
  fclose : Z -> K -> Z * K;
  (** The bytes of a file, and those that an open stream has to read. *)
  file_bytes : K -> cstr -> option cstr;
  stream : K -> Z -> option cstr }.

Class StdioLaws (K : Type) `{StdioOS K} : Prop := {
  fopen_law path k :
    match fopen path k with
    | (Some f, k') => exists s, file_bytes k path = Some s /\ stream k f = None /\
        stream k' f = Some s /\ forall g, g <> f -> stream k' g = stream k g
    | (None, k') => forall g, stream k' g = stream k g
    end;
  fclose_law f s k r k' :
    stream k f = Some s -> fclose f k = (r, k') ->
    stream k' f = None /\ forall g, g <> f -> stream k' g = stream k g }.

(** ** fscanf *)

Definition ULONG_MAX : Z := (2 ^ 64 - 1)%Z.

(** [fscanf(f, "%lu", &x)]: blanks, a sign, digits; [None] when nothing is
    assigned.  A number that does not fit is [ULONG_MAX]; a minus sign negates
    modulo 2^64. *)
Definition scan_lu (s : cstr) : option Z :=
  let (neg, s') := read_sign (skip_space s) in
  match span_digits s' with
  | ([], _) => None
  | (ds, _) =>
      let v := digits_val 0 ds in
      Some (if (ULONG_MAX <? v)%Z then ULONG_MAX else if neg then to_size_t (- v) else v)
  end.

(** A number printed by the kernel, and what follows it. *)
Lemma scan_lu_printed n rest :
  (0 <= n <= ULONG_MAX)%Z -> match rest with [] => True | c :: _ => is_digit c = false end ->
  scan_lu (to_string n ++ rest) = Some n.
Proof.
  intros Hn Hr. unfold scan_lu, to_string. rewrite (proj2 (Z.ltb_ge n 0)) by lia.
  destruct (dec_spec n) as (Hd & Hne & Hv); [lia|].
  destruct (dec n) as [|c s] eqn:E; [done|]. rewrite <- E in *.
  assert (Hc : is_digit c = true) by (rewrite E in Hd; by inversion_clear Hd).
  assert (Hs : skip_space (dec n ++ rest) = dec n ++ rest).
  { rewrite E. cbn [app skip_space]. by rewrite digit_not_space. }
  rewrite Hs. assert (Hg : read_sign (dec n ++ rest) = (false, dec n ++ rest)).
  { rewrite E. by apply digit_not_sign. }
  rewrite Hg, span_digits_all by done. rewrite Hv, E.
  destruct (Z.ltb_spec ULONG_MAX n); [lia|done].
Qed.

Lemma span_digits_digits s : Forall (fun c => is_digit c = true) (span_digits s).1.
Proof.
  induction s as [|c s IH]; simpl; [constructor|]. destruct (is_digit c) eqn:E; [|constructor].
  destruct (span_digits s) as [d r]. by constructor.
Qed.

Lemma digits_val_nonneg acc s :
  (0 <= acc)%Z -> Forall (fun c => is_digit c = true) s -> (0 <= digits_val acc s)%Z.
Proof.
  intros Ha Hs. revert acc Ha. unfold digits_val. induction Hs as [|c s Hc Hs IH]; intros acc Ha; simpl; [done|].
  apply IH. assert (0 <= digit_val c)%Z; [|lia]. revert Hc.
  destruct c as [[] [] [] [] [] [] [] []]; vm_compute; congruence.
Qed.

Lemma scan_lu_range s v : scan_lu s = Some v -> (0 <= v <= ULONG_MAX)%Z.
Proof.
  unfold scan_lu. destruct (read_sign _) as [neg s'].
  pose proof (span_digits_digits s') as Hd. destruct (span_digits s') as [ds ?]. simpl in Hd.
  pose proof (digits_val_nonneg 0 ds ltac:(lia) Hd) as Hv.
  destruct ds as [|d ds0] eqn:E; [done|]. rewrite <- E in *. intros [= <-].
  destruct (Z.ltb_spec ULONG_MAX (digits_val 0 ds)); [unfold ULONG_MAX; lia|].
  destruct neg; [|lia]. unfold to_size_t, ULONG_MAX.
  pose proof (Z.mod_pos_bound (- digits_val 0 ds) (2 ^ 64)). lia.
Qed.

(** ** The two limits *)

Definition SHMMAX_SYS_FILE : cstr := $"/proc/sys/kernel/shmmax".
Definition SHMMNI_SYS_FILE : cstr := $"/proc/sys/kernel/shmmni".

Section limits.
Context {K : Type} `{ErrnoOS K, StdioOS K}.

(** [fscanf] on an open stream, for one conversion. *)
Definition fscanf_lu (f : Z) : M (world K) (option Z) := fun w =>
  match stream (kern w) f with
  | Some s => (Ret (scan_lu s), w)
  | None => (Undef, w)
  end.

(** [log] tells whether the logger is not NULL. *)
Definition get_shmmax (has_log : bool) : M (world K) Z :=
  shmmax_file ← sys (fopen SHMMAX_SYS_FILE);
  match shmmax_file with
  | None =>
      when has_log (log_errno LError ($"Failed to open shmmax from file " ++ SHMMAX_SYS_FILE ++
                                      $" (%s)"));;
      mret 0%Z
  | Some f =>
      n ← fscanf_lu f;
      match n with
      | None =>
          when has_log (log_errno LError ($"Failed to read shmmax from file " ++
                                          SHMMAX_SYS_FILE ++ $" (%s)"));;
          _ ← sys (fclose f);
          mret 0%Z
      | Some shmmax => _ ← sys (fclose f); mret shmmax
      end
  end.

Definition get_shmmni (has_log : bool) : M (world K) Z :=
  shmmni_file ← sys (fopen SHMMNI_SYS_FILE);
  match shmmni_file with
  | None =>
      when has_log (log_errno LError ($"Failed to open shmmni from file " ++ SHMMNI_SYS_FILE ++
                                      $" (%s)"));;
      mret 0%Z
  | Some f =>
      n ← fscanf_lu f;
      match n with
      | None =>
          when has_log (log_errno LError ($"Failed to read shmmni from file " ++
                                          SHMMNI_SYS_FILE ++ $" (%s)"));;
          _ ← sys (fclose f);
          mret 0%Z
      | Some shmmni => _ ← sys (fclose f); mret shmmni
      end
  end.

Context `{!StdioLaws K}.

(** The two functions are one, on two files. *)
Definition get_limit (what file : cstr) (has_log : bool) : M (world K) Z :=
  opened ← sys (fopen file);
  match opened with
  | None =>
      when has_log (log_errno LError ($"Failed to open " ++ what ++ $" from file " ++ file ++ $" (%s)"));;
      mret 0%Z
  | Some f =>
      n ← fscanf_lu f;
      match n with
      | None =>
          when has_log (log_errno LError ($"Failed to read " ++ what ++ $" from file " ++ file ++ $" (%s)"));;
          _ ← sys (fclose f);
          mret 0%Z
      | Some v => _ ← sys (fclose f); mret v
      end
  end.

(** The value [n] from the bytes [s] of a file: 0 without a number. *)
Definition limit_of (s : option cstr) : Z := default 0%Z (s ≫= scan_lu).

(** The result, the streams left open (none), and at most one line of log,
    none when the result is not 0. *)
Definition limit_result (file : cstr) (has_log : bool) (w : world K) (r : Z) (w' : world K) : Prop :=
  (0 <= r <= ULONG_MAX)%Z /\ (r = 0%Z \/ r = limit_of (file_bytes (kern w) file)) /\
  (forall g, stream (kern w') g = stream (kern w) g) /\
  (logs w' = logs w \/ r = 0%Z /\ has_log = true /\ exists l, logs w' = logs w ++ [l]).

Lemma get_limit_spec what file has_log w :
  exists r w', get_limit what file has_log w = (Ret r, w') /\ limit_result file has_log w r w' /\
    (fst (fopen file (kern w)) <> None -> r = limit_of (file_bytes (kern w) file)).
Proof using All.
  unfold get_limit, limit_result.
  pose proof (fopen_law file (kern w)) as Ho. destruct (fopen file (kern w)) as [[f|] k1] eqn:E.
  - destruct Ho as (s & Hs & Hfree & Hst & Hoth).
    rewrite (bind_ret _ _ _ (Some f) (World k1 (logs w))) by (unfold sys; by rewrite E).
    rewrite (bind_ret _ _ _ (scan_lu s) (World k1 (logs w))) by (unfold fscanf_lu; simpl; by rewrite Hst).
    destruct (fclose f k1) as [c k2] eqn:Ec. destruct (fclose_law f s k1 c k2 Hst Ec) as [Hn Hoth2].
    assert (Hstreams : forall g, stream k2 g = stream (kern w) g).
    { intros g. destruct (decide (g = f)) as [->|]; [by rewrite Hn, Hfree|by rewrite Hoth2, Hoth]. }
    rewrite Hs. unfold limit_of. cbn [mbind option_bind].
    destruct (scan_lu s) as [v|] eqn:Hv; cbn [default].
    + exists v, (World k2 (logs w)). split.
      { by rewrite (bind_ret _ _ _ c (World k2 (logs w))) by (unfold sys; simpl; by rewrite Ec). }
      split; [|done]. split; [by apply (scan_lu_range s)|]. auto.
    + exists 0%Z. destruct has_log.
      * eexists (World k2 _). split.
        { refine (eq_trans (bind_ret _ _ _ tt _ eq_refl) _).
          refine (eq_trans (bind_ret _ _ _ c (World k2 _) _) eq_refl). unfold sys. simpl. by rewrite Ec. }
        split; [|done]. split; [unfold ULONG_MAX; lia|]. split; [by left|]. split; [done|].
        right. split; [done|]. split; [done|]. by eexists.
      * exists (World k2 (logs w)). split.
        { refine (eq_trans (bind_ret _ _ _ tt _ eq_refl) _).
          refine (eq_trans (bind_ret _ _ _ c (World k2 _) _) eq_refl). unfold sys. simpl. by rewrite Ec. }
        split; [|done]. split; [unfold ULONG_MAX; lia|]. auto.
  - exists 0%Z. rewrite (bind_ret _ _ _ None (World k1 (logs w))) by (unfold sys; by rewrite E).
    destruct has_log; eexists (World k1 _); (split; [refine (eq_trans (bind_ret _ _ _ tt _ eq_refl) eq_refl)|]);
      (split; [|done]); (split; [unfold ULONG_MAX; lia|]); (split; [by left|]); (split; [done|]).
    + right. split; [done|]. split; [done|]. by eexists.
    + by left.
Qed.

(** Each limit is the number of its file, between 0 and [ULONG_MAX], or 0
    when there is none; it returns whatever the file holds, with and without
    a logger; the stream it opened is closed on every path; and a failure adds
    at most one line to the log.  The number the kernel prints is read back. *)
Theorem kernel_limits has_log w :
  (exists r w', get_shmmax has_log w = (Ret r, w') /\
     limit_result SHMMAX_SYS_FILE has_log w r w' /\
     (fst (fopen SHMMAX_SYS_FILE (kern w)) <> None ->
      r = limit_of (file_bytes (kern w) SHMMAX_SYS_FILE))) /\
  (exists r w', get_shmmni has_log w = (Ret r, w') /\
     limit_result SHMMNI_SYS_FILE has_log w r w' /\
     (fst (fopen SHMMNI_SYS_FILE (kern w)) <> None ->
      r = limit_of (file_bytes (kern w) SHMMNI_SYS_FILE))) /\
  (forall n c rest, (0 <= n <= ULONG_MAX)%Z -> is_digit c = false ->
     limit_of (Some (to_string n ++ c :: rest)) = n).
Proof using All.
  split; [apply (get_limit_spec $"shmmax")|]. split; [apply (get_limit_spec $"shmmni")|].
  intros n c rest Hn Hc. unfold limit_of. cbn [mbind option_bind].
  by rewrite (scan_lu_printed n (c :: rest)).
Qed.
End limits.

(** ** A concrete machine *)

Record proc := Proc { p_files : gmap cstr cstr; p_streams : gmap Z cstr }.

#[export] Instance proc_errno : ErrnoOS proc :=
  { errno _ := 2%Z; strerror _ := $"No such file or directory" }.

#[export] Instance proc_stdio : StdioOS proc := {
  fopen path k :=
    match p_files k !! path with
    | Some s =>
        let f := fresh (dom (p_streams k)) in
        (Some f, Proc (p_files k) (<[f := s]> (p_streams k)))
    | None => (None, k)
    end;
  fclose f k := (0%Z, Proc (p_files k) (delete f (p_streams k)));
  file_bytes k path := p_files k !! path;
  stream k f := p_streams k !! f }.

#[export] Instance proc_laws : StdioLaws proc.
Proof.
  split.
  - intros path k. simpl. destruct (p_files k !! path) as [s|] eqn:E; [|done].
    exists s. split; [done|]. split.
    { apply not_elem_of_dom, is_fresh. }
    simpl. split; [by rewrite lookup_insert_eq|]. intros g Hg. by rewrite lookup_insert_ne.
  - intros f s k r k' _ [= _ <-]. simpl. split; [by rewrite lookup_delete_eq|].
    intros g Hg. by rewrite lookup_delete_ne.
Qed.

(** The default limit of Linux on 64 bits, and no file for the other. *)
Definition linux : world proc :=
  World (Proc {[SHMMAX_SYS_FILE := to_string 18446744073692774399 ++ [Ascii.ascii_of_nat 10]]} ∅) [].

Lemma kernel_limits_witness :
  (exists w', get_shmmax true linux = (Ret 18446744073692774399%Z, w')) /\
  (exists w', get_shmmni true linux = (Ret 0%Z, w')).
Proof.
  destruct (kernel_limits true linux) as [(r & w' & E & _ & Hr) [(r2 & w2 & E2 & (_ & [->|Hr2] & _) & _) _]].
  - split; [|by exists w2]. exists w'. rewrite E, Hr by (by vm_compute). by vm_compute.
  - split; [|exists w2; rewrite E2, Hr2; by vm_compute].
    exists w'. rewrite E, Hr by (by vm_compute). by vm_compute.
Defined.
