(* ===== verification/UnixSocketServer.v ===== *)
(** * The socket server (unix-socket.cpp, unix-socket-server.hpp, .cpp)

    [notify_update] runs in the writer's thread and each turn of the loop of
    [client_interaction] in the server's thread, both under
    [clients_mutex_]: each is a function from the state of the object. *)

From Stdlib Require Import Sorted.
From S2P Require Import Prelude Logger StdLib Posix SocketProtocol.

(** ** Descriptor sets and std::set<int> *)

Definition FD_SETSIZE_Z : Z := 1024.

(** [FD_SET]: undefined outside [0, FD_SETSIZE). *)
Definition FD_SET {W} (fd : Z) (s : gset Z) : M W (gset Z) :=
  if (0 <=? fd)%Z && (fd <? FD_SETSIZE_Z)%Z then mret ({[fd]} ∪ s) else undef.
Definition FD_ISSET (fd : Z) (s : gset Z) : bool := bool_decide (fd ∈ s).
Definition FD_CLR (fd : Z) (s : gset Z) : gset Z := s ∖ {[fd]}.

(** [std::set<int>]: the list of its elements in increasing order. *)
Fixpoint set_insert (x : Z) (l : list Z) : list Z :=
  match l with
  | [] => [x]
  | y :: l' => if (x <? y)%Z then x :: l else if (x =? y)%Z then l else y :: set_insert x l'
  end.
Definition set_erase (x : Z) (l : list Z) : list Z := filter (fun y => y <> x) l.

(** [v.erase(std::find(v.begin(), v.end(), x))]: undefined if [x] is absent. *)
Fixpoint erase_found (x : Z) (l : list Z) : option (list Z) :=
  match l with
  | [] => None
  | y :: l' => if (x =? y)%Z then Some l' else l'' ← erase_found x l'; Some (y :: l'')
  end.

(** ** Objects *)

Record UnixSocketServer := Server {
  srv_path_ : cstr;
  srv_fd_ : Z;                  (* socket_.fd_ *)
  max_pending_cnx_ : Z;
  is_binded_ : bool;
  is_listening_ : bool;
  serving : bool;               (* done_.valid() *)
  clients_ : list Z;
  clients_notified_ : list Z;
  pending_clients_ : list Z;
  srv_update_msg_ : UpdateMsg }.

Definition with_bind b l s := Server (srv_path_ s) (srv_fd_ s) (max_pending_cnx_ s) b l
  (serving s) (clients_ s) (clients_notified_ s) (pending_clients_ s) (srv_update_msg_ s).
Definition with_serving b s := Server (srv_path_ s) (srv_fd_ s) (max_pending_cnx_ s)
  (is_binded_ s) (is_listening_ s) b (clients_ s) (clients_notified_ s) (pending_clients_ s)
  (srv_update_msg_ s).
Definition with_sets c n p s := Server (srv_path_ s) (srv_fd_ s) (max_pending_cnx_ s)
  (is_binded_ s) (is_listening_ s) (serving s) c n p (srv_update_msg_ s).
Definition with_update m s := Server (srv_path_ s) (srv_fd_ s) (max_pending_cnx_ s)
  (is_binded_ s) (is_listening_ s) (serving s) (clients_ s) (clients_notified_ s)
  (pending_clients_ s) m.

(** The variables of [client_interaction]. *)
Record locals := Locals { allset : gset Z; maxfd : Z }.

Definition O_NONBLOCK : Z := 2048.
Definition FD_CLOEXEC : Z := 1.

Section server.
Context {K : Type} `{ErrnoOS K, FileOS K, SockOS K}.

(** The callbacks of [ServerSide] and [on_client_error_]; [None] is an empty
    [std::function]. *)
Record callbacks := Callbacks {
  on_connect_cb_ : option (Z -> M (world K) unit);
  on_disconnect_cb_ : option (Z -> M (world K) unit);
  on_client_error_ : Z -> M (world K) unit }.

(** [if (cb) cb(it);] *)
Definition call_if (cb : option (Z -> M (world K) unit)) (it : Z) : M (world K) unit :=
  match cb with Some f => f it | None => mret tt end.

(** [UnixSocket::UnixSocket], [UnixSocket::~UnixSocket]; the value is [fd_]. *)
Definition UnixSocket_ctor : M (world K) Z :=
  fd ← sys socket;
  when (fd =? -1)%Z (log_errno LError $"socket: %");;
  flags ← sys (fcntl_getfl fd);
  when (flags <? 0)%Z (log_errno LError $"fcntl(F_GETFL): %");;
  r ← sys (fcntl_setfl fd (Z.lor flags (Z.lor O_NONBLOCK FD_CLOEXEC)));
  when (r <? 0)%Z (log_errno LError $"fcntl(F_SETFL): %");;
  mret fd.

Definition UnixSocket_is_valid (fd : Z) : bool := negb (fd =? -1)%Z.

Definition UnixSocket_dtor (fd : Z) : M (world K) unit :=
  when (UnixSocket_is_valid fd)
    (r ← sys (close fd);
     when (negb (r =? 0)%Z) (log_errno LError $"closing socket %")).

Definition force_sockserv_cleaning (path : cstr) : M (world K) bool :=
  info ← sys (stat (c_str path));
  match info with
  | None => mret true
  | Some st_mode =>
      if negb (Z.land st_mode S_IFMT =? S_IFSOCK)%Z
      then (log LWarning $"trying to clean something not a socket" [];; mret false)
      else
        r ← sys (unlink (c_str path));
        if (r =? 0)%Z
        then
          err ← get_errno;
          log LDebug $"unlink: %" [strerror err];;
          mret (negb (err =? EACCES)%Z)
        else mret true
  end.

(** [UnixSocketServer::UnixSocketServer]; [update] is the [update_msg_] of the
    protocol object, [None] a null protocol. *)
Definition UnixSocketServer_ctor (path : cstr) (update : option UpdateMsg)
  (unix_permission max_pending_cnx : Z) : M (world K) UnixSocketServer :=
  fd ← UnixSocket_ctor;
  let srv := Server path fd max_pending_cnx false false false [] [] []
               (default (default_update []) update) in
  if negb (UnixSocket_is_valid fd) then mret srv
  else if bool_decide (update = None) then mret srv
  else if (sizeof_sun_path <=? length path)%nat
  then (log LError $"% (%)" [strerror ENAMETOOLONG; path];; mret srv)
  else
    r ← sys (bind fd (c_str path));
    if (r <? 0)%Z
    then (err ← get_errno; log LError $"bind: % (%)" [strerror err; path];; mret srv)
    else
      _ ← sys (chmod (c_str path) unix_permission);
      r ← sys (listen fd max_pending_cnx);
      if (r <? 0)%Z
      then (err ← get_errno;
            log LError $"listen: % (%)" [strerror err; path];; mret (with_bind true false srv))
      else mret (with_bind true true srv).

Definition server_is_valid (s : UnixSocketServer) : bool := is_binded_ s && is_listening_ s.

(** [UnixSocketServer::start_serving] *)
Definition start_serving (s : UnixSocketServer) : M (world K) UnixSocketServer :=
  if serving s
  then (log LWarning ($"shmdata socket server has been asked to start more than once," ++
                      $"cancelling invocation") [];; mret s)
  else mret (with_serving true s).

(** The loop of [notify_update]. *)
Fixpoint notify_loop (msg : cstr) (clients notified : list Z) : M (world K) (list Z) :=
  match clients with
  | [] => mret notified
  | it :: rest =>
      res ← sys (send it msg);
      if (res =? -1)%Z
      then (log_errno LError $"send (update) %";; notify_loop msg rest notified)
      else notify_loop msg rest (set_insert it notified)
  end.

Definition notify_update (size : Z) (s : UnixSocketServer)
  : M (world K) (Z * UnixSocketServer) :=
  let msg := mkUpdateMsg (um_msg_type_ (srv_update_msg_ s)) (um_pad (srv_update_msg_ s)) size in
  notified ← notify_loop (update_bytes msg) (clients_ s) [];
  mret (to_short (Z.of_nat (length notified)),
        with_update msg (with_sets (clients_ s) notified (pending_clients_ s) s)).

(** *** One turn of the loop of client_interaction *)

(** accept new client request *)
Definition accept_client (cnx_msg : onConnectData) (s : UnixSocketServer) (loc : locals)
  : M (world K) (UnixSocketServer * locals) :=
  clifd ← sys (accept (srv_fd_ s));
  when (clifd <? 0)%Z
    (err ← get_errno; log LError $"accept % (%)" [strerror err; srv_path_ s]);;
  res ← sys (send clifd (connect_bytes cnx_msg));
  if (res =? -1)%Z
  then (err ← get_errno;
        log LDebug $"send: % (%)" [strerror err; srv_path_ s];; mret (s, loc))
  else
    let maxfd' := if (maxfd loc <? clifd)%Z then clifd else maxfd loc in
    allset' ← FD_SET clifd (allset loc);
    mret (with_sets (clients_ s) (clients_notified_ s)
            (set_insert clifd (pending_clients_ s)) s, Locals allset' maxfd').

(** checking disconnection: the body of the loop for one ready client *)
Definition read_client (cbs : callbacks) (s : UnixSocketServer) (it : Z) : M (world K) unit :=
  '(nread, _) ← sys (recv it sizeof_connect);
  if (nread <? 0)%Z
  then
    err ← get_errno;
    log LError $"server reading file descriptor for %: (%)" [srv_path_ s; strerror err];;
    when (bool_decide (it ∈ clients_notified_ s))
      (log LError $"notified client quit, recovery (%)" [srv_path_ s];;
       on_client_error_ cbs it)
  else if (nread =? 0)%Z
  then log LDebug $"(server) closed: fd % (%)" [to_string it; srv_path_ s]
  else
    res ← sys (send it (quit_bytes quit_msg));
    when (res =? -1)%Z (log_errno LError $"send (ack quit) %");;
    call_if (on_disconnect_cb_ cbs) it.

Fixpoint check_disconnections (cbs : callbacks) (s : UnixSocketServer) (rset : gset Z)
  (clients clients_to_remove : list Z) (allset : gset Z)
  : M (world K) (list Z * gset Z) :=
  match clients with
  | [] => mret (clients_to_remove, allset)
  | it :: rest =>
      if FD_ISSET it rset
      then
        read_client cbs s it;;
        _ ← sys (close it);
        check_disconnections cbs s rset rest (clients_to_remove ++ [it]) (FD_CLR it allset)
      else check_disconnections cbs s rset rest clients_to_remove allset
  end.

(** cleaning clients_ if necessary *)
Fixpoint remove_clients (clients_to_remove clients : list Z) : M (world K) (list Z) :=
  match clients_to_remove with
  | [] => mret clients
  | it :: rest =>
      match erase_found it clients with
      | None => undef
      | Some clients' =>
          log LDebug $"client removed, remaining %" [to_string (Z.of_nat (length clients'))];;
          remove_clients rest clients'
      end
  end.

(** checking ack from clients *)
Fixpoint check_acks (cbs : callbacks) (rset : gset Z) (pending clients clients_to_remove : list Z)
  (allset : gset Z) : M (world K) (list Z * list Z * gset Z) :=
  match pending with
  | [] => mret (clients, clients_to_remove, allset)
  | it :: rest =>
      if FD_ISSET it rset
      then
        '(nread, _) ← sys (recv it sizeof_connect);
        if (nread <? 0)%Z
        then
          log_errno LError $"read ack %";;
          check_acks cbs rset rest clients (clients_to_remove ++ [it]) allset
        else if (nread =? 0)%Z
        then
          log LCritical $"bug checking connection ack from client" [];;
          _ ← sys (close it);
          check_acks cbs rset rest clients (clients_to_remove ++ [it]) (FD_CLR it allset)
        else
          call_if (on_connect_cb_ cbs) it;;
          check_acks cbs rset rest (clients ++ [it]) (clients_to_remove ++ [it]) allset
      else check_acks cbs rset rest clients clients_to_remove allset
  end.

(** The body of the loop. *)
Definition interaction_turn (cbs : callbacks) (cnx_msg : onConnectData)
  (s : UnixSocketServer) (loc : locals) : M (world K) (UnixSocketServer * locals) :=
  '(r, rset) ← sys (select (allset loc));
  if (r <? 0)%Z
  then (err ← get_errno;
        log LError $"select % (&)" [strerror err; srv_path_ s];; mret (s, loc))
  else if FD_ISSET (srv_fd_ s) rset
  then accept_client cnx_msg s loc
  else
    '(to_remove, allset1) ← check_disconnections cbs s rset (clients_ s) [] (allset loc);
    clients1 ← remove_clients to_remove (clients_ s);
    '(clients2, to_remove2, allset2) ←
      check_acks cbs rset (pending_clients_ s) clients1 [] allset1;
    let pending2 := foldl (fun p it => set_erase it p) (pending_clients_ s) to_remove2 in
    mret (with_sets clients2 (clients_notified_ s) pending2 s, Locals allset2 (maxfd loc)).

(** [client_interaction] for [turns] turns, until [quit_] is set. *)
Fixpoint interaction_loop (turns : nat) (cbs : callbacks) (cnx_msg : onConnectData)
  (s : UnixSocketServer) (loc : locals) : M (world K) (UnixSocketServer * locals) :=
  match turns with
  | O => mret (s, loc)
  | S turns' =>
      '(s', loc') ← interaction_turn cbs cnx_msg s loc;
      interaction_loop turns' cbs cnx_msg s' loc'
  end.

Definition client_interaction (turns : nat) (cbs : callbacks) (get_connect_msg_ : onConnectData)
  (s : UnixSocketServer) : M (world K) (UnixSocketServer * locals) :=
  allset ← FD_SET (srv_fd_ s) ∅;
  interaction_loop turns cbs get_connect_msg_ s (Locals allset (srv_fd_ s)).

(** sending quit *)
Fixpoint send_quit (clients : list Z) (path : cstr) : M (world K) unit :=
  match clients with
  | [] => mret tt
  | it :: rest =>
      r ← sys (send it (quit_bytes quit_msg));
      when (r =? -1)%Z
        (err ← get_errno; log LError $"send (quit): % (%)" [strerror err; path]);;
      send_quit rest path
  end.

(** [UnixSocketServer::~UnixSocketServer] once the thread has ended, then the
    destructor of [socket_]. *)
Definition UnixSocketServer_dtor (s : UnixSocketServer) : M (world K) unit :=
  when (serving s) (_ ← sys (unlink (c_str (srv_path_ s))); send_quit (clients_ s) (srv_path_ s));;
  UnixSocket_dtor (srv_fd_ s).
End server.

(** ** The invariant of the server *)

(** The order invariant of std::set. *)
Definition set_ok (l : list Z) : Prop := StronglySorted Z.lt l.

Record server_inv {K} `{SockOS K} (s : UnixSocketServer) (loc : locals) (k : K) : Prop := {
  si_clients : NoDup (clients_ s);
  si_pending : set_ok (pending_clients_ s);
  si_disjoint c : c ∈ clients_ s -> c ∉ pending_clients_ s;
  si_listening : srv_fd_ s ∈ allset loc /\ srv_fd_ s ∉ clients_ s ++ pending_clients_ s;
  si_watched c : c ∈ clients_ s ++ pending_clients_ s -> c ∈ allset loc;
  si_open : allset loc ⊆ fds k;
  si_bounds c : c ∈ allset loc -> (0 <= c <= maxfd loc)%Z /\ (c < FD_SETSIZE_Z)%Z }.

(** What a turn does to the clients: a new pending client may be accepted;
    or the ready clients leave, and ready pending clients join or are
    dropped. *)
Definition turn_effect (s s' : UnixSocketServer) : Prop :=
  (clients_ s' = clients_ s /\ forall c, c ∈ pending_clients_ s -> c ∈ pending_clients_ s') \/
  exists (ready : gset Z) (acked : list Z),
    acked `sublist_of` filter (fun c => c ∈ ready) (pending_clients_ s) /\
    clients_ s' = filter (fun c => c ∉ ready) (clients_ s) ++ acked /\
    forall c, c ∈ pending_clients_ s' <-> c ∈ pending_clients_ s /\ c ∉ ready.

(** ** Lists and sets *)

Lemma elem_of_set_insert x y l : y ∈ set_insert x l <-> y = x \/ y ∈ l.
Proof.
  induction l as [|z l IH]; simpl; [rewrite list_elem_of_singleton, elem_of_nil; tauto|].
  destruct (Z.ltb_spec x z); [rewrite elem_of_cons; tauto|].
  destruct (Z.eqb_spec x z) as [->|]; rewrite !elem_of_cons, ?IH; tauto.
Qed.

Lemma set_insert_ok x l : set_ok l -> set_ok (set_insert x l).
Proof.
  unfold set_ok. induction l as [|z l IH]; simpl; intros Hl; [by repeat constructor|].
  inversion Hl as [|? ? Hs Hf]; subst. destruct (Z.ltb_spec x z).
  - constructor; [done|]. constructor; [done|]. eapply Forall_impl; [exact Hf|]. lia.
  - destruct (Z.eqb_spec x z) as [->|]; [done|]. constructor; [by apply IH|].
    apply Forall_forall. intros y Hy. apply elem_of_set_insert in Hy as [->|Hy]; [lia|].
    by apply (proj1 (Forall_forall _ _) Hf).
Qed.

Lemma length_set_insert x l : x ∉ l -> length (set_insert x l) = S (length l).
Proof.
  induction l as [|z l IH]; simpl; [done|]. rewrite not_elem_of_cons. intros [Hne Hl].
  destruct (Z.ltb_spec x z); [done|]. destruct (Z.eqb_spec x z); [done|]. simpl. by rewrite IH.
Qed.

Lemma set_ok_nodup l : set_ok l -> NoDup l.
Proof.
  unfold set_ok. induction 1 as [|x l Hs IH Hf]; constructor; [|done].
  intros Hx. apply (proj1 (Forall_forall _ _) Hf) in Hx. lia.
Qed.

Lemma filter_ok P `{forall x : Z, Decision (P x)} l : set_ok l -> set_ok (filter P l).
Proof.
  unfold set_ok. induction 1 as [|x l Hs IH Hf]; [constructor|]. rewrite filter_cons.
  destruct (decide (P x)); [|done]. constructor; [done|].
  apply Forall_forall. intros y Hy. apply list_elem_of_filter in Hy as [_ Hy].
  by apply (proj1 (Forall_forall _ _) Hf).
Qed.

Lemma fold_set_erase dead l : set_ok l ->
  set_ok (foldl (fun p it => set_erase it p) l dead) /\
  forall c, c ∈ foldl (fun p it => set_erase it p) l dead <-> c ∈ l /\ c ∉ dead.
Proof.
  revert l. induction dead as [|d dead IH]; intros l Hl; simpl.
  - split; [done|]. intros c. rewrite elem_of_nil. tauto.
  - destruct (IH (set_erase d l)) as [H1 H2]; [by apply filter_ok|]. split; [done|].
    intros c. rewrite H2. unfold set_erase. rewrite list_elem_of_filter, elem_of_cons. tauto.
Qed.

(** [erase_found] removes the only occurrence. *)
Lemma erase_found_some x l : NoDup l -> x ∈ l -> erase_found x l = Some (filter (fun y => y <> x) l).
Proof.
  induction l as [|y l IH]; [intros _ Hx; inversion Hx|].
  rewrite NoDup_cons. intros [Hy Hl] Hx. simpl. rewrite filter_cons.
  destruct (Z.eqb_spec x y) as [->|Hne].
  - rewrite decide_False by tauto. f_equal. symmetry. apply filter_all. by intros z Hz ->.
  - rewrite decide_True by congruence. apply elem_of_cons in Hx as [Hx|Hx]; [done|].
    by rewrite (IH Hl Hx).
Qed.

(** ** The invariant through a turn *)

Section invariant.
Context {K : Type} `{SockOS K}.
Implicit Types (k : K) (rset : gset Z).

(** A new pending client. *)
Lemma server_inv_accept s loc k c :
  server_inv s loc k -> (0 <= c)%Z -> (c < FD_SETSIZE_Z)%Z -> c ∉ allset loc -> c ∈ fds k ->
  server_inv (with_sets (clients_ s) (clients_notified_ s) (set_insert c (pending_clients_ s)) s)
    (Locals ({[c]} ∪ allset loc) (if (maxfd loc <? c)%Z then c else maxfd loc)) k.
Proof.
  intros Hi Hc0 Hlt Hn Hf.
  destruct Hi as [H1' H2' H3 [H4 H5] H6 H7 H8]. rewrite not_elem_of_app in H5.
  assert (Hcl : (c ∉ clients_ s) /\ (c ∉ pending_clients_ s) /\ c <> srv_fd_ s).
  { repeat split; intros Hx; apply Hn; [apply H6, elem_of_app; auto..|by rewrite Hx]. }
  destruct Hcl as (Hcl & Hcp & Hcs). split; simpl; try done.
  - by apply set_insert_ok.
  - intros d Hd. rewrite elem_of_set_insert. intros [->|Hp]; [done|]. by apply (H3 d).
  - rewrite not_elem_of_app, elem_of_set_insert. split; [set_solver|]. split; [tauto|].
    intros [Hx|Hx]; [by rewrite Hx in Hcs|tauto].
  - intros d. rewrite elem_of_app, elem_of_set_insert. intros Hd.
    apply elem_of_union. rewrite elem_of_singleton.
    destruct Hd as [Hd|[Hd|Hd]]; [right|by left|right]; apply H6, elem_of_app; auto.
  - set_solver.
  - intros d Hd. apply elem_of_union in Hd as [Hd|Hd].
    + apply elem_of_singleton in Hd as ->. destruct (Z.ltb_spec (maxfd loc) c); lia.
    + specialize (H8 d Hd). destruct (Z.ltb_spec (maxfd loc) c); lia.
Qed.

(** The state after the loops of a turn. *)
Lemma server_inv_turn s loc k k' (rset : gset Z) (acked closed : list Z) :
  server_inv s loc k -> srv_fd_ s ∉ rset ->
  let dead := filter (fun c => c ∈ rset) (clients_ s) in
  let gone := filter (fun c => c ∈ rset) (pending_clients_ s) in
  acked `sublist_of` gone -> closed ⊆ gone -> (forall c, c ∈ acked -> c ∉ closed) ->
  fds k' = fds k ∖ list_to_set dead ∖ list_to_set closed ->
  server_inv
    (with_sets (filter (fun c => c ∉ rset) (clients_ s) ++ acked) (clients_notified_ s)
       (foldl (fun p it => set_erase it p) (pending_clients_ s) gone) s)
    (Locals (allset loc ∖ list_to_set dead ∖ list_to_set closed) (maxfd loc)) k'.
Proof.
  intros [Hcl Hp Hdis [Hl Hl'] Hw Hop Hb] Hnl dead gone Hack Hclo Hdisj Hf.
  destruct (fold_set_erase gone (pending_clients_ s) Hp) as [Hp' Hpe].
  assert (Hg : forall c, c ∈ gone <-> c ∈ rset /\ c ∈ pending_clients_ s)
    by (intros; unfold gone; by rewrite list_elem_of_filter).
  assert (Hd : forall c, c ∈ dead <-> c ∈ rset /\ c ∈ clients_ s)
    by (intros; unfold dead; by rewrite list_elem_of_filter).
  assert (Ha : forall c, c ∈ acked -> c ∈ rset /\ c ∈ pending_clients_ s)
    by (intros c Hc; by apply Hg, (sublist_subseteq _ _ Hack)).
  assert (Hclo' : forall c, c ∈ closed -> c ∈ rset /\ c ∈ pending_clients_ s)
    by (intros c Hc; by apply Hg, Hclo).
  rewrite not_elem_of_app in Hl'.
  split; cbn [with_sets clients_ pending_clients_ srv_fd_ allset maxfd].
  - apply NoDup_app. split; [by apply NoDup_filter|]. split.
    + intros c Hc Hca. apply list_elem_of_filter in Hc as [Hc _]. by apply Hc, Ha.
    + eapply sublist_NoDup; [|exact Hack]. apply NoDup_filter. by apply set_ok_nodup.
  - done.
  - intros c. rewrite elem_of_app, list_elem_of_filter, Hpe, Hg.
    intros [[_ Hc]|Hc] [Hcp Hn]; [by apply (Hdis c)|]. by apply Hn, Ha.
  - rewrite not_elem_of_app, elem_of_app, list_elem_of_filter, Hpe. split.
    + rewrite !elem_of_difference, !elem_of_list_to_set, Hd. split; [tauto|].
      intros Hx. by apply Hnl, Hclo'.
    + split; [|tauto]. intros [[_ Hc]|Hc]; [tauto|]. by apply Hnl, Ha.
  - intros c. rewrite !elem_of_app, list_elem_of_filter, Hpe, Hg.
    rewrite !elem_of_difference, !elem_of_list_to_set, Hd. intros Hc.
    assert (Hcw : c ∈ clients_ s \/ c ∈ pending_clients_ s)
      by (destruct Hc as [[[_ Hc]|Hc]|[Hc _]]; [tauto|apply Ha in Hc; tauto|tauto]).
    split; [split; [by apply Hw, elem_of_app|]|].
    + intros [Hr Hc']. destruct Hc as [[[Hc _]|Hc]|[Hc _]]; [done| |by apply (Hdis c)].
      apply (Hdis c); [done|]. by apply Ha.
    + intros Hc'. destruct Hc as [[[Hc _]|Hc]|[_ Hc]]; [by apply Hc, Hclo'|by apply (Hdisj c)|].
      by apply Hc, Hclo'.
  - rewrite Hf. set_solver.
  - intros c Hc. apply Hb. set_solver.
Qed.

End invariant.

(** ** Triples for the steps of a turn *)

Section triples.
Context {K : Type} `{FileOS K, SockLaws K}.
Implicit Types (it fd : Z) (rset : gset Z).

(** What a callback may do to the descriptors of the server: nothing. *)
Definition keeps_fds (m : M (world K) unit) : Prop :=
  forall F, ktriple (fun k => fds k = F) m (fun _ k => fds k = F).

Lemma kt_fds {A} (f : K -> A * K) F :
  (forall k a k', f k = (a, k') -> fds k' = fds k) ->
  ktriple (fun k => fds k = F) (sys f) (fun _ k => fds k = F).
Proof. intros Hf. apply kt_sys. intros k a k' Hk E. by rewrite (Hf _ _ _ E). Qed.

Lemma send_fds it bs k r k' : send it bs k = (r, k') -> fds k' = fds k.
Proof. intros E. by destruct (send_law _ _ _ _ _ E). Qed.

Lemma kt_send F it bs :
  ktriple (fun k => fds k = F) (sys (send it bs)) (fun r k => fds k = F /\ (r <> -1 -> it ∈ F)%Z).
Proof.
  apply kt_sys. intros k r k' <- E. destruct (send_law _ _ _ _ _ E) as (Hf & Hr).
  split; [done|]. intros Hne. by destruct Hr as [[-> _]|(_ & _ & Hin & _)].
Qed.

Lemma kt_recv F it n : ktriple (fun k => fds k = F) (sys (recv it n)) (fun _ k => fds k = F).
Proof. apply kt_fds. intros k [r bs] k' E. by destruct (recv_law _ _ _ _ _ _ E). Qed.

Lemma kt_close F it :
  ktriple (fun k => fds k = F) (sys (close it)) (fun _ k => fds k = F ∖ {[it]}).
Proof. apply kt_sys. intros k r k' <- E. by destruct (close_law _ _ _ _ E) as [-> _]. Qed.

Context (cbs : callbacks (K := K)).
Hypothesis Hconnect : forall f it, on_connect_cb_ cbs = Some f -> keeps_fds (f it).
Hypothesis Hdisconnect : forall f it, on_disconnect_cb_ cbs = Some f -> keeps_fds (f it).
Hypothesis Herror : forall it, keeps_fds (on_client_error_ cbs it).

Lemma read_client_fds s it : keeps_fds (read_client cbs s it).
Proof using All.
  intros F. unfold read_client. eapply kt_bind; [apply kt_recv|]. intros [nread bs].
  destruct (nread <? 0)%Z; [|destruct (nread =? 0)%Z].
  - eapply kt_bind; [apply kt_get_errno|]. intros err. apply kt_seq; [apply kt_log|].
    apply kt_when. intros _. apply kt_seq; [apply kt_log|apply Herror].
  - apply kt_log.
  - eapply kt_bind; [by apply kt_fds, send_fds|]. intros res. simpl.
    apply kt_seq; [apply kt_when; intros _; apply kt_log_errno|].
    unfold call_if. destruct (on_disconnect_cb_ cbs) as [f|] eqn:E; [by apply (Hdisconnect f)|].
    by apply kt_ret.
Qed.

(** The loop over the clients: the ready ones are closed, unwatched and listed
    for removal. *)
Lemma check_disconnections_spec s rset clients acc all F :
  ktriple (fun k => fds k = F) (check_disconnections cbs s rset clients acc all)
    (fun '(rem, all') k =>
       let gone := filter (fun c => c ∈ rset) clients in
       rem = acc ++ gone /\ all' = all ∖ list_to_set gone /\ fds k = F ∖ list_to_set gone).
Proof using All.
  revert acc all F. induction clients as [|it clients IH]; intros acc all F; simpl.
  - apply kt_ret. intros k ->. rewrite app_nil_r. repeat split; set_solver.
  - unfold FD_ISSET, FD_CLR. rewrite filter_cons. case_bool_decide as Hit.
    + rewrite decide_True by done. apply kt_seq; [apply read_client_fds|].
      eapply kt_bind; [apply kt_close|]. intros r. simpl.
      eapply kt_conseq; [apply IH|by intros k Hk; exact Hk|]. intros [rem all'] k (-> & -> & ->).
      rewrite <- app_assoc. repeat split; set_solver.
    + rewrite decide_False by done. apply IH.
Qed.

Lemma remove_clients_spec dead clients (P : K -> Prop) :
  NoDup clients -> NoDup dead -> (forall c, c ∈ dead -> c ∈ clients) ->
  ktriple P (remove_clients dead clients)
    (fun clients' k => clients' = filter (fun c => c ∉ dead) clients /\ P k).
Proof.
  revert clients. induction dead as [|d dead IH]; intros clients Hc Hd Hin; simpl.
  - apply kt_ret. intros k Hk. split; [|done]. symmetry. apply filter_all.
    intros x _. apply not_elem_of_nil.
  - apply NoDup_cons in Hd as [Hnd Hd]. rewrite erase_found_some by (auto; apply Hin; left).
    apply kt_seq; [apply kt_log|].
    eapply kt_conseq; [apply IH|intros k Hk; exact Hk|].
    + by apply NoDup_filter.
    + done.
    + intros c Hcd. apply list_elem_of_filter. split; [|apply Hin; by right]. by intros ->.
    + intros cl k [-> Hk]. split; [|done]. rewrite list_filter_filter.
      apply list_filter_iff. intros x. rewrite not_elem_of_cons. tauto.
Qed.

(** The loop over the pending clients: of the ready ones, [acked] have
    acknowledged and become clients, [closed] have closed their end. *)
Lemma check_acks_spec rset pending clients acc all F :
  NoDup pending ->
  ktriple (fun k => fds k = F) (check_acks cbs rset pending clients acc all)
    (fun '(clients', rem, all') k =>
       let gone := filter (fun c => c ∈ rset) pending in
       exists acked closed, clients' = clients ++ acked /\ rem = acc ++ gone /\
         acked `sublist_of` gone /\ closed ⊆ gone /\ (forall c, c ∈ acked -> c ∉ closed) /\
         all' = all ∖ list_to_set closed /\ fds k = F ∖ list_to_set closed).
Proof using All.
  revert clients acc all F. induction pending as [|it pending IH]; intros clients acc all F Hnd.
  - apply kt_ret. intros k ->. exists [], []. rewrite !app_nil_r. simpl.
    repeat split; try done; set_solver.
  - apply NoDup_cons in Hnd as [Hit Hnd]. simpl. rewrite filter_cons. unfold FD_ISSET, FD_CLR.
    case_bool_decide as Hr; [rewrite decide_True by done|rewrite decide_False by done; by apply IH].
    set (gone := filter (fun c => c ∈ rset) pending) in *.
    assert (Hgone : it ∉ gone) by (unfold gone; rewrite list_elem_of_filter; tauto).
    eapply kt_bind; [apply kt_recv|]. intros [nread bs]. simpl.
    destruct (nread <? 0)%Z; [|destruct (nread =? 0)%Z].
    + apply kt_seq; [apply kt_log_errno|].
      eapply kt_conseq; [by apply IH|intros k Hk; exact Hk|].
      intros [[cl rem] all'] k (acked & closed & -> & -> & Hs & Hc & Hd & -> & ->).
      exists acked, closed. rewrite <- app_assoc. split; [done|]. split; [done|].
      split; [by apply sublist_cons|]. split; [|done]. intros x Hx. right. by apply Hc.
    + apply kt_seq; [apply kt_log|]. eapply kt_bind; [apply kt_close|]. intros r. simpl.
      eapply kt_conseq; [by apply IH|intros k Hk; exact Hk|].
      intros [[cl rem] all'] k (acked & closed & -> & -> & Hs & Hc & Hd & -> & ->).
      exists acked, (it :: closed). rewrite <- app_assoc. split; [done|]. split; [done|].
      split; [by apply sublist_cons|]. split; [|split; [|split; set_solver]].
      * intros x Hx. apply elem_of_cons in Hx as [->|Hx]; [left|right; by apply Hc].
      * intros x Hx. rewrite not_elem_of_cons. split; [|by apply Hd].
        intros ->. apply Hgone. by apply (sublist_subseteq _ _ Hs).
    + apply kt_seq.
      { unfold call_if. destruct (on_connect_cb_ cbs) as [f|] eqn:E; [by apply (Hconnect f)|].
        by apply kt_ret. }
      eapply kt_conseq; [by apply IH|intros k Hk; exact Hk|].
      intros [[cl rem] all'] k (acked & closed & -> & -> & Hs & Hc & Hd & -> & ->).
      exists (it :: acked), closed. rewrite <- !app_assoc. split; [done|]. split; [done|].
      split; [by apply sublist_skip|]. split; [|split; [|done]].
      * intros x Hx. right. by apply Hc.
      * intros x Hx Hcl. apply elem_of_cons in Hx as [->|Hx]; [by apply Hgone, Hc|by apply (Hd x)].
Qed.

(** [accept] on [fd] has just given a descriptor that select(2) cannot watch,
    and the greeting was sent to it. *)
Definition beyond_select (fd : Z) (cnx_msg : onConnectData) (k : K) : Prop :=
  exists c k0 k1 r, accept fd k0 = (c, k1) /\ send c (connect_bytes cnx_msg) k1 = (r, k) /\
    (r <> -1)%Z /\ (FD_SETSIZE_Z <= c)%Z /\ c ∈ fds k.

Lemma accept_client_spec cnx_msg s loc :
  kt_unless (beyond_select (srv_fd_ s) cnx_msg) (server_inv s loc) (accept_client cnx_msg s loc)
    (fun '(s', loc') k => server_inv s' loc' k /\ srv_fd_ s' = srv_fd_ s /\ turn_effect s s').
Proof using All.
  assert (Hsame : forall k, server_inv s loc k ->
    server_inv s loc k /\ srv_fd_ s = srv_fd_ s /\ turn_effect s s).
  { intros k Hi. split; [done|]. split; [done|]. by left. }
  unfold accept_client.
  eapply (kt_unless_bind _ _ _ _ (fun c k => (exists k0, accept (srv_fd_ s) k0 = (c, k)) /\
    ((c < 0)%Z /\ server_inv s loc k \/
     (0 <= c)%Z /\ (c ∉ allset loc) /\ c ∈ fds k /\ server_inv s loc k))).
  { apply kt_unless_kt, kt_sys. intros k c k' Hi E. split; [by exists k|].
    destruct (accept_law _ _ _ _ E) as [(Hc & Hf & _)|(Hc & Hn & Hf & _)].
    - left. split; [done|]. destruct Hi. split; try done. by rewrite Hf.
    - right. destruct Hi. split; [done|]. split; [set_solver|]. split; [set_solver|].
      split; try done. rewrite Hf. set_solver. }
  intros c. eapply kt_unless_bind.
  { apply kt_unless_kt, kt_when. intros _. eapply kt_bind; [apply kt_get_errno|].
    intros err. apply kt_log. }
  intros []. eapply (kt_unless_bind _ _ _ _ (fun r k => server_inv s loc k /\
    (r <> (-1)%Z -> (0 <= c)%Z /\ (c ∉ allset loc) /\ c ∈ fds k /\
       exists k0 k1, accept (srv_fd_ s) k0 = (c, k1) /\ send c (connect_bytes cnx_msg) k1 = (r, k)))).
  { apply kt_unless_kt, kt_sys. intros k r k' ([k0 Ha] & Hi) E.
    destruct (send_law _ _ _ _ _ E) as (Hf & Hr).
    assert (Hi' : server_inv s loc k -> server_inv s loc k').
    { intros []. split; try done. by rewrite Hf. }
    split; [by destruct Hi as [[_ Hi]|(_ & _ & _ & Hi)]; apply Hi'|].
    intros Hne. destruct Hr as [[-> _]|(_ & H0c & Hin & _)]; [done|]. rewrite Hf.
    destruct Hi as [[Hc _]|(Hc & Hn & _)]; [lia|]. split_and!; try done. by exists k0, k. }
  intros r. destruct (Z.eqb_spec r (-1)) as [Hr|Hr].
  { apply kt_unless_kt. eapply kt_bind; [apply kt_get_errno|]. intros err.
    apply kt_seq; [apply kt_log|]. apply kt_ret. intros k (Hi & _). by apply Hsame. }
  intros w (Hi & Hc). destruct (Hc Hr) as (Hc0 & Hn & Hf & k0 & k1 & Ha & Hs). unfold FD_SET.
  rewrite (proj2 (Z.leb_le 0 c) Hc0). destruct (Z.ltb_spec c FD_SETSIZE_Z) as [Hlt|Hge]; simpl.
  - split; [by apply server_inv_accept|]. split; [done|]. left. split; [done|].
    intros d Hd. apply elem_of_set_insert. by right.
  - by exists c, k0, k1, r.
Qed.

(** Removing the ready clients after the loop over them. *)
Lemma remove_ready_spec s rset F rem :
  NoDup (clients_ s) ->
  ktriple (fun k => rem = filter (fun c => c ∈ rset) (clients_ s) /\ fds k = F)
    (remove_clients rem (clients_ s))
    (fun cl k => cl = filter (fun c => c ∉ rset) (clients_ s) /\ fds k = F).
Proof.
  intros Hc w [-> Hf].
  pose proof (remove_clients_spec (filter (fun c => c ∈ rset) (clients_ s)) (clients_ s)
    (fun k => fds k = F) Hc (NoDup_filter _ _ Hc)) as Hr.
  specialize (Hr ltac:(intros c Hcc; by apply list_elem_of_filter in Hcc as [_ ?]) w Hf).
  destruct (remove_clients _ _ w) as [[cl|e| |] w']; try done. destruct Hr as [-> Hr].
  split; [|done]. apply filter_ext_in. intros c Hin. rewrite list_elem_of_filter. tauto.
Qed.

(** A turn in which no connection waits. *)
Lemma serve_ready_spec s loc rset k0 :
  server_inv s loc k0 -> srv_fd_ s ∉ rset ->
  ktriple (fun k => fds k = fds k0)
    ('(to_remove, allset1) ← check_disconnections cbs s rset (clients_ s) [] (allset loc);
     clients1 ← remove_clients to_remove (clients_ s);
     '(clients2, to_remove2, allset2) ←
       check_acks cbs rset (pending_clients_ s) clients1 [] allset1;
     let pending2 := foldl (fun p it => set_erase it p) (pending_clients_ s) to_remove2 in
     mret (with_sets clients2 (clients_notified_ s) pending2 s, Locals allset2 (maxfd loc)))
    (fun '(s', loc') k => server_inv s' loc' k /\ srv_fd_ s' = srv_fd_ s /\ turn_effect s s').
Proof using All.
  intros Hi Hl. eapply kt_bind; [apply check_disconnections_spec|].
  intros [rem all1]. cbn beta iota zeta. rewrite app_nil_l.
  set (dead := filter (fun c => c ∈ rset) (clients_ s)).
  set (gone := filter (fun c => c ∈ rset) (pending_clients_ s)).
  apply kt_pure. intros ->. apply kt_pure. intros ->. eapply kt_bind.
  { apply (kt_conseq _ (fun k => fds k = fds k0 ∖ list_to_set dead) _ _ _
      (remove_ready_spec s rset (fds k0 ∖ list_to_set dead) dead (si_clients _ _ _ Hi)));
      [by intros k Hk|intros cl k Hk; exact Hk]. }
  intros cl. apply kt_pure. intros ->.
  eapply kt_bind; [apply check_acks_spec, set_ok_nodup, (si_pending _ _ _ Hi)|].
  intros [[cl2 rem2] all2]. apply kt_ret.
  intros k (acked & closed & -> & -> & Hack & Hclo & Hdisj & -> & Hf).
  split; [by apply (server_inv_turn s loc k0)|]. split; [done|]. right.
  exists rset, acked. split; [done|]. split; [done|]. intros c.
  pose proof (proj2 (fold_set_erase gone _ (si_pending _ _ _ Hi)) c) as Hc.
  cbn [with_sets pending_clients_]. rewrite app_nil_l. fold gone. rewrite Hc.
  unfold gone. rewrite list_elem_of_filter. tauto.
Qed.

(** One turn of the loop: no undefined behaviour but the one of [FD_SET], the
    invariant again, and the change of the clients. *)
Lemma interaction_turn_spec cnx_msg s loc :
  kt_unless (beyond_select (srv_fd_ s) cnx_msg) (server_inv s loc) (interaction_turn cbs cnx_msg s loc)
    (fun '(s', loc') k => server_inv s' loc' k /\ srv_fd_ s' = srv_fd_ s /\ turn_effect s s').
Proof using All.
  enough (Hk : forall k0, server_inv s loc k0 ->
    kt_unless (beyond_select (srv_fd_ s) cnx_msg) (fun k => fds k = fds k0) (interaction_turn cbs cnx_msg s loc)
      (fun '(s', loc') k => server_inv s' loc' k /\ srv_fd_ s' = srv_fd_ s /\ turn_effect s s')).
  { intros w Hi. by apply (Hk (kern w) Hi w). }
  intros k0 Hi. unfold interaction_turn.
  assert (Hf : forall k, fds k = fds k0 -> server_inv s loc k).
  { intros k E. destruct Hi. split; try done. by rewrite E. }
  eapply kt_unless_bind.
  { apply kt_unless_kt, kt_fds. intros k [r rs] k' E. by destruct (select_law _ _ _ _ _ E). }
  intros [r rset]. cbn beta iota. destruct (r <? 0)%Z.
  { apply kt_unless_kt. eapply kt_bind; [apply kt_get_errno|]. intros err.
    apply kt_seq; [apply kt_log|]. apply kt_ret. intros k E. split; [by apply Hf|]. split; [done|]. by left. }
  unfold FD_ISSET. case_bool_decide as Hl.
  - eapply kt_unless_conseq; [apply accept_client_spec|exact Hf|done].
  - by eapply kt_unless_kt, serve_ready_spec.
Qed.

Lemma interaction_loop_spec turns cnx_msg s loc :
  kt_unless (beyond_select (srv_fd_ s) cnx_msg) (server_inv s loc) (interaction_loop turns cbs cnx_msg s loc)
    (fun '(s', loc') k => server_inv s' loc' k).
Proof using All.
  revert s loc. induction turns as [|turns IH]; intros s loc; [by apply kt_unless_kt, kt_ret|].
  cbn [interaction_loop]. eapply kt_unless_bind; [apply interaction_turn_spec|].
  intros [s' loc'] w (Hi & Hfd & _). rewrite <- Hfd. by apply IH.
Qed.

(** ** Notification *)

(** The invariant of the loop of [notify_update]: the clients in [notified],
    and only they, have been sent [msg] since their streams were [O]. *)
Definition told (msg : cstr) (F : gset Z) (O : Z -> cstr) (notified : list Z) (k : K) : Prop :=
  fds k = F /\ set_ok notified /\ (forall c, c ∈ notified -> c ∈ F) /\
  forall d, out k d = if decide (d ∈ notified) then O d ++ msg else O d.

Lemma told_send {b} msg F O notified it :
  it ∉ notified ->
  kt b (told msg F O notified) (sys (send it msg)) (fun r k =>
    told msg F O (if (r =? -1)%Z then notified else set_insert it notified) k).
Proof using H2.
  intros Hn. apply kt_sys. intros k r k' (Hf & Hok & Hin & Ho) E.
  destruct (send_law _ _ _ _ _ E) as (Hf' & Hr). unfold told. rewrite Hf', Hf.
  destruct Hr as [[-> Hr]|(-> & _ & Hit & Hr & Hne)].
  - simpl. repeat split; try done. intros d. by rewrite Hr.
  - rewrite (proj2 (Z.eqb_neq _ _)) by lia. split; [done|].
    split; [by apply set_insert_ok|]. split.
    + intros c. rewrite elem_of_set_insert. intros [->|Hc]; [by rewrite <- Hf|by apply Hin].
    + intros d. destruct (decide (d = it)) as [->|Hd].
      * rewrite Hr, Ho, decide_False by done. rewrite decide_True; [done|].
        apply elem_of_set_insert. by left.
      * rewrite Hne, Ho by done. apply decide_ext. rewrite elem_of_set_insert. tauto.
Qed.

Lemma notify_loop_spec {b} msg F O clients notified :
  NoDup clients -> (forall c, c ∈ clients -> c ∉ notified) ->
  kt b (told msg F O notified) (notify_loop msg clients notified)
    (fun n k => told msg F O n k /\ length n <= length notified + length clients /\
       forall c, c ∈ n -> c ∈ notified \/ c ∈ clients).
Proof using H2.
  revert notified. induction clients as [|it clients IH]; intros notified Hnd Hdis.
  - apply kt_ret. intros k Hk. split; [done|]. split; [simpl; lia|]. by left.
  - apply NoDup_cons in Hnd as [Hit Hnd]. cbn [notify_loop].
    assert (Hitn : it ∉ notified) by (apply Hdis; left).
    eapply kt_bind; [by apply told_send|]. intros r. cbn beta. destruct (r =? -1)%Z.
    + apply kt_seq; [apply kt_log_errno|].
      eapply kt_conseq; [apply (IH notified)|by intros k Hk; exact Hk|]; [done| |].
      * intros c Hc. apply Hdis. by right.
      * intros n k (Hk & Hl & Hin). split; [done|]. split; [simpl; lia|].
        intros c Hc. rewrite elem_of_cons. destruct (Hin c Hc); tauto.
    + eapply kt_conseq; [apply (IH (set_insert it notified))|by intros k Hk; exact Hk|];
        [done| |].
      * intros c Hc. rewrite elem_of_set_insert. intros [->|Hc']; [done|].
        by apply (Hdis c); [right|].
      * intros n k (Hk & Hl & Hin). split; [done|]. rewrite length_set_insert in Hl by done.
        split; [simpl; lia|]. intros c Hc. rewrite elem_of_cons.
        destruct (Hin c Hc) as [Hc'|]; [|tauto]. apply elem_of_set_insert in Hc' as [|]; tauto.
Qed.

(** [notify_update]: the count, the clients notified, their streams. *)
Lemma notify_update_spec {b} size s F O :
  NoDup (clients_ s) -> (Z.of_nat (length (clients_ s)) <= SHRT_MAX)%Z ->
  kt b (fun k => fds k = F /\ forall d, out k d = O d) (notify_update size s)
    (fun '(n, s') k =>
       n = Z.of_nat (length (clients_notified_ s')) /\
       clients_notified_ s' ⊆ clients_ s /\ NoDup (clients_notified_ s') /\
       clients_ s' = clients_ s /\ pending_clients_ s' = pending_clients_ s /\
       fds k = F /\
       forall d, out k d =
         if decide (d ∈ clients_notified_ s')
         then O d ++ update_bytes (mkUpdateMsg (um_msg_type_ (srv_update_msg_ s))
                                     (um_pad (srv_update_msg_ s)) size)
         else O d).
Proof using H2.
  intros Hnd Hl. unfold notify_update.
  set (msg := mkUpdateMsg (um_msg_type_ (srv_update_msg_ s)) (um_pad (srv_update_msg_ s)) size).
  eapply (kt_bind _ _ _ (fun n k => told (update_bytes msg) F O n k /\
    length n <= 0 + length (clients_ s) /\ forall c, c ∈ n -> c ∈ [] \/ c ∈ clients_ s)).
  - eapply kt_conseq; [apply (notify_loop_spec (update_bytes msg) F O (clients_ s) [])| |done].
    + done.
    + intros c _. apply not_elem_of_nil.
    + intros k [Hf Ho]. split; [done|]. split; [constructor|]. split; [by intros c Hc; inversion Hc|].
      intros d. rewrite decide_False; [done|]. apply not_elem_of_nil.
  - intros n. apply kt_ret. intros k ((Hf & Hok & _ & Ho) & Hn & Hin).
    cbn [with_update with_sets clients_notified_ clients_ pending_clients_].
    split; [apply to_short_small; unfold SHRT_MAX in Hl; lia|].
    split; [intros c Hc; by destruct (Hin c Hc) as [Hc'|]; [inversion Hc'|]|].
    split; [by apply set_ok_nodup|]. by repeat split.
Qed.
End triples.
