(* ===== verification/ServerTheorems.v ===== *)
(** * Theorems about the socket server

    Proved from the laws of the socket calls, with a concrete execution on
    the kernel of [PosixModel.v] for each. *)

From S2P Require Import Prelude Logger StdLib Posix PosixModel SocketProtocol UnixSocketServer.

(** ** A concrete server *)

(** Descriptor 3 listens, 4 and 5 are clients (the peer of 5 is gone), 6 is
    pending and has acknowledged; one connection waits. *)
Definition demo_net (backlog : nat) : net :=
  Net {[3%Z := open_sock []; 4%Z := open_sock []; 5%Z := Sock [] true [] false;
        6%Z := open_sock $"ack"]} 3 backlog {[$"/tmp/s" := File 2 (Some [])]} 3.
Definition demo_world (backlog : nat) : world kernel :=
  World (Kernel 0 1 ∅ ∅ ∅ ∅ ∅ (demo_net backlog)) [].
Definition demo_server : UnixSocketServer :=
  Server $"/tmp/s" 3 10 true true true [4%Z; 5%Z] [] [6%Z] (default_update (zeros 6)).
Definition demo_locals : locals := Locals {[3%Z; 4%Z; 5%Z; 6%Z]} 6.
Definition no_callbacks : callbacks (K := kernel) :=
  Callbacks None None (fun _ => mret tt).
Definition fresh_server : UnixSocketServer :=
  Server $"/tmp/s" 3 10 true true true [] [] [] (default_update (zeros 6)).

Lemma no_callbacks_keep it : keeps_fds (on_client_error_ no_callbacks it).
Proof. intros F. by apply kt_ret. Qed.

Lemma demo_server_inv backlog :
  server_inv demo_server demo_locals (kern (demo_world backlog)).
Proof.
  split; simpl.
  - by apply (bool_decide_unpack (NoDup [4%Z; 5%Z])).
  - unfold set_ok. repeat constructor.
  - intros c Hc Hp. apply list_elem_of_singleton in Hp as ->.
    by apply (bool_decide_unpack (6%Z ∉ [4%Z; 5%Z])) in Hc.
  - split; [set_solver|]. by apply (bool_decide_unpack (3%Z ∉ [4%Z; 5%Z; 6%Z])).
  - intros c Hc. rewrite !elem_of_cons, elem_of_nil in Hc. set_solver.
  - apply (bool_decide_unpack _). by vm_compute.
  - intros c Hc. unfold FD_SETSIZE_Z. set_unfold. lia.
Qed.

Section theorems.
Context {K : Type} `{FileOS K, SockLaws K} (cbs : callbacks (K := K)).
Hypothesis Hconnect : forall f it, on_connect_cb_ cbs = Some f -> keeps_fds (f it).
Hypothesis Hdisconnect : forall f it, on_disconnect_cb_ cbs = Some f -> keeps_fds (f it).
Hypothesis Herror : forall it, keeps_fds (on_client_error_ cbs it).

(** C16: the server thread is safe.  From a server without clients, any
    number of turns of the loop, whatever the kernel answers, ends in a
    consistent state: clients without duplicates and disjoint from the pending
    ones, all watched, open and at most [maxfd].  It throws nothing and erases
    no absent client; its one undefined behaviour is [FD_SET] on a descriptor
    beyond FD_SETSIZE that [accept] has just given, right after the greeting was
    sent to it: while every descriptor of the process is below, there is none. *)
Theorem server_stays_consistent turns cnx_msg s :
  clients_ s = [] -> pending_clients_ s = [] -> (0 <= srv_fd_ s < FD_SETSIZE_Z)%Z ->
  kt_unless (beyond_select (srv_fd_ s) cnx_msg)
    (fun k => srv_fd_ s ∈ fds k) (client_interaction turns cbs cnx_msg s)
    (fun '(s', loc') k => server_inv s' loc' k).
Proof using All.
  intros Hc Hp Hfd w Hw. unfold client_interaction, FD_SET.
  rewrite (proj2 (Z.leb_le 0 _)), (proj2 (Z.ltb_lt _ FD_SETSIZE_Z)) by lia. simpl.
  apply (interaction_loop_spec cbs Hconnect Hdisconnect Herror turns cnx_msg s
    (Locals ({[srv_fd_ s]} ∪ ∅) (srv_fd_ s)) w).
  split; cbn [allset maxfd]; rewrite ?Hc, ?Hp; try done.
  - constructor.
  - constructor.
  - intros c Hin. inversion Hin.
  - split; [set_solver|]. apply not_elem_of_nil.
  - intros c Hin. inversion Hin.
  - set_solver.
  - intros c Hin. set_unfold. destruct Hin as [->|]; [lia|done].
Qed.

(** What a turn does to the clients.  Either no client changes and at
    most a pending one is added, or exactly the ready clients leave, and the
    pending ones that acknowledged are appended in order; whoever is ready
    stops being pending. *)
Theorem turn_changes_clients cnx_msg s loc :
  kt_unless (beyond_select (srv_fd_ s) cnx_msg) (server_inv s loc) (interaction_turn cbs cnx_msg s loc)
    (fun '(s', _) _ => turn_effect s s').
Proof using All.
  eapply kt_unless_conseq; [by apply interaction_turn_spec|by intros k Hk; exact Hk|].
  by intros [s' loc'] k (_ & _ & He).
Qed.

(** Notification.  [notify_update] returns the number of clients it
    lists as notified; exactly these clients' streams got one update message
    with the size, the other streams did not change, and a failed send
    concerns nobody else. *)
Theorem notify_update_counts size s F O :
  NoDup (clients_ s) -> (Z.of_nat (length (clients_ s)) <= SHRT_MAX)%Z ->
  ktriple (fun k => fds k = F /\ forall d, out k d = O d) (notify_update size s)
    (fun '(n, s') k =>
       n = Z.of_nat (length (clients_notified_ s')) /\
       clients_notified_ s' ⊆ clients_ s /\ NoDup (clients_notified_ s') /\
       clients_ s' = clients_ s /\ pending_clients_ s' = pending_clients_ s /\
       fds k = F /\
       forall d, out k d =
         if decide (d ∈ clients_notified_ s')
         then O d ++ update_bytes (mkUpdateMsg (um_msg_type_ (srv_update_msg_ s))
                                     (um_pad (srv_update_msg_ s)) size)
         else O d).
Proof using H2.
  apply notify_update_spec.
Qed.
End theorems.

(** ** Concrete instances *)

Lemma server_stays_consistent_witness : exists s' loc' w',
  client_interaction 3 no_callbacks (default_connect (zeros 6)) fresh_server (demo_world 2) =
    (Ret (s', loc'), w') /\ server_inv s' loc' (kern w') /\ pending_clients_ s' = [7%Z; 8%Z].
Proof.
  pose proof (server_stays_consistent no_callbacks ltac:(done) ltac:(done) no_callbacks_keep
    3 (default_connect (zeros 6)) fresh_server eq_refl eq_refl) as H.
  specialize (H ltac:(simpl; unfold FD_SETSIZE_Z; lia) (demo_world 2)
    ltac:(apply (bool_decide_unpack _); by vm_compute)).
  assert (Hret : match (client_interaction 3 no_callbacks (default_connect (zeros 6)) fresh_server
    (demo_world 2)).1 with Ret _ => true | _ => false end = true) by (by vm_compute).
  destruct (client_interaction _ _ _ _ _) as [[[s' loc']|e| |] w'] eqn:E; try discriminate Hret. clear Hret.
  exists s', loc', w'. split; [reflexivity|]. split; [exact H|].
  apply (f_equal (fun r => match r.1 with Ret (x, _) => pending_clients_ x | _ => [] end)) in E.
  etransitivity; [symmetry; exact E|]. by vm_compute.
Defined.

Lemma turn_changes_clients_witness : exists s',
  turn_effect demo_server s' /\ clients_ s' = [4%Z; 6%Z] /\ pending_clients_ s' = [].
Proof.
  pose proof (turn_changes_clients no_callbacks ltac:(done) ltac:(done) no_callbacks_keep
    (default_connect (zeros 6)) demo_server demo_locals (demo_world 0) (demo_server_inv 0)) as H.
  assert (Hret : match (interaction_turn no_callbacks (default_connect (zeros 6)) demo_server demo_locals
    (demo_world 0)).1 with Ret _ => true | _ => false end = true) by (by vm_compute).
  destruct (interaction_turn _ _ _ _ _) as [[[s' loc']|e| |] w'] eqn:E; try discriminate Hret.
  exists s'. split; [exact H|].
  apply (f_equal (fun r => match r.1 with Ret (x, _) => (clients_ x, pending_clients_ x)
                                       | _ => ([], []) end)) in E.
  assert (E2 : (clients_ s', pending_clients_ s') = ([4%Z; 6%Z], [])) 
    by (etransitivity; [symmetry; exact E|]; by vm_compute).
  by injection E2.
Defined.

Lemma notify_update_counts_witness : exists s' w',
  notify_update 5 demo_server (demo_world 0) = (Ret (1%Z, s'), w') /\
  clients_notified_ s' = [4%Z] /\
  out (kern w') 4 = update_bytes (mkUpdateMsg 1 (zeros 6) 5) /\ out (kern w') 5 = [].
Proof.
  pose proof (notify_update_counts 5 demo_server _ (out (kern (demo_world 0)))
    (NoDup_cons_2 4%Z [5%Z] ltac:(apply (bool_decide_unpack _); by vm_compute) (NoDup_singleton 5%Z))
    ltac:(unfold SHRT_MAX; simpl; lia) (demo_world 0) (conj eq_refl (fun d => eq_refl))) as H.
  assert (E : exists s' w', notify_update 5 demo_server (demo_world 0) = (Ret (1%Z, s'), w') /\
    clients_notified_ s' = [4%Z]) by (eexists _, _; split; [by vm_compute|by vm_compute]).
  destruct E as (s' & w' & E & En). exists s', w'. rewrite E in H.
  destruct H as (_ & _ & _ & _ & _ & _ & Ho). rewrite En in Ho.
  split; [exact E|]. split; [exact En|]. split; rewrite Ho; by vm_compute.
Defined.
