(* ===== verification/UnixSocketClient.v ===== *)
(** * The socket client (unix-socket-client.hpp, .cpp)

    The object, and the loop of [server_interaction] turn by turn.  The
    callbacks of [ClientSide] act on the state [R] of the object that owns
    the client (the reader).  [quit_], which the destructor sets from another
    thread, is an argument of each turn. *)

From S2P Require Import Prelude Logger Posix PosixModel SocketProtocol UnixSocketServer.

Record UnixSocketClient := Client {
  cli_path_ : cstr;
  cli_fd_ : Z;                   (* socket_.fd_ *)
  cli_started : bool;            (* socket_thread_.joinable() *)
  connected_ : bool;
  cli_is_valid_ : bool;
  data_ : onConnectData;         (* proto_->data_ *)
  cli_update_msg_ : UpdateMsg }. (* proto_->update_msg_ *)

Definition with_cli_fd fd v c := Client (cli_path_ c) fd (cli_started c) (connected_ c) v
  (data_ c) (cli_update_msg_ c).
Definition with_started b v c := Client (cli_path_ c) (cli_fd_ c) b (connected_ c) v
  (data_ c) (cli_update_msg_ c).
Definition with_connected d c := Client (cli_path_ c) (cli_fd_ c) (cli_started c) true
  (cli_is_valid_ c) d (cli_update_msg_ c).
Definition with_data d c := Client (cli_path_ c) (cli_fd_ c) (cli_started c) (connected_ c)
  (cli_is_valid_ c) d (cli_update_msg_ c).
Definition with_msg m c := Client (cli_path_ c) (cli_fd_ c) (cli_started c) (connected_ c)
  (cli_is_valid_ c) (data_ c) m.

(** The variables of [server_interaction]. *)
Record cli_locals := CliLocals { cl_allset : gset Z; quit : bool; quit_acked : bool }.

(** [while (!quit || !quit_acked)] is over. *)
Definition loop_over (l : cli_locals) : bool := quit l && quit_acked l.

Section client.
Context {K : Type} `{ErrnoOS K, SockOS K} {R : Type}.

(** [ClientSide]: the callbacks; [cc_connect] is given [data_]. *)
Record ClientSide := mkClientSide {
  cc_connect : onConnectData -> R -> M (world K) R;
  cc_disconnect : R -> M (world K) R;
  cc_update : Z -> R -> M (world K) R }.

(** [UnixSocketClient::UnixSocketClient]; [strcpy] has no bound. *)
Definition UnixSocketClient_ctor (pad : cstr) (path : cstr) : M (world K) UnixSocketClient :=
  fd ← UnixSocket_ctor;
  let c v := Client path fd false false v (default_connect pad) (default_update pad) in
  if negb (UnixSocket_is_valid fd) then mret (c false)
  else if (sizeof_sun_path <=? length (c_str path))%nat then undef
  else
    r ← sys (connect fd (c_str path));
    if negb (r =? 0)%Z
    then
      err ← get_errno;
      when (negb (err =? ECONNREFUSED)%Z) (log LDebug $"connect: %" [strerror err]);;
      mret (c false)
    else mret (c true).

(** Disabling the socket: FD_CLR, close, [fd_ = -1], [is_valid_ = false],
    [quit = quit_acked = true]. *)
Definition disable_socket (c : UnixSocketClient) (l : cli_locals)
  : M (world K) (UnixSocketClient * cli_locals) :=
  r ← sys (close (cli_fd_ c));
  when (negb (r =? 0)%Z) (log_errno LError $"client closing socket %");;
  mret (with_cli_fd (-1) false c, CliLocals (FD_CLR (cli_fd_ c) (cl_allset l)) true true).

(** The socket is ready: read and process one message. *)
Definition process_message (cbs : ClientSide) (c : UnixSocketClient) (l : cli_locals) (r : R)
  : M (world K) (UnixSocketClient * cli_locals * R) :=
  '(nread, bs) ← sys (recv (cli_fd_ c) (if connected_ c then sizeof_update else sizeof_connect));
  let c1 := if (nread <=? 0)%Z then c
            else if connected_ c then with_msg (read_update bs (cli_update_msg_ c)) c
            else with_data (read_connect bs (data_ c)) c in
  if (nread <=? 0)%Z
  then
    when (nread <? 0)%Z (log_errno LError $"read: %");;
    log LDebug $"socket client, server error" [];;
    r' ← (if connected_ c1 then cc_disconnect cbs r else mret r);
    '(c2, l2) ← disable_socket c1 l;
    mret (c2, l2, r')
  else if negb (connected_ c1)
  then
    res ← sys (send (cli_fd_ c1) (connect_bytes (data_ c1)));
    when (res =? -1)%Z (log_errno LError $"client sending ack %");;
    r' ← cc_connect cbs (data_ c1) r;
    log LDebug $"client connected" [];;
    mret (with_connected (data_ c1) c1, l, r')
  else
    match event_of (cli_update_msg_ c1) with
    | EUpdate msg_size => r' ← cc_update cbs msg_size r; mret (c1, l, r')
    | EQuit =>
        r' ← cc_disconnect cbs r;
        log LDebug $"client received quit" [];;
        '(c2, l2) ← disable_socket c1 l;
        mret (c2, l2, r')
    | EOther => mret (c1, l, r)
    end.

(** The body of the loop; [quit_] is the value [quit_.load()] finds. *)
Definition interaction (cbs : ClientSide) (quit_ : bool) (c : UnixSocketClient)
  (l : cli_locals) (r : R) : M (world K) (UnixSocketClient * cli_locals * R) :=
  '(n, rset) ← sys (select (cl_allset l));
  if (n <? 0)%Z
  then (log_errno LError $"select %";; mret (c, l, r))
  else
    when (negb (FD_ISSET (cli_fd_ c) rset) && negb (connected_ c)) (log LDebug $"timed out" []);;
    '(c1, l1, r1) ← (if FD_ISSET (cli_fd_ c) rset then process_message cbs c l r
                     else mret (c, l, r));
    mret (c1, CliLocals (cl_allset l1) (quit l1 || quit_) (quit_acked l1), r1).

(** The loop, for the turns of [quits] at most. *)
Fixpoint interactions (cbs : ClientSide) (quits : list bool) (c : UnixSocketClient)
  (l : cli_locals) (r : R) : M (world K) (UnixSocketClient * cli_locals * R) :=
  match quits with
  | [] => mret (c, l, r)
  | q :: quits' =>
      if loop_over l then mret (c, l, r)
      else
        '(c', l', r') ← interaction cbs q c l r;
        interactions cbs quits' c' l' r'
  end.

(** [server_interaction]: the locals, then the loop. *)
Definition server_interaction (cbs : ClientSide) (quit_ : bool) (quits : list bool)
  (c : UnixSocketClient) (r : R) : M (world K) (UnixSocketClient * cli_locals * R) :=
  allset ← FD_SET (cli_fd_ c) ∅;
  interactions cbs quits c (CliLocals allset quit_ false) r.

(** [UnixSocketClient::start]: the thread runs [turns] turns until it is
    connected or one second has passed. *)
Definition client_start (cbs : ClientSide) (turns : nat) (c : UnixSocketClient) (r : R)
  : M (world K) (bool * UnixSocketClient * cli_locals * R) :=
  let l0 := CliLocals ∅ false false in
  if cli_started c
  then
    log LWarning $"shmdata socket client start has already invoked, ignoring" [];;
    mret (false, with_started true false c, l0, r)
  else
    '(c1, l1, r1) ← server_interaction cbs false (replicate turns false) c r;
    mret (connected_ c1, with_started true (cli_is_valid_ c1 && connected_ c1) c1, l1, r1).

(** [UnixSocketClient::~UnixSocketClient]: ask to quit, then join the thread,
    which runs [turns] more turns at most, then [~UnixSocket].  [proto_] is null
    until [start] sets it, with the thread: to ask to quit before uses a null
    pointer. *)
Definition UnixSocketClient_dtor (cbs : ClientSide) (turns : nat) (c : UnixSocketClient)
  (l : cli_locals) (r : R) : M (world K) (cli_locals * R) :=
  when (cli_is_valid_ c && negb (cli_fd_ c =? -1)%Z)
    (if cli_started c
     then res ← sys (send (cli_fd_ c) (quit_bytes quit_msg));
          when (res =? -1)%Z (log LError $"send (client trying to quit)" [])
     else undef);;
  '(c1, l1, r1) ← (if cli_started c then interactions cbs (replicate turns true) c l r
                   else mret (c, l, r));
  UnixSocket_dtor (cli_fd_ c1);;
  mret (l1, r1).
End client.
Arguments ClientSide : clear implicits.
Arguments mkClientSide {K R} _ _ _.

(** Callbacks that only change the state of the owner. *)
Definition pure_cbs {K R} (connect : onConnectData -> R -> R) (disconnect : R -> R)
  (update : Z -> R -> R) : ClientSide K R :=
  mkClientSide (fun d r => mret (connect d r)) (fun r => mret (disconnect r))
    (fun size r => mret (update size r)).

(** A connected client on descriptor 4, with two updates and a quit to read;
    its owner records the sizes, and -1 for the disconnection. *)
Definition demo_client : UnixSocketClient :=
  Client $"/tmp/s" 4 true true true (default_connect (zeros 6)) (default_update (zeros 6)).
Definition demo_cli_locals : cli_locals := CliLocals {[4%Z]} false false.
Definition demo_stream : world kernel :=
  World (Kernel 0 1 ∅ ∅ ∅ ∅ ∅
    (Net {[4%Z := open_sock (update_stream (zeros 6) [70000%Z; 5%Z] ++ quit_bytes quit_msg)]}
       (-1) 0 ∅ 2)) [].
Definition recorder : ClientSide kernel (list Z) :=
  pure_cbs (fun _ r => r) (fun r => r ++ [(-1)%Z]) (fun z r => r ++ [z]).

(** ** Invariants of the owner *)

Section owner.
Context {K : Type} `{ErrnoOS K, SockOS K} {R : Type}.
Context (cbs : ClientSide K R) (I : R -> Prop).
Context (Hconnect : forall d r, I r -> returns (cc_connect cbs d r) I).
Context (Hdisconnect : forall r, I r -> returns (cc_disconnect cbs r) I).
Context (Hupdate : forall z r, I r -> returns (cc_update cbs z r) I).

Lemma process_owner c l r : I r -> returns (process_message cbs c l r) (fun '(_, _, r') => I r').
Proof using All.
  intros Hr. unfold process_message. apply returns_skip. intros [n bs].
  destruct (n <=? 0)%Z.
  - do 2 (apply returns_skip; intros _).
    eapply (returns_bind _ _ I); [destruct (connected_ c); auto with shm|]. intros r' Hr'.
    apply returns_skip. intros [c2 l2]. auto with shm.
  - destruct (negb _).
    + do 2 (apply returns_skip; intros ?). eapply returns_bind; [by apply Hconnect|].
      intros r' Hr'. apply returns_skip. intros _. auto with shm.
    + destruct (event_of _).
      * eapply returns_bind; [by apply Hupdate|]. auto with shm.
      * eapply returns_bind; [by apply Hdisconnect|]. intros r' Hr'.
        apply returns_skip. intros _. apply returns_skip. intros [c2 l2]. auto with shm.
      * auto with shm.
Qed.

Lemma interaction_owner q c l r :
  I r -> returns (interaction cbs q c l r) (fun '(_, _, r') => I r').
Proof using All.
  intros Hr. unfold interaction. apply returns_skip. intros [n rset].
  destruct (n <? 0)%Z; [apply returns_skip; auto with shm|]. apply returns_skip. intros _.
  eapply (returns_bind _ _ (fun '(_, _, r') => I r')).
  - destruct (FD_ISSET _ _); [by apply process_owner|auto with shm].
  - intros [[c1 l1] r1] Hr1. auto with shm.
Qed.

(** What the callbacks preserve, the thread preserves. *)
Lemma interactions_owner quits c l r :
  I r -> returns (interactions cbs quits c l r) (fun '(_, _, r') => I r').
Proof using All.
  revert c l r. induction quits as [|q quits IH]; intros c l r Hr; cbn [interactions];
    [auto with shm|]. destruct (loop_over l); [auto with shm|].
  eapply returns_bind; [by apply interaction_owner|]. intros [[c1 l1] r1] Hr1. by apply IH.
Qed.

Lemma client_start_owner turns c r :
  I r -> returns (client_start cbs turns c r) (fun '(started, c', _, r') =>
    I r' /\ (started = true -> connected_ c' = true /\ cli_started c' = true)).
Proof using All.
  intros Hr. unfold client_start, server_interaction. destruct (cli_started c).
  - apply returns_skip. intros _. by apply returns_ret.
  - eapply (returns_bind _ _ (fun '(_, _, r') => I r')).
    + apply returns_skip. intros allset. by apply interactions_owner.
    + intros [[c1 l1] r1] Hr1. by apply returns_ret.
Qed.
End owner.

(** ** A connected client and a stream *)

Section stream.
Context {K : Type} `{SockLaws K} {R : Type}.
Context (connect : onConnectData -> R -> R) (disconnect : R -> R) (update : Z -> R -> R).
Implicit Types (F : gset Z) (c : UnixSocketClient) (s : cstr).
#[local] Notation cbs := (pure_cbs (K := K) connect disconnect update).

(** The socket is open and [s] is to be read on it. *)
Definition stream fd F s (k : K) : Prop := fds k = F /\ fd ∈ F /\ inq k fd = s.

Lemma kt_recv_stream fd F s n :
  s <> [] -> (0 < n)%nat ->
  ktotal (stream fd F s) (sys (recv fd n)) (fun '(r, bs) k =>
    r = Z.of_nat (length (take n s)) /\ bs = take n s /\ stream fd F (drop n s) k).
Proof using All.
  intros Hs Hn. apply kt_sys. intros k [r bs] k' (Hf & Hin & Hq) E.
  destruct (recv_ready fd n k) as (k2 & E2 & Hq2); [by rewrite Hf|by rewrite Hq|done|].
  rewrite Hq in E2, Hq2. rewrite E in E2. injection E2 as -> -> ->.
  destruct (recv_law _ _ _ _ _ _ E) as (Hf' & _). unfold stream. by rewrite Hf', Hf.
Qed.

Lemma kt_select_stream fd F s :
  s <> [] -> ktotal (stream fd F s) (sys (select {[fd]})) (fun '(r, rs) k =>
    (0 < r)%Z /\ fd ∈ rs /\ stream fd F s k).
Proof using All.
  intros Hs. apply kt_sys. intros k [r rs] k' (Hf & Hin & Hq) E.
  destruct (select_ready {[fd]} fd k) as (r2 & rs2 & k2 & E2 & Hr & Hfd & Hf2 & Hq2);
    [set_solver|rewrite Hf; set_solver|by rewrite Hq|].
  rewrite E in E2. injection E2 as -> -> ->. unfold stream. by rewrite Hf2, Hq2.
Qed.

(** One message of a connected client: the bytes [m] in front of [rest]. *)
Lemma process_spec c l r F m rest msg :
  connected_ c = true -> m <> [] -> take sizeof_update (m ++ rest) = m ->
  read_update m (cli_update_msg_ c) = msg ->
  ktotal (stream (cli_fd_ c) F (m ++ rest)) (process_message cbs c l r)
    (fun '(c', l', r') k =>
       match event_of msg with
       | EUpdate z => c' = with_msg msg c /\ l' = l /\ r' = update z r /\
                      stream (cli_fd_ c) F (drop sizeof_update (m ++ rest)) k
       | EQuit => cli_fd_ c' = (-1)%Z /\ loop_over l' = true /\ r' = disconnect r /\
                  fds k = F ∖ {[cli_fd_ c]}
       | EOther => True
       end).
Proof using All.
  intros Hc Hm Ht Hmsg. unfold process_message. rewrite Hc.
  eapply kt_bind; [apply kt_recv_stream; [by destruct m|unfold sizeof_update; lia]|].
  intros [n bs]. cbn beta iota. apply kt_pure. intros ->. apply kt_pure. intros ->.
  rewrite Ht. destruct (Z.leb_spec (Z.of_nat (length m)) 0); [destruct m; [done|simpl in *; lia]|].
  rewrite Hmsg. cbn [with_msg connected_ cli_update_msg_]. rewrite Hc. cbn [negb].
  destruct (event_of msg) as [z| |].
  - eapply kt_bind; [by apply (kt_ret _ _ (fun r' k => r' = update z r /\
      stream (cli_fd_ c) F (drop sizeof_update (m ++ rest)) k))|].
    intros r'. apply kt_pure. intros ->. by apply kt_ret.
  - eapply kt_bind; [by apply (kt_ret _ _ (fun r' k => r' = disconnect r /\ fds k = F)); intros k []|].
    intros r'. apply kt_pure. intros ->. apply kt_seq; [apply kt_log|].
    unfold disable_socket. cbn [with_msg cli_fd_].
    eapply (kt_bind _ _ _ (fun '(c2, l2) k => cli_fd_ c2 = (-1)%Z /\ loop_over l2 = true /\
      fds k = F ∖ {[cli_fd_ c]})).
    + eapply kt_bind; [apply (kt_sys _ _ (fun _ k => fds k = F ∖ {[cli_fd_ c]}))|].
      { intros k a k' <- E. by destruct (close_law _ _ _ _ E). }
      intros a. cbn beta. apply kt_seq; [apply kt_when; intros _; apply kt_log_errno|].
      by apply kt_ret.
    + intros [c2 l2]. by apply kt_ret; intros k (? & ? & ?).
  - by apply kt_ret.
Qed.

(** One turn on a ready socket. *)
Lemma interaction_spec q c l r F m rest msg :
  connected_ c = true -> cl_allset l = {[cli_fd_ c]} ->
  m <> [] -> take sizeof_update (m ++ rest) = m -> read_update m (cli_update_msg_ c) = msg ->
  ktotal (stream (cli_fd_ c) F (m ++ rest)) (interaction cbs q c l r)
    (fun '(c', l', r') k =>
       match event_of msg with
       | EUpdate z => c' = with_msg msg c /\
                      l' = CliLocals (cl_allset l) (quit l || q) (quit_acked l) /\
                      r' = update z r /\
                      stream (cli_fd_ c) F (drop sizeof_update (m ++ rest)) k
       | EQuit => cli_fd_ c' = (-1)%Z /\ loop_over l' = true /\ r' = disconnect r /\
                  fds k = F ∖ {[cli_fd_ c]}
       | EOther => True
       end).
Proof using All.
  intros Hc Hl Hm Ht Hmsg. unfold interaction. rewrite Hl.
  eapply kt_bind; [apply kt_select_stream; by destruct m|].
  intros [n rs]. cbn beta iota. apply kt_pure. intros Hn. apply kt_pure. intros Hrs.
  rewrite (proj2 (Z.ltb_ge n 0)) by lia.
  unfold FD_ISSET. rewrite bool_decide_eq_true_2 by done. cbn [negb andb when].
  apply kt_seq; [by apply kt_ret|].
  eapply kt_bind; [by apply (process_spec c l r F m rest msg)|].
  intros [[c1 l1] r1]. apply kt_ret. intros k Hk. destruct (event_of msg); [|..|done].
  - destruct Hk as (-> & -> & -> & Hk). by rewrite Hl.
  - destruct Hk as (? & Hov & ? & ?). repeat split; try done. unfold loop_over in *. simpl.
    apply andb_true_iff in Hov as [-> ->]. done.
Qed.

Lemma take_update pad z rest :
  length pad = 6 ->
  take sizeof_update (update_bytes (mkUpdateMsg 1 pad z) ++ rest) =
    update_bytes (mkUpdateMsg 1 pad z) /\
  drop sizeof_update (update_bytes (mkUpdateMsg 1 pad z) ++ rest) = rest.
Proof.
  intros Hp. pose proof (length_update_bytes (mkUpdateMsg 1 pad z) Hp) as Hl.
  by rewrite take_app_length', drop_app_length'.
Qed.

Lemma read_update_msg pad z m :
  length pad = 6 -> length (um_pad m) = 6 -> (0 <= z < 2 ^ 64)%Z ->
  read_update (update_bytes (mkUpdateMsg 1 pad z)) m = mkUpdateMsg 1 pad z.
Proof.
  intros Hp Hm Hz. unfold read_update.
  rewrite overwrite_all by (by rewrite !length_update_bytes). by apply update_of_bytes.
Qed.

(** C17: the client obeys the stream.  When the server has sent any number of
    updates and then a quit, the thread of a connected client calls the update
    callback once per update with the sizes in order, then the disconnection
    callback once, closes the socket and ends; each turn is one message. *)
Theorem client_receives_stream pad sizes quits c l r F :
  length pad = 6 -> length (um_pad (cli_update_msg_ c)) = 6 ->
  Forall (fun z => 0 <= z < 2 ^ 64)%Z sizes ->
  connected_ c = true -> cl_allset l = {[cli_fd_ c]} -> quit_acked l = false ->
  length quits = S (length sizes) ->
  ktotal (stream (cli_fd_ c) F (update_stream pad sizes ++ quit_bytes quit_msg))
    (interactions cbs quits c l r)
    (fun '(c', l', r') k =>
       r' = disconnect (foldl (fun r z => update z r) r sizes) /\
       loop_over l' = true /\ cli_fd_ c' = (-1)%Z /\ fds k = F ∖ {[cli_fd_ c]}).
Proof using All.
  intros Hp. revert quits c l r.
  induction sizes as [|z sizes IH]; intros [|q quits] c l r Hm Hs Hc Hl Hq Hlen; try done.
  - injection Hlen as Hlen. apply length_zero_iff_nil in Hlen as ->.
    cbn [interactions update_stream app].
    unfold loop_over at 1. rewrite Hq, andb_false_r.
    rewrite <- (app_nil_r (quit_bytes quit_msg)).
    eapply kt_bind; [by apply (interaction_spec q c l r F (quit_bytes quit_msg) []
      (read_update (quit_bytes quit_msg) (cli_update_msg_ c)))|].
    intros [[c1 l1] r1]. rewrite event_quit. by apply kt_ret; intros k (? & ? & ? & ?).
  - injection Hlen as Hlen. apply Forall_cons in Hs as [Hz Hs].
    cbn [interactions update_stream]. rewrite <- app_assoc.
    set (m := update_bytes (mkUpdateMsg 1 pad z)).
    set (rest := update_stream pad sizes ++ quit_bytes quit_msg) in *.
    destruct (take_update pad z rest Hp) as [Ht Hd].
    unfold loop_over at 1. rewrite Hq, andb_false_r.
    eapply kt_bind; [apply (interaction_spec q c l r F m rest (mkUpdateMsg 1 pad z)); try done|].
    { by apply read_update_msg. }
    intros [[c1 l1] r1]. cbn [event_of um_msg_type_ um_size_ Z.eqb Pos.eqb].
    apply kt_pure. intros ->. apply kt_pure. intros ->. apply kt_pure. intros ->.
    fold m in Hd. rewrite Hd. cbn [foldl].
    by apply (IH quits (with_msg (mkUpdateMsg 1 pad z) c)).
Qed.
End stream.

Lemma client_receives_stream_witness : exists c' l' w',
  interactions recorder [false; false; false] demo_client demo_cli_locals [] demo_stream =
    (Ret (c', l', [70000%Z; 5%Z; (-1)%Z]), w') /\ loop_over l' = true /\ fds (kern w') = ∅.
Proof.
  pose proof (client_receives_stream (K := kernel) (fun _ r => r) (fun r => r ++ [(-1)%Z])
    (fun z r => r ++ [z]) (zeros 6) [70000%Z; 5%Z] [false; false; false] demo_client
    demo_cli_locals [] {[4%Z]} eq_refl eq_refl) as H.
  specialize (H ltac:(repeat constructor; lia) eq_refl eq_refl eq_refl eq_refl demo_stream).
  specialize (H ltac:(split; [apply (bool_decide_unpack _); by vm_compute|
    split; [by apply elem_of_singleton|by vm_compute]])).
  fold recorder in H.
  destruct (interactions _ _ _ _ _ _) as [[[[c' l'] r']|e| |] w'] eqn:E; try contradiction.
  destruct H as (-> & Hl & _ & Hf). exists c', l', w'. split; [reflexivity|].
  split; [exact Hl|]. rewrite Hf. apply (bool_decide_unpack _). by vm_compute.
Defined.
