(* ===== verification/Reader.v ===== *)
(** * The reader (reader.hpp, reader.cpp)

    The object, its constructor, and the update callback that attaches the
    segment again when the size changes and calls the data callback under a
    [ReadLock].  [turns] arguments bound the turns that the client's thread
    runs while a constructor or destructor waits for it. *)

From S2P Require Import Prelude Logger StdLib Posix SysVSem SysVShm SocketProtocol.
From S2P Require Import UnixSocketServer UnixSocketClient.

Record Reader := mkReader {
  rd_path_ : cstr;
  cur_size_ : Z;
  rd_shm_ : option sysVShm;
  rd_sem_ : option sysVSem;
  rd_is_valid_ : bool }.

Definition with_cur_size size shm r :=
  mkReader (rd_path_ r) size shm (rd_sem_ r) (rd_is_valid_ r).

Section reader.
Context {K : Type} `{ErrnoOS K, SemOS K, ShmOS K, FileOS K, SockOS K}.

(** The user's callbacks; the data callback gets a pointer and a size. *)
Record reader_cbs := ReaderCbs {
  on_data_cb_ : option (option Z -> Z -> M (world K) unit);
  on_server_connected_cb_ : option (cstr -> M (world K) unit);
  on_server_disconnected_cb_ : option (M (world K) unit) }.
Context (cbs : reader_cbs).

(** [Reader::on_server_connected], [Reader::on_server_disconnected] *)
Definition on_server_connected (d : onConnectData) (r : Reader) : M (world K) Reader :=
  log LDebug $"received server info, shm_size %, type %"
    [to_string (shm_size_ d); c_str (user_data_ d)];;
  match on_server_connected_cb_ cbs with Some f => f (c_str (user_data_ d)) | None => mret tt end;;
  mret r.

Definition on_server_disconnected (r : Reader) : M (world K) Reader :=
  log LDebug $"disconnected from server" [];;
  match on_server_disconnected_cb_ cbs with Some f => f | None => mret tt end;;
  mret r.

(** [Reader::on_buffer]; null pointers are undefined. *)
Definition on_buffer (r : Reader) (size : Z) : M (world K) bool :=
  match rd_sem_ r with
  | None => undef
  | Some sem =>
      lock ← ReadLock_ctor sem;
      if negb (rl_valid_ lock) then mret false
      else
        match on_data_cb_ cbs with
        | Some cb => match rd_shm_ r with Some shm => cb (get_mem shm) size | None => undef end
        | None => mret tt
        end;;
        ReadLock_dtor lock;;
        mret true
  end.

(** [shm_.reset(new sysVShm(ftok(path, 'n'), 0, log_, false))] *)
Definition attach_again (r : Reader) : M (world K) sysVShm :=
  key ← sys (ftok (c_str (rd_path_ r)) "n"%char);
  shm ← sysVShm_ctor key 0 false shm_default_permission;
  match rd_shm_ r with Some old => sysVShm_dtor old | None => mret tt end;;
  mret shm.

(** The update callback. *)
Definition on_update (size : Z) (r : Reader) : M (world K) Reader :=
  shm ← (if negb (size =? cur_size_ r)%Z then (s ← attach_again r; mret (Some s))
         else mret (rd_shm_ r));
  let r' := with_cur_size size shm r in
  _ ← on_buffer r' size;
  mret r'.

(** [proto_] *)
Definition reader_proto : ClientSide K Reader :=
  mkClientSide on_server_connected on_server_disconnected on_update.

(** Destruction of the members [cli_], [sem_], [shm_]. *)
Definition reset_members (turns : nat) (cli : UnixSocketClient) (l : cli_locals) (r : Reader)
  : M (world K) Reader :=
  '(_, r1) ← UnixSocketClient_dtor reader_proto turns cli l r;
  match rd_shm_ r1 with Some s => sysVShm_dtor s | None => mret tt end;;
  match rd_sem_ r1 with Some s => sysVSem_dtor s | None => mret tt end;;
  mret (mkReader (rd_path_ r1) (cur_size_ r1) None None false).

(** The members [shm_] and [sem_] of a new reader. *)
Definition attach_members (path : cstr) : M (world K) (sysVShm * sysVSem) :=
  key_n ← sys (ftok (c_str path) "n"%char);
  shm ← sysVShm_ctor key_n 0 false shm_default_permission;
  key_m ← sys (ftok (c_str path) "m"%char);
  sem ← sysVSem_ctor key_m false 0;
  mret (shm, sem).

(** [Reader::Reader]: the client object and the loop's variables are returned
    beside the reader, [None] when [cli_] is null. *)
Definition Reader_ctor (pad path : cstr) (turns : nat)
  : M (world K) (Reader * option (UnixSocketClient * cli_locals)) :=
  let l0 := CliLocals ∅ false false in
  let r0 := mkReader path 0 None None false in
  cli ← UnixSocketClient_ctor pad path;
  if negb (cli_is_valid_ cli)
  then
    log LDebug $"reader initialization failed (initializing socket client)" [];;
    _ ← UnixSocketClient_dtor reader_proto turns cli l0 r0;
    mret (r0, None)
  else
    '(shm, sem) ← attach_members path;
    let r1 := mkReader path 0 (Some shm) (Some sem) false in
    '(started, cli1, l1, r2) ←
      (if sysVShm_is_valid shm && sysVSem_is_valid sem
       then client_start reader_proto turns cli r1
       else mret (false, cli, l0, r1));
    if negb started
    then
      log LDebug $"reader initialization failed" [];;
      r3 ← reset_members turns cli1 l1 r2;
      mret (r3, None)
    else
      log LDebug $"reader initialization done" [];;
      mret (mkReader (rd_path_ r2) (cur_size_ r2) (rd_shm_ r2) (rd_sem_ r2) true,
            Some (cli1, l1)).

(** [Reader::~Reader] *)
Definition Reader_dtor (turns : nat) (r : Reader) (cli : option (UnixSocketClient * cli_locals))
  : M (world K) unit :=
  match cli with
  | Some (c, l) => _ ← reset_members turns c l r; mret tt
  | None => mret tt
  end.
End reader.
Arguments reader_cbs : clear implicits.
Arguments ReaderCbs {K} _ _ _.
