(* ===== verification/ReaderTheorems.v ===== *)
(** * Theorems about the reader

    What the update callback gives to the user's data callback, on a segment
    that is attached already and after the writer has replaced it; and what
    the constructor leaves behind. *)

From S2P Require Import Prelude Logger StdLib Posix PosixModel SysVSem SysVShm SocketProtocol.
From S2P Require Import UnixSocketServer UnixSocketClient Reader.

Section reader.
Context {K : Type} `{FileOS K} `{ErrnoOS K} `{SemOS K} `{ShmOS K} `{SockOS K}.

(** A data callback that reads the whole buffer it is given, then runs [f]. *)
Definition buffer_cb (f : cstr -> M (world K) unit) (p : option Z) (size : Z)
  : M (world K) unit := fun w =>
  match p with
  | None => (Undef, w)
  | Some a =>
      match load a (Z.to_nat size) (kern w) with
      | Some bs => f bs w
      | None => (Undef, w)
      end
  end.
End reader.

(** A reader of path /s whose segment 1 is attached at 3 (and at 2 by the
    writer); two reads are owed.  The key of /s names the segment [id]. *)
Definition shared_world (id : nat) (vs : list Z) : world kernel :=
  World (Kernel 0 1 {[1 := vs]} {[621%Z := 1]} {[1 := $"abcdef"; 2 := $"ABCDEFGH"]}
    {[622%Z := id]} {[2 := 1; 3 := 1]}
    (Net {[4%Z := open_sock []; 5%Z := Sock [] true [] false]} (-1) 0
       {[$"/s" := File 2 (Some (connect_bytes (OnConnectData 0 (zeros 6) 6 (zeros user_data_size))))]} 3)) [].
Definition shared_sem : sysVSem := SysVSem 621 false 1.
Definition shared_reader : Reader :=
  mkReader $"/s" 6 (Some (SysVShm 622 0 1 false (Some 3%Z))) (Some shared_sem) true.
(** The callback logs the frame. *)
Definition log_frame (bs : cstr) : M (world kernel) unit := log LInfo bs [].
Definition shared_cbs : reader_cbs kernel := ReaderCbs (Some (buffer_cb log_frame)) None None.

Section delivery.
Context {K : Type} `{FileOS K} `{ErrnoOS K} `{SemOS K} `{ShmOS K} `{SockOS K}
  `{!SemLaws K} `{!ShmLaws K} `{!FileLaws K} `{!FrameLaws K}.
Context (cbs : reader_cbs K) (f : cstr -> M (world K) unit) (sem : sysVSem) (n : Z).
(** The user's callback gets the bytes and leaves the semaphores alone. *)
Context (Hcb : on_data_cb_ cbs = Some (buffer_cb f)).
Context (Hf : forall bs w1, sem_holds sem [n; 0%Z] w1 ->
  exists w2, f bs w1 = (Ret tt, w2) /\ sem_holds sem [n; 0%Z] w2).
Context (Hn : (0 < n <= SEMVMX)%Z).
Implicit Types (r : Reader) (w : world K).

(** [f] was run on exactly [bs], from the log of [w] and a segment table with
    [P]; then the read was counted, and nothing else happened up to [w']. *)
Definition delivered (bs : cstr) (w w' : world K) (P : K -> Prop) : Prop :=
  exists w1 w2, logs w1 = logs w /\ P (kern w1) /\ f bs w1 = (Ret tt, w2) /\
    logs w' = logs w2 /\ sem_holds sem [(n - 1)%Z; 0%Z] w'.

Lemma on_buffer_spec r shm p m size w :
  rd_sem_ r = Some sem -> rd_shm_ r = Some shm -> get_mem shm = Some p ->
  sem_holds sem [n; 0%Z] w -> seg_at (kern w) p = Some (shmid_ shm) ->
  seg_bytes (kern w) (shmid_ shm) = Some m -> (0 <= size <= Z.of_nat (length m))%Z ->
  exists w', on_buffer cbs r size w = (Ret true, w') /\
    delivered (take (Z.to_nat size) m) w w' (fun k => seg_at k = seg_at (kern w)).
Proof using All.
  intros Hsem Hshm Hp Hv Ha Hm Hs. unfold on_buffer. rewrite Hsem.
  destruct (semop_done (kern w) (semid_ sem) read_start _ _ Hv (run_read_start n 0))
    as (k1 & E1 & Hv1 & _).
  destruct (semop_frame _ _ _ _ _ E1) as [[= Eb _ Ea _] _].
  rewrite (bind_ret _ _ _ (mkReadLock sem true) (World k1 (logs w))).
  2: { unfold ReadLock_ctor, sys_wait, mbind, M_bind. by rewrite E1. }
  cbn [rl_valid_ negb]. rewrite Hcb, Hshm, Hp. unfold buffer_cb.
  destruct (Hf (take (Z.to_nat size) m) (World k1 (logs w)) Hv1) as (w2 & E2 & Hv2).
  pose proof (run_read_end n 0 (proj2 Hn)) as Hr. rewrite (proj2 (Z.ltb_lt 0 n)) in Hr by lia.
  destruct (sys_semop_done sem read_end _ _ w2 Hv2 Hr) as (w3 & E3 & Hv3 & Hl3).
  exists w3. split.
  - refine (eq_trans (bind_ret _ _ _ tt w2 _) _).
    + cbn [kern]. rewrite (load_law k1 p (shmid_ shm) m); [exact E2|by rewrite Ea|by rewrite Eb|lia].
    + unfold ReadLock_dtor. cbn [rl_valid_ rl_sem_ when].
      refine (eq_trans (bind_ret _ _ _ tt w3 _) _); [|done].
      by refine (eq_trans (bind_ret _ _ _ _ w3 E3) _).
  - by exists (World k1 (logs w)), w2.
Qed.

Lemma on_buffer_unattached r shm size w :
  rd_sem_ r = Some sem -> rd_shm_ r = Some shm -> get_mem shm = None ->
  sem_holds sem [n; 0%Z] w -> exists w', on_buffer cbs r size w = (Undef, w').
Proof using All.
  intros Hsem Hshm Hp Hv. unfold on_buffer. rewrite Hsem.
  destruct (semop_done (kern w) (semid_ sem) read_start _ _ Hv (run_read_start n 0))
    as (k1 & E1 & _).
  rewrite (bind_ret _ _ _ (mkReadLock sem true) (World k1 (logs w))).
  2: { unfold ReadLock_ctor, sys_wait, mbind, M_bind. by rewrite E1. }
  cbn [rl_valid_ negb]. rewrite Hcb, Hshm, Hp. by eexists.
Qed.

Lemma same_size r : with_cur_size (cur_size_ r) (rd_shm_ r) r = r.
Proof. by destruct r. Qed.

(** C13: an update with the size the reader knows runs the data callback once,
    on exactly the first [size] bytes of the segment it has attached, between
    the two halves of a [ReadLock]; the writer is then owed one read less and
    the reader is unchanged. *)
Theorem update_delivers_frame r shm p m w :
  rd_sem_ r = Some sem -> rd_shm_ r = Some shm -> get_mem shm = Some p ->
  sem_holds sem [n; 0%Z] w -> seg_at (kern w) p = Some (shmid_ shm) ->
  seg_bytes (kern w) (shmid_ shm) = Some m -> (0 <= cur_size_ r <= Z.of_nat (length m))%Z ->
  exists w', on_update cbs (cur_size_ r) r w = (Ret r, w') /\
    delivered (take (Z.to_nat (cur_size_ r)) m) w w' (fun k => seg_at k = seg_at (kern w)).
Proof using All.
  intros Hsem Hshm Hp Hv Ha Hm Hs. unfold on_update. rewrite Z.eqb_refl. cbn [negb].
  rewrite (bind_ret _ _ _ (rd_shm_ r) w eq_refl). cbn beta. rewrite same_size.
  destruct (on_buffer_spec r shm p m (cur_size_ r) w) as (w' & E & Hd); try done.
  exists w'. split; [|done]. by rewrite (bind_ret _ _ _ _ _ E).
Qed.

Lemma attach_again_spec r old po ido key id m w :
  rd_shm_ r = Some old -> sysVShm_is_valid old = true -> shm_owner_ old = false ->
  shm_ old = Some po -> seg_at (kern w) po = Some ido ->
  file_key (kern w) (c_str (rd_path_ r)) "n"%char = key -> key <> (-1)%Z ->
  seg_key (kern w) key = Some id -> seg_bytes (kern w) id = Some m ->
  exists s w1, attach_again r w = (Ret s, w1) /\
    other_views (kern w1) = other_views (kern w) /\ seg_at (kern w1) po = None /\
    stays (Some po) (kern w) (kern w1) /\ seg_key (kern w1) = seg_key (kern w) /\
    seg_mine (kern w1) = seg_mine (kern w) /\ shm_owner_ s = false /\
    (shm_ s = None \/ exists p, shm_ s = Some p /\ shmid_ s = id /\ seg_at (kern w) p = None /\
       sysVShm_is_valid s = true /\
       seg_at (kern w1) p = Some id /\ seg_bytes (kern w1) id = Some m).
Proof using All.
  intros Hold Hval Hown Hpo Hat Hftok Hkey Hk Hm. unfold attach_again.
  rewrite (bind_ret _ _ _ key w); [|unfold sys; rewrite ftok_law, Hftok by congruence; by destruct w].
  destruct (reader_ctor_spec key id m shm_default_permission w Hkey Hk Hm)
    as (s & w1 & E & Eo & Hst & Hq & Hk1 & Hn1 & Hbi & Hc).
  rewrite (bind_ret _ _ _ _ _ E). rewrite Hold. cbn beta.
  destruct (shmdt_law (kern w1) po ido (Hq _ _ Hat))
    as (k2 & E2 & Ha2 & Hne2 & Hb2 & Hb2' & Hk2 & Hn2 & Hat2).
  assert (Ed : sysVShm_dtor old w1 = (Ret tt, World k2 (logs w1))).
  { unfold sysVShm_dtor. rewrite Hpo, Hval, Hown, andb_false_r. unfold sys, mbind, M_bind.
    cbn [when]. by rewrite E2. }
  rewrite (bind_ret _ _ _ _ _ Ed).
  exists s, (World k2 (logs w1)). split; [done|]. split.
  { by rewrite (keeps_run _ _ _ _ _ (keeps_sysVShm_dtor _) Ed),
      (keeps_run _ _ _ _ _ (keeps_sysVShm_ctor _ _ _ _) E). }
  split; [done|]. split.
  { apply (stays_trans _ _ (kern w1)); [by apply stays_none|]. intros q i m' Hne Haq Hbq.
    assert (Hqp : q <> po) by congruence. simpl. split; [by rewrite Hne2|].
    destruct (decide (i = ido)) as [->|Hi]; [by rewrite (Hat2 q)|by rewrite Hb2]. }
  split; [by rewrite <- Hk1|]. split; [by rewrite <- Hn1|]. split; [done|].
  destruct Hc as [Hc|(p & Hfree & Hh & Ei & Ek)]; [by left|]. right. exists p. simpl.
  pose proof (shm_holds_valid _ _ _ _ Hh) as Hvs.
  destruct Hh as (Hp & Hb & Hkn & Ha & _). rewrite Ei in *. rewrite Ek in *.
  do 4 (split; [done|]). split.
  - rewrite Hne2; [done|]. intros ->. by rewrite Hfree in Hat.
  - destruct (decide (id = ido)) as [<-|Hne]; [by rewrite (Hb2' key)|by rewrite Hb2].
Qed.

(** C24: an update with another size.  The reader attaches the segment that
    the key names now, before it detaches the old one, and the data callback
    is run once on exactly the first [size] bytes of it; when the segment can
    not be attached, the callback gets the pointer -1 (undefined behaviour for
    a callback that reads its buffer). *)
Theorem update_follows_resize r old po ido key id m size w :
  rd_sem_ r = Some sem -> rd_shm_ r = Some old -> sysVShm_is_valid old = true ->
  shm_owner_ old = false -> shm_ old = Some po -> seg_at (kern w) po = Some ido ->
  file_key (kern w) (c_str (rd_path_ r)) "n"%char = key -> key <> (-1)%Z ->
  seg_key (kern w) key = Some id -> seg_bytes (kern w) id = Some m ->
  size <> cur_size_ r -> (0 <= size <= Z.of_nat (length m))%Z ->
  sem_holds sem [n; 0%Z] w ->
  match on_update cbs size r w with
  | (Ret r', w') => exists s p w0, r' = with_cur_size size (Some s) r /\ get_mem s = Some p /\
      shmid_ s = id /\
      delivered (take (Z.to_nat size) m) w0 w'
        (fun k => seg_at k po = None /\ seg_at k p = Some id)
  | (Undef, _) => True
  | _ => False
  end.
Proof using All.
  intros Hsem Hold Hval Hown Hpo Hat Hftok Hkey Hk Hm Hne Hs Hv.
  destruct (attach_again_spec r old po ido key id m w) as (s & w1 & E & Hov & Hnone & _ & _ & _ & _ & Hc);
    try done.
  assert (Hv1 : sem_holds sem [n; 0%Z] w1).
  { destruct (other_views_eq _ _ Hov) as [[= E1 _ _] _]. unfold sem_holds. by rewrite E1. }
  unfold on_update. rewrite (proj2 (Z.eqb_neq _ _) Hne). cbn [negb].
  rewrite (bind_ret _ _ _ (Some s) w1) by (by rewrite (bind_ret _ _ _ _ _ E)). cbn beta.
  destruct Hc as [Hc|(p & Hp & Ei & _ & _ & Ha & Hb)].
  - destruct (on_buffer_unattached (with_cur_size size (Some s) r) s size w1) as (w' & E');
      try done. unfold mbind, M_bind at 1. by rewrite E'.
  - destruct (on_buffer_spec (with_cur_size size (Some s) r) s p m size w1) as (w' & E' & Hd);
      try done; [by rewrite Ei|by rewrite Ei|].
    rewrite (bind_ret _ _ _ _ _ E'). exists s, p, w1. split; [done|]. split; [done|].
    split; [done|]. destruct Hd as (w2 & w3 & Hl & Hat2 & Hd). exists w2, w3. rewrite Hat2.
    split; [done|]. by split.
Qed.
End delivery.

(** ** The constructor *)

Section ctor.
Context {K : Type} `{ErrnoOS K, SemOS K, ShmOS K, FileOS K, SockOS K}.
Context (cbs : reader_cbs K).
Implicit Types (r : Reader).

(** The members of a reader whose client runs. *)
Definition reader_members (path : cstr) (sem : sysVSem) (r : Reader) : Prop :=
  rd_path_ r = path /\ rd_sem_ r = Some sem /\
  exists s, rd_shm_ r = Some s /\ shm_owner_ s = false.

Lemma ctor_owner key size owner perm :
  returns (K := K) (sysVShm_ctor key size owner perm) (fun s => shm_owner_ s = owner).
Proof.
  unfold sysVShm_ctor. apply returns_skip. intros shmid.
  destruct (key =? -1)%Z; [apply returns_skip; auto with shm|].
  destruct (shmid <? 0)%Z; [apply returns_skip; auto with shm|].
  apply returns_skip. intros [p|]; apply returns_skip; auto with shm.
Qed.

Lemma on_update_members path sem size r :
  reader_members path sem r -> returns (on_update cbs size r) (reader_members path sem).
Proof.
  intros (Hp & Hs & s & Hr & Ho). unfold on_update.
  eapply (returns_bind _ _ (fun o => exists s', o = Some s' /\ shm_owner_ s' = false)).
  - destruct (negb _); [|apply returns_ret; eauto].
    eapply (returns_bind _ _ (fun s' => shm_owner_ s' = false)).
    + unfold attach_again. apply returns_skip. intros key.
      eapply returns_bind; [apply ctor_owner|]. intros s' Hs'. apply returns_skip. auto with shm.
    + intros s' Hs'. apply returns_ret. by exists s'.
  - intros o (s' & -> & Ho'). apply returns_skip. intros _. apply returns_ret.
    split; [done|]. split; [done|]. by exists s'.
Qed.

Lemma start_members path sem turns c r :
  reader_members path sem r ->
  returns (client_start (reader_proto cbs) turns c r) (fun '(started, c', _, r') =>
    reader_members path sem r' /\ (started = true -> connected_ c' = true /\ cli_started c' = true)).
Proof.
  intros Hr. apply client_start_owner; [| | |done].
  - intros d r0 Hr0. do 2 (apply returns_skip; intros _). by apply returns_ret.
  - intros r0 Hr0. do 2 (apply returns_skip; intros _). by apply returns_ret.
  - intros z r0. apply on_update_members.
Qed.

Lemma attach_members_owner path : returns (K := K) (attach_members path)
  (fun '(shm, sem) => shm_owner_ shm = false /\ sem_owner_ sem = false).
Proof.
  unfold attach_members. apply returns_skip. intros key_n.
  eapply returns_bind; [apply ctor_owner|]. intros shm Hshm. apply returns_skip. intros key_m.
  eapply (returns_bind _ _ (fun sem => sem_owner_ sem = false)).
  { unfold sysVSem_ctor. do 2 (apply returns_skip; intros ?). by apply returns_ret. }
  intros sem Hsem. by apply returns_ret.
Qed.

(** What the constructor of a reader leaves behind.  A valid reader has
    a started and connected client, a valid semaphore object and a segment
    object, neither of them an owner; an invalid one has released its client,
    its segment and its semaphores. *)
Theorem reader_ctor_result pad path turns w r c w' :
  Reader_ctor cbs pad path turns w = (Ret (r, c), w') ->
  if rd_is_valid_ r
  then exists cli l sem, c = Some (cli, l) /\ connected_ cli = true /\ cli_started cli = true /\
    sysVSem_is_valid sem = true /\ sem_owner_ sem = false /\ reader_members path sem r
  else c = None /\ rd_shm_ r = None /\ rd_sem_ r = None.
Proof.
  intros E. enough (Hr : returns (Reader_ctor cbs pad path turns) (fun '(r, c) =>
    if rd_is_valid_ r
    then exists cli l sem, c = Some (cli, l) /\ connected_ cli = true /\ cli_started cli = true /\
      sysVSem_is_valid sem = true /\ sem_owner_ sem = false /\ reader_members path sem r
    else c = None /\ rd_shm_ r = None /\ rd_sem_ r = None)) by (by apply (Hr w (r, c) w')).
  unfold Reader_ctor. apply returns_skip. intros cli. destruct (negb (cli_is_valid_ cli)).
  { do 2 (apply returns_skip; intros ?). by apply returns_ret. }
  eapply returns_bind; [apply attach_members_owner|]. intros [shm sem] [Hshm Hsem].
  eapply (returns_bind _ _ (fun '(started, cli1, _, r2) => started = true ->
    sysVSem_is_valid sem = true /\ connected_ cli1 = true /\ cli_started cli1 = true /\
    reader_members path sem r2)).
  { destruct (sysVShm_is_valid shm && sysVSem_is_valid sem) eqn:Hv; [|by apply returns_ret].
    apply andb_true_iff in Hv as [_ Hv].
    eapply kp_conseq; [apply (start_members path sem)|done|].
    - split; [done|]. split; [done|]. by exists shm.
    - intros [[[started cli1] l1] r2] _ [Hr Hc] Hst. split; [done|]. by destruct (Hc Hst). }
  intros [[[started cli1] l1] r2] Hst. destruct started; cbn [negb].
  - destruct (Hst eq_refl) as (Hv & Hc & Hs & Hr). apply returns_skip. intros _.
    apply returns_ret. cbn [rd_is_valid_]. exists cli1, l1, sem.
    do 5 (split; [done|]). exact Hr.
  - apply returns_skip. intros _. unfold reset_members.
    eapply (returns_bind _ _ (fun r3 => rd_is_valid_ r3 = false /\ rd_shm_ r3 = None /\ rd_sem_ r3 = None)).
    + apply returns_skip. intros [l3 r3]. do 2 (apply returns_skip; intros _). by apply returns_ret.
    + intros r3 (Hv & Hs & Hm). apply returns_ret. by rewrite Hv.
Qed.

(** A reader whose client connects, but whose segment or semaphores cannot be
    had: the client is deleted before it was started, and asks the server to
    quit with the message of a protocol object that is null. *)
Theorem reader_uses_null_protocol pad path turns w cli w1 shm sem w2 :
  UnixSocketClient_ctor pad path w = (Ret cli, w1) ->
  cli_is_valid_ cli = true -> (cli_fd_ cli <> -1)%Z -> cli_started cli = false ->
  attach_members path w1 = (Ret (shm, sem), w2) ->
  sysVShm_is_valid shm && sysVSem_is_valid sem = false ->
  exists w', Reader_ctor cbs pad path turns w = (Undef, w').
Proof using.
  intros E1 Hv Hfd Hs E2 Hm. unfold Reader_ctor. cbv zeta.
  rewrite (bind_ret _ _ _ _ _ E1). cbn beta. rewrite Hv. cbn [negb].
  rewrite (bind_ret _ _ _ _ _ E2). cbn beta iota zeta. rewrite Hm.
  rewrite (bind_ret (mret _) _ _ _ _ eq_refl). cbn beta iota. unfold reset_members, UnixSocketClient_dtor.
  rewrite Hv, Hs, (proj2 (Z.eqb_neq _ _) Hfd). by eexists.
Qed.
End ctor.

(** ** Concrete instances *)

(** The server accepts, but there is no segment. *)
Definition no_segment_world : world kernel :=
  World (Kernel 0 1 {[1 := [0%Z; 0%Z]]} {[621%Z := 1]} ∅ ∅ ∅
    (Net ∅ (-1) 0 {[$"/s" := File 2 (Some (connect_bytes (OnConnectData 0 (zeros 6) 6 (zeros user_data_size))))]} 3)) [].

Lemma reader_uses_null_protocol_witness : exists w',
  Reader_ctor shared_cbs (zeros 6) $"/s" 1 no_segment_world = (Undef, w').
Proof.
  eapply reader_uses_null_protocol; [vm_compute; reflexivity|done|done|done|vm_compute; reflexivity|done].
Defined.

Lemma log_frame_keeps bs (w1 : world kernel) :
  sem_holds shared_sem [2%Z; 0%Z] w1 ->
  exists w2, log_frame bs w1 = (Ret tt, w2) /\ sem_holds shared_sem [2%Z; 0%Z] w2.
Proof. intros Hv. by eexists. Qed.

Lemma update_delivers_frame_witness : exists w',
  on_update shared_cbs 6 shared_reader (shared_world 1 [2; 0]%Z) = (Ret shared_reader, w') /\
  logs w' = [(LInfo, $"abcdef")] /\ sem_vals (kern w') 1 = Some [1; 0]%Z.
Proof.
  destruct (update_delivers_frame shared_cbs log_frame shared_sem 2 eq_refl log_frame_keeps
    ltac:(unfold SEMVMX; lia) shared_reader (SysVShm 622 0 1 false (Some 3%Z)) 3 $"abcdef"
    (shared_world 1 [2; 0]%Z)) as (w' & E & _ & _ & _ & _ & _ & _ & Hs);
    [reflexivity|reflexivity|reflexivity|reflexivity|reflexivity|reflexivity|simpl; lia|].
  exists w'. split; [exact E|]. split; [|exact Hs].
  vm_compute in E. injection E as <-. reflexivity.
Defined.

Lemma update_follows_resize_witness : exists r' w',
  on_update shared_cbs 8 shared_reader (shared_world 2 [2; 0]%Z) = (Ret r', w') /\
  option_map shmid_ (rd_shm_ r') = Some 2%Z /\ cur_size_ r' = 8%Z /\
  logs w' = [(LInfo, $"ABCDEFGH")] /\ seg_at (kern w') 3 = None.
Proof.
  pose proof (update_follows_resize shared_cbs log_frame shared_sem 2 eq_refl log_frame_keeps
    ltac:(unfold SEMVMX; lia) shared_reader (SysVShm 622 0 1 false (Some 3%Z)) 3 1 622 2
    $"ABCDEFGH" 8 (shared_world 2 [2; 0]%Z) eq_refl eq_refl eq_refl eq_refl eq_refl eq_refl
    eq_refl ltac:(lia) eq_refl eq_refl ltac:(simpl; lia) ltac:(simpl; lia) eq_refl) as Hd.
  destruct (on_update shared_cbs 8 shared_reader (shared_world 2 [2; 0]%Z))
    as [[r'|e| |] w'] eqn:E; [|contradiction| |contradiction]; vm_compute in E;
    [|discriminate].
  destruct Hd as (s & p & w0 & Hr & _ & Hs & _). exists r', w'. split; [reflexivity|].
  split; [rewrite Hr; simpl; by rewrite Hs|]. split; [by rewrite Hr|].
  injection E as _ <-. split; reflexivity.
Defined.

Lemma reader_ctor_result_witness : exists r cli l w',
  Reader_ctor shared_cbs (zeros 6) $"/s" 1 (shared_world 1 [0; 0]%Z) =
    (Ret (r, Some (cli, l)), w') /\
  connected_ cli = true /\ reader_members $"/s" (SysVSem 621 false 1) r.
Proof.
  destruct (Reader_ctor shared_cbs (zeros 6) $"/s" 1 (shared_world 1 [0; 0]%Z))
    as [[[r c]|e| |] w'] eqn:E; [|vm_compute in E; discriminate ..].
  pose proof (reader_ctor_result shared_cbs (zeros 6) $"/s" 1 _ r c w' E) as H.
  assert (Hv : rd_is_valid_ r = true /\ rd_sem_ r = Some (SysVSem 621 false 1))
    by (vm_compute in E; injection E as <- _ _; split; reflexivity).
  rewrite (proj1 Hv) in H. destruct H as (cli & l & sem & -> & Hc & _ & _ & _ & Hm).
  exists r, cli, l, w'. split; [reflexivity|]. split; [exact Hc|].
  pose proof (proj1 (proj2 Hm)) as Hs. rewrite (proj2 Hv) in Hs. injection Hs as <-. exact Hm.
Defined.
