(* ===== verification/Writer.v ===== *)
(** * The writer (writer.hpp, writer.cpp)

    The object, [copy_to_shm], the access objects and the constructor with
    its recovery of a dead shmdata.  The time-out thread of [WriteLock] is in
    [SysVSem.v]; interleavings with readers are in [ShmProtocol.v]. *)

From S2P Require Import Prelude Logger StdLib Posix SysVSem SysVShm SocketProtocol.
From S2P Require Import UnixSocketServer UnixSocketClient Reader.

Record Writer := mkWriter {
  wr_path_ : cstr;
  connect_data_ : onConnectData;
  srv_ : option UnixSocketServer;
  wr_shm_ : option sysVShm;
  wr_sem_ : option sysVSem;
  alloc_size_ : Z;
  wr_is_valid_ : bool }.

Definition set_shm_size (size : Z) (d : onConnectData) : onConnectData :=
  OnConnectData (cd_msg_type_ d) (cd_pad d) size (user_data_ d).
Definition with_srv s w := mkWriter (wr_path_ w) (connect_data_ w) s (wr_shm_ w) (wr_sem_ w)
  (alloc_size_ w) (wr_is_valid_ w).
(** New segment, [connect_data_.shm_size_ = size], [alloc_size_ = size]. *)
Definition with_segment shm size w := mkWriter (wr_path_ w) (set_shm_size size (connect_data_ w))
  (srv_ w) shm (wr_sem_ w) size (wr_is_valid_ w).

(** An access object: [wlock_], [mem_], [has_notified_]. *)
Record OneWriteAccess := mkAccess {
  wlock_ : WriteLock; mem_ : option Z; has_notified_ : bool }.

Section writer.
Context {K : Type} `{ErrnoOS K, SemOS K, ShmOS K, FileOS K, SockOS K}.

(** [shm_.reset(); shm_.reset(new sysVShm(ftok(path, 'n'), size, log_, true))] *)
Definition new_segment (size : Z) (w : Writer) : M (world K) sysVShm :=
  match wr_shm_ w with Some old => sysVShm_dtor old | None => mret tt end;;
  key ← sys (ftok (c_str (wr_path_ w)) "n"%char);
  sysVShm_ctor key size true shm_default_permission.

(** [memcpy(dest, data, size)]; [None] is the pointer -1. *)
Definition copy_bytes (dest : option Z) (data : cstr) : M (world K) unit :=
  match dest with Some p => store_at p data | None => undef end.

(** [Writer::copy_to_shm] *)
Definition copy_to_shm (data : cstr) (w : Writer) : M (world K) (bool * Writer) :=
  let size := Z.of_nat (length data) in
  match wr_sem_ w with
  | None => log LWarning $"semaphore is not initialized" [];; mret (false, w)
  | Some sem =>
      if negb (sysVSem_is_valid sem)
      then (log LWarning $"semaphore was not correctly initialized" [];; mret (false, w))
      else
        wlock ← WriteLock_ctor sem;
        w1 ← (if (shm_size_ (connect_data_ w) <? size)%Z
              then
                log LDebug $"resizing shmdata (%) from % bytes to % bytes"
                  [wr_path_ w; to_string (shm_size_ (connect_data_ w)); to_string size];;
                shm ← new_segment size w;
                mret (with_segment (Some shm) size w)
              else mret w);
        match srv_ w1, wr_shm_ w1 with
        | Some srv, Some shm =>
            '(num_readers, srv') ← notify_update size srv;
            when (0 <? num_readers)%Z (_ ← commit_readers wlock num_readers; mret tt);;
            copy_bytes (get_mem shm) data;;
            WriteLock_dtor wlock;;
            mret (true, with_srv (Some srv') w1)
        | _, _ => undef
        end
  end.

(** [Writer::get_one_write_access], [get_one_write_access_ptr] *)
Definition get_one_write_access (w : Writer) : M (world K) OneWriteAccess :=
  match wr_sem_ w, wr_shm_ w with
  | Some sem, Some shm =>
      wlock ← WriteLock_ctor sem; mret (mkAccess wlock (get_mem shm) false)
  | _, _ => undef
  end.

(** [Writer::get_one_write_access_resize] keeps a segment of the same size,
    [get_one_write_access_ptr_resize] never does. *)
Definition get_one_write_access_resize (keep : bool) (new_size : Z) (w : Writer)
  : M (world K) (OneWriteAccess * Writer) :=
  match wr_sem_ w, wr_shm_ w with
  | Some sem, Some shm =>
      wlock ← WriteLock_ctor sem;
      shm' ← (if keep && (get_size shm =? new_size)%Z then mret shm
              else
                log LDebug $"resizing shmdata (%) from % bytes to % bytes"
                  [wr_path_ w; to_string (shm_size_ (connect_data_ w)); to_string new_size];;
                new_segment new_size w);
      mret (mkAccess wlock (get_mem shm') false, with_segment (Some shm') new_size w)
  | _, _ => undef
  end.

(** [OneWriteAccess::shm_resize] *)
Definition shm_resize (new_size : Z) (a : OneWriteAccess) (w : Writer)
  : M (world K) (Z * OneWriteAccess * Writer) :=
  shm ← new_segment new_size w;
  mret (new_size, mkAccess (wlock_ a) (get_mem shm) (has_notified_ a),
        with_segment (Some shm) new_size w).

(** [OneWriteAccess::notify_clients] *)
Definition notify_clients (size : Z) (a : OneWriteAccess) (w : Writer)
  : M (world K) (Z * OneWriteAccess * Writer) :=
  if has_notified_ a
  then
    log LWarning ($"one notification only is expected per OneWriteAccess instance, " ++
                  $"ignoring current invocation") [];;
    mret (0%Z, a, w)
  else
    match srv_ w with
    | None => undef
    | Some srv =>
        '(num_readers, srv') ← notify_update size srv;
        when (0 <? num_readers)%Z (_ ← commit_readers (wlock_ a) num_readers; mret tt);;
        mret (num_readers, mkAccess (wlock_ a) (mem_ a) true, with_srv (Some srv') w)
    end.

(** [OneWriteAccess::~OneWriteAccess] *)
Definition OneWriteAccess_dtor (a : OneWriteAccess) : M (world K) unit := WriteLock_dtor (wlock_ a).

(** *** Construction *)

Definition valid_members (srv : UnixSocketServer) (shm : sysVShm) (sem : sysVSem) : bool :=
  server_is_valid srv && sysVShm_is_valid shm && sysVSem_is_valid sem.

(** The server, the segment and the semaphores, in this order. *)
Definition make_server (path : cstr) (pad : cstr) (perm : Z) : M (world K) UnixSocketServer :=
  UnixSocketServer_ctor path (Some (default_update pad)) perm 10.
Definition make_segment (path : cstr) (memsize perm : Z) : M (world K) sysVShm :=
  key ← sys (ftok (c_str path) "n"%char); sysVShm_ctor key memsize true perm.
Definition make_semaphore (path : cstr) (perm : Z) : M (world K) sysVSem :=
  key ← sys (ftok (c_str path) "m"%char); sysVSem_ctor key true perm.

(** The objects of a dead shmdata are removed and made again. *)
Definition clean_and_retry (path pad : cstr) (memsize perm : Z)
  : M (world K) (UnixSocketServer * sysVShm * sysVSem) :=
  log LDebug $"writer detected a dead Shmdata, will clean and retry" [];;
  key_m ← sys (ftok (c_str path) "m"%char);
  _ ← force_semaphore_cleaning key_m;
  sem ← make_semaphore path perm;
  key_n ← sys (ftok (c_str path) "n"%char);
  _ ← force_shm_cleaning key_n;
  shm ← make_segment path memsize perm;
  _ ← force_sockserv_cleaning path;
  srv ← make_server path pad perm;
  mret (srv, shm, sem).

(** [Writer::Writer] up to the server thread; [turns] is for the reader that
    inspects the path. *)
Definition Writer_ctor (pad path : cstr) (memsize : Z) (data_descr : cstr) (unix_permission : Z)
  (turns : nat) : M (world K) Writer :=
  d ← lift (onConnectData_ctor pad memsize data_descr);
  srv ← make_server path pad unix_permission;
  shm ← make_segment path memsize unix_permission;
  sem ← make_semaphore path unix_permission;
  let failed := mkWriter path d None None None memsize false in
  w ← (if valid_members srv shm sem
       then mret (mkWriter path d (Some srv) (Some shm) (Some sem) memsize true)
       else
         sysVSem_dtor sem;;
         sysVShm_dtor shm;;
         UnixSocketServer_dtor srv;;
         log LDebug $"checking if a shmdata having the same path is already active" [];;
         '(inspector, cli) ← Reader_ctor (ReaderCbs None None None) pad path turns;
         Reader_dtor (ReaderCbs None None None) turns inspector cli;;
         if negb (rd_is_valid_ inspector)
         then
           '(srv', shm', sem') ← clean_and_retry path pad memsize unix_permission;
           mret (mkWriter path d (Some srv') (Some shm') (Some sem') memsize
                   (valid_members srv' shm' sem'))
         else (log LError $"an other writer is using the same path" [];; mret failed));
  if negb (wr_is_valid_ w)
  then (log LWarning $"writer failled initialization" [];; mret w)
  else
    match srv_ w with
    | None => undef
    | Some srv' =>
        srv'' ← start_serving srv';
        log LDebug $"writer initialized" [];;
        mret (with_srv (Some srv'') w)
    end.

(** [Writer::~Writer]: [sem_], then [shm_], then [srv_]. *)
Definition Writer_dtor (w : Writer) : M (world K) unit :=
  match wr_sem_ w with Some s => sysVSem_dtor s | None => mret tt end;;
  match wr_shm_ w with Some s => sysVShm_dtor s | None => mret tt end;;
  match srv_ w with Some s => UnixSocketServer_dtor s | None => mret tt end.
End writer.
