(* ===== verification/WriterTheorems.v ===== *)
(** * Theorems about the writer

    [copy_to_shm] from the laws of the system calls: what it does to the
    segment, to the semaphores and to the clients, and that a reader that then
    gets the update is given exactly the data. *)

From S2P Require Import Prelude Logger StdLib Posix PosixModel SysVSem SysVShm SocketProtocol.
From S2P Require Import UnixSocketServer UnixSocketClient Reader ReaderTheorems Writer.

Section writer.
Context {K : Type} `{FileOS K} `{ErrnoOS K} `{SemOS K} `{ShmOS K} `{SockOS K}
  `{!SemLaws K} `{!ShmLaws K} `{!SockLaws K} `{!FileLaws K} `{!FrameLaws K}.
Implicit Types (sem : sysVSem) (shm : sysVShm) (k : K).

(** ** Definitions *)

(** The critical section of [copy_to_shm], the lock held and no resize needed. *)
Definition publish_locked (wlock : WriteLock) (data : cstr) (srv : UnixSocketServer)
  (shm : sysVShm) (w : Writer) : M (world K) (bool * Writer) :=
  '(num_readers, srv') ← notify_update (Z.of_nat (length data)) srv;
  when (0 <? num_readers)%Z (_ ← commit_readers wlock num_readers; mret tt);;
  copy_bytes (get_mem shm) data;;
  WriteLock_dtor wlock;;
  mret (true, with_srv (Some srv') w).

(** What a publication of [data] leaves behind: [srv'] is the server after it. *)
Definition published (data : cstr) (sem : sysVSem) (shm : sysVShm) (p : Z) (m : cstr)
  (srv srv' : UnixSocketServer) (O : Z -> cstr) (k : K) : Prop :=
  sem_vals k (semid_ sem) = Some [Z.of_nat (length (clients_notified_ srv')); 0%Z] /\
  seg_bytes k (shmid_ shm) = Some (data ++ drop (length data) m) /\
  seg_at k p = Some (shmid_ shm) /\
  clients_notified_ srv' ⊆ clients_ srv /\ clients_ srv' = clients_ srv /\
  forall d, out k d =
    if decide (d ∈ clients_notified_ srv')
    then O d ++ update_bytes (mkUpdateMsg (um_msg_type_ (srv_update_msg_ srv))
                                (um_pad (srv_update_msg_ srv)) (Z.of_nat (length data)))
    else O d.

(** The segments after a store into [id]. *)
Definition stored_in (id : Z) (k0 k : K) : Prop :=
  seg_key k = seg_key k0 /\ seg_at k = seg_at k0 /\ seg_mine k = seg_mine k0 /\
  forall i, i <> id -> seg_bytes k i = seg_bytes k0 i.

(** [shm'] replaces [old]: it failed, or is zeroed and mapped. *)
Definition renewed (old shm' : sysVShm) (size : Z) (k : K) : Prop :=
  get_mem shm' = None \/
  (0 < shmid_ old)%Z /\ exists p, get_mem shm' = Some p /\
    seg_bytes k (shmid_ shm') = Some (replicate (Z.to_nat size) Ascii.zero) /\
    seg_at k p = Some (shmid_ shm').

(** The values of the semaphore set, with the other objects as in [k0]. *)
Definition sem_at (id : Z) (vs : list Z) (k0 k : K) : Prop :=
  sem_vals k id = Some vs /\ shm_view k = shm_view k0 /\ sock_view k = sock_view k0.

(** ** The steps *)

Lemma kt_semop id ops vs vs' k0 :
  run_ops ops vs = OpsDone vs' ->
  ktotal (sem_at id vs k0) (sys_wait (semop id ops))
    (fun r k => r = 0%Z /\ sem_at id vs' k0 k).
Proof using All.
  intros Ho w (Hv & Hs & Hk). destruct (semop_done _ _ _ _ _ Hv Ho) as (k' & E & Hv' & _).
  unfold sys_wait. rewrite E. simpl. destruct (semop_frame _ _ _ _ _ E) as [E1 E2].
  split; [done|]. unfold sem_at. by rewrite E1, E2.
Qed.

Lemma kt_WriteLock_ctor sem a k0 :
  (0 <= a)%Z ->
  ktotal (sem_at (semid_ sem) [a; 0%Z] k0) (WriteLock_ctor sem)
    (fun l k => l = mkWriteLock sem true /\ sem_at (semid_ sem) [1%Z; 1%Z] k0 k).
Proof using All.
  intros Ha. unfold WriteLock_ctor.
  eapply (kt_bind _ _ _ (fun r k => r = 0%Z /\ sem_at (semid_ sem) [1%Z; 1%Z] k0 k)).
  - intros w Hw. unfold write_start_wait. destruct Hw as (Hv & Hs & Hk).
    pose proof (run_write_start a 0) as Hr. specialize (Hr ltac:(unfold SEMVMX; lia)).
    destruct (Z.eqb_spec a 0) as [->|Hne].
    + pose proof (kt_semop (semid_ sem) write_start _ _ k0 Hr w (conj Hv (conj Hs Hk))) as Hop.
      unfold sys_wait in Hop. by destruct (semop _ _ _) as [[r k']|].
    + rewrite (semop_sleep _ _ _ _ Hv Hr). unfold read_semaphore_reset. cbn [negb when].
      destruct (setval_law (kern w) (semid_ sem) 0 0 [a; 0%Z]) as (k' & E & Hv' & _);
        [done|simpl; lia|unfold SEMVMX; lia|].
      destruct (setval_frame _ _ _ _ _ _ E) as [E1 E2].
      rewrite (bind_ret _ _ _ tt (World k' (logs w))).
      * apply (kt_semop (semid_ sem) write_start [0%Z; 0%Z] [1%Z; 1%Z] k0); [done|].
        unfold sem_at. simpl. by rewrite E1, E2.
      * unfold mbind, M_bind, sys. by rewrite E.
  - intros r. apply kt_pure. intros ->. by apply kt_ret.
Qed.

Lemma kt_commit sem n k0 :
  (0 <= n < SEMVMX)%Z ->
  ktotal (sem_at (semid_ sem) [1%Z; 1%Z] k0)
    (when (0 <? n)%Z (_ ← commit_readers (mkWriteLock sem true) n; mret tt))
    (fun _ k => sem_at (semid_ sem) [(1 + n)%Z; 1%Z] k0 k).
Proof using All.
  intros Hn. destruct (Z.ltb_spec 0 n).
  - cbn [when]. unfold commit_readers. cbn [wl_sem_].
    eapply (kt_bind _ _ _ (fun _ k => sem_at (semid_ sem) [(1 + n)%Z; 1%Z] k0 k)).
    + eapply kt_bind; [apply kt_semop, run_commit; lia|].
      intros r. apply kt_pure. intros ->. by apply kt_ret.
    + intros _. by apply kt_ret.
  - cbn [when]. apply kt_ret. intros k Hk. by replace (1 + n)%Z with 1%Z by lia.
Qed.

Lemma kt_WriteLock_dtor sem n k0 :
  (0 <= n < SEMVMX)%Z ->
  ktotal (sem_at (semid_ sem) [(1 + n)%Z; 1%Z] k0) (WriteLock_dtor (mkWriteLock sem true))
    (fun _ k => sem_at (semid_ sem) [n; 0%Z] k0 k).
Proof using All.
  intros Hn. unfold WriteLock_dtor. cbn [wl_valid_ wl_sem_ when].
  eapply kt_bind.
  - apply kt_semop. rewrite run_write_end by (unfold SEMVMX in *; lia).
    destruct (Z.ltb_spec 0 (1 + n)); [done|lia].
  - intros r. apply kt_pure. intros ->. apply kt_ret. intros k.
    by replace (1 + n - 1)%Z with n by lia.
Qed.

(** Notification leaves semaphores and segments alone. *)
Lemma kt_notify_views size srv S0 U :
  ktotal (fun k => sem_view k = S0 /\ shm_view k = U) (notify_update size srv)
    (fun _ k => sem_view k = S0 /\ shm_view k = U).
Proof using All.
  unfold notify_update.
  eapply (kt_bind _ _ _ (fun _ k => sem_view k = S0 /\ shm_view k = U)).
  - generalize (@nil Z). generalize (clients_ srv) as clients.
    set (msg := update_bytes _). clearbody msg.
    induction clients as [|it clients IH]; intros notified; [by apply kt_ret|].
    cbn [notify_loop]. eapply (kt_bind _ _ _ (fun _ k => sem_view k = S0 /\ shm_view k = U)).
    + apply kt_sys. intros k r k' [<- <-] E. by destruct (send_frame _ _ _ _ _ E).
    + intros r. destruct (r =? -1)%Z; [apply kt_seq; [apply kt_log_errno|]|]; apply IH.
  - intros n. by apply kt_ret.
Qed.

Lemma store_total p id m bs (w0 : world K) :
  seg_at (kern w0) p = Some id -> seg_bytes (kern w0) id = Some m -> length bs <= length m ->
  exists w', store_at p bs w0 = (Ret tt, w') /\
    seg_bytes (kern w') id = Some (bs ++ drop (length bs) m) /\
    stored_in id (kern w0) (kern w') /\ sem_view (kern w') = sem_view (kern w0) /\
    sock_view (kern w') = sock_view (kern w0).
Proof using All.
  intros Ha Hm Hl. destruct (store_law _ _ _ _ _ Ha Hm Hl) as (k' & E & Hb & Ho & Hk & Ha' & Hn).
  destruct (store_frame _ _ _ _ E) as [E1 E2]. unfold store_at. rewrite E.
  eexists. split; [done|]. simpl. by rewrite E1, E2.
Qed.

(** Notification and commit, the lock held. *)
Lemma notify_commit_spec size sem srv k0 w0 :
  NoDup (clients_ srv) -> (Z.of_nat (length (clients_ srv)) < SHRT_MAX)%Z ->
  sem_at (semid_ sem) [1%Z; 1%Z] k0 (kern w0) ->
  exists srv' w1 w2, let n := Z.of_nat (length (clients_notified_ srv')) in
    notify_update size srv w0 = (Ret (n, srv'), w1) /\
    when (0 <? n)%Z (_ ← commit_readers (mkWriteLock sem true) n; mret tt) w1 = (Ret tt, w2) /\
    (0 <= n < SEMVMX)%Z /\ sem_vals (kern w2) (semid_ sem) = Some [(1 + n)%Z; 1%Z] /\
    shm_view (kern w2) = shm_view k0 /\
    clients_notified_ srv' ⊆ clients_ srv /\ clients_ srv' = clients_ srv /\
    forall d, out (kern w2) d =
      if decide (d ∈ clients_notified_ srv')
      then out k0 d ++ update_bytes (mkUpdateMsg (um_msg_type_ (srv_update_msg_ srv))
                                       (um_pad (srv_update_msg_ srv)) size)
      else out k0 d.
Proof using All.
  intros Hnd Hl (Hv & Hs & Hk). injection Hk as Hk1 Hk2 Hk3 _.
  destruct (ktotal_run _ _ _ w0 (kt_conj _ _ _ _ _
    (notify_update_spec size srv (fds k0) (out k0) Hnd ltac:(lia))
    (kt_notify_views size srv (sem_view (kern w0)) (shm_view (kern w0)))))
    as ([n srv'] & w1 & E1 & (-> & Hsub & Hnd' & Hcl & _ & Hf & Ho) & HS1 & HU1).
  { split; [by rewrite Hk1, Hk2|done]. }
  assert (Hlen : length (clients_notified_ srv') <= length (clients_ srv)).
  { apply submseteq_length, NoDup_submseteq; done. }
  injection HS1 as HS1 _ _.
  assert (Hn : (0 <= Z.of_nat (length (clients_notified_ srv')) < SEMVMX)%Z)
    by (unfold SEMVMX, SHRT_MAX in *; lia).
  destruct (ktotal_run _ _ _ w1 (kt_commit sem _ (kern w1) Hn)) as ([] & w2 & E2 & Hv2 & HU & HK).
  { split; [|done]. by rewrite HS1. }
  injection HK as _ Ho2 _ _. exists srv', w1, w2. repeat split; try done; try lia.
  - by rewrite HU, HU1.
  - intros d. by rewrite Ho2, Ho.
Qed.

Lemma publish_locked_spec data w sem srv shm p m k0 :
  get_mem shm = Some p -> NoDup (clients_ srv) ->
  (Z.of_nat (length (clients_ srv)) < SHRT_MAX)%Z -> length data <= length m ->
  seg_at k0 p = Some (shmid_ shm) -> seg_bytes k0 (shmid_ shm) = Some m ->
  ktotal (sem_at (semid_ sem) [1%Z; 1%Z] k0)
    (publish_locked (mkWriteLock sem true) data srv shm w)
    (fun '(res, w') k => res = true /\ exists srv', w' = with_srv (Some srv') w /\
       published data sem shm p m srv srv' (out k0) k /\ stored_in (shmid_ shm) k0 k).
Proof using All.
  intros Hp Hnd Hl Hdm Ha Hm w0 Hw0. unfold publish_locked.
  destruct (notify_commit_spec (Z.of_nat (length data)) sem srv k0 w0 Hnd Hl Hw0)
    as (srv' & w1 & w2 & E1 & E2 & Hn & Hv2 & HU2 & Hsub & Hcl & Ho).
  rewrite (bind_ret _ _ _ _ _ E1). cbn beta iota. rewrite (bind_ret _ _ _ _ _ E2).
  injection HU2 as Hb2 Hk2 Ha2 Hm2.
  destruct (store_total p (shmid_ shm) m data w2)
    as (w3 & E3 & Hb3 & (Hk3 & Ha3 & Hm3 & Ho3) & HS3' & HK3);
    [by rewrite Ha2|by rewrite Hb2|done|].
  unfold copy_bytes. rewrite Hp, (bind_ret _ _ _ _ _ E3).
  injection HS3' as HS3' _ _. injection HK3 as _ Hout3 _ _.
  destruct (ktotal_run _ _ _ w3 (kt_WriteLock_dtor sem _ (kern w3) Hn))
    as ([] & w4 & E4 & Hv4 & HU4' & HK4); [split; [by rewrite HS3'|done]|].
  rewrite (bind_ret _ _ _ _ _ E4). injection HU4' as Hb4 Hk4 Ha4 Hm4. injection HK4 as _ Ho4 _ _.
  split; [done|]. exists srv'. split; [done|]. split.
  - split; [exact Hv4|]. split; [by rewrite Hb4, Hb3|].
    split; [by rewrite Ha4, Ha3, Ha2|]. split; [done|]. split; [done|].
    intros d. by rewrite Ho4, Hout3, Ho.
  - split; [congruence|]. split; [congruence|]. split; [congruence|].
    intros i Hi. rewrite Hb4, Ho3 by done. by rewrite Hb2.
Qed.

(** Without a mapped segment the copy is undefined. *)
Lemma publish_unmapped data w sem srv shm k0 w0 :
  get_mem shm = None -> NoDup (clients_ srv) ->
  (Z.of_nat (length (clients_ srv)) < SHRT_MAX)%Z ->
  sem_at (semid_ sem) [1%Z; 1%Z] k0 (kern w0) ->
  exists w1, publish_locked (mkWriteLock sem true) data srv shm w w0 = (Undef, w1).
Proof using All.
  intros Hp Hnd Hl Hw0. unfold publish_locked.
  destruct (notify_commit_spec (Z.of_nat (length data)) sem srv k0 w0 Hnd Hl Hw0)
    as (srv' & w1 & w2 & E1 & E2 & _).
  rewrite (bind_ret _ _ _ _ _ E1). cbn beta iota. rewrite (bind_ret _ _ _ _ _ E2).
  unfold copy_bytes. rewrite Hp. by eexists.
Qed.

(** *** Replacement of the segment *)

(** [ftok] of a file that is there is the key of the segment. *)
Lemma new_segment_replace size w old W :
  wr_shm_ w = Some old -> shm_key_ old <> (-1)%Z ->
  file_key (kern W) (c_str (wr_path_ w)) "n"%char = shm_key_ old ->
  new_segment size w W = replace_shm old (shm_key_ old) size W.
Proof using All.
  intros Hs Hne Hk. unfold new_segment, replace_shm. rewrite Hs.
  destruct (sysVShm_dtor old W) as [[[]|e| |] w1] eqn:E;
    try (unfold mbind, M_bind; by rewrite E).
  rewrite !(bind_ret _ _ _ _ _ E).
  destruct (other_views_eq _ _ (keeps_run _ _ _ _ _ (keeps_sysVShm_dtor old) E))
    as [_ [= _ _ _ Hk1]]. rewrite <- Hk1 in Hk.
  rewrite (bind_ret _ _ _ (shm_key_ old) w1); [done|].
  unfold sys. rewrite ftok_law by congruence. rewrite Hk. by destruct w1.
Qed.

(** *** The theorems *)

Lemma copy_to_shm_in_place data w sem srv shm p m a (w0 : world K) :
  wr_sem_ w = Some sem -> sysVSem_is_valid sem = true -> wr_shm_ w = Some shm ->
  get_mem shm = Some p -> srv_ w = Some srv -> NoDup (clients_ srv) ->
  (Z.of_nat (length (clients_ srv)) < SHRT_MAX)%Z -> (0 <= a)%Z ->
  (Z.of_nat (length data) <= shm_size_ (connect_data_ w))%Z -> length data <= length m ->
  sem_vals (kern w0) (semid_ sem) = Some [a; 0%Z] -> seg_at (kern w0) p = Some (shmid_ shm) ->
  seg_bytes (kern w0) (shmid_ shm) = Some m ->
  exists srv' w1, copy_to_shm data w w0 = (Ret (true, with_srv (Some srv') w), w1) /\
    published data sem shm p m srv srv' (out (kern w0)) (kern w1) /\
    stored_in (shmid_ shm) (kern w0) (kern w1).
Proof using All.
  intros Hsem Hval Hshm Hp Hsrv Hnd Hl Ha Hsize Hdm Hv Hat Hm.
  unfold copy_to_shm. rewrite Hsem, Hval. cbn [negb].
  destruct (ktotal_run _ _ _ w0 (kt_WriteLock_ctor sem a (kern w0) Ha)) as (l & w1 & E1 & -> & Hw1).
  { by split. }
  rewrite (bind_ret _ _ _ _ _ E1).
  rewrite (proj2 (Z.ltb_ge _ _) Hsize). rewrite (bind_ret (mret w) _ w1 w w1 eq_refl).
  rewrite Hsrv, Hshm.
  destruct (ktotal_run _ _ _ w1 (publish_locked_spec data w sem srv shm p m (kern w0)
    Hp Hnd Hl Hdm Hat Hm) Hw1) as ([res w'] & w2 & E2 & -> & srv' & -> & Hpub & Hst).
  by exists srv', w2.
Qed.

Lemma copy_to_shm_spec data w sem srv shm p m a F O :
  wr_sem_ w = Some sem -> sysVSem_is_valid sem = true -> wr_shm_ w = Some shm ->
  get_mem shm = Some p -> srv_ w = Some srv -> NoDup (clients_ srv) ->
  (Z.of_nat (length (clients_ srv)) < SHRT_MAX)%Z -> (0 <= a)%Z ->
  (Z.of_nat (length data) <= shm_size_ (connect_data_ w))%Z -> length data <= length m ->
  ktotal (fun k => sem_vals k (semid_ sem) = Some [a; 0%Z] /\ seg_at k p = Some (shmid_ shm) /\
            seg_bytes k (shmid_ shm) = Some m /\ fds k = F /\ out k = O)
    (copy_to_shm data w)
    (fun '(res, w') k => res = true /\ exists srv', w' = with_srv (Some srv') w /\
       published data sem shm p m srv srv' O k).
Proof using All.
  intros Hsem Hval Hshm Hp Hsrv Hnd Hl Ha Hsize Hdm w0 (Hv & Hat & Hm & Hf & <-).
  destruct (copy_to_shm_in_place data w sem srv shm p m a w0) as (srv' & w1 & E & Hpub & _);
    try done. rewrite E. split; [done|]. by exists srv'.
Qed.

(** C5: [copy_to_shm] of data that fits, whatever number of reads is still
    owed for the previous frame: it returns true; the segment starts with the
    data, its other bytes unchanged; the first semaphore is the number of
    clients notified, the second is 0; each notified client was sent exactly
    one update with the size of the data, the others nothing. *)
Theorem copy_to_shm_publishes data w sem srv shm p m a F O :
  wr_sem_ w = Some sem -> sysVSem_is_valid sem = true -> wr_shm_ w = Some shm ->
  get_mem shm = Some p -> srv_ w = Some srv -> NoDup (clients_ srv) ->
  (Z.of_nat (length (clients_ srv)) < SHRT_MAX)%Z -> (0 <= a)%Z ->
  (Z.of_nat (length data) <= shm_size_ (connect_data_ w))%Z -> length data <= length m ->
  ktotal (fun k => sem_vals k (semid_ sem) = Some [a; 0%Z] /\ seg_at k p = Some (shmid_ shm) /\
            seg_bytes k (shmid_ shm) = Some m /\ fds k = F /\ out k = O)
    (copy_to_shm data w)
    (fun '(res, w') k => res = true /\ exists srv', w' = with_srv (Some srv') w /\
       published data sem shm p m srv srv' O k).
Proof using All. apply copy_to_shm_spec. Qed.

(** The resize inside [copy_to_shm]: the lock is taken, then the segment is
    replaced, or the replacement fails. *)
Lemma grow_segment size w sem shm p m a W :
  wr_shm_ w = Some shm -> (0 <= a)%Z -> sem_vals (kern W) (semid_ sem) = Some [a; 0%Z] ->
  file_key (kern W) (c_str (wr_path_ w)) "n"%char = shm_key_ shm ->
  shm_holds shm p m W -> shm_owner_ shm = true -> seg_mine (kern W) (shmid_ shm) = true ->
  (0 <= size)%Z ->
  exists w1 shm' w3, WriteLock_ctor sem W = (Ret (mkWriteLock sem true), w1) /\
    (log LDebug $"resizing shmdata (%) from % bytes to % bytes"
       [wr_path_ w; to_string (shm_size_ (connect_data_ w)); to_string size];;
     shm ← new_segment size w; mret (with_segment (Some shm) size w)) w1 =
      (Ret (with_segment (Some shm') size w), w3) /\
    sem_at (semid_ sem) [1%Z; 1%Z] (kern w3) (kern w3) /\ out (kern w3) = out (kern W) /\
    (shm_ shm' = None \/ (0 < shmid_ shm)%Z /\ stays (Some p) (kern W) (kern w3) /\
       shm_key_ shm' = shm_key_ shm /\ shm_owner_ shm' = true /\
       seg_mine (kern w3) (shmid_ shm') = true /\ exists p',
       (forall q i m', q <> p -> seg_at (kern W) q = Some i -> seg_bytes (kern W) i = Some m' ->
          q <> p' /\ i <> shmid_ shm') /\
       shm_holds shm' p' (replicate (Z.to_nat size) Ascii.zero) w3).
Proof using All.
  intros Hshm Ha Hv Hftok Hh Ho Hn Hsize.
  destruct (ktotal_run _ _ _ W (kt_WriteLock_ctor sem a (kern W) Ha))
    as (l & w1 & E1 & -> & Hv1 & HU1 & HK1); [by split|].
  set (w2 := World (kern w1) (logs w1 ++ [(LDebug, make_string
    $"resizing shmdata (%) from % bytes to % bytes" [wr_path_ w;
     to_string (shm_size_ (connect_data_ w)); to_string size])])).
  injection HU1 as Eb Ek Ea Em. injection HK1 as _ Hout1 _ Hfk1.
  assert (Hh2 : shm_holds shm p m w2).
  { unfold shm_holds, w2 in *. simpl. by rewrite Eb, Ek, Ea. }
  destruct (replace_shm_spec shm p m size w2 Hh2 Ho) as (shm' & w3 & E3 & Hc);
    [unfold w2; simpl; by rewrite Em|done|].
  destruct (other_views_eq _ _ (keeps_run _ _ _ _ _ (keeps_replace _ _ _) E3)) as [HS3 HK3].
  rewrite <- (new_segment_replace _ w shm) in E3; [|done|apply Hh|].
  2: { unfold w2. simpl. by rewrite Hfk1. }
  exists w1, shm', w3. split; [exact E1|]. split.
  { refine (eq_trans (bind_ret _ _ _ tt w2 eq_refl) _). by rewrite (bind_ret _ _ _ _ _ E3). }
  injection HS3 as HS3 _ _. injection HK3 as _ Hout _ _.
  split; [split; [rewrite HS3; exact Hv1|done]|]. split; [by rewrite Hout|].
  destruct Hc as [Hc|(Hid & Hst & Hk & Hown & Hmine & p' & Hfr & Hh3)]; [by left|].
  assert (Hst2 : stays None (kern W) (kern w2)).
  { intros q i m' _. unfold w2. simpl. by rewrite Eb, Ea. }
  right. split; [done|]. split; [by eapply stays_trans, Hst; apply stays_none|].
  do 3 (split; [done|]). exists p'. split; [|done]. intros q i m' Hq Hqa Hqb.
  destruct (Hst2 q i m') as [Hqa2 Hqb2]; try done. by apply (Hfr q i m').
Qed.

(** Growth, with what it does to the other mappings. *)
Lemma copy_to_shm_grown data w sem srv shm p m a W :
  wr_sem_ w = Some sem -> sysVSem_is_valid sem = true -> wr_shm_ w = Some shm ->
  srv_ w = Some srv -> NoDup (clients_ srv) ->
  (Z.of_nat (length (clients_ srv)) < SHRT_MAX)%Z -> (0 <= a)%Z ->
  sem_vals (kern W) (semid_ sem) = Some [a; 0%Z] ->
  file_key (kern W) (c_str (wr_path_ w)) "n"%char = shm_key_ shm ->
  shm_holds shm p m W -> shm_owner_ shm = true -> seg_mine (kern W) (shmid_ shm) = true ->
  (shm_size_ (connect_data_ w) < Z.of_nat (length data))%Z ->
  match copy_to_shm data w W with
  | (Ret (res, w'), W') => res = true /\ (0 < shmid_ shm)%Z /\ exists shm' p' srv',
      w' = with_srv (Some srv') (with_segment (Some shm') (Z.of_nat (length data)) w) /\
      get_mem shm' = Some p' /\
      published data sem shm' p' (replicate (length data) Ascii.zero) srv srv'
        (out (kern W)) (kern W') /\
      shm_holds shm' p' data W' /\ shm_key_ shm' = shm_key_ shm /\ shm_owner_ shm' = true /\
      seg_mine (kern W') (shmid_ shm') = true /\ stays (Some p) (kern W) (kern W') /\
      forall q i m', q <> p -> seg_at (kern W) q = Some i -> seg_bytes (kern W) i = Some m' ->
        q <> p' /\ i <> shmid_ shm'
  | (Undef, _) => True
  | _ => False
  end.
Proof using All.
  intros Hsem Hval Hshm Hsrv Hnd Hl Ha Hv Hftok Hh Ho Hn Hsize.
  destruct (grow_segment (Z.of_nat (length data)) w sem shm p m a W Hshm Ha Hv Hftok Hh Ho Hn
    ltac:(lia)) as (w1 & shm' & w3 & E1 & E3 & Hw3 & Hout & Hc).
  unfold copy_to_shm. rewrite Hsem, Hval. cbn [negb].
  rewrite (bind_ret _ _ _ _ _ E1). rewrite (proj2 (Z.ltb_lt _ _) Hsize).
  rewrite (bind_ret _ _ _ _ _ E3). cbn [srv_ wr_shm_ with_segment]. rewrite Hsrv.
  fold (publish_locked (mkWriteLock sem true) data srv shm'
    (with_segment (Some shm') (Z.of_nat (length data)) w)).
  destruct Hc as [Hc|(Hid & Hst & Hk & Hown & Hmine & p' & Hfr & Hh3)].
  { destruct (publish_unmapped data (with_segment (Some shm') (Z.of_nat (length data)) w)
      sem srv shm' (kern w3) w3 Hc Hnd Hl Hw3) as (w4 & E4). by rewrite E4. }
  destruct Hh3 as (Hp' & Hb & Hkey3 & Ha' & Hid3 & Hne3). rewrite Nat2Z.id in Hb.
  destruct (ktotal_run _ _ _ w3 (publish_locked_spec data
    (with_segment (Some shm') (Z.of_nat (length data)) w) sem srv shm' p' _ (kern w3)
    Hp' Hnd Hl ltac:(by rewrite length_replicate) Ha' Hb) Hw3)
    as ([res w'] & w4 & E4 & -> & srv' & -> & Hpub & Hk4 & Ha4 & Hm4 & Ho4).
  rewrite E4. do 2 (split; [done|]). exists shm', p', srv'.
  do 2 (split; [done|]). rewrite Hout in Hpub. split; [exact Hpub|].
  destruct Hpub as (_ & Hb4 & _). rewrite drop_ge, app_nil_r in Hb4 by (by rewrite length_replicate).
  split; [unfold shm_holds; rewrite Hk4, Ha4; done|]. do 2 (split; [done|]).
  split; [by rewrite Hm4|]. split; [|done]. intros q i m' Hq Hqa Hqb.
  destruct (Hst q i m' Hq Hqa Hqb) as [Hqa3 Hqb3]. rewrite Ha4. split; [done|].
  rewrite Ho4; [done|]. apply (Hfr q i m'); [congruence|done|done].
Qed.

(** C25: [copy_to_shm] of data larger than the segment.  When the
    new segment can be made and mapped, the old one is replaced by one of
    exactly the size of the data, which is published in it, and the size told
    to the next clients is updated; otherwise the copy goes through the
    pointer -1 and is undefined.  It is always so when the identifier of the
    old segment is 0. *)
Theorem copy_to_shm_grows data w sem srv shm p m a W :
  wr_sem_ w = Some sem -> sysVSem_is_valid sem = true -> wr_shm_ w = Some shm ->
  srv_ w = Some srv -> NoDup (clients_ srv) ->
  (Z.of_nat (length (clients_ srv)) < SHRT_MAX)%Z -> (0 <= a)%Z ->
  sem_vals (kern W) (semid_ sem) = Some [a; 0%Z] ->
  file_key (kern W) (c_str (wr_path_ w)) "n"%char = shm_key_ shm ->
  shm_holds shm p m W -> shm_owner_ shm = true -> seg_mine (kern W) (shmid_ shm) = true ->
  (shm_size_ (connect_data_ w) < Z.of_nat (length data))%Z ->
  match copy_to_shm data w W with
  | (Ret (res, w'), W') => res = true /\ (0 < shmid_ shm)%Z /\ exists shm' p' srv',
      w' = with_srv (Some srv') (with_segment (Some shm') (Z.of_nat (length data)) w) /\
      shm_size_ (connect_data_ w') = Z.of_nat (length data) /\
      alloc_size_ w' = Z.of_nat (length data) /\ get_mem shm' = Some p' /\
      published data sem shm' p' (replicate (length data) Ascii.zero) srv srv'
        (out (kern W)) (kern W')
  | (Undef, _) => True
  | _ => False
  end.
Proof using All.
  intros Hsem Hval Hshm Hsrv Hnd Hl Ha Hv Hftok Hh Ho Hn Hsize.
  pose proof (copy_to_shm_grown data w sem srv shm p m a W Hsem Hval Hshm Hsrv Hnd Hl Ha Hv
    Hftok Hh Ho Hn Hsize) as Hc.
  destruct (copy_to_shm data w W) as [[[res w']|e| |] W']; try done.
  destruct Hc as (-> & Hid & shm' & p' & srv' & -> & Hp' & Hpub & _).
  split; [done|]. split; [done|]. by exists shm', p', srv'.
Qed.

(** A write access with two notifications. *)
Definition write_access (size size2 : Z) (w : Writer)
  : M (world K) (option Z * Z * Z * Writer) :=
  a ← get_one_write_access w;
  '(n, a1, w1) ← notify_clients size a w;
  '(n2, a2, w2) ← notify_clients size2 a1 w1;
  OneWriteAccess_dtor a2;;
  mret (mem_ a, n, n2, w2).

(** C27: one write access.  It gives the address of the segment and holds the
    lock; the first notification sends one update with its size to the clients
    and commits as many reads; a second one is ignored and returns 0; the end
    of the access releases the lock and leaves exactly the committed reads. *)
Theorem write_access_notifies_once size size2 w sem srv shm a W :
  wr_sem_ w = Some sem -> wr_shm_ w = Some shm -> srv_ w = Some srv -> NoDup (clients_ srv) ->
  (Z.of_nat (length (clients_ srv)) < SHRT_MAX)%Z -> (0 <= a)%Z ->
  sem_vals (kern W) (semid_ sem) = Some [a; 0%Z] ->
  exists srv' W', let n := Z.of_nat (length (clients_notified_ srv')) in
    write_access size size2 w W = (Ret (get_mem shm, n, 0%Z, with_srv (Some srv') w), W') /\
    sem_vals (kern W') (semid_ sem) = Some [n; 0%Z] /\
    shm_view (kern W') = shm_view (kern W) /\
    clients_notified_ srv' ⊆ clients_ srv /\ clients_ srv' = clients_ srv /\
    forall d, out (kern W') d =
      if decide (d ∈ clients_notified_ srv')
      then out (kern W) d ++ update_bytes (mkUpdateMsg (um_msg_type_ (srv_update_msg_ srv))
                                             (um_pad (srv_update_msg_ srv)) size)
      else out (kern W) d.
Proof using All.
  intros Hsem Hshm Hsrv Hnd Hl Ha Hv. unfold write_access, get_one_write_access.
  rewrite Hsem, Hshm.
  destruct (ktotal_run _ _ _ W (kt_WriteLock_ctor sem a (kern W) Ha))
    as (l & w1 & E1 & -> & Hw1); [by split|].
  destruct (notify_commit_spec size sem srv (kern W) w1 Hnd Hl Hw1)
    as (srv' & w2 & w3 & E2 & E3 & Hn & Hv3 & HU3 & Hsub & Hcl & Ho).
  set (lg := (LWarning, make_string ($"one notification only is expected per OneWriteAccess instance, " ++
                  $"ignoring current invocation") [])).
  destruct (ktotal_run _ _ _ (World (kern w3) (logs w3 ++ [lg]))
    (kt_WriteLock_dtor sem _ (kern w3) Hn)) as ([] & w4 & E4 & Hv4 & HU4 & HK4); [by split|].
  exists srv', w4. split; [|split; [exact Hv4|]].
  - rewrite (bind_ret _ _ _ (mkAccess (mkWriteLock sem true) (get_mem shm) false) w1);
      [|by rewrite (bind_ret _ _ _ _ _ E1)].
    cbn beta.
    rewrite (bind_ret _ _ _ (Z.of_nat (length (clients_notified_ srv')),
      mkAccess (mkWriteLock sem true) (get_mem shm) true, with_srv (Some srv') w) w3);
      [|unfold notify_clients; cbn [has_notified_]; rewrite Hsrv;
        by rewrite (bind_ret _ _ _ _ _ E2), (bind_ret _ _ _ _ _ E3)].
    cbn beta iota. unfold notify_clients. cbn [has_notified_].
    rewrite (bind_ret _ _ _ (0%Z, mkAccess (mkWriteLock sem true) (get_mem shm) true,
      with_srv (Some srv') w) (World (kern w3) (logs w3 ++ [lg]))) by done.
    cbn beta iota. unfold OneWriteAccess_dtor. cbn [wlock_].
    by rewrite (bind_ret _ _ _ _ _ E4).
  - injection HK4 as _ Ho4 _ _. rewrite HU4, HU3. do 3 (split; [done|]). intros d.
    by rewrite Ho4, Ho.
Qed.

(** A new segment, the writer owning the old one under the key of its path. *)
Lemma new_segment_spec size w shm p m W :
  wr_shm_ w = Some shm -> file_key (kern W) (c_str (wr_path_ w)) "n"%char = shm_key_ shm ->
  shm_holds shm p m W -> shm_owner_ shm = true -> seg_mine (kern W) (shmid_ shm) = true ->
  (0 <= size)%Z ->
  exists shm' W', new_segment size w W = (Ret shm', W') /\
    sem_view (kern W') = sem_view (kern W) /\ sock_view (kern W') = sock_view (kern W) /\
    renewed shm shm' size (kern W').
Proof using All.
  intros Hshm Hkey Hh Ho Hn Hs.
  destruct (replace_shm_spec shm p m size W Hh Ho Hn Hs) as (shm' & W' & E & Hc).
  destruct (other_views_eq _ _ (keeps_run _ _ _ _ _ (keeps_replace _ _ _) E)) as [HS HK].
  rewrite <- (new_segment_replace _ w shm) in E; [|done|apply Hh|done].
  exists shm', W'. split; [done|]. split; [done|]. split; [done|].
  destruct Hc as [Hc|(Hid & _ & _ & _ & _ & p' & _ & Hp & Hb & _ & Ha & _)]; [by left|].
  right. split; [done|]. by exists p'.
Qed.

(** [get_one_write_access_resize] and its pointer variant.  The access
    holds the lock; the sizes of the writer become the new size; a segment of
    the same size is kept by the first variant, any other is replaced by a
    zeroed one of the new size; a replacement that fails gives an access to
    the pointer -1, and it always fails when the old identifier is 0. *)
Theorem resize_access_replaces keep size w sem shm p m a W :
  wr_sem_ w = Some sem -> wr_shm_ w = Some shm -> (0 <= a)%Z ->
  sem_vals (kern W) (semid_ sem) = Some [a; 0%Z] ->
  file_key (kern W) (c_str (wr_path_ w)) "n"%char = shm_key_ shm ->
  shm_holds shm p m W -> shm_owner_ shm = true -> seg_mine (kern W) (shmid_ shm) = true ->
  (0 <= size)%Z ->
  exists acc w' shm' W', get_one_write_access_resize keep size w W = (Ret (acc, w'), W') /\
    acc = mkAccess (mkWriteLock sem true) (get_mem shm') false /\
    sem_vals (kern W') (semid_ sem) = Some [1%Z; 1%Z] /\
    shm_size_ (connect_data_ w') = size /\ alloc_size_ w' = size /\ wr_shm_ w' = Some shm' /\
    if keep && (get_size shm =? size)%Z
    then shm' = shm /\ shm_view (kern W') = shm_view (kern W)
    else renewed shm shm' size (kern W').
Proof using All.
  intros Hsem Hshm Ha Hv Hkey Hh Ho Hn Hs. unfold get_one_write_access_resize. rewrite Hsem, Hshm.
  destruct (ktotal_run _ _ _ W (kt_WriteLock_ctor sem a (kern W) Ha))
    as (l & w1 & E1 & -> & Hv1 & HU1 & HK1); [by split|].
  rewrite (bind_ret _ _ _ _ _ E1). cbn beta. destruct (keep && (get_size shm =? size)%Z).
  - eexists _, _, shm, w1. split; [reflexivity|]. by repeat split.
  - match goal with |- context [log LDebug ?f ?v] =>
      set (w2 := World (kern w1) (logs w1 ++ [(LDebug, make_string f v)])) end.
    injection HU1 as Eb Ek Ea Em. injection HK1 as _ _ _ Ef.
    destruct (new_segment_spec size w shm p m w2) as (shm' & w3 & E3 & HS3 & _ & Hr);
      try done; unfold shm_holds, w2 in *; simpl; rewrite ?Eb, ?Ek, ?Ea, ?Em, ?Ef; try done.
    rewrite (bind_ret _ _ _ shm' w3); [|by refine (eq_trans (bind_ret _ _ _ tt w2 eq_refl) _)].
    eexists _, _, shm', w3. split; [reflexivity|]. split; [reflexivity|]. split; [|by repeat split].
    injection HS3 as -> _ _. exact Hv1.
Qed.

(** [OneWriteAccess::shm_resize] replaces the segment under the lock of
    the access, gives the access the new address and reports the new size,
    even when the replacement failed. *)
Theorem shm_resize_replaces size acc w shm p m W :
  wr_shm_ w = Some shm -> file_key (kern W) (c_str (wr_path_ w)) "n"%char = shm_key_ shm ->
  shm_holds shm p m W -> shm_owner_ shm = true -> seg_mine (kern W) (shmid_ shm) = true ->
  (0 <= size)%Z ->
  exists acc' w' shm' W', shm_resize size acc w W = (Ret (size, acc', w'), W') /\
    wlock_ acc' = wlock_ acc /\ has_notified_ acc' = has_notified_ acc /\
    mem_ acc' = get_mem shm' /\ wr_shm_ w' = Some shm' /\
    shm_size_ (connect_data_ w') = size /\ alloc_size_ w' = size /\
    sem_view (kern W') = sem_view (kern W) /\ renewed shm shm' size (kern W').
Proof using All.
  intros Hshm Hkey Hh Ho Hn Hs. unfold shm_resize.
  destruct (new_segment_spec size w shm p m W) as (shm' & W' & E & HS & _ & Hr); try done.
  rewrite (bind_ret _ _ _ _ _ E). eexists _, _, shm', W'. split; [reflexivity|].
  do 7 (split; [done|]). exact Hr.
Qed.
End writer.

(** ** Construction *)

Section ctor.
Context {K : Type} `{ErrnoOS K, SemOS K, ShmOS K, FileOS K, SockOS K}.

(** What a writer that can be used has. *)
Definition writer_members (path : cstr) (memsize : Z) (w : Writer) : Prop :=
  wr_path_ w = path /\ alloc_size_ w = memsize /\ shm_size_ (connect_data_ w) = memsize /\
  exists srv shm sem, srv_ w = Some srv /\ wr_shm_ w = Some shm /\ wr_sem_ w = Some sem /\
    valid_members srv shm sem = true /\ shm_owner_ shm = true /\ sem_owner_ sem = true.

(** What a writer that failed has: nothing, or members of which one failed. *)
Definition writer_failed (w : Writer) : Prop :=
  (srv_ w = None /\ wr_shm_ w = None /\ wr_sem_ w = None) \/
  exists srv shm sem, srv_ w = Some srv /\ wr_shm_ w = Some shm /\ wr_sem_ w = Some sem /\
    valid_members srv shm sem = false.

Lemma make_segment_owner path memsize perm :
  returns (K := K) (make_segment path memsize perm) (fun s => shm_owner_ s = true).
Proof. unfold make_segment. apply returns_skip. intros key. apply ctor_owner. Qed.

Lemma make_semaphore_owner path perm :
  returns (K := K) (make_semaphore path perm) (fun s => sem_owner_ s = true).
Proof.
  unfold make_semaphore, sysVSem_ctor. do 3 (apply returns_skip; intros ?). by apply returns_ret.
Qed.

Lemma retry_owner path pad memsize perm :
  returns (K := K) (clean_and_retry path pad memsize perm)
    (fun '(_, shm, sem) => shm_owner_ shm = true /\ sem_owner_ sem = true).
Proof.
  unfold clean_and_retry. do 3 (apply returns_skip; intros ?).
  eapply returns_bind; [apply make_semaphore_owner|]. intros sem Hsem.
  do 2 (apply returns_skip; intros ?).
  eapply returns_bind; [apply make_segment_owner|]. intros shm Hshm.
  do 2 (apply returns_skip; intros ?). by apply returns_ret.
Qed.

(** The members after construction, the recovery of a dead shmdata included. *)
Lemma writer_ctor_members pad path memsize data_descr perm turns W w W' :
  Writer_ctor pad path memsize data_descr perm turns W = (Ret w, W') ->
  if wr_is_valid_ w
  then writer_members path memsize w /\ option_map serving (srv_ w) = Some true
  else writer_failed w.
Proof.
  intros E. enough (Hr : returns (Writer_ctor pad path memsize data_descr perm turns)
    (fun w => if wr_is_valid_ w
              then writer_members path memsize w /\ option_map serving (srv_ w) = Some true
              else writer_failed w)) by (by apply (Hr W w W')).
  unfold Writer_ctor.
  eapply (returns_bind _ _ (fun d => shm_size_ d = memsize)).
  { intros W0 d W1 _. unfold lift, onConnectData_ctor. destruct (_ <? _); [|done]. by intros [= <- <-]. }
  intros d Hd. apply returns_skip. intros srv.
  eapply returns_bind; [apply make_segment_owner|]. intros shm Hshm.
  eapply returns_bind; [apply make_semaphore_owner|]. intros sem Hsem.
  eapply (returns_bind _ _ (fun w => if wr_is_valid_ w then writer_members path memsize w
                                     else writer_failed w)).
  - destruct (valid_members srv shm sem) eqn:Hv.
    { apply returns_ret. do 3 (split; [done|]). by exists srv, shm, sem. }
    do 4 (apply returns_skip; intros _). apply returns_skip. intros [inspector cli].
    apply returns_skip. intros _. destruct (negb _).
    + eapply returns_bind; [apply retry_owner|]. intros [[srv' shm'] sem'] [Ho1 Ho2].
      apply returns_ret. cbn [wr_is_valid_]. destruct (valid_members srv' shm' sem') eqn:Hv'.
      * do 3 (split; [done|]). by exists srv', shm', sem'.
      * right. by exists srv', shm', sem'.
    + apply returns_skip. intros _. apply returns_ret. by left.
  - intros w0 Hw0. destruct (wr_is_valid_ w0) eqn:Hval; cbn [negb].
    + destruct (srv_ w0) as [srv'|] eqn:Hsrv; [|apply returns_undef].
      eapply (returns_bind _ _ (fun s => serving s = true /\
        server_is_valid s = server_is_valid srv')).
      { unfold start_serving. destruct (serving srv') eqn:Hs.
        - apply returns_skip. intros _. by apply returns_ret.
        - by apply returns_ret. }
      intros s [Hs Hsv]. apply returns_skip. intros _. apply returns_ret.
      cbn [with_srv wr_is_valid_ srv_]. rewrite Hval. split; [|simpl; by rewrite Hs].
      destruct Hw0 as (Hp & Ha & Hz & srv0 & shm0 & sem0 & E0 & E1 & E2 & Hv & Ho).
      do 3 (split; [done|]). exists s, shm0, sem0. do 3 (split; [done|]).
      split; [|done]. rewrite Hsrv in E0. injection E0 as <-. unfold valid_members in *.
      by rewrite Hsv.
    + apply returns_skip. intros _. apply returns_ret. by rewrite Hval.
Qed.

(** C28: what the constructor of a writer leaves behind, the recovery of a
    dead shmdata included.  A valid writer serves and owns a valid server, a
    valid segment and a valid semaphore set, and announces [memsize]; an
    invalid one holds nothing, or members of which at least one failed. *)
Theorem writer_ctor_result pad path memsize data_descr perm turns W w W' :
  Writer_ctor pad path memsize data_descr perm turns W = (Ret w, W') ->
  if wr_is_valid_ w
  then writer_members path memsize w /\ option_map serving (srv_ w) = Some true
  else writer_failed w.
Proof. apply writer_ctor_members. Qed.
End ctor.

(** ** Concrete instances

    The writer of /s, with a client that reads (4) and one that is gone (5). *)

Definition shared_server : UnixSocketServer :=
  Server $"/s" 3 10 true true true [4%Z; 5%Z] [] [] (default_update (zeros 6)).
Definition shared_shm : sysVShm := SysVShm 622 6 1 true (Some 2%Z).
Definition writer_sem : sysVSem := SysVSem 621 true 1.
Definition shared_writer : Writer :=
  mkWriter $"/s" (OnConnectData 0 (zeros 6) 6 (zeros user_data_size)) (Some shared_server)
    (Some shared_shm) (Some writer_sem) 6 true.

Lemma shared_clients : NoDup (clients_ shared_server) /\
  (Z.of_nat (length (clients_ shared_server)) < SHRT_MAX)%Z.
Proof. split; [apply (bool_decide_unpack _); by vm_compute|unfold SHRT_MAX; simpl; lia]. Qed.

(** Two reads of the previous frame are still owed. *)
Lemma copy_to_shm_publishes_witness : exists w' W',
  copy_to_shm $"xyz" shared_writer (shared_world 1 [2; 0]%Z) = (Ret (true, w'), W') /\
  sem_vals (kern W') 1 = Some [1; 0]%Z /\ seg_bytes (kern W') 1 = Some $"xyzdef" /\
  out (kern W') 4 = update_bytes (mkUpdateMsg 1 (zeros 6) 3) /\ out (kern W') 5 = [].
Proof.
  destruct shared_clients as [Hnd Hl].
  pose proof (copy_to_shm_publishes $"xyz" shared_writer writer_sem shared_server shared_shm 2
    $"abcdef" 2 (fds (kern (shared_world 1 [2; 0]%Z))) (out (kern (shared_world 1 [2; 0]%Z)))
    eq_refl eq_refl eq_refl eq_refl eq_refl Hnd Hl ltac:(lia) ltac:(simpl; lia)
    ltac:(simpl; lia) (shared_world 1 [2; 0]%Z)
    (conj eq_refl (conj eq_refl (conj eq_refl (conj eq_refl eq_refl))))) as H.
  destruct (copy_to_shm $"xyz" shared_writer (shared_world 1 [2; 0]%Z))
    as [[[res w']|e| |] W'] eqn:E; [|contradiction ..].
  destruct H as (-> & srv' & Hw & Hs & Hb & _ & _ & _ & Ho).
  assert (Hn : clients_notified_ srv' = [4%Z]).
  { vm_compute in E. injection E as <- _.
    apply (f_equal (fun w => clients_notified_ <$> srv_ w)) in Hw. by injection Hw. }
  rewrite Hn in Hs, Ho. exists w', W'. split; [reflexivity|]. split; [exact Hs|].
  split; [exact Hb|]. split; rewrite Ho; by vm_compute.
Defined.

Lemma copy_to_shm_grows_witness : exists w' W',
  copy_to_shm $"abcdefgh" shared_writer (shared_world 1 [2; 0]%Z) = (Ret (true, w'), W') /\
  shm_size_ (connect_data_ w') = 8%Z /\ alloc_size_ w' = 8%Z /\
  option_map shmid_ (wr_shm_ w') = Some 3%Z /\ seg_bytes (kern W') 3 = Some $"abcdefgh".
Proof.
  destruct shared_clients as [Hnd Hl].
  pose proof (copy_to_shm_grows $"abcdefgh" shared_writer writer_sem shared_server shared_shm 2
    $"abcdef" 2 (shared_world 1 [2; 0]%Z) eq_refl eq_refl eq_refl eq_refl Hnd Hl ltac:(lia)
    eq_refl eq_refl ltac:(repeat split; done) eq_refl eq_refl ltac:(simpl; lia)) as H.
  destruct (copy_to_shm $"abcdefgh" shared_writer (shared_world 1 [2; 0]%Z))
    as [[[res w']|e| |] W'] eqn:E; [|contradiction|vm_compute in E; discriminate|contradiction].
  destruct H as (-> & _ & shm' & p' & srv' & Hw & Hz & Hz' & _ & _ & Hb & _).
  assert (Hid : shmid_ shm' = 3%Z).
  { vm_compute in E. injection E as <- _.
    apply (f_equal (fun w => option_map shmid_ (wr_shm_ w))) in Hw. by injection Hw. }
  exists w', W'. split; [reflexivity|]. split; [exact Hz|]. split; [exact Hz'|].
  rewrite Hw, <- Hid. split; [reflexivity|]. exact Hb.
Defined.

Lemma write_access_notifies_once_witness : exists w' W',
  write_access 3 4 shared_writer (shared_world 1 [0; 0]%Z) = (Ret (Some 2, 1, 0, w'), W')%Z /\
  sem_vals (kern W') 1 = Some [1; 0]%Z /\
  out (kern W') 4 = update_bytes (mkUpdateMsg 1 (zeros 6) 3).
Proof.
  destruct shared_clients as [Hnd Hl].
  destruct (write_access_notifies_once 3 4 shared_writer writer_sem shared_server shared_shm 0
    (shared_world 1 [0; 0]%Z) eq_refl eq_refl eq_refl Hnd Hl ltac:(lia)
    ltac:(by vm_compute))
    as (srv' & W' & E & Hs & _ & _ & _ & Ho).
  assert (Hn : clients_notified_ srv' = [4%Z]).
  { pose proof E as E'. vm_compute in E'. injection E' as _ <- _. reflexivity. }
  rewrite Hn in E, Hs, Ho. exists (with_srv (Some srv') shared_writer), W'.
  split; [exact E|]. split; [exact Hs|]. rewrite Ho. by vm_compute.
Defined.

Lemma resize_access_replaces_witness : exists acc w' shm' W',
  get_one_write_access_resize true 9 shared_writer (shared_world 1 [0; 0]%Z) =
    (Ret (acc, w'), W') /\
  mem_ acc = get_mem shm' /\ renewed shared_shm shm' 9 (kern W') /\ alloc_size_ w' = 9%Z.
Proof.
  destruct (resize_access_replaces true 9 shared_writer writer_sem shared_shm 2 $"abcdef" 0
    (shared_world 1 [0; 0]%Z) eq_refl eq_refl ltac:(lia) ltac:(by vm_compute) eq_refl
    ltac:(repeat split; done) eq_refl eq_refl ltac:(lia))
    as (acc & w' & shm' & W' & E & -> & _ & _ & Hz & _ & Hr).
  eexists _, w', shm', W'. split; [exact E|]. split; [reflexivity|]. split; [exact Hr|exact Hz].
Defined.

Lemma shm_resize_replaces_witness : exists acc' w' shm' W',
  shm_resize 9 (mkAccess (mkWriteLock writer_sem true) (Some 2%Z) false) shared_writer
    (shared_world 1 [1; 1]%Z) = (Ret (9%Z, acc', w'), W') /\
  mem_ acc' = get_mem shm' /\ renewed shared_shm shm' 9 (kern W').
Proof.
  destruct (shm_resize_replaces 9 (mkAccess (mkWriteLock writer_sem true) (Some 2%Z) false)
    shared_writer shared_shm 2 $"abcdef" (shared_world 1 [1; 1]%Z) eq_refl ltac:(by vm_compute)
    ltac:(repeat split; done) eq_refl eq_refl ltac:(lia))
    as (acc' & w' & shm' & W' & E & _ & _ & Hm & _ & _ & _ & _ & Hr).
  exists acc', w', shm', W'. split; [exact E|]. split; [exact Hm|exact Hr].
Defined.

(** A first writer on a kernel with no shmdata. *)
Lemma writer_ctor_result_witness : exists w W',
  Writer_ctor (zeros 6) $"/t" 16 $"video/x-raw" 432 1 (boot 1) = (Ret w, W') /\
  writer_members $"/t" 16 w /\ option_map serving (srv_ w) = Some true.
Proof.
  destruct (Writer_ctor (zeros 6) $"/t" 16 $"video/x-raw" 432 1 (boot 1))
    as [[w|e| |] W'] eqn:E; [|vm_compute in E; discriminate ..].
  pose proof (writer_ctor_result (zeros 6) $"/t" 16 $"video/x-raw" 432 1 (boot 1) w W' E) as H.
  assert (Hv : wr_is_valid_ w = true) by (vm_compute in E; injection E as <- _; reflexivity).
  rewrite Hv in H. exists w, W'. split; [reflexivity|]. exact H.
Defined.
