(* ===== verification/SystemCalls.v ===== *)
(** * What the calls of a system leave alone

    The sockets, the peers and the keys, through [copy_to_shm] and through the
    calls of readers; the part of the simulation of [ShmSimulation.v] that
    only speaks of the code. *)

From S2P Require Import Prelude Logger StdLib Posix PosixModel SysVSem SysVShm SocketProtocol.
From S2P Require Import UnixSocketServer UnixSocketClient ServerTheorems Reader ReaderTheorems.
From S2P Require Import Writer WriterTheorems.

(** ** Who is alive, through the calls

    The descriptors open in the writer's process, the peers that have ended
    and what they wrote stay the same; [notify_update] counts exactly those
    that have not ended. *)

Section peers.
Context {K : Type} `{FileOS K} `{ErrnoOS K} `{SemOS K} `{ShmOS K} `{SockOS K} `{PeerOS K}
  `{!FrameLaws K} `{!PeerLaws K} `{!SockLaws K}.
Implicit Types k : K.

Record same_peers k0 k : Prop := {
  sp_fds : fds k = fds k0;
  sp_file : file_key k = file_key k0;
  sp_sem : sem_names k = sem_names k0;
  sp_peer d : peer_of k d = peer_of k0 d;
  sp_inq d : inq k d = inq k0 d }.
Definition keeps_peers {A} (m : M (world K) A) : Prop :=
  forall k0, kpartial (same_peers k0) m (fun _ => same_peers k0).

Lemma same_peers_refl k : same_peers k k.
Proof. done. Qed.

Lemma same_peers_trans k0 k1 k2 : same_peers k0 k1 -> same_peers k1 k2 -> same_peers k0 k2.
Proof. intros [A1 A2 A3 A4 A5] [B1 B2 B3 B4 B5]. split; intros; congruence. Qed.

Lemma kpe_bind {A B} (m : M (world K) A) (f : A -> M (world K) B) :
  keeps_peers m -> (forall a, keeps_peers (f a)) -> keeps_peers (m ≫= f).
Proof. intros Hm Hf k0. eapply kp_bind; [apply Hm|]. intros a. apply Hf. Qed.

Lemma kpe_ret {A} (a : A) : keeps_peers (mret a).
Proof. intros k0. by apply kp_ret. Qed.

Lemma kpe_undef {A} : keeps_peers (A := A) undef.
Proof. intros k0. apply kp_undef. Qed.

Lemma kpe_log l fmt vs : keeps_peers (log l fmt vs).
Proof. by intros k0 w a w' Hw [= <- <-]. Qed.

Lemma kpe_log_errno l fmt : keeps_peers (log_errno l fmt).
Proof. by intros k0 w a w' Hw [= <- <-]. Qed.

Lemma kpe_when c m : keeps_peers m -> keeps_peers (when c m).
Proof. destruct c; [done|]. intros _. apply kpe_ret. Qed.

(** A call that keeps the sockets, the keys and the peers. *)
Lemma kpe_sys {A} (f : K -> A * K) : (forall k, same_peers k (f k).2) -> keeps_peers (sys f).
Proof.
  intros Hf k0. apply kp_sys. intros k a k' Hw E. specialize (Hf k). rewrite E in Hf.
  by apply (same_peers_trans _ k).
Qed.
#[local] Hint Resolve kpe_bind kpe_ret kpe_undef kpe_log kpe_log_errno kpe_when : shm.

Lemma same_view k k' :
  sem_names k' = sem_names k -> sock_view k' = sock_view k -> peer_of k' = peer_of k -> same_peers k k'.
Proof. intros Es [= E1 _ E2 E3] Ep. split; intros; congruence. Qed.

Lemma semop_same id ops k r k' : semop id ops k = Some (r, k') -> same_peers k k'.
Proof using All.
  intros E. destruct (semop_frame _ _ _ _ _ E) as [_ Hk]. destruct (peer_semop _ _ _ _ _ E) as [E1 E2].
  by apply same_view.
Qed.

Lemma kpe_semop id ops : keeps_peers (sys_wait (semop id ops)).
Proof using All.
  intros k0 w r w' Hw E. unfold sys_wait in E.
  destruct (semop id ops (kern w)) as [[r' k']|] eqn:Es; [|done]. injection E as <- <-.
  apply (same_peers_trans _ (kern w)); [done|]. by eapply semop_same.
Qed.

Lemma kpe_setval id n v : keeps_peers (sys (semctl_setval id n v)).
Proof using All.
  apply kpe_sys. intros k. destruct (peer_setval id n v k) as [E1 E2].
  destruct (semctl_setval id n v k) as [r k'] eqn:E. destruct (setval_frame _ _ _ _ _ _ E) as [_ Hk].
  by apply same_view.
Qed.

Lemma kpe_shm_call {A} (f : K -> A * K) :
  (forall k r k', f k = (r, k') -> sem_view k' = sem_view k /\ sock_view k' = sock_view k) ->
  (forall k, peer_of (f k).2 = peer_of k) -> keeps_peers (sys f).
Proof.
  intros Hf Hp. apply kpe_sys. intros k. pose proof (Hp k) as Hpk. destruct (f k) as [r k'] eqn:E.
  destruct (Hf k r k' E) as [Es%sem_names_view Hk]. by apply same_view.
Qed.

Lemma kpe_shmget key size flg : keeps_peers (sys (shmget key size flg)).
Proof using All. apply kpe_shm_call; [apply shmget_frame|apply peer_shmget]. Qed.
Lemma kpe_shmat id : keeps_peers (sys (shmat id)).
Proof using All. apply kpe_shm_call; [apply shmat_frame|apply peer_shmat]. Qed.
Lemma kpe_shmdt p : keeps_peers (sys (shmdt p)).
Proof using All. apply kpe_shm_call; [apply shmdt_frame|apply peer_shmdt]. Qed.
Lemma kpe_rmid id : keeps_peers (sys (shmctl_rmid id)).
Proof using All. apply kpe_shm_call; [apply shm_rmid_frame|apply peer_shm_rmid]. Qed.
Lemma kpe_ftok path c : keeps_peers (sys (ftok path c)).
Proof using All.
  apply kpe_sys. intros k. destruct (peer_ftok path c k) as (_ & Es%sem_names_view & _ & Hk & Hp).
  by apply same_view.
Qed.
Lemma kpe_store p bs : keeps_peers (store_at p bs).
Proof using All.
  intros k0 w r w' Hw. unfold store_at. destruct (store p bs (kern w)) as [k'|] eqn:E; [|done].
  intros [= <- <-]. destruct (store_frame _ _ _ _ E) as [Es%sem_names_view Hk].
  apply (same_peers_trans _ (kern w)); [done|]. apply same_view; [done..|]. by eapply peer_store.
Qed.
#[local] Hint Resolve kpe_semop kpe_setval kpe_shmget kpe_shmat kpe_shmdt kpe_rmid kpe_ftok kpe_store : shm.

Lemma kpe_shm_dtor s : keeps_peers (sysVShm_dtor s).
Proof using All. unfold sysVShm_dtor. destruct (shm_ s); eauto 9 with shm. Qed.

Lemma kpe_shm_ctor key size owner perm : keeps_peers (sysVShm_ctor key size owner perm).
Proof using All.
  unfold sysVShm_ctor. apply kpe_bind; [auto with shm|]. intros shmid.
  destruct (key =? -1)%Z; [auto with shm|]. destruct (shmid <? 0)%Z; [auto with shm|].
  apply kpe_bind; [auto with shm|]. intros [p|]; auto with shm.
Qed.
#[local] Hint Resolve kpe_shm_dtor kpe_shm_ctor : shm.

Lemma kpe_write_ctor sem : keeps_peers (WriteLock_ctor sem).
Proof using All.
  unfold WriteLock_ctor. apply kpe_bind.
  - intros k0 w r w' Hw. unfold write_start_wait.
    pose proof (kpe_semop (semid_ sem) write_start k0 w r w' Hw) as Hop. unfold sys_wait in Hop.
    destruct (semop _ _ _) as [[r' k']|] eqn:Es; [exact Hop|]. intros E.
    apply bind_inv in E as (u & w1 & E1 & E2).
    refine (kpe_semop (semid_ sem) write_start k0 w1 r w' _ E2).
    revert E1. apply (kpe_bind _ _ (kpe_setval _ _ _)); [|done]. intros r1. auto with shm.
  - intros r. destruct (r =? -1)%Z; auto with shm.
Qed.

Lemma kpe_new_segment size w : keeps_peers (new_segment size w).
Proof using All. unfold new_segment. destruct (wr_shm_ w); auto with shm. Qed.

Lemma kpe_write_dtor l : keeps_peers (WriteLock_dtor l).
Proof using All. unfold WriteLock_dtor. auto 9 with shm. Qed.
Lemma kpe_commit l n : keeps_peers (commit_readers l n).
Proof using All.
  unfold commit_readers. apply kpe_bind; [auto with shm|]. intros r.
  destruct (r =? -1)%Z; auto with shm.
Qed.
Lemma kpe_copy dest data : keeps_peers (copy_bytes dest data).
Proof using All. destruct dest; cbn; auto with shm. Qed.
#[local] Hint Resolve kpe_new_segment kpe_write_ctor kpe_write_dtor kpe_commit kpe_copy : shm.

Lemma kpe_attach r : keeps_peers (attach_again r).
Proof using All. unfold attach_again. destruct (rd_shm_ r); auto with shm. Qed.

(** The calls of a reader that attaches. *)
Lemma kpe_semget key n flg : (forall k, sem_names (semget key n flg k).2 = sem_names k) ->
  keeps_peers (sys (semget key n flg)).
Proof using All.
  intros Hs. apply kpe_sys. intros k. destruct (peer_semget key n flg k) as (_ & Hk & Hp).
  by apply same_view.
Qed.

Lemma notify_loop_exact k0 msg clients notified :
  (forall c, c ∈ clients -> c ∈ fds k0 /\ (0 <= c)%Z) -> set_ok notified ->
  kpartial (same_peers k0) (notify_loop msg clients notified)
    (fun n k => same_peers k0 k /\ set_ok n /\
       forall c, c ∈ n <-> c ∈ notified \/ (c ∈ clients /\ peer_closed k0 c = false)).
Proof using All.
  revert notified. induction clients as [|it clients IH]; intros notified Hc Hok.
  - apply kp_ret. intros k Hk. split; [done|]. split; [done|]. intros c. rewrite elem_of_nil. tauto.
  - cbn [notify_loop]. destruct (Hc it) as [HF Hit]; [left|].
    eapply (kp_bind _ _ _ (fun r k => same_peers k0 k /\ (r = (-1)%Z <-> peer_closed k0 it = true))).
    + apply kp_sys. intros k r k' [Hk1 Hk2 Hk3 Hk4 Hk5] E.
      pose proof (peer_send it msg k) as [Hg Hp]. rewrite E in Hg, Hp. simpl in Hg, Hp.
      destruct (send_law _ _ _ _ _ E) as [Hf _]. destruct (send_frame _ _ _ _ _ E) as [_ Es%sem_names_view].
      split.
      { split; [by rewrite Hf|by rewrite Hg|by rewrite Es|intros d|intros d];
          destruct (Hp d) as [E1 E2]; congruence. }
      assert (Hpc : peer_closed k0 it = peer_closed k it) by (unfold peer_closed; by rewrite Hk4).
      rewrite Hpc. destruct (peer_closed k it) eqn:Hcl.
      * pose proof (send_closed it msg k Hcl) as Hs. rewrite E in Hs. done.
      * pose proof (send_open it msg k ltac:(by rewrite Hk1) Hit Hcl) as Hs. rewrite E in Hs. done.
    + assert (IH' : forall nt, set_ok nt -> kpartial (same_peers k0) (notify_loop msg clients nt)
        (fun n k => same_peers k0 k /\ set_ok n /\
           forall c, c ∈ n <-> c ∈ nt \/ (c ∈ clients /\ peer_closed k0 c = false)))
        by (intros nt; apply IH; intros c Hin; apply Hc; by right).
      intros r w n w' [Hp Hr]. destruct (Z.eqb_spec r (-1)) as [Hr1|Hr1]; intros E.
      * apply Hr in Hr1. apply bind_inv in E as (u & w1 & [= <- <-] & E).
        eapply (IH' notified Hok) in E as (Hp' & Hok' & Hn); [|exact Hp].
        split; [done|]. split; [done|]. intros c.
        rewrite Hn, elem_of_cons. split; [tauto|]. intros [Hc1|[[->|Hc1] Hc2]]; [tauto|congruence|tauto].
      * assert (Ha : peer_closed k0 it = false) by (destruct (peer_closed k0 it); [tauto|done]).
        destruct (IH' _ (set_insert_ok it _ Hok) _ n w' Hp E) as (Hp' & Hok' & Hn).
        split; [done|]. split; [done|]. intros c.
        rewrite Hn, elem_of_set_insert, elem_of_cons. split; [|tauto].
        intros [[->|Hc1]|Hc1]; tauto.
Qed.

(** What [copy_to_shm] leaves: the clients it notified are those alive. *)
Lemma copy_to_shm_notifies k0 data w srv :
  srv_ w = Some srv -> (forall c, c ∈ clients_ srv -> c ∈ fds k0 /\ (0 <= c)%Z) ->
  kpartial (same_peers k0) (copy_to_shm data w) (fun '(res, w') k => same_peers k0 k /\
    (res = true -> exists srv', srv_ w' = Some srv' /\
       um_msg_type_ (srv_update_msg_ srv') = um_msg_type_ (srv_update_msg_ srv) /\
       um_pad (srv_update_msg_ srv') = um_pad (srv_update_msg_ srv) /\
       NoDup (clients_notified_ srv') /\
       pending_clients_ srv' = pending_clients_ srv /\ srv_fd_ srv' = srv_fd_ srv /\
       serving srv' = serving srv /\
       forall c, c ∈ clients_notified_ srv' <-> c ∈ clients_ srv /\ peer_closed k0 c = false)).
Proof using All.
  intros Hsrv Hc. unfold copy_to_shm. destruct (wr_sem_ w) as [sem|].
  2: { eapply kp_bind; [apply kpe_log|]. intros u. apply kp_ret. intros k Hk. by split. }
  destruct (negb (sysVSem_is_valid sem)).
  { eapply kp_bind; [apply kpe_log|]. intros u. apply kp_ret. intros k Hk. by split. }
  eapply kp_bind; [apply kpe_write_ctor|]. intros l.
  eapply (kp_bind _ _ _ (fun w1 k => srv_ w1 = Some srv /\ same_peers k0 k)).
  { destruct (_ <? _)%Z; [|by apply kp_ret]. eapply kp_bind; [apply kpe_log|]. intros u.
    eapply kp_bind; [apply kpe_new_segment|]. intros shm. by apply kp_ret. }
  intros w1. apply kp_pure. intros Hs1. rewrite Hs1. destruct (wr_shm_ w1) as [shm|]; [|apply kp_undef].
  eapply (kp_bind _ _ _ (fun r k => (um_msg_type_ (srv_update_msg_ r.2) = um_msg_type_ (srv_update_msg_ srv) /\
    um_pad (srv_update_msg_ r.2) = um_pad (srv_update_msg_ srv) /\
    NoDup (clients_notified_ r.2) /\
    pending_clients_ r.2 = pending_clients_ srv /\ srv_fd_ r.2 = srv_fd_ srv /\
    serving r.2 = serving srv /\
    forall c, c ∈ clients_notified_ r.2 <-> c ∈ clients_ srv /\ peer_closed k0 c = false) /\ same_peers k0 k)).
  - unfold notify_update. eapply kp_bind; [apply (notify_loop_exact k0); [done|constructor]|].
    intros n. apply kp_ret. intros k (Hk & Hok & Hn). split; [|done]. do 2 (split; [done|]).
    split; [by apply set_ok_nodup|]. do 3 (split; [done|]).
    intros c. rewrite (Hn c), elem_of_nil. tauto.
  - intros [n srv']. apply kp_pure. intros Hn.
    eapply kp_bind; [apply kpe_when, kpe_bind; auto with shm|]. intros u.
    eapply kp_bind; [apply kpe_copy|]. intros u'. eapply kp_bind; [apply kpe_write_dtor|]. intros u''.
    apply kp_ret. intros k Hk. split; [done|]. intros _. by exists srv'.
Qed.
End peers.
