(* ===== verification/Follower.v ===== *)
(** * The follower (file-monitor.cpp, follower.hpp, follower.cpp)

    A follower keeps trying to make a reader as long as a socket file exists
    at its path, and starts again when the server goes away.  [quit_] is also
    set by the destructor from another thread: it is an argument of each turn
    of [monitor].  [FollowerThreads.v] has the interleavings. *)

From S2P Require Import Prelude Logger StdLib Posix PosixModel SysVSem SysVShm SocketProtocol.
From S2P Require Import UnixSocketServer UnixSocketClient Reader ReaderTheorems.

Record Follower := mkFollower {
  fl_path_ : cstr;
  is_destructing_ : bool;
  monitoring : bool;                  (* a monitor thread runs *)
  fl_quit_ : bool;
  reader_ : option (Reader * option (UnixSocketClient * cli_locals)) }.

Definition with_reader r q f := mkFollower (fl_path_ f) (is_destructing_ f) (monitoring f) q r.
Definition with_monitor m q f := mkFollower (fl_path_ f) (is_destructing_ f) m q (reader_ f).

Section follower.
Context {K : Type} `{ErrnoOS K, SemOS K, ShmOS K, FileOS K, SockOS K}.
Context (cbs : reader_cbs K) (pad : cstr) (turns : nat).

(** [fileMonitor::is_unix_socket] *)
Definition is_unix_socket (path : cstr) : M (world K) bool :=
  sb ← sys (stat (c_str path));
  match sb with
  | None => mret false
  | Some st_mode =>
      if negb (Z.land st_mode S_IFMT =? S_IFSOCK)%Z
      then (log LError $"% is not a socket" [path];; mret false)
      else mret true
  end.

(** [reader_.reset(new Reader(...))]: the new reader is made first. *)
Definition reset_reader (f : Follower) : M (world K) (Reader * option (UnixSocketClient * cli_locals)) :=
  new ← Reader_ctor cbs pad (fl_path_ f) turns;
  match reader_ f with
  | Some (r, c) => Reader_dtor cbs turns r c
  | None => mret tt
  end;;
  mret new.

(** The body of the loop of [monitor]; the boolean is [do_sleep]. *)
Definition monitor_turn (do_sleep : bool) (f : Follower) : M (world K) (bool * Follower) :=
  found ← is_unix_socket (fl_path_ f);
  if (found : bool)
  then
    new ← reset_reader f;
    if rd_is_valid_ (fst new)
    then mret (false, with_reader (Some new) true f)
    else
      Reader_dtor cbs turns (fst new) (snd new);;
      mret (false, with_reader None (fl_quit_ f) f)
  else mret (do_sleep, f).

(** [Follower::monitor] for the turns of [quits] at most; [true] is a
    [quit_.store(true)] by the destructor during the turn. *)
Fixpoint monitor_loop (quits : list bool) (do_sleep : bool) (f : Follower)
  : M (world K) (bool * Follower) :=
  match quits with
  | [] => mret (do_sleep, f)
  | q :: quits' =>
      if fl_quit_ f then mret (do_sleep, f)
      else
        '(s, f') ← monitor_turn do_sleep f;
        monitor_loop quits' s (with_reader (reader_ f') (fl_quit_ f' || q) f')
  end.

Definition monitor (quits : list bool) (f : Follower) : M (world K) Follower :=
  '(_, f') ← monitor_loop quits true f;
  mret (with_monitor false true f').

(** [Follower::Follower], up to the start of the monitor thread. *)
Definition Follower_ctor (path : cstr) : M (world K) Follower :=
  found ← is_unix_socket path;
  r ← (if (found : bool) then (new ← Reader_ctor cbs pad path turns; mret (Some new)) else mret None);
  let valid := match r with Some (x, _) => rd_is_valid_ x | None => false end in
  mret (mkFollower path false (negb valid) false r).

(** [Follower::on_server_disconnected] *)
Definition follower_disconnected (f : Follower) : M (world K) Follower :=
  log LDebug $"follower %" [$"on_server_disconnected"];;
  let f' := if negb (is_destructing_ f) then with_monitor true false f else f in
  match on_server_disconnected_cb_ cbs with Some osd => osd | None => mret tt end;;
  mret f'.

(** [Follower::~Follower]: the monitor thread runs the turns of [quits] before
    it ends. *)
Definition Follower_dtor (quits : list bool) (f : Follower) : M (world K) Follower :=
  let f1 := mkFollower (fl_path_ f) true (monitoring f) true (reader_ f) in
  f2 ← (if monitoring f1 then monitor quits f1 else mret f1);
  match reader_ f2 with Some (r, c) => Reader_dtor cbs turns r c | None => mret tt end;;
  mret (with_reader None true f2).
End follower.

(** ** Theorems *)

Section props.
Context {K : Type} `{ErrnoOS K, SemOS K, ShmOS K, FileOS K, SockOS K}.
Context (cbs : reader_cbs K) (pad : cstr) (turns : nat).
Implicit Types (f : Follower).

Definition has_valid_reader (f : Follower) : Prop :=
  exists x, reader_ f = Some x /\ rd_is_valid_ (fst x) = true.

(** What a number of turns does to the follower. *)
Definition monitored (f f' : Follower) : Prop :=
  fl_path_ f' = fl_path_ f /\ is_destructing_ f' = is_destructing_ f /\
  (reader_ f' = reader_ f \/ reader_ f' = None \/ has_valid_reader f').

Lemma monitored_trans f1 f2 f3 : monitored f1 f2 -> monitored f2 f3 -> monitored f1 f3.
Proof.
  unfold monitored, has_valid_reader. intros (-> & -> & H1') (-> & -> & [E|[E|Hv]]); rewrite ?E;
    repeat split; auto.
Qed.

Lemma monitor_turn_spec s f :
  returns (monitor_turn cbs pad turns s f) (fun '(s', f') => monitored f f' /\
    (s = false -> s' = false) /\ (fl_quit_ f' = fl_quit_ f \/ has_valid_reader f')).
Proof.
  unfold monitor_turn. apply returns_skip. intros found. destruct found.
  - apply returns_skip. intros new. destruct (rd_is_valid_ (fst new)) eqn:Hv.
    + apply returns_ret. unfold monitored, has_valid_reader. simpl.
      assert (exists x, Some new = Some x /\ rd_is_valid_ (fst x) = true) by eauto. tauto.
    + apply returns_skip. intros _. apply returns_ret. unfold monitored. simpl. tauto.
  - apply returns_ret. unfold monitored. tauto.
Qed.

Lemma monitor_loop_spec quits s f :
  returns (monitor_loop cbs pad turns quits s f) (fun '(s', f') => monitored f f' /\
    (s = false -> s' = false) /\
    (fl_quit_ f = false -> Forall (eq false) quits -> fl_quit_ f' = true -> has_valid_reader f')).
Proof.
  revert s f. induction quits as [|q quits IH]; intros s f; cbn [monitor_loop].
  - apply returns_ret. unfold monitored. repeat split; try tauto. congruence.
  - destruct (fl_quit_ f) eqn:Hq; [apply returns_ret; unfold monitored; repeat split; tauto || congruence|].
    eapply returns_bind; [apply monitor_turn_spec|]. intros [s1 f1] (Hm & Hs & Hv).
    set (f2 := with_reader (reader_ f1) (fl_quit_ f1 || q) f1).
    destruct (fl_quit_ f2) eqn:Hq2.
    + assert (Hstop : monitor_loop cbs pad turns quits s1 f2 = mret (s1, f2)).
      { destruct quits; cbn [monitor_loop]; [done|]. by rewrite Hq2. }
      rewrite Hstop. apply returns_ret. split; [exact Hm|]. split; [exact Hs|].
      intros _ Hall _. inversion Hall; subst. simpl in Hq2. rewrite orb_false_r in Hq2.
      destruct Hv as [Hv|Hv]; [congruence|exact Hv].
    + eapply kp_conseq; [apply (IH s1 f2)|done|]. intros [s' f'] _ (Hm' & Hs' & Hv').
      split; [by apply (monitored_trans f f2)|]. split; [auto|].
      intros _ Hall. inversion Hall; subst. auto.
Qed.

(** The monitor of a follower.  It never leaves a reader of its own
    making that is not valid; without the destructor it stops, when it stops,
    with a valid reader; and once a turn has found a socket file it never
    sleeps again between two turns. *)
Theorem monitor_stops_with_reader quits s f w s' f' w' :
  monitor_loop cbs pad turns quits s f w = (Ret (s', f'), w') ->
  monitored f f' /\ (s = false -> s' = false) /\
  (fl_quit_ f = false -> Forall (eq false) quits -> fl_quit_ f' = true -> has_valid_reader f').
Proof. intros E. by apply (monitor_loop_spec quits s f w (s', f') w'). Qed.

(** The destructor stops the monitor at once. *)
Lemma monitor_quit quits f w :
  fl_quit_ f = true -> monitor cbs pad turns quits f w = (Ret (with_monitor false true f), w).
Proof.
  intros Hq. unfold monitor. rewrite (bind_ret _ _ _ (true, f) w); [done|].
  destruct quits; cbn [monitor_loop]; [done|]. by rewrite Hq.
Qed.

Lemma Follower_dtor_eq quits f w :
  Follower_dtor cbs pad turns quits f w =
  (match reader_ f with Some (r, c) => Reader_dtor cbs turns r c | None => mret tt end;;
   mret (mkFollower (fl_path_ f) true false true None)) w.
Proof.
  unfold Follower_dtor. destruct (monitoring f) eqn:Hm; cbn [monitoring].
  - rewrite (bind_ret _ _ _ _ _ (monitor_quit quits (mkFollower _ _ _ _ _) w eq_refl)).
    done.
  - done.
Qed.

(** Restart and end of a follower.  A disconnection starts a monitor
    again unless the destructor runs; the destructor makes the monitor stop
    before its next turn and releases the reader, if there is one. *)
Theorem follower_ends quits f w :
  (forall f' w', follower_disconnected cbs f w = (Ret f', w') ->
     if is_destructing_ f then f' = f else f' = with_monitor true false f) /\
  Follower_dtor cbs pad turns quits f w =
    (match reader_ f with Some (r, c) => Reader_dtor cbs turns r c | None => mret tt end;;
     mret (mkFollower (fl_path_ f) true false true None)) w.
Proof.
  split; [|apply Follower_dtor_eq]. intros f' w' E.
  enough (Hr : returns (follower_disconnected cbs f) (fun f' =>
    if is_destructing_ f then f' = f else f' = with_monitor true false f))
    by (by apply (Hr w f' w')).
  unfold follower_disconnected. do 2 (apply returns_skip; intros _). apply returns_ret.
  by destruct (is_destructing_ f).
Qed.
End props.

(** ** A concrete instance

    The first turn finds the server of /s: the others are not run. *)
Lemma monitor_stops_with_reader_witness : exists f' w',
  monitor_loop shared_cbs (zeros 6) 1 [false; false; false] true
    (mkFollower $"/s" false true false None) (shared_world 1 [0; 0]%Z) = (Ret (false, f'), w') /\
  has_valid_reader f'.
Proof.
  destruct (monitor_loop shared_cbs (zeros 6) 1 [false; false; false] true
    (mkFollower $"/s" false true false None) (shared_world 1 [0; 0]%Z))
    as [[[s' f']|e| |] w'] eqn:E; [|vm_compute in E; discriminate ..].
  pose proof (monitor_stops_with_reader shared_cbs (zeros 6) 1 _ _ _ _ _ _ _ E) as (_ & _ & H).
  assert (Hv : s' = false /\ fl_quit_ f' = true)
    by (vm_compute in E; injection E as <- <- _; split; reflexivity).
  destruct Hv as [-> Hv]. exists f', w'. split; [reflexivity|].
  apply H; [reflexivity|repeat constructor|exact Hv].
Defined.

(** The server goes away, the monitor starts again, and the destructor ends it. *)
Lemma follower_ends_witness : exists f1 w1 f2 w2,
  let f := mkFollower $"/s" false false true None in
  follower_disconnected shared_cbs f (shared_world 1 [0; 0]%Z) = (Ret f1, w1) /\
  monitoring f1 = true /\ fl_quit_ f1 = false /\
  Follower_dtor shared_cbs (zeros 6) 1 [false] f1 w1 = (Ret f2, w2) /\ monitoring f2 = false.
Proof.
  set (f := mkFollower $"/s" false false true None).
  destruct (follower_disconnected shared_cbs f (shared_world 1 [0; 0]%Z))
    as [[f1|e| |] w1] eqn:E; [|discriminate ..].
  pose proof (proj1 (follower_ends shared_cbs (zeros 6) 1 [] f _) f1 w1 E) as Hf. simpl in Hf.
  pose proof (proj2 (follower_ends shared_cbs (zeros 6) 1 [false] f1 w1)) as Hd.
  exists f1, w1, (mkFollower $"/s" true false true None), w1. cbn zeta. split; [exact E|].
  split; [by rewrite Hf|]. split; [by rewrite Hf|]. split; [|reflexivity].
  rewrite Hd, Hf. reflexivity.
Defined.
