(* ===== verification/FollowerThreads.v ===== *)
(** * The threads of the follower (follower.cpp)

    [Follower.v] has the operations one after the other; here are their
    interleavings.  Monitor threads run [monitor]; the client thread of each
    reader runs [on_server_disconnected]; one thread runs the destructor.  A
    step is an access to a shared variable, a lock, a wait or a call.  A reader
    is a number; making one gives a valid reader, or one that did not connect,
    or one that connected when the wait of its constructor was over. *)

From S2P Require Import Prelude.

(** Program points of [monitor]: lines 56, 57, 61, 62 (constructor, then the
    deletion of the old reader), 64, 69 and 72.  The sleep is not a step. *)
Inductive monitor_pc :=
| MWhile | MFind | MLock | MMake
| MJoin (new : nat)                       (* the constructor ends the client thread *)
| MReset (old : option nat) (valid : bool)
| MTest (valid : bool) | MUnlock | MExit | MDone.

(** Program points of the client thread: receiving, then lines 78 to 84.
    [CAssign old] waits for the thread of the future that is replaced. *)
Inductive client_pc :=
| CReceive | CDisconnected | CStore | CLock | CAsync | CAssign (old : option nat) | CUnlock
| CCallback | CDone.

(** Program points of [~Follower]. *)
Inductive dtor_pc := DNo | DQuit | DLock | DGet | DUnlock | DLockReader | DReset | DDone.

#[export] Instance monitor_pc_eq_dec : EqDecision monitor_pc.
Proof. solve_decision. Defined.
#[export] Instance client_pc_eq_dec : EqDecision client_pc.
Proof. solve_decision. Defined.
#[export] Instance dtor_pc_eq_dec : EqDecision dtor_pc.
Proof. solve_decision. Defined.

Inductive thread := TMonitor (i : nat) | TClient (r : nat) | TDtor.

#[export] Instance thread_eq_dec : EqDecision thread.
Proof. solve_decision. Defined.

(** The members of the follower, the threads, and whether a socket is at the
    path.  The mutexes have their owner; [monitor_] is the thread of the
    future. *)
Record follower := mkFollowerThreads {
  quit_ : bool;
  is_destructing_ : bool;
  monitor_mtx_ : option thread;
  monitor_ : option nat;
  reader_mtx_ : option thread;
  reader_ : option nat;
  monitors : list monitor_pc;
  clients : list client_pc;
  dtor : dtor_pc;
  socket : bool }.

#[export] Instance follower_settable : Settable follower := fun s =>
  mkFollowerThreads (quit_ s) (is_destructing_ s) (monitor_mtx_ s) (monitor_ s) (reader_mtx_ s)
    (reader_ s) (monitors s) (clients s) (dtor s) (socket s).
Implicit Types (s : follower) (i r : nat).

(** After the constructor: with a valid reader; or with a monitor, and with the
    reader that did not connect to the socket that exists, or without a reader.
    A reader that connects when the wait of its constructor is over, in the
    constructor of the follower, is left out: its client thread starts a
    monitor, which can store in [reader_] before that member is made. *)
Definition with_valid_reader : follower :=
  mkFollowerThreads false false None None None (Some 0) [] [CReceive] DNo true.
Definition with_invalid_reader : follower :=
  mkFollowerThreads false false None (Some 0) None (Some 0) [MWhile] [CDone] DNo true.
Definition without_reader : follower :=
  mkFollowerThreads false false None (Some 0) None None [MWhile] [] DNo false.

Definition m_goto i (pc : monitor_pc) s : follower := s <| monitors := <[i := pc]> (monitors s) |>.
Definition c_goto r (pc : client_pc) s : follower := s <| clients := <[r := pc]> (clients s) |>.
Definition d_goto (pc : dtor_pc) s : follower := s <| dtor := pc |>.

(** The thread of a future has ended. *)
Definition ended (q : option nat) s : bool :=
  match q with Some i => bool_decide (monitors s !! i = Some MDone) | None => true end.

Inductive made := Valid | NotConnected | TooLate.

(** ~Reader ends the client thread: the server closes the connection of a
    client that receives, which is a disconnection; then the thread is joined.
    [None] while it is waited for; the boolean is false before the end. *)
Definition delete_reader r s : option (bool * follower) :=
  match clients s !! r with
  | Some CReceive => Some (false, c_goto r CDisconnected s)
  | Some CDone | None => Some (true, s)
  | _ => None
  end.

(** [Follower::monitor] *)
Definition monitor_step i (m : made) s : option follower :=
  pc ← monitors s !! i;
  match pc with
  | MWhile => Some (m_goto i (if quit_ s then MExit else MFind) s)
  | MFind => Some (m_goto i (if socket s then MLock else MWhile) s)
  | MLock =>
      match reader_mtx_ s with
      | None => Some (m_goto i MMake (s <| reader_mtx_ := Some (TMonitor i) |>))
      | Some _ => None
      end
  | MMake =>
      let new := length (clients s) in
      Some (match m with
            | Valid => m_goto i (MReset (reader_ s) true)
                (s <| reader_ := Some new |> <| clients := clients s ++ [CReceive] |>)
            | NotConnected => m_goto i (MReset (reader_ s) false)
                (s <| reader_ := Some new |> <| clients := clients s ++ [CDone] |>)
            | TooLate => m_goto i (MJoin new) (s <| clients := clients s ++ [CDisconnected] |>)
            end)
  | MJoin new =>
      if decide (clients s !! new = Some CDone)
      then Some (m_goto i (MReset (reader_ s) false) (s <| reader_ := Some new |>)) else None
  | MReset old valid =>
      match old with
      | None => Some (m_goto i (MTest valid) s)
      | Some r => '(joined, s') ← delete_reader r s;
                  Some (if joined : bool then m_goto i (MTest valid) s' else s')
      end
  | MTest valid =>
      Some (m_goto i MUnlock (if valid then s <| quit_ := true |> else s <| reader_ := None |>))
  | MUnlock => Some (m_goto i MWhile (s <| reader_mtx_ := None |>))
  | MExit => Some (m_goto i MDone (s <| quit_ := true |>))
  | MDone => None
  end.

(** [Follower::on_server_disconnected]; [std::async] starts the new thread
    before the old future is replaced. *)
Definition client_step r s : option follower :=
  pc ← clients s !! r;
  match pc with
  | CReceive | CDone => None
  | CDisconnected => Some (c_goto r (if is_destructing_ s then CCallback else CStore) s)
  | CStore => Some (c_goto r CLock (s <| quit_ := false |>))
  | CLock =>
      match monitor_mtx_ s with
      | None => Some (c_goto r CAsync (s <| monitor_mtx_ := Some (TClient r) |>))
      | Some _ => None
      end
  | CAsync =>
      Some (c_goto r (CAssign (monitor_ s))
              (s <| monitor_ := Some (length (monitors s)) |> <| monitors := monitors s ++ [MWhile] |>))
  | CAssign old =>
      if ended old s
      then Some (c_goto r CUnlock s) else None
  | CUnlock => Some (c_goto r CCallback (s <| monitor_mtx_ := None |>))
  | CCallback => Some (c_goto r CDone s)
  end.

(** [Follower::~Follower] *)
Definition dtor_step s : option follower :=
  match dtor s with
  | DNo => Some (d_goto DQuit (s <| is_destructing_ := true |>))
  | DQuit => Some (d_goto DLock (s <| quit_ := true |>))
  | DLock =>
      match monitor_mtx_ s with
      | None => Some (d_goto DGet (s <| monitor_mtx_ := Some TDtor |>))
      | Some _ => None
      end
  | DGet =>
      if ended (monitor_ s) s
      then Some (d_goto DUnlock (s <| monitor_ := None |>)) else None
  | DUnlock => Some (d_goto DLockReader (s <| monitor_mtx_ := None |>))
  | DLockReader =>
      match reader_mtx_ s with
      | None => Some (d_goto DReset (s <| reader_mtx_ := Some TDtor |>))
      | Some _ => None
      end
  | DReset =>
      match reader_ s with
      | None => Some (d_goto DDone (s <| reader_mtx_ := None |>))
      | Some r => '(joined, s') ← delete_reader r s;
                  Some (if joined : bool then d_goto DDone (s' <| reader_ := None |> <| reader_mtx_ := None |>)
                        else s')
      end
  | DDone => None
  end.

(** The server of reader [r] goes away; a socket appears or disappears. *)
Inductive label :=
| LMonitor (i : nat) (m : made) | LClient (r : nat) | LDtor | LDisconnect (r : nat) | LSocket (b : bool).

Definition step (l : label) s : option follower :=
  match l with
  | LMonitor i m => monitor_step i m s
  | LClient r => client_step r s
  | LDtor => dtor_step s
  | LDisconnect r =>
      if decide (clients s !! r = Some CReceive) then Some (c_goto r CDisconnected s) else None
  | LSocket b => Some (s <| socket := b |>)
  end.

Fixpoint run (ls : list label) s : option follower :=
  match ls with
  | [] => Some s
  | l :: ls' => s' ← step l s; run ls' s'
  end.

Lemma run_app ls ls' s s1 : run ls s = Some s1 -> run (ls ++ ls') s = run ls' s1.
Proof.
  revert s. induction ls as [|l ls IH]; intros s; cbn [run app]; [by intros [= ->]|].
  destruct (step l s) as [s0|]; [|done]. apply IH.
Qed.

Lemma run_keeps (P : follower -> Prop) :
  (forall l s s', P s -> step l s = Some s' -> P s') ->
  forall ls s s', P s -> run ls s = Some s' -> P s'.
Proof.
  intros Hstep. induction ls as [|l ls IH]; intros s s' Hs; cbn [run]; [by intros [= <-]|].
  destruct (step l s) as [s1|] eqn:E; [|done]. apply IH. by apply (Hstep l s).
Qed.

(** ** Mutual exclusion *)

Definition in_reader (pc : monitor_pc) : bool :=
  match pc with MMake | MJoin _ | MReset _ _ | MTest _ | MUnlock => true | _ => false end.
Definition in_monitor (pc : client_pc) : bool :=
  match pc with CAsync | CAssign _ | CUnlock => true | _ => false end.

Definition dtor_monitor (pc : dtor_pc) : bool := match pc with DGet | DUnlock => true | _ => false end.
Definition dtor_reader (pc : dtor_pc) : bool := match pc with DReset => true | _ => false end.

Definition exclusion s : Prop :=
  (forall i pc, monitors s !! i = Some pc -> in_reader pc = true -> reader_mtx_ s = Some (TMonitor i)) /\
  (forall r pc, clients s !! r = Some pc -> in_monitor pc = true -> monitor_mtx_ s = Some (TClient r)) /\
  (dtor_monitor (dtor s) = true -> monitor_mtx_ s = Some TDtor) /\
  (dtor_reader (dtor s) = true -> reader_mtx_ s = Some TDtor).

(** Takes a step apart, field by field. *)
Ltac fields :=
  unfold m_goto, c_goto, d_goto, set_member in *;
  cbn [quit_ is_destructing_ monitor_mtx_ monitor_ reader_mtx_ reader_ monitors clients dtor socket] in *.
Ltac lookups :=
  repeat match goal with
  | H : <[_ := _]> _ !! _ = Some _ |- _ => apply list_lookup_insert_Some in H as [(? & ? & ?)|[? ?]]; subst
  | H : (_ ++ [_]) !! _ = Some _ |- _ =>
      apply lookup_app_Some in H as [H|[_ H]]; [|apply list_lookup_singleton_Some in H as [? ?]; subst]
  end.
Ltac steps E :=
  repeat match type of E with
  | context [match ?x with _ => _ end] => destruct x eqn:?; try discriminate E
  end;
  try (injection E as <-);
  repeat match goal with
  | H : match ?x with _ => _ end = Some _ |- _ => destruct x eqn:?; try discriminate H
  end.
Ltac step_cases l s E :=
  destruct l; destruct s; cbn [step] in E; unfold monitor_step, client_step, dtor_step, delete_reader in E;
  fields; cbn [mbind option_bind] in E; unfold mbind, option_bind in E; steps E; simplify_eq; fields.

(** The owner of a mutex, for each thread that is known to be inside. *)
Ltac owners H1 H2 :=
  repeat match goal with
  | H : _ !! _ = Some ?pc, C : in_reader ?pc = true |- _ =>
      pose proof (H1 _ _ H C); revert H; revert C
  | H : _ !! _ = Some ?pc |- _ => pose proof (H1 _ _ H eq_refl); revert H
  | H : _ !! _ = Some ?pc, C : in_monitor ?pc = true |- _ =>
      pose proof (H2 _ _ H C); revert H; revert C
  | H : _ !! _ = Some ?pc |- _ => pose proof (H2 _ _ H eq_refl); revert H
  end; intros.

Lemma exclusion_step l s s' : exclusion s -> step l s = Some s' -> exclusion s'.
Proof.
  intros (H1 & H2 & H3 & H4) E. step_cases l s E; unfold exclusion; fields.
  all: split_and!; intros; lookups; try discriminate; owners H1 H2;
    try (specialize (H3 eq_refl)); try (specialize (H4 eq_refl));
    try match goal with C : dtor_monitor _ = true |- _ => specialize (H3 C) end;
    try match goal with C : dtor_reader _ = true |- _ => specialize (H4 C) end; congruence.
Qed.

(** What the constructor can leave. *)
Definition constructed s : Prop :=
  s = with_valid_reader \/ s = with_invalid_reader \/ s = without_reader.

Lemma exclusion_initial s : constructed s -> exclusion s.
Proof.
  intros [->|[->| ->]]; split_and!; try done; intros [|i] pc; cbn; try (by intros [= <-]);
    by rewrite ?lookup_nil.
Qed.

(** ** A monitor and a client that wait for each other *)

Definition mutual_wait i r (pc : monitor_pc) s : Prop :=
  monitors s !! i = Some pc /\ clients s !! r = Some (CAssign (Some i)).
Definition joins r (pc : monitor_pc) : Prop := pc = MJoin r \/ exists v, pc = MReset (Some r) v.

Definition stuck i r pc (q : option nat) s : Prop :=
  exclusion s /\ mutual_wait i r pc s /\ reader_ s = q /\ dtor s <> DDone.

Ltac other_thread :=
  match goal with
  | |- <[?j := _]> ?l !! ?k = Some _ =>
      destruct (decide (j = k)) as [->|?]; [exfalso|by rewrite list_lookup_insert_ne]
  | |- (_ ++ _) !! _ = Some _ => by apply lookup_app_l_Some
  | _ => idtac
  end.

Lemma stuck_step i r pc q l s s' : joins r pc -> stuck i r pc q s -> step l s = Some s' -> stuck i r pc q s'.
Proof.
  intros Hj (He & [Hm Hc] & Hq & Hd) E. split; [by apply (exclusion_step l s)|].
  destruct He as (H1 & H2 & H3 & H4).
  assert (Hrm : reader_mtx_ s = Some (TMonitor i)) by (eapply H1; [exact Hm|]; by destruct Hj as [->|[v ->]]).
  assert (Hmm : monitor_mtx_ s = Some (TClient r)) by (by eapply H2).
  unfold mutual_wait. step_cases l s E; cbn [ended] in *.
  all: try (specialize (H3 eq_refl)); try (specialize (H4 eq_refl)); try discriminate.
  all: owners H1 H2; split_and!; other_thread; try done; try congruence.
  all: destruct Hj as [->|[v ->]]; try congruence.
  all: rewrite Hc in Heqo; injection Heqo as <-; apply bool_decide_eq_true in Heqb; cbn in Heqb; congruence.
Qed.

(** C37: once a monitor deletes a reader, in its loop or in a constructor, whose
    client thread is replacing the future of that same monitor, the two wait
    for each other for ever, each with a mutex: no reader is made any more, and
    the destructor does not end. *)
Theorem mutual_wait_forever i r pc ls s s' :
  exclusion s -> joins r pc -> mutual_wait i r pc s -> dtor s <> DDone -> run ls s = Some s' ->
  mutual_wait i r pc s' /\ reader_ s' = reader_ s /\ dtor s' <> DDone.
Proof.
  intros He Hj Hm Hd Hr.
  destruct (run_keeps (stuck i r pc (reader_ s)) (fun l s1 s2 => stuck_step i r pc (reader_ s) l s1 s2 Hj)
    ls s s') as (_ & ? & ? & ?); [|done|done]. by split_and!.
Qed.

(** ** Following again *)

Lemma run_cons l ls s s' : step l s = Some s' -> run (l :: ls) s = run ls s'.
Proof. intros E. cbn [run]. by rewrite E. Qed.

Ltac client_goes :=
  erewrite run_cons by (cbn [step]; unfold client_step; cbn [clients]; rewrite list_lookup_insert_eq by done;
    reflexivity);
  fields; rewrite list_insert_insert_eq.

(** A reader is connected, and no other thread runs. *)
Definition following r s : Prop :=
  reader_ s = Some r /\ clients s !! r = Some CReceive /\
  (forall r' pc, clients s !! r' = Some pc -> r' <> r -> pc = CDone) /\
  Forall (eq MDone) (monitors s) /\ (forall i, monitor_ s = Some i -> i < length (monitors s)) /\
  monitor_mtx_ s = None /\ reader_mtx_ s = None /\ dtor s = DNo /\ is_destructing_ s = false.

(** The client thread from the disconnection to its end. *)
Definition leaves r : list label := LDisconnect r :: replicate 7 (LClient r).

Lemma leaves_spec r s : following r s ->
  exists s', run (leaves r) s = Some s' /\ quit_ s' = false /\ reader_ s' = Some r /\
    clients s' = <[r := CDone]> (clients s) /\ monitors s' = monitors s ++ [MWhile] /\
    monitor_ s' = Some (length (monitors s)) /\ monitor_mtx_ s' = None /\ reader_mtx_ s' = None /\
    dtor s' = DNo /\ is_destructing_ s' = false /\ socket s' = socket s.
Proof.
  intros (Hr & Hc & _ & Hm & Hi & Hmm & Hrm & Hd & Hde). destruct s as [q de mm mo rm rd ms cs d so].
  fields. subst. assert (Hl : r < length cs) by (by eapply lookup_lt_Some).
  assert (Hset : forall pc, <[r := pc]> cs !! r = Some pc) by (intros; by rewrite list_lookup_insert_eq).
  assert (He : ended mo (mkFollowerThreads false false (Some (TClient r)) (Some (length ms)) None (Some r)
    (ms ++ [MWhile]) (<[r := CAssign mo]> cs) DNo so) = true).
  { unfold ended. destruct mo as [i|]; [|done]. apply bool_decide_eq_true. cbn.
    destruct (lookup_lt_is_Some_2 ms i (Hi i eq_refl)) as [pc E]. apply lookup_app_l_Some.
    rewrite E. f_equal. symmetry. rewrite Forall_lookup in Hm. by apply Hm in E. }
  eexists. split.
  - unfold leaves. cbn [replicate].
    erewrite run_cons by (cbn [step clients]; rewrite decide_True by done; reflexivity).
    fields.
    do 4 client_goes.
    erewrite run_cons by (cbn [step]; unfold client_step; cbn [clients]; rewrite list_lookup_insert_eq by done;
      cbn [mbind option_bind]; rewrite He; reflexivity).
    fields. rewrite list_insert_insert_eq.
    do 2 client_goes. reflexivity.
  - cbn. by split_and!.
Qed.

Lemma last_lookup {A} (l : list A) x : (l ++ [x]) !! length l = Some x.
Proof. by rewrite lookup_app_r, Nat.sub_diag by done. Qed.
Lemma last_insert {A} (l : list A) x y : <[length l := y]> (l ++ [x]) = l ++ [y].
Proof. induction l as [|z l IH]; [done|]. cbn. f_equal. exact IH. Qed.

Ltac monitor_goes :=
  erewrite run_cons by (cbn [step]; unfold monitor_step; cbn [monitors]; rewrite last_lookup; reflexivity);
  fields; rewrite last_insert.

(** The monitor from its start to its end, when a server is there. *)
Definition finds i : list label := replicate 9 (LMonitor i Valid).

Lemma finds_spec r de mo ms cs d :
  cs !! r = Some CDone ->
  run (finds (length ms)) (mkFollowerThreads false de None mo None (Some r) (ms ++ [MWhile]) cs d true) =
    Some (mkFollowerThreads true de None mo None (Some (length cs)) (ms ++ [MDone]) (cs ++ [CReceive]) d true).
Proof.
  intros Hr. unfold finds. cbn [replicate]. do 4 monitor_goes.
  erewrite run_cons by (cbn [step]; unfold monitor_step, delete_reader; cbn [monitors clients];
    rewrite last_lookup; cbn [mbind option_bind clients]; rewrite (lookup_app_l_Some _ _ _ _ Hr); reflexivity).
  fields. rewrite last_insert. do 4 monitor_goes. reflexivity.
Qed.

(** The destructor, with the end of the client thread of reader [r]. *)
Definition destroys r : list label := replicate 7 LDtor ++ [LClient r; LClient r; LDtor].

Lemma destroys_spec r s : following r s ->
  exists s', run (destroys r) s = Some s' /\ dtor s' = DDone /\ reader_ s' = None /\
    clients s' = <[r := CDone]> (clients s) /\ monitors s' = monitors s.
Proof.
  intros (Hr & Hc & _ & Hm & Hi & Hmm & Hrm & Hd & Hde). destruct s as [q de mm mo rm rd ms cs d so].
  fields. subst. assert (Hl : r < length cs) by (by eapply lookup_lt_Some).
  assert (He : forall q de mm rm rd cs d so, ended mo (mkFollowerThreads q de mm mo rm rd ms cs d so) = true).
  { intros. unfold ended. destruct mo as [i|]; [|done]. apply bool_decide_eq_true. cbn.
    destruct (lookup_lt_is_Some_2 ms i (Hi i eq_refl)) as [pc E]. rewrite E. f_equal. symmetry.
    rewrite Forall_lookup in Hm. by apply Hm in E. }
  eexists. split.
  {
  unfold destroys. cbn [replicate app]. do 3 (erewrite run_cons by reflexivity; fields).
  erewrite run_cons by (cbn [step]; unfold dtor_step; cbn [dtor monitor_]; rewrite He; reflexivity). fields.
  do 2 (erewrite run_cons by reflexivity; fields).
  erewrite run_cons by (cbn [step]; unfold dtor_step, delete_reader; cbn [dtor reader_ clients]; rewrite Hc; reflexivity).
  fields. do 2 client_goes.
  erewrite run_cons by (cbn [step]; unfold dtor_step, delete_reader; cbn [dtor reader_ clients];
    rewrite list_lookup_insert_eq by done; reflexivity).
  reflexivity. }
  fields. by split_and!.
Qed.

(** A follower whose reader is disconnected while no monitor runs starts
    one monitor, which follows the server when it is there, and is then as
    before; so that it does so again any number of times.  It can be destroyed:
    the destructor ends, with the reader and its thread. *)
Theorem follows_again n r s : following r s -> socket s = true ->
  exists ls r' s', run ls s = Some s' /\ following r' s' /\ socket s' = true /\
    length ls = 17 * n /\ length (clients s') = length (clients s) + n /\
    exists s'', run (destroys r') s' = Some s'' /\ dtor s'' = DDone /\ reader_ s'' = None /\
      Forall (eq CDone) (clients s'').
Proof.
  intros Hf Hs. revert r s Hf Hs. induction n as [|n IH]; intros r s Hf Hs.
  - exists [], r, s. split_and!; try done; try lia.
    destruct (destroys_spec r s Hf) as (s'' & E & Hd & Hr & Hc & _). exists s''. split_and!; try done.
    rewrite Hc, Forall_lookup. destruct Hf as (_ & _ & Ho & _). intros r' pc.
    intros [(_ & <- & _)|[Hne E']]%list_lookup_insert_Some; [done|]. symmetry. by apply (Ho r').
  - pose proof Hf as (Hr & Hc & Ho & Hm & Hi & _).
    destruct (leaves_spec r s Hf) as (s1 & E1 & Hq1 & Hr1 & Hc1 & Hm1 & Hmo1 & Hmm1 & Hrm1 & Hd1 & Hde1 & Hs1).
    assert (E2 := finds_spec r false (Some (length (monitors s))) (monitors s) (<[r := CDone]> (clients s)) DNo
      ltac:(apply list_lookup_insert_eq; by eapply lookup_lt_Some)).
    destruct s1 as [q de mm mo rm rd ms cs d so]. fields. subst. rewrite Hs in E1.
    match type of E2 with _ = Some ?s => set (s2 := s) in * end.
    assert (Hf2 : following (length (clients s)) s2).
    { unfold following, s2. cbn. rewrite length_insert. split_and!; try done.
      - rewrite lookup_app_r, length_insert, Nat.sub_diag by (by rewrite length_insert). done.
      - intros r' pc [Hin|[Hge Hin]]%lookup_app_Some Hne.
        + apply list_lookup_insert_Some in Hin as [(_ & <- & _)|[Hne' Hin]]; [done|]. by apply (Ho r').
        + apply list_lookup_singleton_Some in Hin as [Hz _]. rewrite length_insert in *. lia.
      - rewrite Forall_app. by split; [|constructor].
      - intros i [= <-]. rewrite length_app. cbn. lia. }
    destruct (IH _ s2 Hf2 eq_refl) as (ls & r' & s' & E & Hf' & Hs' & Hls & Hcs & Hdt).
    exists (leaves r ++ finds (length (monitors s)) ++ ls), r', s'. split_and!; try done.
    + rewrite (run_app _ _ _ _ E1), (run_app _ _ _ _ E2). exact E.
    + rewrite !length_app, Hls. cbn. lia.
    + rewrite Hcs. unfold s2. cbn. rewrite length_app, length_insert. cbn. lia.
Qed.

(** ** Executions *)

Definition monitor_turns (i n : nat) : list label := replicate n (LMonitor i Valid).
Definition client_turns (r n : nat) : list label := replicate n (LClient r).

(** A server appears, and is followed. *)
Definition connects (i : nat) : list label := monitor_turns i 6.

(** The server goes away before the monitor has ended, and comes back: nobody
    follows it. *)
Definition lost : list label :=
  LSocket true :: connects 0 ++ monitor_turns 0 2 ++ LDisconnect 0 :: client_turns 0 2 ++
  monitor_turns 0 1 ++ client_turns 0 5 ++ monitor_turns 1 2.
(** It goes away a little earlier: the monitor makes another reader. *)
Definition deadlock : list label :=
  LSocket true :: connects 0 ++ LDisconnect 0 :: client_turns 0 4 ++ monitor_turns 0 5.
(** A reader connects when the wait of its constructor is over. *)
Definition too_late : list label :=
  LSocket true :: monitor_turns 0 3 ++ LMonitor 0 TooLate :: client_turns 0 4.

Lemma mutual_wait_forever_witness : exists s1 s2 s',
  run deadlock without_reader = Some s1 /\ mutual_wait 0 0 (MReset (Some 0) true) s1 /\
  run too_late without_reader = Some s2 /\ mutual_wait 0 0 (MJoin 0) s2 /\
  run [LDtor; LDtor; LSocket false] s1 = Some s' /\ mutual_wait 0 0 (MReset (Some 0) true) s'.
Proof.
  destruct (run deadlock without_reader) as [s1|] eqn:E1; [|by vm_compute in E1].
  destruct (run too_late without_reader) as [s2|] eqn:E2; [|by vm_compute in E2].
  pose proof (run_keeps exclusion exclusion_step _ _ _ (exclusion_initial _ ltac:(by right; right)) E1) as He.
  destruct (run [LDtor; LDtor; LSocket false] s1) as [s'|] eqn:E3.
  - assert (Hm : mutual_wait 0 0 (MReset (Some 0) true) s1) by (vm_compute in E1; by injection E1 as <-).
    destruct (mutual_wait_forever 0 0 (MReset (Some 0) true) _ s1 s' He ltac:(right; by eexists) Hm
      ltac:(vm_compute in E1; by injection E1 as <-) E3) as (Hm' & _).
    exists s1, s2, s'. split; [reflexivity|]. split; [exact Hm|]. split; [reflexivity|].
    split; [vm_compute in E2; by injection E2 as <-|]. split; [exact E3|exact Hm'].
  - exfalso. vm_compute in E1. injection E1 as <-. by vm_compute in E3.
Defined.

(** C38: when the server goes away after the monitor has found its reader and
    before it has ended, and comes back, the follower has no monitor and no
    client, and stays so until its destruction. *)
Theorem server_lost ls s :
  LDtor ∉ ls -> run (lost ++ ls) without_reader = Some s ->
  Forall (eq MDone) (monitors s) /\ Forall (eq CDone) (clients s) /\
  is_destructing_ s = false /\ reader_ s = Some 0.
Proof.
  intros Hd Hr. destruct (run lost without_reader) as [s0|] eqn:E0; [|by vm_compute in E0].
  rewrite (run_app _ _ _ _ E0) in Hr.
  set (P := fun s => Forall (eq MDone) (monitors s) /\ Forall (eq CDone) (clients s) /\
    is_destructing_ s = false /\ reader_ s = Some 0).
  assert (HP : P s0) by (vm_compute in E0; injection E0 as <-; by repeat constructor).
  clear E0. change (P s). revert s0 Hr HP. induction ls as [|l ls IH]; intros s0 Hr HP; cbn [run] in Hr.
  { by injection Hr as <-. }
  apply not_elem_of_cons in Hd as [Hl Hd]. destruct (step l s0) as [s1|] eqn:E; [|done].
  apply (IH Hd s1 Hr). destruct HP as (Hm & Hc & HP). rewrite Forall_lookup in Hm. rewrite Forall_lookup in Hc.
  destruct l as [i m|r| |r|b]; cbn [step] in E; [| |done| |].
  - unfold monitor_step in E. destruct (monitors s0 !! i) as [pc|] eqn:Ei; [|done].
    by rewrite <- (Hm _ _ Ei) in E.
  - unfold client_step in E. destruct (clients s0 !! r) as [pc|] eqn:Er; [|done].
    by rewrite <- (Hc _ _ Er) in E.
  - destruct (decide _) as [Er|]; [|done]. by specialize (Hc _ _ Er).
  - injection E as <-. destruct s0. unfold P, set_member. cbn in *. destruct HP.
    rewrite !Forall_lookup. by split_and!.
Qed.

Definition given_up : follower :=
  mkFollowerThreads true false None (Some 1) None (Some 0) [MDone; MDone] [CDone] DNo true.

Lemma server_lost_witness :
  run (lost ++ [LSocket false; LSocket true]) without_reader = Some given_up /\
  Forall (eq MDone) (monitors given_up) /\ Forall (eq CDone) (clients given_up).
Proof.
  assert (E : run (lost ++ [LSocket false; LSocket true]) without_reader = Some given_up) by (by vm_compute).
  assert (Hd : LDtor ∉ [LSocket false; LSocket true]).
  { intros [H|[H|H]%elem_of_cons]%elem_of_cons; [done|done|by apply elem_of_nil in H]. }
  destruct (server_lost [LSocket false; LSocket true] given_up Hd E) as (Hm & Hc & _).
  split; [exact E|]. split; [exact Hm|exact Hc].
Defined.

Lemma follows_again_witness : exists ls r s s', run ls with_valid_reader = Some s /\ following r s /\
  length ls = 51 /\ length (clients s) = 4 /\ run (destroys r) s = Some s' /\ dtor s' = DDone.
Proof.
  destruct (follows_again 3 0 with_valid_reader) as (ls & r & s & E & Hf & _ & Hl & Hc & s' & Ed & Hd & _).
  - unfold following. cbn. split_and!; try done. by intros [|[|r]] pc; cbn.
  - done.
  - exists ls, r, s, s'. split; [exact E|]. split; [exact Hf|]. split; [exact Hl|]. split; [exact Hc|].
    split; [exact Ed|exact Hd].
Defined.
