(* ===== verification/FollowerAlive.v ===== *)
(** * A follower that is never lost (follower.cpp)

    An invariant of the interleavings of [FollowerThreads.v] in which a server
    goes away only when no monitor runs, no constructor of a reader gives up
    on a server that answers, and the follower is not destroyed: somebody
    always takes care of the server, and the threads never block. *)

From S2P Require Import Prelude FollowerThreads.

(** ** Definitions *)

(** The schedules considered. *)
Definition calm (l : label) s : Prop :=
  match l with
  | LMonitor _ m => m <> TooLate
  | LDisconnect _ => Forall (eq MDone) (monitors s)
  | LDtor => False
  | LClient _ | LSocket _ => True
  end.

Inductive calm_run : follower -> list label -> follower -> Prop :=
| calm_nil s : calm_run s [] s
| calm_cons l ls s s1 s' : calm l s -> step l s = Some s1 -> calm_run s1 ls s' -> calm_run s (l :: ls) s'.

(** A client thread before it has started a monitor, with the value of
    [quit_]; and after, while [n] monitors have ended. *)
Definition before_async (quit : bool) (pc : client_pc) : Prop :=
  match pc with
  | CReceive | CDisconnected | CStore => True
  | CLock | CAsync => quit = false
  | _ => False
  end.
Definition after_async (n : nat) (pc : client_pc) : Prop :=
  match pc with
  | CAssign (Some i) => i < n
  | CAssign None | CUnlock | CCallback => True
  | _ => False
  end.

(** All client threads have ended, except that of [old], which has started the
    monitor, and that of [new], which receives. *)
Definition only (n : nat) (old new : option nat) (cs : list client_pc) : Prop :=
  forall r pc, cs !! r = Some pc ->
  pc = CDone \/ (old = Some r /\ after_async n pc) \/ (new = Some r /\ pc = CReceive).
Definition connected (rd : option nat) (cs : list client_pc) : Prop :=
  exists r, rd = Some r /\ cs !! r = Some CReceive /\ only 0 None (Some r) cs.

(** The state while the last of the monitors runs, at [pc], after [n] others. *)
Definition searching (n : nat) (quit : bool) (rd : option nat) (cs : list client_pc)
  (pc : monitor_pc) : Prop :=
  match pc with
  | MFind | MLock | MMake =>
      quit = false /\ only n rd None cs /\ forall r, rd = Some r -> r < length cs
  | MWhile =>
      if quit then connected rd cs
      else only n rd None cs /\ forall r, rd = Some r -> r < length cs
  | MReset old valid =>
      quit = false /\ exists r, rd = Some r /\ cs !! r = Some (if valid then CReceive else CDone) /\
      old <> Some r /\ only n old (if valid then Some r else None) cs
  | MTest valid => quit = false /\ if valid then connected rd cs else only n None None cs
  | MUnlock => if quit then connected rd cs else rd = None /\ only n None None cs
  | MExit => quit = true /\ connected rd cs
  | MJoin _ | MDone => False
  end.

(** Who holds the mutexes. *)
Definition monitor_owned s : Prop := forall t, monitor_mtx_ s = Some t ->
  exists r pc, t = TClient r /\ clients s !! r = Some pc /\ in_monitor pc = true.
Definition reader_owned s : Prop := forall t, reader_mtx_ s = Some t ->
  exists i pc, t = TMonitor i /\ monitors s !! i = Some pc /\ in_reader pc = true.

Inductive stage s : Prop :=
| stage_idle r pc :
    Forall (eq MDone) (monitors s) -> (forall i, monitor_ s = Some i -> i < length (monitors s)) ->
    reader_ s = Some r -> clients s !! r = Some pc -> before_async (quit_ s) pc ->
    (forall r' pc', clients s !! r' = Some pc' -> r' <> r -> pc' = CDone) -> stage s
| stage_search ms pc :
    monitors s = ms ++ [pc] -> Forall (eq MDone) ms -> monitor_ s = Some (length ms) ->
    searching (length ms) (quit_ s) (reader_ s) (clients s) pc -> stage s.

Definition alive s : Prop :=
  dtor s = DNo /\ is_destructing_ s = false /\ monitor_owned s /\ reader_owned s /\ stage s.

(** What it means that the server is taken care of. *)
Definition cared_for s : Prop :=
  (exists r, reader_ s = Some r /\ clients s !! r = Some CReceive) \/
  (exists i pc, monitors s !! i = Some pc /\ pc <> MDone) \/
  (exists r pc, clients s !! r = Some pc /\ (pc = CDisconnected \/ pc = CStore \/ pc = CLock \/ pc = CAsync)).

(** ** Lists of threads *)

Lemma only_mono n n' old new cs : n <= n' -> only n old new cs -> only n' old new cs.
Proof.
  intros Hn Ho r pc E. destruct (Ho r pc E) as [?|[[? Ha]|?]]; [by left| |by right; right].
  right; left. split; [done|]. destruct pc as [| | | | |[i|]| | |]; simpl in *; try done. lia.
Qed.

Lemma only_insert n old new cs r pc :
  only n old new cs -> pc = CDone \/ (old = Some r /\ after_async n pc) -> only n old new (<[r := pc]> cs).
Proof.
  intros Ho Hpc r' pc' [(<- & <- & _)|[Hne E]]%list_lookup_insert_Some; [|by apply Ho].
  destruct Hpc; tauto.
Qed.

Lemma only_snoc n old cs pc : only n old None cs -> pc = CReceive \/ pc = CDone ->
  only n old (if bool_decide (pc = CReceive) then Some (length cs) else None) (cs ++ [pc]).
Proof.
  intros Ho Hpc r pc' [E|[Hge E]]%lookup_app_Some.
  - destruct (Ho r pc' E) as [?|[?|[? _]]]; [by left|by right; left|done].
  - apply list_lookup_singleton_Some in E as [Hr <-].
    destruct Hpc as [->| ->]; [|by left]. right; right. split; [|done]. f_equal. lia.
Qed.

(** The client of [old] has ended. *)
Lemma only_joined n old new cs : (forall r, old = Some r -> cs !! r = Some CDone \/ cs !! r = None) ->
  only n old new cs -> only 0 None new cs.
Proof.
  intros Hd Ho r pc E. destruct (Ho r pc E) as [?|[[Hr Ha]|?]]; [by left| |by right; right].
  destruct (Hd r Hr) as [E'|E']; rewrite E in E'; [|done]. injection E' as ->. done.
Qed.

Lemma only_step n old new cs r pc : only n old new cs -> cs !! r = Some pc -> pc <> CDone ->
  pc <> CReceive -> old = Some r /\ after_async n pc.
Proof. intros Ho E Hd Hc. destruct (Ho r pc E) as [?|[?|[_ ?]]]; done. Qed.

(** ** The invariant *)

(** A step of the last monitor: the mutex of the monitors does not change, the
    clients are extended; the reader mutex is taken, kept or given back. *)
Lemma search_intro q mm n mo rm rd ms (cs cs' : list client_pc) pc so :
  mo = Some n -> n = length ms -> Forall (eq MDone) ms -> searching n q rd cs' pc ->
  (forall t, mm = Some t -> exists r pc, t = TClient r /\ cs !! r = Some pc /\ in_monitor pc = true) ->
  (forall r pc, cs !! r = Some pc -> cs' !! r = Some pc) ->
  (forall t, rm = Some t -> t = TMonitor n /\ in_reader pc = true) ->
  alive (mkFollowerThreads q false mm mo rm rd (ms ++ [pc]) cs' DNo so).
Proof.
  intros -> -> Hm Hs Hmm Hcs Hrm. split; [done|]. split; [done|]. split; [|split].
  - intros t Ht. destruct (Hmm t Ht) as (r & pc' & -> & Hr & Hin). fields. eauto 6.
  - intros t Ht. destruct (Hrm t Ht) as [-> Hin]. fields. exists (length ms), pc.
    by rewrite last_lookup.
  - by eapply stage_search.
Qed.

(** The monitor has made a reader. *)
Lemma reader_made n rd cs (valid : bool) :
  only n rd None cs -> (forall r, rd = Some r -> r < length cs) ->
  let cs' := cs ++ [if valid then CReceive else CDone] in
  exists r, Some (length cs) = Some r /\ cs' !! r = Some (if valid then CReceive else CDone) /\
    rd <> Some r /\ only n rd (if valid then Some r else None) cs'.
Proof.
  intros Ho Hl cs'. exists (length cs). unfold cs'. rewrite last_lookup. do 2 (split; [done|]). split.
  - intros ->. specialize (Hl _ eq_refl). lia.
  - pose proof (only_snoc n rd cs (if valid then CReceive else CDone) Ho) as Hs.
    destruct valid; apply Hs; tauto.
Qed.

(** It deletes the previous one, whose client has ended. *)
Lemma delete_ended n old (valid : bool) r i s s' :
  clients s !! r = Some (if valid then CReceive else CDone) -> old <> Some r ->
  only n old (if valid then Some r else None) (clients s) ->
  match old with
  | None => Some (m_goto i (MTest valid) s)
  | Some ro => '(joined, s1) ← delete_reader ro s;
               Some (if joined : bool then m_goto i (MTest valid) s1 else s1)
  end = Some s' ->
  (forall ro, old = Some ro -> clients s !! ro = Some CDone \/ clients s !! ro = None) /\
  s' = m_goto i (MTest valid) s.
Proof.
  intros Hr Hold Ho E. destruct old as [ro|]; [|by injection E as <-].
  unfold delete_reader in E. destruct (clients s !! ro) as [pc|] eqn:Ero.
  - destruct (Ho ro pc Ero) as [->|[[_ Ha]|[Hn _]]].
    + injection E as <-. split; [|done]. intros ro' [= <-]. by left.
    + by destruct pc.
    + destruct valid; [congruence|done].
  - injection E as <-. split; [|done]. intros ro' [= <-]. by right.
Qed.

Lemma last_monitor ms pc i pc' :
  Forall (eq MDone) ms -> (ms ++ [pc]) !! i = Some pc' -> pc' = MDone \/ i = length ms /\ pc' = pc.
Proof.
  intros Hall [Ei|[Hge Ei]]%lookup_app_Some.
  - rewrite Forall_lookup in Hall. left. by rewrite (Hall _ _ Ei).
  - apply list_lookup_singleton_Some in Ei as [Hi <-]. right. split; [lia|done].
Qed.

Lemma alive_monitor i m s s' : m <> TooLate -> alive s -> monitor_step i m s = Some s' -> alive s'.
Proof.
  intros Hm (Hd & Hde & Hmm & Hrm & Hst) E. unfold monitor_step in E.
  destruct (monitors s !! i) as [pc|] eqn:Ei; [|done]. cbn [mbind option_bind] in E.
  destruct Hst as [r pcc Hall _ _ _ _ _|ms pc' Ems Hall Emo Hse].
  { rewrite Forall_lookup in Hall. by rewrite <- (Hall _ _ Ei) in E. }
  destruct s as [q de mm mo rm rd ms0 cs d so]. fields. subst.
  unfold monitor_owned, reader_owned in *. fields.
  destruct (last_monitor _ _ _ _ Hall Ei) as [->|[-> ->]]; [done|].
  assert (Hrm' : forall t, rm = Some t -> t = TMonitor (length ms) /\ in_reader pc' = true).
  { intros t Ht. destruct (Hrm t Ht) as (j & pcj & -> & Hj & Hin).
    by destruct (last_monitor _ _ _ _ Hall Hj) as [->|[-> ->]]. }
  clear Hrm Ei. fields.
  destruct pc' as [| | | |new|old valid|valid| | |]; cbn [searching] in Hse; fields; try done.
  - injection E as <-. destruct q; fields; rewrite last_insert;
      eapply (search_intro _ _ _ _ _ _ _ cs); try done; intros t Ht; by destruct (Hrm' t Ht).
  - destruct Hse as [-> Hse]. injection E as <-. destruct so; fields; rewrite last_insert;
      eapply (search_intro _ _ _ _ _ _ _ cs); try done; intros t Ht; by destruct (Hrm' t Ht).
  - destruct rm as [t|]; [done|]. injection E as <-. fields. rewrite last_insert.
    eapply (search_intro _ _ _ _ _ _ _ cs); try done. by intros t [= <-].
  - destruct Hse as (-> & Ho & Hl).
    destruct m; [| |done]; injection E as <-; fields; rewrite last_insert;
      (eapply (search_intro _ _ _ _ _ _ _ cs); try done; [|intros r pc; apply lookup_app_l_Some]);
      (split; [done|]); [by apply (reader_made _ _ _ true)|by apply (reader_made _ _ _ false)].
  - destruct Hse as (-> & r & -> & Hr & Hold & Ho).
    apply (delete_ended (length ms) _ _ r) in E as [Hj ->]; try done. fields. rewrite last_insert.
    eapply (search_intro _ _ _ _ _ _ _ cs); try done.
    apply (only_joined _ _ _ _ Hj) in Ho. split; [done|]. destruct valid.
    + by exists r.
    + by apply (only_mono 0); [lia|].
  - destruct Hse as [-> Hse]. injection E as <-. destruct valid; fields; rewrite last_insert;
      by eapply (search_intro _ _ _ _ _ _ _ cs).
  - injection E as <-. fields. rewrite last_insert. eapply (search_intro _ _ _ _ _ _ _ cs); try done.
    destruct q; [done|]. by destruct Hse as [-> Ho].
  - destruct Hse as [-> (r & -> & Hr & Ho)]. injection E as <-. fields. rewrite last_insert.
    split; [done|]. split; [done|]. split; [exact Hmm|]. split.
    { intros t Ht. fields. by destruct (Hrm' t Ht). }
    apply (stage_idle _ r CReceive); try done; fields.
    + rewrite Forall_app. by split; [|constructor].
    + intros i [= <-]. rewrite length_app. simpl. lia.
    + intros r' pc E' Hne. destruct (Ho r' pc E') as [?|[[? _]|[[= ->] _]]]; done.
Qed.

(** A step of a client thread while a monitor runs. *)
Lemma searching_client n q rd cs mpc r pc : searching n q rd cs mpc -> cs !! r = Some pc ->
  pc <> CDone -> pc <> CReceive ->
  after_async n pc /\ forall pc', pc' = CDone \/ after_async n pc' -> searching n q rd (<[r := pc']> cs) mpc.
Proof.
  intros Hs E Hd Hc.
  assert (Hcon : ~ connected rd cs).
  { intros (r0 & _ & _ & Ho). destruct (only_step _ _ _ _ _ _ Ho E Hd Hc); done. }
  assert (Hnone : ~ only n None None cs).
  { intros Ho. destruct (only_step _ _ _ _ _ _ Ho E Hd Hc); done. }
  assert (Hstep : forall old new, only n old new cs -> after_async n pc /\
    forall pc', pc' = CDone \/ after_async n pc' -> only n old new (<[r := pc']> cs)).
  { intros old new Ho. destruct (only_step _ _ _ _ _ _ Ho E Hd Hc) as [Hold Ha]. split; [done|].
    intros pc' Hpc'. apply only_insert; [done|]. tauto. }
  assert (Hidle : q = false /\ only n rd None cs /\ (forall r, rd = Some r -> r < length cs) ->
    after_async n pc /\ forall pc', pc' = CDone \/ after_async n pc' ->
    q = false /\ only n rd None (<[r := pc']> cs) /\
    forall r0, rd = Some r0 -> r0 < length (<[r := pc']> cs)).
  { intros (Hq & Ho & Hl). destruct (Hstep _ _ Ho) as [Ha Hi]. split; [done|].
    intros pc' Hpc'. rewrite length_insert. auto. }
  destruct mpc as [| | | | |old valid|valid| | |]; cbn [searching] in *; try done.
  - destruct q; [done|]. destruct Hs as [Ho Hl]. destruct (Hstep _ _ Ho) as [Ha Hi].
    split; [done|]. intros pc' Hpc'. rewrite length_insert. auto.
  - by apply Hidle.
  - by apply Hidle.
  - by apply Hidle.
  - destruct Hs as (Hq & r0 & Hrd & Hr0 & Hne & Ho). destruct (Hstep _ _ Ho) as [Ha Hi].
    split; [done|]. intros pc' Hpc'. split; [done|]. exists r0.
    assert (r <> r0) by (intros ->; rewrite E in Hr0; injection Hr0 as ->; by destruct valid).
    rewrite list_lookup_insert_ne by done. auto.
  - destruct Hs as [_ Hs]. by destruct valid.
  - destruct q; [done|]. by destruct Hs.
  - by destruct Hs.
Qed.

Lemma owned_insert (mm : option thread) (cs : list client_pc) r pc pc' :
  (forall t, mm = Some t -> exists r pc, t = TClient r /\ cs !! r = Some pc /\ in_monitor pc = true) ->
  cs !! r = Some pc -> in_monitor pc = true -> in_monitor pc' = true \/ mm <> Some (TClient r) ->
  forall t, mm = Some t ->
    exists r0 pc0, t = TClient r0 /\ <[r := pc']> cs !! r0 = Some pc0 /\ in_monitor pc0 = true.
Proof.
  intros Hmm E Hin Hin' t Ht. destruct (Hmm t Ht) as (r0 & pc0 & -> & E0 & Hin0).
  destruct (decide (r = r0)) as [->|Hne].
  - destruct Hin' as [Hin'|Hin']; [|done]. exists r0, pc'.
    rewrite list_lookup_insert_eq by (by eapply lookup_lt_Some). done.
  - exists r0, pc0. by rewrite list_lookup_insert_ne.
Qed.

Lemma owned_insert_out (mm : option thread) (cs : list client_pc) r pc pc' :
  (forall t, mm = Some t -> exists r pc, t = TClient r /\ cs !! r = Some pc /\ in_monitor pc = true) ->
  cs !! r = Some pc -> in_monitor pc = false ->
  forall t, mm = Some t ->
    exists r0 pc0, t = TClient r0 /\ <[r := pc']> cs !! r0 = Some pc0 /\ in_monitor pc0 = true.
Proof.
  intros Hmm E Hin t Ht. destruct (Hmm t Ht) as (r0 & pc0 & -> & E0 & Hin0).
  exists r0, pc0. rewrite list_lookup_insert_ne; [done|]. intros ->. congruence.
Qed.

Lemma alive_client_searching r s s' ms mpc :
  dtor s = DNo -> is_destructing_ s = false -> monitor_owned s -> reader_owned s ->
  monitors s = ms ++ [mpc] -> Forall (eq MDone) ms -> monitor_ s = Some (length ms) ->
  searching (length ms) (quit_ s) (reader_ s) (clients s) mpc -> client_step r s = Some s' -> alive s'.
Proof.
  intros Hd Hde Hmm Hrm Em Hall Emo Hse E. unfold client_step in E.
  destruct (clients s !! r) as [pc|] eqn:Er; [|done]. cbn [mbind option_bind] in E.
  destruct s as [q de mm mo rm rd ms0 cs d so]. unfold monitor_owned, reader_owned in *. fields. subst.
  destruct pc as [| | | | |old| | |]; try done;
    (destruct (searching_client _ _ _ _ _ _ _ Hse Er ltac:(done) ltac:(done)) as [Ha Hi]; try done).
  - destruct (ended _ _); [|done]. injection E as <-. fields. split; [done|]. split; [done|].
    split; [|split; [exact Hrm|]].
    + unfold monitor_owned. fields. by apply (owned_insert mm cs r (CAssign old)); [..|left].
    + eapply stage_search; try done. fields. apply Hi. by right.
  - injection E as <-. fields. split; [done|]. split; [done|]. split; [done|]. split; [exact Hrm|].
    eapply stage_search; try done. fields. apply Hi. by right.
  - injection E as <-. fields. split; [done|]. split; [done|]. split; [|split; [exact Hrm|]].
    + unfold monitor_owned. fields. by apply (owned_insert_out mm cs r CCallback).
    + eapply stage_search; try done. fields. apply Hi. by left.
Qed.

Lemma alive_client_idle r s s' r0 pc0 :
  dtor s = DNo -> is_destructing_ s = false -> monitor_owned s -> reader_owned s ->
  Forall (eq MDone) (monitors s) -> (forall i, monitor_ s = Some i -> i < length (monitors s)) ->
  reader_ s = Some r0 -> clients s !! r0 = Some pc0 -> before_async (quit_ s) pc0 ->
  (forall r' pc', clients s !! r' = Some pc' -> r' <> r0 -> pc' = CDone) ->
  client_step r s = Some s' -> alive s'.
Proof.
  intros Hd Hde Hmm Hrm Hall Hmo Hrd E0 Hb Hoth E. unfold client_step in E.
  destruct (clients s !! r) as [pc|] eqn:Er; [|done]. cbn [mbind option_bind] in E.
  destruct (decide (r = r0)) as [->|Hne]; [|rewrite (Hoth _ _ Er Hne) in E; done].
  rewrite E0 in Er. injection Er as <-. assert (Hl := lookup_lt_Some _ _ _ E0).
  destruct s as [q de mm mo rm rd ms cs d so]. unfold monitor_owned, reader_owned in *. fields. subst.
  assert (Hoth' : forall pc r' pc', <[r0 := pc]> cs !! r' = Some pc' -> r' <> r0 -> pc' = CDone).
  { intros pc r' pc' [(Heq & _)|[_ E']]%list_lookup_insert_Some Hne; [congruence|]. by apply (Hoth r'). }
  assert (Hidle : forall q' pc mm', before_async q' pc ->
    (forall t, mm' = Some t -> exists r1 pc1, t = TClient r1 /\ <[r0 := pc]> cs !! r1 = Some pc1 /\
       in_monitor pc1 = true) ->
    alive (mkFollowerThreads q' false mm' mo rm (Some r0) ms (<[r0 := pc]> cs) DNo so)).
  { intros q' pc mm' Hb' Hmm'. split; [done|]. split; [done|]. split; [exact Hmm'|]. split; [exact Hrm|].
    apply (stage_idle _ r0 pc); try done; fields; [by apply list_lookup_insert_eq|apply Hoth']. }
  destruct pc0; cbn [before_async] in Hb; try done.
  - injection E as <-. fields. apply Hidle; [done|]. by apply (owned_insert_out mm cs r0 CDisconnected).
  - injection E as <-. fields. apply Hidle; [done|]. by apply (owned_insert_out mm cs r0 CStore).
  - destruct mm as [t|]; [done|]. injection E as <-. subst q. fields. apply Hidle; [done|].
    intros t [= <-]. exists r0, CAsync. by rewrite list_lookup_insert_eq.
  - injection E as <-. subst q. fields. split; [done|]. split; [done|]. split; [|split].
    + unfold monitor_owned. fields. by apply (owned_insert mm cs r0 CAsync); [..|left].
    + intros t Ht. fields. destruct (Hrm t Ht) as (i & pc & -> & Hi & Hin). exists i, pc.
      split; [done|]. split; [by apply lookup_app_l_Some|done].
    + eapply stage_search; try done. fields. split.
      * intros r' pc' E'. destruct (decide (r' = r0)) as [->|Hne]; [|left; by apply (Hoth' _ _ _ E' Hne)].
        rewrite list_lookup_insert_eq in E' by done. injection E' as <-. right; left. split; [done|].
        destruct mo as [i|]; [by apply Hmo|done].
      * intros r' [= <-]. by rewrite length_insert.
Qed.

(** Every calm step keeps the invariant. *)
Lemma alive_step l s s' : calm l s -> alive s -> step l s = Some s' -> alive s'.
Proof.
  intros Hc Ha E. destruct l as [i m|r| |r|b]; cbn [step calm] in *; [| |done| |].
  - by apply (alive_monitor i m s).
  - destruct Ha as (Hd & Hde & Hmm & Hrm & [r0 pc0|ms mpc]);
      [by eapply alive_client_idle|by eapply alive_client_searching].
  - destruct (decide _) as [Er|]; [|done]. injection E as <-.
    destruct Ha as (Hd & Hde & Hmm & Hrm & [r0 pc0 Hall Hmo Hrd E0 Hb Hoth|ms mpc Em Hall _ Hse]).
    + destruct (decide (r = r0)) as [->|Hne]; [|by specialize (Hoth _ _ Er Hne)].
      rewrite Er in E0. injection E0 as <-. assert (Hl := lookup_lt_Some _ _ _ Er).
      destruct s as [q de mm mo rm rd ms cs d so]. unfold monitor_owned, reader_owned in *. fields. subst.
      split; [done|]. split; [done|]. split; [|split; [exact Hrm|]].
      * unfold monitor_owned. fields. by apply (owned_insert_out mm cs r0 CReceive).
      * apply (stage_idle _ r0 CDisconnected); try done; fields; [by apply list_lookup_insert_eq|].
        intros r' pc' [(Heq & _)|[_ E']]%list_lookup_insert_Some Hne; [congruence|]. by apply (Hoth r').
    + exfalso. rewrite Em, Forall_app, Forall_singleton in Hc. by destruct Hc as [_ <-].
  - injection E as <-. destruct Ha as (Hd & Hde & Hmm & Hrm & Hst).
    destruct s. split; [done|]. split; [done|]. split; [exact Hmm|]. split; [exact Hrm|].
    destruct Hst as [r0 pc0 ? ? ? ? ? ?|ms mpc ? ? ? ?];
      [by apply (stage_idle _ r0 pc0)|by apply (stage_search _ ms mpc)].
Qed.

Lemma alive_run s ls s' : calm_run s ls s' -> alive s -> alive s'.
Proof. induction 1; eauto using alive_step. Qed.

Lemma alive_initial s : constructed s -> alive s.
Proof.
  intros [->|[->| ->]]; (split; [done|]; split; [done|]; split; [done|]; split; [done|]).
  - apply (stage_idle _ 0 CReceive); try done. cbn. intros [|[|r]] pc; by cbn.
  - apply (stage_search _ [] MWhile); try done. cbn. split; [|intros r [= <-]; lia].
    intros [|[|r]] pc; cbn; try done. intros [= <-]. by left.
  - by apply (stage_search _ [] MWhile).
Qed.

(** ** Progress *)

(** Steps that remain, if a server is there and answers. *)
Definition client_work (pc : client_pc) : nat :=
  match pc with
  | CDone | CReceive => 0
  | CCallback => 1 | CUnlock => 2 | CAssign _ => 3
  | CAsync => 13 | CLock => 14 | CStore => 15 | CDisconnected => 16
  end.
Definition monitor_work (quit : bool) (pc : monitor_pc) : nat :=
  match pc with
  | MDone => 0 | MExit => 1
  | MWhile => if quit then 2 else 9
  | MUnlock => if quit then 3 else 10
  | MTest valid => if valid then 4 else 11
  | MReset _ valid => if valid then 5 else 12
  | MMake => 6 | MLock => 7 | MFind => 8 | MJoin _ => 0
  end.
Definition work_left s : nat :=
  sum_list_with client_work (clients s) + sum_list_with (monitor_work (quit_ s)) (monitors s).

Lemma sum_insert {A} (f : A -> nat) l i x y : l !! i = Some x ->
  sum_list_with f (<[i := y]> l) + f x = sum_list_with f l + f y.
Proof.
  revert i. induction l as [|z l IH]; intros [|i]; simpl; try done; [intros [= ->]; lia|].
  intros E. specialize (IH i E). simpl in IH. lia.
Qed.

Lemma sum_done q ms : Forall (eq MDone) ms -> sum_list_with (monitor_work q) ms = 0.
Proof. by induction 1 as [|pc ms <- _ IH]. Qed.

(** A step of a thread, with a server that answers. *)
Definition working (l : label) : Prop :=
  match l with LMonitor _ m => m = Valid | LClient _ => True | _ => False end.

(** The step is possible and leaves less to do. *)
Definition lighter (l : label) s : Prop :=
  exists s', step l s = Some s' /\ socket s' = socket s /\ work_left s' < work_left s.

Lemma client_lighter r pc s : clients s !! r = Some pc -> pc <> CDone -> pc <> CReceive ->
  is_destructing_ s = false ->
  (pc = CLock -> monitor_mtx_ s = None) ->
  (forall old, pc = CAssign old -> ended old s = true) ->
  before_async (quit_ s) pc /\ Forall (eq MDone) (monitors s) \/ (exists n, after_async n pc) ->
  lighter (LClient r) s.
Proof.
  intros E Hd Hc Hde Hl Ha Hst. unfold lighter. cbn [step]. unfold client_step. rewrite E. cbn [mbind option_bind].
  destruct s as [q de mm mo rm rd ms cs d so]. fields. subst.
  destruct Hst as [[Hb Hall]|[n Hn]]; destruct pc as [| | | | |old| | |]; try done;
    cbn [before_async] in *.
  - eexists. split_and!; try done. unfold work_left. fields. pose proof (sum_insert client_work cs r _ CStore E) as Hw. simpl in Hw. lia.
  - eexists. split_and!; try done. unfold work_left. fields. rewrite !sum_done by auto.
    pose proof (sum_insert client_work cs r _ CLock E) as Hw. simpl in Hw. lia.
  - rewrite Hl by done. eexists. split_and!; try done. unfold work_left. fields.
    pose proof (sum_insert client_work cs r _ CAsync E) as Hw. simpl in Hw. lia.
  - subst q. eexists. split_and!; try done. unfold work_left. fields.
    pose proof (sum_insert client_work cs r _ (CAssign mo) E) as Hw. simpl in Hw. rewrite sum_list_with_app, sum_done by done. simpl. lia.
  - rewrite (Ha _ eq_refl). eexists. split_and!; try done. unfold work_left. fields.
    pose proof (sum_insert client_work cs r _ CUnlock E) as Hw. simpl in Hw. lia.
  - eexists. split_and!; try done. unfold work_left. fields. pose proof (sum_insert client_work cs r _ CCallback E) as Hw. simpl in Hw. lia.
  - eexists. split_and!; try done. unfold work_left. fields. pose proof (sum_insert client_work cs r _ CDone E) as Hw. simpl in Hw. lia.
Qed.

Lemma work_last q de mm mo rm rd ms pc cs d so : Forall (eq MDone) ms ->
  work_left (mkFollowerThreads q de mm mo rm rd (ms ++ [pc]) cs d so) =
    sum_list_with client_work cs + monitor_work q pc.
Proof. intros Hall. unfold work_left. cbn. rewrite sum_list_with_app, sum_done by done. simpl. lia. Qed.

(** The monitor, when no client thread is in its way. *)
Lemma monitor_lighter s ms pc : monitors s = ms ++ [pc] -> Forall (eq MDone) ms ->
  searching (length ms) (quit_ s) (reader_ s) (clients s) pc -> socket s = true ->
  (forall v old, pc = MReset (Some old) v -> clients s !! old = Some CDone \/ clients s !! old = None) ->
  (pc = MLock -> reader_mtx_ s = None) -> lighter (LMonitor (length ms) Valid) s.
Proof.
  intros Em Hall Hse Hso Hold Hlock. unfold lighter. cbn [step]. unfold monitor_step. rewrite Em, last_lookup. cbn [mbind option_bind].
  destruct s as [q de mm mo rm rd ms0 cs d so]. fields. subst.
  destruct pc as [| | | | |old valid|valid| | |]; cbn [searching] in Hse; try done.
  all: try (eexists; split_and!; [reflexivity|try (by destruct q)|]; fields; rewrite last_insert;
    rewrite !work_last by done; rewrite ?sum_list_with_app; destruct q; simpl; lia).
  - rewrite Hlock by done. eexists. split_and!; [reflexivity|done|]. fields. rewrite last_insert.
    rewrite !work_last by done. simpl. lia.
  - exists (mkFollowerThreads q de mm mo rm rd (ms ++ [MTest valid]) cs d true). split_and!; [|done|].
    + unfold delete_reader. destruct old as [r|]; fields; [|by rewrite last_insert].
      destruct (Hold _ _ eq_refl) as [-> | ->]; cbn [mbind option_bind]; fields; by rewrite last_insert.
    + rewrite !work_last by done. destruct valid; simpl; lia.
  - destruct Hse as [-> _]. destruct valid; (eexists; split_and!; [reflexivity|done|]); fields;
      rewrite last_insert; rewrite !work_last by done; simpl; lia.
Qed.

(** What the two kinds of steps need, from a state of the invariant. *)
Lemma after_async_ended n ms q de mm mo rm rd cs d so old pc : Forall (eq MDone) ms -> n = length ms ->
  after_async n (CAssign old) -> ended old (mkFollowerThreads q de mm mo rm rd (ms ++ [pc]) cs d so) = true.
Proof.
  intros Hall -> Ha. destruct old as [i|]; [|done]. cbn [after_async] in Ha. apply bool_decide_eq_true. cbn.
  destruct (lookup_lt_is_Some_2 ms i Ha) as [pc' E]. rewrite (lookup_app_l_Some _ _ _ _ E).
  rewrite Forall_lookup in Hall. by rewrite (Hall _ _ E).
Qed.

Lemma reader_lock_free s : reader_owned s -> Forall (fun pc => in_reader pc = false) (monitors s) ->
  reader_mtx_ s = None.
Proof.
  intros Hrm Hall. destruct (reader_mtx_ s) as [t|] eqn:E; [|done].
  destruct (Hrm t E) as (i & pc & _ & Hi & Hin). rewrite Forall_lookup in Hall. apply Hall in Hi. congruence.
Qed.

Lemma all_done_out ms : Forall (eq MDone) ms -> Forall (fun pc => in_reader pc = false) ms.
Proof. induction 1 as [|pc ms <-]; by constructor. Qed.

(** With a server, either a reader is connected and everything rests, or a
    thread can work. *)
Lemma alive_goes_on s : alive s -> socket s = true ->
  (exists r, following r s) \/ (exists l, working l /\ lighter l s).
Proof.
  intros (Hd & Hde & Hmm & Hrm & Hst) Hso.
  destruct Hst as [r pc Hall Hmo Hrd E Hb Hoth|ms mpc Em Hall Hmo Hse].
  - assert (Hm : in_monitor pc = false -> monitor_mtx_ s = None).
    { intros Hin. destruct (monitor_mtx_ s) as [t|] eqn:Et; [|done].
      destruct (Hmm t Et) as (r' & pc' & _ & E' & Hin'). destruct (decide (r' = r)) as [->|Hne]; [congruence|].
      by rewrite (Hoth _ _ E' Hne) in Hin'. }
    destruct (decide (pc = CReceive)) as [->|Hne].
    + left. exists r. unfold following. split_and!; try done; [by apply Hm|].
      apply (reader_lock_free _ Hrm). by apply all_done_out.
    + right. exists (LClient r). split; [done|].
      apply (client_lighter r pc); try done; [by intros ->|by intros ->; apply Hm|by intros ? ->|by left].
  - right. assert (Hcase : (exists v old pc, mpc = MReset (Some old) v /\ clients s !! old = Some pc /\ pc <> CDone) \/
      forall v old, mpc = MReset (Some old) v -> clients s !! old = Some CDone \/ clients s !! old = None).
    { destruct mpc as [| | | | |[old|] v|v| | |]; try (by right; intros).
      destruct (clients s !! old) as [pc|] eqn:E; [|right; intros ? ? [= -> ->]; by right].
      destruct (decide (pc = CDone)) as [->|]; [right; intros ? ? [= -> ->]; by left|]. left. eauto 6. }
    destruct Hcase as [(v & old & pc & -> & E & Hne)|Hno].
    + exists (LClient old). split; [done|]. cbn [searching] in Hse.
      destruct Hse as (_ & r0 & _ & _ & Hold & Ho).
      destruct (Ho old pc E) as [?|[[_ Ha]|[Hn _]]]; [done| |destruct v; congruence].
      apply (client_lighter old pc); try done; [by intros ->|by intros ->| |right; by eexists].
      intros old' ->. destruct s. fields. subst. by eapply after_async_ended.
    + exists (LMonitor (length ms) Valid). split; [done|].
      apply (monitor_lighter s ms mpc); try done.
      intros ->. apply (reader_lock_free _ Hrm). rewrite Em, Forall_app. split; [by apply all_done_out|].
        by constructor.
Qed.

(** Every step of a thread leaves less to do. *)
Lemma working_monitor i s s' : alive s -> socket s = true -> step (LMonitor i Valid) s = Some s' ->
  socket s' = true /\ work_left s' < work_left s.
Proof.
  intros (Hd & Hde & Hmm & Hrm & Hst) Hso E.
  assert (Hi : exists pc, monitors s !! i = Some pc /\ pc <> MDone).
  { cbn [step] in E. unfold monitor_step in E. destruct (monitors s !! i) as [pc|] eqn:Ei; [|done].
    exists pc. split; [done|]. by intros ->. }
  destruct Hi as (pc & Ei & Hne). destruct Hst as [r pcc Hall _ _ _ _ _|ms mpc Em Hall Hmo Hse].
  { rewrite Forall_lookup in Hall. by destruct (Hne (eq_sym (Hall _ _ Ei))). }
  assert (Hlast : i = length ms /\ pc = mpc).
  { rewrite Em in Ei. apply lookup_app_Some in Ei as [Ei|[Hge Ei]].
    - rewrite Forall_lookup in Hall. by destruct (Hne (eq_sym (Hall _ _ Ei))).
    - apply list_lookup_singleton_Some in Ei as [Hi <-]. split; [lia|done]. }
  destruct Hlast as [-> ->].
  destruct (monitor_lighter s ms mpc Em Hall Hse Hso) as (s1 & E1 & Hs1 & Hlt).
  - intros v old ->. cbn [step] in E. unfold monitor_step, delete_reader in E. rewrite Ei in E.
    cbn [mbind option_bind] in E. destruct (clients s !! old) as [pc|] eqn:Eo; [left|by right].
    destruct pc; try done. exfalso. destruct Hse as (_ & r & _ & _ & Hold & Ho).
    destruct (Ho old _ Eo) as [?|[[_ ?]|[? _]]]; [done|done|destruct v; congruence].
  - intros ->. cbn [step] in E. unfold monitor_step in E. rewrite Ei in E. cbn [mbind option_bind] in E.
    by destruct (reader_mtx_ s).
  - rewrite E in E1. injection E1 as <-. by rewrite Hs1.
Qed.

Lemma working_client r s s' : alive s -> socket s = true -> step (LClient r) s = Some s' ->
  socket s' = true /\ work_left s' < work_left s.
Proof.
  intros (Hd & Hde & Hmm & Hrm & Hst) Hso E.
  assert (Hr : exists pc, clients s !! r = Some pc /\ pc <> CDone /\ pc <> CReceive /\
    (pc = CLock -> monitor_mtx_ s = None) /\ (forall old, pc = CAssign old -> ended old s = true)).
  { cbn [step] in E. unfold client_step in E. destruct (clients s !! r) as [pc|] eqn:Er; [|done].
    cbn [mbind option_bind] in E. exists pc. split; [done|].
    destruct pc; split_and!; intros; try done; [by destruct (monitor_mtx_ s)|]. simplify_eq.
    by destruct (ended _ _). }
  destruct Hr as (pc & Er & Hd1 & Hc1 & Hl & Hold).
  assert (Hl' : lighter (LClient r) s).
  { apply (client_lighter r pc); try done. destruct Hst as [r0 pc0 Hall _ _ E0 Hb Hoth|ms mpc _ _ _ Hse].
    - left. split; [|done]. destruct (decide (r = r0)) as [->|Hne]; [by rewrite Er in E0; injection E0 as ->|].
      by destruct (Hd1 (Hoth _ _ Er Hne)).
    - right. destruct (searching_client _ _ _ _ _ _ _ Hse Er Hd1 Hc1). eauto. }
  destruct Hl' as (s1 & E1 & Hs1 & Hlt). rewrite E in E1. injection E1 as <-. by rewrite Hs1.
Qed.

Lemma working_run ls s s' : alive s -> socket s = true -> Forall working ls -> run ls s = Some s' ->
  alive s' /\ socket s' = true /\ length ls + work_left s' <= work_left s.
Proof.
  intros Ha Hso Hw. revert s Ha Hso. induction Hw as [|l ls Hl _ IH]; intros s Ha Hso E; cbn [run] in E.
  { injection E as <-. by split_and!. }
  destruct (step l s) as [s1|] eqn:E1; [|done].
  assert (H1 : alive s1 /\ socket s1 = true /\ work_left s1 < work_left s).
  { destruct l as [i m|r| | |]; try done.
    - cbn [working] in Hl. subst m. split; [by apply (alive_step _ _ _ (ltac:(done) : calm (LMonitor i Valid) s) Ha)|].
      by apply (working_monitor i).
    - split; [by apply (alive_step _ _ _ (I : calm (LClient r) s) Ha)|]. by apply (working_client r). }
  destruct H1 as (Ha1 & Hso1 & Hlt). destruct (IH s1 Ha1 Hso1 E) as (? & ? & ?). split_and!; try done.
  cbn [length]. lia.
Qed.

(** ** How much there is to do *)

Lemma sum_one {A} (f : A -> nat) n l i : (forall j x, l !! j = Some x -> j <> i -> f x = 0) ->
  (forall x, l !! i = Some x -> f x <= n) -> sum_list_with f l <= n.
Proof.
  revert i n. induction l as [|x l IH]; intros i n Ho Hi; simpl; [lia|]. destruct i as [|i].
  - assert (sum_list_with f l <= 0).
    { apply (IH (length l)); [intros; by apply (Ho (S j) x0)|]. intros y Hy%lookup_lt_Some. lia. }
    specialize (Hi x eq_refl). lia.
  - rewrite (Ho 0 x eq_refl) by done. apply (IH i); [|done]. intros j y Hj Hne. apply (Ho (S j)); [done|lia].
Qed.

Lemma only_work n old new cs : only n old new cs -> sum_list_with client_work cs <= 3.
Proof.
  intros Ho. apply (sum_one _ _ _ (default (length cs) old)).
  - intros r pc E Hne. destruct (Ho r pc E) as [->|[[Hr _]|[_ ->]]]; [done| |done].
    by rewrite Hr in Hne.
  - intros pc E. destruct (Ho _ pc E) as [->|[[_ Ha]|[_ ->]]]; simpl; [lia| |lia].
    destruct pc; simpl in *; try done; lia.
Qed.

Lemma searching_only n q rd cs pc : searching n q rd cs pc -> exists n old new, only n old new cs.
Proof.
  destruct pc as [| | | | |old v|v| | |]; cbn [searching]; try (by intros []; eauto).
  - destruct q; [intros (? & _ & _ & ?)|intros [? _]]; eauto.
  - intros (_ & ? & _); eauto.
  - intros (_ & ? & _); eauto.
  - intros (_ & ? & _); eauto.
  - intros (_ & ? & _ & _ & _ & ?); eauto.
  - intros [_ H]. destruct v; [destruct H as (? & _ & _ & ?)|]; eauto.
  - destruct q; [intros (? & _ & _ & ?)|intros [_ ?]]; eauto.
  - intros (_ & ? & _ & _ & ?); eauto.
Qed.

Lemma work_bound s : alive s -> work_left s <= 16.
Proof.
  intros (_ & _ & _ & _ & [r pc Hall _ _ E _ Hoth|ms mpc Em Hall _ Hse]); unfold work_left.
  - rewrite sum_done by done. enough (sum_list_with client_work (clients s) <= 16) by lia.
    apply (sum_one _ _ _ r).
    + intros r' pc' E' Hne. by rewrite (Hoth _ _ E' Hne).
    + intros pc' _. destruct pc'; simpl; lia.
  - destruct (searching_only _ _ _ _ _ Hse) as (n & old & new & Ho). apply only_work in Ho.
    rewrite Em, sum_list_with_app, sum_done by done. simpl.
    enough (monitor_work (quit_ s) mpc <= 12) by lia.
    destruct mpc as [| | | | |? v|v| | |]; simpl; try lia; repeat case_match; lia.
Qed.

(** ** Theorems *)

(** At most one monitor runs, and at most one reader receives. *)
Lemma alive_one s : alive s ->
  (forall i j pc pc', monitors s !! i = Some pc -> monitors s !! j = Some pc' ->
     pc <> MDone -> pc' <> MDone -> i = j) /\
  (forall r r', clients s !! r = Some CReceive -> clients s !! r' = Some CReceive -> r = r').
Proof.
  intros (_ & _ & _ & _ & [r pc Hall _ _ E _ Hoth|ms mpc Em Hall _ Hse]).
  - split.
    + intros i j p p' Hi _ Hp. rewrite Forall_lookup in Hall. by destruct (Hp (eq_sym (Hall _ _ Hi))).
    + intros r1 r2 E1 E2. destruct (decide (r1 = r)) as [->|Hne]; [|by specialize (Hoth _ _ E1 Hne)].
      destruct (decide (r2 = r)) as [->|Hne]; [done|by specialize (Hoth _ _ E2 Hne)].
  - split.
    + assert (Hi : forall i p, monitors s !! i = Some p -> p <> MDone -> i = length ms).
      { intros i p. rewrite Em. intros [Ei|[Hge Ei]]%lookup_app_Some Hp.
        - rewrite Forall_lookup in Hall. by destruct (Hp (eq_sym (Hall _ _ Ei))).
        - apply list_lookup_singleton_Some in Ei as [? _]. lia. }
      intros i j p p' E1 E2 Hp Hp'. by rewrite (Hi _ _ E1 Hp), (Hi _ _ E2 Hp').
    + destruct (searching_only _ _ _ _ _ Hse) as (n & old & new & Ho). intros r1 r2 E1 E2.
      destruct (Ho _ _ E1) as [?|[[_ ?]|[H1 _]]]; [done|done|].
      destruct (Ho _ _ E2) as [?|[[_ ?]|[H2 _]]]; [done|done|congruence].
Qed.

Lemma alive_cared_for s : alive s -> cared_for s.
Proof.
  intros (_ & _ & _ & _ & [r pc _ _ Hr E Hb _|ms mpc Em _ _ Hse]).
  - destruct pc; try done; [left; by exists r|right; right; eauto 7..].
  - right; left. exists (length ms), mpc. rewrite Em, last_lookup. split; [done|]. by intros ->.
Qed.

(** C7: from its construction on, along every interleaving of its threads with
    servers that come and go, the follower takes care of the server: its reader
    is connected, or a monitor looks for a server, or the client thread of a
    reader is about to start one.  There is never more than one monitor nor
    more than one reader that receives.  This holds when a server goes away
    only while no monitor runs, no constructor of a reader gives up on a server
    that answers, and the follower is not destroyed. *)
Theorem always_followed s0 ls s :
  constructed s0 -> calm_run s0 ls s ->
  cared_for s /\
  (forall i j pc pc', monitors s !! i = Some pc -> monitors s !! j = Some pc' ->
     pc <> MDone -> pc' <> MDone -> i = j) /\
  (forall r r', clients s !! r = Some CReceive -> clients s !! r' = Some CReceive -> r = r').
Proof.
  intros H0 Hr. assert (Ha := alive_run _ _ _ Hr (alive_initial _ H0)).
  split; [by apply alive_cared_for|by apply alive_one].
Qed.

(** The threads can finish their work. *)
Lemma alive_finishes n s : alive s -> socket s = true -> work_left s <= n ->
  exists ls s' r, Forall working ls /\ run ls s = Some s' /\ following r s'.
Proof.
  revert s. induction n as [|n IH]; intros s Ha Hso Hn;
    (destruct (alive_goes_on s Ha Hso) as [[r Hf]|(l & Hl & s1 & E & _ & Hlt)];
     [by exists [], s, r; split; [constructor|]|]); [lia|].
  destruct (working_run [l] s s1 Ha Hso) as (Ha1 & Hso1 & _); [by repeat constructor|by cbn; rewrite E|].
  destruct (IH s1 Ha1 Hso1) as (ls & s' & r & Hw & Er & Hf); [lia|].
  exists (l :: ls), s', r. split; [by constructor|]. split; [cbn; by rewrite E|done].
Qed.

(** C8: the follower connects again.  From the state after any run in which a
    server goes away only while no monitor runs, no constructor of a reader
    gives up on a server that answers, and the follower is not destroyed, let
    a server be there that stays and accepts the readers.  Then the threads do
    at most 16 steps, in whatever order; from wherever they are they can go on
    within these 16 to a state in which a reader is connected, every monitor
    and every other client thread has ended and the mutexes are free; and they
    rest in no other state. *)
Theorem recovers s0 ls s ls' s' :
  constructed s0 -> calm_run s0 ls s -> socket s = true ->
  Forall working ls' -> run ls' s = Some s' ->
  (exists ls'' s'' r, Forall working ls'' /\ run ls'' s' = Some s'' /\ following r s'' /\
     length (ls' ++ ls'') <= 16) /\
  ((forall l, working l -> step l s' = None) -> exists r, following r s').
Proof.
  intros H0 Hr Hso Hw E. assert (Ha := alive_run _ _ _ Hr (alive_initial _ H0)).
  destruct (working_run _ _ _ Ha Hso Hw E) as (Ha' & Hso' & _). split.
  - destruct (alive_finishes _ s' Ha' Hso' (le_n _)) as (ls'' & s'' & r & Hw' & E' & Hf).
    exists ls'', s'', r. split_and!; try done.
    destruct (working_run (ls' ++ ls'') s s'' Ha Hso) as (_ & _ & Hlen); [by apply Forall_app|
      by rewrite (run_app _ _ _ _ E)|]. pose proof (work_bound s Ha). lia.
  - intros Hrest. destruct (alive_goes_on s' Ha' Hso') as [?|(l & Hl & s'' & E' & _)]; [done|].
    by rewrite (Hrest l Hl) in E'.
Qed.

(** The server goes away and comes back; the monitor starts at once, and the
    two threads alternate. *)
Definition goes_away : list label := [LDisconnect 0; LSocket false; LClient 0; LClient 0; LSocket true].
Definition comes_back : list label :=
  client_turns 0 2 ++ [LMonitor 0 Valid; LClient 0; LMonitor 0 Valid; LClient 0; LMonitor 0 Valid; LClient 0] ++
  monitor_turns 0 6.

Lemma goes_away_calm : exists s, calm_run with_valid_reader goes_away s /\ socket s = true /\
  run goes_away with_valid_reader = Some s.
Proof.
  eexists. split; [|split; [|vm_compute; reflexivity]]; [|done].
  repeat (eapply calm_cons; [by try constructor|reflexivity|]). apply calm_nil.
Qed.

Lemma always_followed_witness : exists s, calm_run with_valid_reader goes_away s /\ cared_for s.
Proof.
  destruct goes_away_calm as (s & Hc & _). exists s. split; [exact Hc|].
  apply (always_followed with_valid_reader goes_away s (or_introl eq_refl) Hc).
Defined.

(** After the first seven of these steps. *)
Lemma recovers_witness : exists s s' ls'' s'' r, calm_run with_valid_reader goes_away s /\
  run (take 7 comes_back) s = Some s' /\ ~ following 1 s' /\
  run ls'' s' = Some s'' /\ following r s'' /\ length ls'' <= 9 /\
  exists s1, run comes_back s = Some s1 /\ following 1 s1.
Proof.
  destruct goes_away_calm as (s & Hc & Hso & E).
  assert (Hw : forall k, Forall working (take k comes_back)) by (intros k; apply Forall_take; by repeat constructor).
  destruct (run (take 7 comes_back) s) as [s'|] eqn:E'; [|exfalso; vm_compute in E; injection E as <-; by vm_compute in E'].
  destruct (run comes_back s) as [s1|] eqn:E1; [|exfalso; vm_compute in E; injection E as <-; by vm_compute in E1].
  destruct (recovers with_valid_reader goes_away s _ s' (or_introl eq_refl) Hc Hso (Hw 7) E')
    as [(ls'' & s'' & r & _ & E'' & Hf & Hlen) _].
  destruct (recovers with_valid_reader goes_away s (take 14 comes_back) s1 (or_introl eq_refl) Hc Hso (Hw 14) E1)
    as [_ Hrest].
  exists s, s', ls'', s'', r. rewrite length_app in Hlen. cbn [length take comes_back client_turns replicate app] in Hlen.
  split; [exact Hc|]. split; [done|]. split.
  { vm_compute in E. injection E as <-. vm_compute in E'. injection E' as <-. intros (H & _). by cbn in H. }
  split; [exact E''|]. split; [exact Hf|]. split; [cbn in Hlen; lia|]. exists s1. split; [done|].
  vm_compute in E. injection E as <-. vm_compute in E1. injection E1 as <-.
  assert (H : exists r, following r (mkFollowerThreads true false None (Some 0) None (Some 1) [MDone] [CDone; CReceive] DNo true)).
  { apply Hrest. intros [i m|r'| |r'|b] Hl; try done; cbn; unfold monitor_step, client_step; cbn.
    - by destruct i as [|[|i]].
    - by destruct r' as [|[|[|r']]]. }
  destruct H as (r' & Hr' & Hf'). injection Hr' as <-. by split.
Defined.
