(* ===== verification/CInterface.v ===== *)
(** * The C interface (cwriter.cpp, cfollower.cpp)

    Handles are pointers to C++ objects: [None] is NULL, and a method called
    on NULL is undefined.  The user's callbacks are pointers to functions that
    take the user's pointer. *)

From S2P Require Import Prelude Logger StdLib Posix PosixModel SysVSem SysVShm KernelLimits.
From S2P Require Import SocketProtocol UnixSocketServer UnixSocketClient Reader ReaderTheorems.
From S2P Require Import Writer WriterTheorems Follower.

(** ** The writer *)

Record CWriter (K : Type) := mkCWriter {
  on_client_connected_ : option (Z -> Z -> M (world K) unit);
  on_client_disconnected_ : option (Z -> Z -> M (world K) unit);
  cw_user_data_ : Z;
  writer_ : Writer }.
Arguments mkCWriter {K}.
Arguments on_client_connected_ {K}.
Arguments on_client_disconnected_ {K}.
Arguments cw_user_data_ {K}.
Arguments writer_ {K}.

(** A method through a handle. *)
Definition deref {W A B : Type} (handle : option A) (method : A -> M W B) : M W B :=
  match handle with Some object => method object | None => undef end.

Definition int_of_bool (b : bool) : Z := if b then 1%Z else 0%Z.

Section cwriter.
Context {K : Type} `{ErrnoOS K, SemOS K, ShmOS K, FileOS K, SockOS K}.
Implicit Types (w : option (CWriter K)) (access : option OneWriteAccess).

Definition with_writer (wr : Writer) (c : CWriter K) : CWriter K :=
  mkCWriter (on_client_connected_ c) (on_client_disconnected_ c) (cw_user_data_ c) wr.

(** [CWriter::CWriter] *)
Definition CWriter_ctor (pad path : cstr) (memsize : Z) (type_descr : cstr)
  (on_client_connected on_client_disconnected : option (Z -> Z -> M (world K) unit))
  (user_data unix_permission : Z) (turns : nat) : M (world K) (CWriter K) :=
  writer ← Writer_ctor pad (c_str path) memsize (c_str type_descr) unix_permission turns;
  mret (mkCWriter on_client_connected on_client_disconnected user_data writer).

(** The callbacks that the server of the writer is given: the two lambdas, and
    [on_client_error_] of [Writer::Writer]. *)
Definition CWriter_callbacks (c : CWriter K) : callbacks :=
  Callbacks
    (Some (fun id =>
       match on_client_connected_ c with Some f => f (cw_user_data_ c) id | None => mret tt end))
    (Some (fun id =>
       match on_client_disconnected_ c with Some f => f (cw_user_data_ c) id | None => mret tt end))
    (fun _ => deref (wr_sem_ (writer_ c)) cancel_commited_reader).

Definition shmdata_delete_writer w : M (world K) unit :=
  match w with Some c => Writer_dtor (writer_ c) | None => mret tt end.

Definition shmdata_make_writer (pad path : cstr) (memsize : Z) (type_descr : cstr)
  (on_client_connected on_client_disconnected : option (Z -> Z -> M (world K) unit))
  (user_data unix_permission : Z) (turns : nat) : M (world K) (option (CWriter K)) :=
  res ← CWriter_ctor pad path memsize type_descr on_client_connected on_client_disconnected
          user_data unix_permission turns;
  if wr_is_valid_ (writer_ res) then mret (Some res)
  else (shmdata_delete_writer (Some res);; mret None).

Definition shmdata_copy_to_shm w (data : cstr) : M (world K) (Z * option (CWriter K)) :=
  deref w (fun c =>
    '(res, wr) ← copy_to_shm data (writer_ c); mret (int_of_bool res, Some (with_writer wr c))).

Definition shmdata_get_one_write_access w : M (world K) (option OneWriteAccess) :=
  deref w (fun c => a ← get_one_write_access (writer_ c); mret (Some a)).

Definition shmdata_get_one_write_access_resize w (new_size : Z)
  : M (world K) (option OneWriteAccess * option (CWriter K)) :=
  deref w (fun c =>
    '(a, wr) ← get_one_write_access_resize false new_size (writer_ c);
    mret (Some a, Some (with_writer wr c))).

(** An access works on the writer it was made by, [w] in the functions below. *)
Definition shmdata_shm_resize w access (new_size : Z)
  : M (world K) (Z * option OneWriteAccess * option (CWriter K)) :=
  deref access (fun a => deref w (fun c =>
    '(size, a', wr) ← shm_resize new_size a (writer_ c);
    mret (size, Some a', Some (with_writer wr c)))).

Definition shmdata_get_mem access : M (world K) (option Z) :=
  deref access (fun a => mret (mem_ a)).

Definition shmdata_notify_clients w access (size : Z)
  : M (world K) (Z * option OneWriteAccess * option (CWriter K)) :=
  deref access (fun a => deref w (fun c =>
    '(n, a', wr) ← notify_clients size a (writer_ c);
    mret (n, Some a', Some (with_writer wr c)))).

Definition shmdata_release_one_write_access access : M (world K) unit :=
  match access with Some a => OneWriteAccess_dtor a | None => mret tt end.

Definition shmdata_get_shmmax `{StdioOS K} (has_log : bool) : M (world K) Z := get_shmmax has_log.
Definition shmdata_get_shmmni `{StdioOS K} (has_log : bool) : M (world K) Z := get_shmmni has_log.
End cwriter.

(** ** The follower *)

Record CFollower (K : Type) := mkCFollower {
  cf_on_data_cb_ : option (Z -> option Z -> Z -> M (world K) unit);
  cf_on_server_connected_ : option (Z -> cstr -> M (world K) unit);
  cf_on_server_disconnected_ : option (Z -> M (world K) unit);
  cf_user_data_ : Z;
  follower_ : Follower }.
Arguments mkCFollower {K}.

Section cfollower.
Context {K : Type} `{ErrnoOS K, SemOS K, ShmOS K, FileOS K, SockOS K}.

(** The three lambdas of [CFollower::CFollower]. *)
Definition CFollower_cbs (on_data_cb : option (Z -> option Z -> Z -> M (world K) unit))
  (on_server_connected : option (Z -> cstr -> M (world K) unit))
  (on_server_disconnected : option (Z -> M (world K) unit)) (user_data : Z) : reader_cbs K :=
  ReaderCbs
    (Some (fun data size =>
       match on_data_cb with Some f => f user_data data size | None => mret tt end))
    (Some (fun type_descr =>
       match on_server_connected with Some f => f user_data (c_str type_descr) | None => mret tt end))
    (Some (match on_server_disconnected with Some f => f user_data | None => mret tt end)).

(** [CFollower::CFollower], [shmdata_make_follower]: the handle is never NULL. *)
Definition CFollower_ctor (pad : cstr) (turns : nat) (path : cstr)
  (on_data_cb : option (Z -> option Z -> Z -> M (world K) unit))
  (on_server_connected : option (Z -> cstr -> M (world K) unit))
  (on_server_disconnected : option (Z -> M (world K) unit)) (user_data : Z)
  : M (world K) (CFollower K) :=
  f ← Follower_ctor (CFollower_cbs on_data_cb on_server_connected on_server_disconnected user_data)
        pad turns (c_str path);
  mret (mkCFollower on_data_cb on_server_connected on_server_disconnected user_data f).

Definition shmdata_make_follower (pad : cstr) (turns : nat) (path : cstr)
  (on_data_cb : option (Z -> option Z -> Z -> M (world K) unit))
  (on_server_connected : option (Z -> cstr -> M (world K) unit))
  (on_server_disconnected : option (Z -> M (world K) unit)) (user_data : Z)
  : M (world K) (option (CFollower K)) :=
  res ← CFollower_ctor pad turns path on_data_cb on_server_connected on_server_disconnected user_data;
  mret (Some res).

(** [shmdata_delete_follower]; [quits] is for the monitor thread. *)
Definition shmdata_delete_follower (pad : cstr) (turns : nat) (quits : list bool)
  (follower : option (CFollower K)) : M (world K) unit :=
  match follower with
  | Some c =>
      _ ← Follower_dtor (CFollower_cbs (cf_on_data_cb_ K c) (cf_on_server_connected_ K c)
            (cf_on_server_disconnected_ K c) (cf_user_data_ K c)) pad turns quits (follower_ K c);
      mret tt
  | None => mret tt
  end.
End cfollower.

(** ** A program that writes in place

    The sequence of calls that the interface is made for: the frame is written
    at the address of the access, then announced, then the access released. *)

Section programs.
Context {K : Type} `{FileOS K} `{ErrnoOS K} `{SemOS K} `{ShmOS K} `{SockOS K}.

Definition write_in_place (data : cstr) (w : option (CWriter K))
  : M (world K) (Z * option (CWriter K)) :=
  access ← shmdata_get_one_write_access w;
  mem ← shmdata_get_mem access;
  copy_bytes mem data;;
  '(n, access', w') ← shmdata_notify_clients w access (Z.of_nat (length data));
  shmdata_release_one_write_access access';;
  mret (n, w').

Context `{!SemLaws K} `{!ShmLaws K} `{!SockLaws K} `{!FileLaws K} `{!FrameLaws K}.
Implicit Types (c : CWriter K) (k : K).

(** What it leaves: as [copy_to_shm] does, with nothing else changed in the
    segments of the process. *)
Definition in_place (data : cstr) (sem : sysVSem) (shm : sysVShm) (m : cstr)
  (srv srv' : UnixSocketServer) (k0 k : K) : Prop :=
  sem_vals k (semid_ sem) = Some [Z.of_nat (length (clients_notified_ srv')); 0%Z] /\
  seg_bytes k (shmid_ shm) = Some (data ++ drop (length data) m) /\
  seg_at k = seg_at k0 /\
  clients_notified_ srv' ⊆ clients_ srv /\ clients_ srv' = clients_ srv /\
  forall d, out k d =
    if decide (d ∈ clients_notified_ srv')
    then out k0 d ++ update_bytes (mkUpdateMsg (um_msg_type_ (srv_update_msg_ srv))
                                (um_pad (srv_update_msg_ srv)) (Z.of_nat (length data)))
    else out k0 d.

(** The announcement and the release of an access that holds the lock. *)
Lemma notify_release_spec size c sem srv mem k0 W :
  srv_ (writer_ c) = Some srv -> NoDup (clients_ srv) ->
  (Z.of_nat (length (clients_ srv)) < SHRT_MAX)%Z ->
  sem_at (semid_ sem) [1%Z; 1%Z] k0 (kern W) ->
  exists srv' w1 w2, let n := Z.of_nat (length (clients_notified_ srv')) in
    let acc := mkAccess (mkWriteLock sem true) mem in
    shmdata_notify_clients (Some c) (Some (acc false)) size W =
      (Ret (n, Some (acc true), Some (with_writer (with_srv (Some srv') (writer_ c)) c)), w1) /\
    shmdata_release_one_write_access (Some (acc true)) w1 = (Ret tt, w2) /\
    (n < SEMVMX)%Z /\ sem_vals (kern w2) (semid_ sem) = Some [n; 0%Z] /\
    shm_view (kern w2) = shm_view k0 /\
    clients_notified_ srv' ⊆ clients_ srv /\ clients_ srv' = clients_ srv /\
    forall d, out (kern w2) d =
      if decide (d ∈ clients_notified_ srv')
      then out k0 d ++ update_bytes (mkUpdateMsg (um_msg_type_ (srv_update_msg_ srv))
                                       (um_pad (srv_update_msg_ srv)) size)
      else out k0 d.
Proof using All.
  intros Hsrv Hnd Hl Hw.
  destruct (notify_commit_spec size sem srv k0 W Hnd Hl Hw)
    as (srv' & w3 & w4 & E3 & E4 & Hn & Hv4 & HU4 & Hsub & Hcl & Ho4).
  destruct (ktotal_run _ _ _ w4 (kt_WriteLock_dtor sem _ (kern w4) Hn))
    as ([] & w5 & E5 & Hv5 & HU5 & HK5); [by split|].
  exists srv', w4, w5. split.
  { unfold shmdata_notify_clients, deref, notify_clients. cbn [has_notified_]. rewrite Hsrv.
    unfold mbind at 1, M_bind at 1. rewrite (bind_ret _ _ _ _ _ E3). cbn beta iota.
    cbn [wlock_]. by rewrite (bind_ret _ _ _ _ _ E4). }
  split; [exact E5|]. split; [lia|]. split; [exact Hv5|]. split; [by rewrite HU5|].
  split; [done|]. split; [done|]. injection HK5 as _ Ho5 _ _. intros d. by rewrite Ho5, Ho4.
Qed.

Lemma write_in_place_spec data c sem srv shm p m a W :
  wr_sem_ (writer_ c) = Some sem -> wr_shm_ (writer_ c) = Some shm ->
  srv_ (writer_ c) = Some srv -> get_mem shm = Some p -> NoDup (clients_ srv) ->
  (Z.of_nat (length (clients_ srv)) < SHRT_MAX)%Z -> (0 <= a)%Z ->
  sem_vals (kern W) (semid_ sem) = Some [a; 0%Z] -> seg_at (kern W) p = Some (shmid_ shm) ->
  seg_bytes (kern W) (shmid_ shm) = Some m -> length data <= length m ->
  exists srv' W', let n := Z.of_nat (length (clients_notified_ srv')) in
    write_in_place data (Some c) W =
      (Ret (n, Some (with_writer (with_srv (Some srv') (writer_ c)) c)), W') /\
    in_place data sem shm m srv srv' (kern W) (kern W') /\ (n < SEMVMX)%Z.
Proof using All.
  intros Hsem Hshm Hsrv Hp Hnd Hl Ha Hv Hat Hm Hd. unfold write_in_place.
  destruct (ktotal_run _ _ _ W (kt_WriteLock_ctor sem a (kern W) Ha)) as (l & w1 & E1 & -> & Hw1).
  { by split. }
  rewrite (bind_ret _ _ _ (Some (mkAccess (mkWriteLock sem true) (get_mem shm) false)) w1).
  2: { unfold shmdata_get_one_write_access, deref, get_one_write_access. rewrite Hsem, Hshm.
       unfold mbind at 1, M_bind at 1. by rewrite (bind_ret _ _ _ _ _ E1). }
  rewrite (bind_ret _ _ _ (Some p) w1) by (cbn; by rewrite Hp).
  destruct Hw1 as (Hv1 & HU1 & HK1). injection HU1 as Eb1 _ Ea1 _.
  destruct (store_total p (shmid_ shm) m data w1) as (w2 & E2 & Hb2 & (_ & Ha2 & _) & HS2 & HK2);
    [by rewrite Ea1|by rewrite Eb1|done|].
  unfold copy_bytes. rewrite (bind_ret _ _ _ _ _ E2).
  injection HS2 as HS2 _ _. injection HK2 as _ Ho2 _ _. injection HK1 as _ Ho1 _ _.
  destruct (notify_release_spec (Z.of_nat (length data)) c sem srv (Some p) (kern w2) w2 Hsrv Hnd Hl)
    as (srv' & w4 & w5 & E4 & E5 & Hn & Hv5 & HU5 & Hsub & Hcl & Ho5).
  { split; [by rewrite HS2|done]. }
  exists srv', w5. split.
  - rewrite Hp, (bind_ret _ _ _ _ _ E4). cbn beta iota. by rewrite (bind_ret _ _ _ _ _ E5).
  - injection HU5 as Eb5 _ Ea5 _.
    split; [|exact Hn]. split; [exact Hv5|]. split; [by rewrite Eb5, Hb2|].
    split; [by rewrite Ea5, Ha2, Ea1|]. split; [done|]. split; [done|].
    intros d. by rewrite Ho5, Ho2, Ho1.
Qed.

(** C20: a C program that writes in place does what [shmdata_copy_to_shm] does:
    the segment starts with the data, the first semaphore is the number of
    clients notified, each was sent one update, and the call returns that
    number; when the number is not 0, a follower attached to the segment that
    gets the update calls its data callback once, with the user's pointer, on
    exactly the data, and one read less is owed. *)
Theorem frame_reaches_follower data c sem srv shm p m a W
  (f : Z -> cstr -> M (world K) unit) osc osd ud (r : Reader) fsem fshm q :
  wr_sem_ (writer_ c) = Some sem -> wr_shm_ (writer_ c) = Some shm ->
  srv_ (writer_ c) = Some srv -> get_mem shm = Some p -> NoDup (clients_ srv) ->
  (Z.of_nat (length (clients_ srv)) < SHRT_MAX)%Z -> (0 <= a)%Z ->
  sem_vals (kern W) (semid_ sem) = Some [a; 0%Z] -> seg_at (kern W) p = Some (shmid_ shm) ->
  seg_bytes (kern W) (shmid_ shm) = Some m -> length data <= length m ->
  rd_sem_ r = Some fsem -> semid_ fsem = semid_ sem -> rd_shm_ r = Some fshm ->
  get_mem fshm = Some q -> shmid_ fshm = shmid_ shm -> seg_at (kern W) q = Some (shmid_ fshm) ->
  cur_size_ r = Z.of_nat (length data) ->
  (forall n bs w1, sem_holds fsem [n; 0%Z] w1 ->
     exists w2, f ud bs w1 = (Ret tt, w2) /\ sem_holds fsem [n; 0%Z] w2) ->
  exists srv' W', let n := Z.of_nat (length (clients_notified_ srv')) in
    write_in_place data (Some c) W =
      (Ret (n, Some (with_writer (with_srv (Some srv') (writer_ c)) c)), W') /\
    in_place data sem shm m srv srv' (kern W) (kern W') /\
    ((0 < n)%Z -> exists W2,
       on_update (CFollower_cbs (Some (fun u => buffer_cb (f u))) osc osd ud) (cur_size_ r) r W' =
         (Ret r, W2) /\
       delivered (f ud) fsem n data W' W2 (fun k => seg_at k = seg_at (kern W'))).
Proof using All.
  intros Hsem Hshm Hsrv Hp Hnd Hl Ha Hv Hat Hm Hd Hrs Hid Hrh Hq Hsid Hqat Hsz Hf.
  destruct (write_in_place_spec data c sem srv shm p m a W) as (srv' & W' & E & Hpub & Hmax0); try done.
  exists srv', W'. split; [exact E|]. split; [exact Hpub|]. intros Hn.
  destruct Hpub as (Hv' & Hb' & Ha' & Hsub & Hcl & _).
  assert (Hmax : (0 < Z.of_nat (length (clients_notified_ srv')) <= SEMVMX)%Z) by lia.
  destruct (on_buffer_spec (CFollower_cbs (Some (fun u => buffer_cb (f u))) osc osd ud) (f ud) fsem
    (Z.of_nat (length (clients_notified_ srv'))) eq_refl (Hf _) Hmax r fshm q
    (data ++ drop (length data) m) (cur_size_ r) W') as (W2 & E2 & Hdel); try done.
  - unfold sem_holds. by rewrite Hid.
  - by rewrite Ha'.
  - by rewrite Hsid.
  - rewrite Hsz, length_app. lia.
  - exists W2. split.
    + unfold on_update. rewrite Z.eqb_refl. cbn [negb].
      rewrite (bind_ret _ _ _ (rd_shm_ r) W' eq_refl). cbn beta. rewrite same_size.
      by rewrite (bind_ret _ _ _ _ _ E2).
    + rewrite Hsz, Nat2Z.id, take_app_length in Hdel. exact Hdel.
Qed.
End programs.

(** ** Construction and destruction *)

Section make.
Context {K : Type} `{ErrnoOS K, SemOS K, ShmOS K, FileOS K, SockOS K}.

Lemma make_writer_result pad path memsize descr con dis ud perm turns W h W' :
  shmdata_make_writer (K := K) pad path memsize descr con dis ud perm turns W = (Ret h, W') ->
  match h with
  | Some c => wr_is_valid_ (writer_ c) = true /\
      writer_members (c_str path) memsize (writer_ c) /\
      option_map serving (srv_ (writer_ c)) = Some true /\
      on_client_connected_ c = con /\ on_client_disconnected_ c = dis /\ cw_user_data_ c = ud
  | None => exists wr W1,
      Writer_ctor pad (c_str path) memsize (c_str descr) perm turns W = (Ret wr, W1) /\
      wr_is_valid_ wr = false /\ writer_failed wr /\ Writer_dtor wr W1 = (Ret tt, W')
  end.
Proof.
  unfold shmdata_make_writer, CWriter_ctor, mbind, M_bind.
  destruct (Writer_ctor pad (c_str path) memsize (c_str descr) perm turns W)
    as [[wr|e| |] W1] eqn:E; try done. cbn.
  pose proof (writer_ctor_members _ _ _ _ _ _ _ _ _ E) as Hr.
  destruct (wr_is_valid_ wr) eqn:Hv; cbn.
  - intros [= <- <-]. by destruct Hr.
  - destruct (Writer_dtor wr W1) as [[[]|e| |] W2] eqn:E2; try done. intros [= <- <-].
    by exists wr, W1.
Qed.

Lemma make_writer_valid pad path memsize descr con dis ud perm turns W c W' :
  shmdata_make_writer (K := K) pad path memsize descr con dis ud perm turns W = (Ret (Some c), W') ->
  wr_is_valid_ (writer_ c) = true.
Proof. by intros [Hv _]%make_writer_result. Qed.

(** [shmdata_make_writer] gives a handle exactly when the writer can be
    used; when it gives NULL, the C++ object that failed was destroyed with
    what it still held. *)
Theorem make_writer_handle pad path memsize descr con dis ud perm turns W h W' :
  shmdata_make_writer (K := K) pad path memsize descr con dis ud perm turns W = (Ret h, W') ->
  match h with
  | Some c => wr_is_valid_ (writer_ c) = true /\
      writer_members (c_str path) memsize (writer_ c) /\
      option_map serving (srv_ (writer_ c)) = Some true /\
      on_client_connected_ c = con /\ on_client_disconnected_ c = dis /\ cw_user_data_ c = ud
  | None => exists wr W1,
      Writer_ctor pad (c_str path) memsize (c_str descr) perm turns W = (Ret wr, W1) /\
      wr_is_valid_ wr = false /\ writer_failed wr /\ Writer_dtor wr W1 = (Ret tt, W')
  end.
Proof. apply make_writer_result. Qed.
End make.

(** ** Concrete instances *)

Definition example_cwriter : CWriter kernel := mkCWriter None None 7 shared_writer.
Definition log_user_frame (ud : Z) (bs : cstr) : M (world kernel) unit :=
  log LInfo (to_string ud ++ $" " ++ bs) [].

Lemma frame_reaches_follower_witness : exists w' W' W2,
  write_in_place $"uvwxyz" (Some example_cwriter) (shared_world 1 [2; 0]%Z) = (Ret (1%Z, w'), W') /\
  seg_bytes (kern W') 1 = Some $"uvwxyz" /\
  on_update (CFollower_cbs (Some (fun u => buffer_cb (log_user_frame u))) None None 7) 6
    shared_reader W' = (Ret shared_reader, W2) /\
  sem_vals (kern W2) 1 = Some [0; 0]%Z /\ logs W2 = logs W' ++ [(LInfo, $"7 uvwxyz")].
Proof.
  destruct shared_clients as [Hnd Hl].
  destruct (frame_reaches_follower $"uvwxyz" example_cwriter writer_sem shared_server shared_shm 2
    $"abcdef" 2 (shared_world 1 [2; 0]%Z) log_user_frame None None 7 shared_reader shared_sem
    (SysVShm 622 0 1 false (Some 3%Z)) 3 eq_refl eq_refl eq_refl eq_refl Hnd Hl ltac:(lia)
    ltac:(by vm_compute) ltac:(by vm_compute) ltac:(by vm_compute) ltac:(simpl; lia) eq_refl
    eq_refl eq_refl eq_refl eq_refl ltac:(by vm_compute) eq_refl
    ltac:(by intros n bs w1 Hs; eexists)) as (srv' & W' & E & Hpub & Hdel).
  assert (Hn : clients_notified_ srv' = [4%Z]).
  { pose proof (f_equal (fun x => match x.1 with
      | Ret (_, Some c) => clients_notified_ <$> srv_ (writer_ c) | _ => None end) E) as E'.
    clear - E'. destruct srv'. vm_compute in E'. by injection E' as <-. }
  rewrite Hn in E, Hdel. destruct Hpub as (_ & Hb & _).
  destruct (Hdel ltac:(by vm_compute)) as (W2 & E2 & w1 & w2 & Hl1 & _ & Ef & Hl2 & Hs).
  eexists _, W', W2. split; [exact E|]. split; [exact Hb|]. split; [exact E2|].
  split; [exact Hs|]. rewrite Hl2. injection Ef as <-. cbn [logs]. by rewrite Hl1.
Defined.

(** A first writer, with both callbacks NULL. *)
Lemma make_writer_handle_witness : exists c W',
  shmdata_make_writer (zeros 6) $"/t" 16 $"video/x-raw" None None 7 432 1 (boot 1) =
    (Ret (Some c), W') /\
  wr_is_valid_ (writer_ c) = true /\ writer_members $"/t" 16 (writer_ c).
Proof.
  destruct (shmdata_make_writer (zeros 6) $"/t" 16 $"video/x-raw" None None 7 432 1 (boot 1))
    as [[[c|]|e| |] W'] eqn:E; [|vm_compute in E; discriminate ..].
  pose proof (make_writer_handle (zeros 6) $"/t" 16 $"video/x-raw" None None 7 432 1 (boot 1)
    (Some c) W' E) as (Hv & Hm & _).
  exists c, W'. split; [reflexivity|]. split; [exact Hv|]. exact Hm.
Defined.
