(* ===== verification/PyObjects.v ===== *)
(** * The Python objects (wrappers/python/pyshmdata.cpp)

    [pyshmdata.Writer] and [pyshmdata.Reader]: their constructors, methods and
    callbacks, on a heap of reference-counted objects.  The functions of the
    Python program are a parameter, with the law that they keep the references
    of others.  Each handler runs with the interpreter's lock; allocation does
    not fail.  A handle of a follower is present or NULL. *)

From stdpp Require Import gmultiset.
From S2P Require Import Prelude Logger Regex StdLib TypeDesc TypeRoundtrip PyDatatype.
From S2P Require Import Posix PosixModel SysVSem SysVShm KernelLimits.
From S2P Require Import SocketProtocol UnixSocketServer UnixSocketClient Reader ReaderTheorems.
From S2P Require Import Writer WriterTheorems Follower CInterface.

(** ** Objects and references *)

Section heap.
Context {FP : Type}.

Inductive pyobject :=
| OStr (s : cstr)
| OBytes (bs : cstr)                  (* bytearray *)
| OInt (z : Z)
| OBool (b : bool)
| ODict (d : list (cstr * pyvalue FP))
| OFunction
| OOther (truth : bool).

(** Each object has its reference count; [user] are the references that the
    Python program holds itself. *)
Record pyheap := mkPyHeap { objects : gmap nat (Z * pyobject); user : gmultiset nat }.

#[export] Instance pyheap_settable : Settable pyheap := fun h => mkPyHeap (objects h) (user h).
Implicit Types (h : pyheap) (p : nat).

(** The functions that make objects: a new reference. *)
Definition py_new (o : pyobject) : M pyheap nat := fun h =>
  let p := fresh (dom (objects h)) in
  (Ret p, h <| objects := <[p := (1%Z, o)]> (objects h) |>).

(** Py_INCREF, Py_DECREF, Py_XDECREF: undefined on an object that is gone. *)
Definition py_incref p : M pyheap unit := fun h =>
  match objects h !! p with
  | Some (n, o) => (Ret tt, h <| objects := <[p := ((n + 1)%Z, o)]> (objects h) |>)
  | None => (Undef, h)
  end.
Definition py_decref p : M pyheap unit := fun h =>
  match objects h !! p with
  | Some (n, o) =>
      (Ret tt, h <| objects := if (n =? 1)%Z then delete p (objects h)
                               else <[p := ((n - 1)%Z, o)]> (objects h) |>)
  | None => (Undef, h)
  end.
Definition py_xdecref (q : option nat) : M pyheap unit :=
  match q with Some p => py_decref p | None => mret tt end.

(** What an object is. *)
Definition py_value p : M pyheap pyobject := fun h =>
  match objects h !! p with Some (_, o) => (Ret o, h) | None => (Undef, h) end.

(** [PyUnicode_AsUTF8], then the use of its result as a text: undefined when it
    is NULL. *)
Definition py_text p : M pyheap cstr :=
  o ← py_value p; match o with OStr s => mret s | _ => undef end.
(** [PyCallable_Check], [PyBool_Check], [PyObject_IsTrue], [PyLong_AsSize_t]
    (the error is the greatest value). *)
Definition callable_check (q : option nat) : M pyheap bool :=
  match q with
  | None => mret false
  | Some p => o ← py_value p; mret (match o with OFunction => true | _ => false end)
  end.
Definition bool_check p : M pyheap bool :=
  o ← py_value p; mret (match o with OBool _ => true | _ => false end).
Definition is_true p : M pyheap bool :=
  o ← py_value p;
  mret (match o with
        | OStr s | OBytes s => negb (bool_decide (s = []))
        | OInt z => negb (z =? 0)%Z
        | OBool b | OOther b => b
        | ODict d => match d with [] => false | _ => true end
        | OFunction => true
        end).
Definition as_size_t p : M pyheap Z :=
  o ← py_value p;
  mret (match o with
        | OInt z => if ((0 <=? z) && (z <? 2 ^ 64))%Z then z else (2 ^ 64 - 1)%Z
        | OBool b => if b then 1%Z else 0%Z
        | _ => (2 ^ 64 - 1)%Z
        end).

(** [Py_BuildValue] of a tuple, and the end of the tuple: references on its
    members; [None] is the object None, which is never freed. *)
Fixpoint build_tuple (args : list (option nat)) : M pyheap unit :=
  match args with
  | [] => mret tt
  | Some p :: args' => py_incref p;; build_tuple args'
  | None :: args' => build_tuple args'
  end.
Fixpoint free_tuple (args : list (option nat)) : M pyheap unit :=
  match args with
  | [] => mret tt
  | q :: args' => py_xdecref q;; free_tuple args'
  end.

(** [tmp = field; Py_INCREF(p); field = p; Py_XDECREF(tmp);] *)
Definition py_assign (tmp : option nat) p : M pyheap unit := py_incref p;; py_xdecref tmp.
End heap.
Arguments pyobject FP : clear implicits.
Arguments pyheap FP : clear implicits.

(** The functions of the Python program: a call gives a new reference, or NULL
    for an exception.  An argument [None] is the object None. *)
Class PyCalls (FP : Type) := py_call : nat -> list (option nat) -> M (pyheap FP) (option nat).

(** ** Reader *)

(** [pyshmdata_ReaderObject] *)
Record ReaderObject := mkReaderObject {
  rd_py_path : option nat;
  rd_datatype : option nat;
  parsed_datatype : option nat;
  lastBuffer : option nat;
  callback : option nat;
  callback_user_data : option nat;
  rd_reader : bool;
  frame_mutex : bool;
  drop_frames : bool;
  rd_show_debug_messages : bool }.

#[export] Instance reader_object_settable : Settable ReaderObject := fun s =>
  mkReaderObject (rd_py_path s) (rd_datatype s) (parsed_datatype s) (lastBuffer s) (callback s)
    (callback_user_data s) (rd_reader s) (frame_mutex s) (drop_frames s) (rd_show_debug_messages s).

Section reader.
Context {FP : Type} `{!PyCalls FP} (stof : cstr -> outcome FP) (fdiv : FP -> FP -> FP).
Implicit Types (self : ReaderObject).

Definition Reader_new : M (pyheap FP) ReaderObject :=
  path ← py_new (OStr []);
  datatype ← py_new (OStr []);
  mret (mkReaderObject (Some path) (Some datatype) None None None None false false false false).

(** The member debug: the type of the argument is tested, not its value. *)
Definition debug_option (showDebug : option nat) (before : bool) : M (pyheap FP) bool :=
  match showDebug with None => mret before | Some p => bool_check p end.

(** The members that [Reader_init] sets, one by one. *)
Definition set_path (path : nat) self : M (pyheap FP) ReaderObject :=
  py_assign (rd_py_path self) path;; mret (self <| rd_py_path := Some path |>).
Definition set_callback (pyFunc : option nat) self : M (pyheap FP) ReaderObject :=
  is_callable ← callable_check pyFunc;
  match pyFunc with
  | Some f =>
      if is_callable : bool then py_assign (callback self) f;; mret (self <| callback := Some f |>)
      else mret self
  | None => mret self
  end.
Definition set_user_data (pyUserData : option nat) self : M (pyheap FP) ReaderObject :=
  match pyUserData with
  | Some u => py_assign (callback_user_data self) u;; mret (self <| callback_user_data := Some u |>)
  | None => mret self
  end.
Definition set_drop_frames (pyDropFrames : option nat) self : M (pyheap FP) ReaderObject :=
  match pyDropFrames with
  | Some d => b ← is_true d; mret (self <| drop_frames := b |>)
  | None => mret self
  end.

Definition Reader_init (path : nat) (pyFunc pyUserData pyDropFrames showDebug : option nat) self
  : M (pyheap FP) (Z * ReaderObject) :=
  self ← set_path path self;
  self ← set_callback pyFunc self;
  self ← set_user_data pyUserData self;
  self ← set_drop_frames pyDropFrames self;
  debug ← debug_option showDebug (rd_show_debug_messages self);
  _ ← py_text path;
  mret (0%Z, self <| rd_show_debug_messages := debug |> <| rd_reader := true |>).

(** [None] is the object None; the description says an empty buffer. *)
Definition Reader_pull self : M (pyheap FP) (option nat) :=
  match lastBuffer self with
  | Some b => py_incref b;; mret (Some b)
  | None => mret None
  end.

(** The callback, lines 425 to 441.  [Py_BuildValue] with a NULL member gives
    NULL, which [Py_DECREF] does not take. *)
Definition call_back self : M (pyheap FP) unit :=
  match callback self, lastBuffer self with
  | Some f, Some buffer =>
      match rd_datatype self, parsed_datatype self with
      | Some datatype, Some parsed =>
          let arglist := [callback_user_data self; Some buffer; Some datatype; Some parsed] in
          build_tuple arglist;;
          result ← py_call f arglist;
          free_tuple arglist;;
          py_xdecref result
      | _, _ => undef
      end
  | _, _ => mret tt
  end.

Definition Reader_on_data_handler (data : cstr) self : M (pyheap FP) ReaderObject :=
  if drop_frames self && frame_mutex self then mret self
  else
    let self := if drop_frames self then self <| frame_mutex := true |> else self in
    buffer ← py_new (OBytes data);
    let tmp := lastBuffer self in
    let self := self <| lastBuffer := Some buffer |> in
    py_xdecref tmp;;
    call_back self;;
    mret (if drop_frames self then self <| frame_mutex := false |> else self).

Definition Reader_on_connect_handler (type_descr : cstr) self : M (pyheap FP) ReaderObject :=
  datatype ← py_new (OStr type_descr);
  let tmp := rd_datatype self in
  dict ← lift (Reader_parse_datatype stof fdiv type_descr);
  parsed ← py_new (ODict dict);
  py_xdecref tmp;;
  mret (self <| rd_datatype := Some datatype |> <| parsed_datatype := Some parsed |>).

Definition Reader_on_disconnect self : ReaderObject := self.

(** The follower is deleted; then the object is gone. *)
Definition Reader_dealloc self : M (pyheap FP) unit :=
  py_xdecref (rd_py_path self);;
  py_xdecref (rd_datatype self);;
  py_xdecref (callback_user_data self).

(** A life of the object: the follower's callbacks, calls of pull, whose result
    the program keeps, and references that the program drops. *)
Inductive reader_op := RConnect (type_descr : cstr) | RData (data : cstr) | RPull | RDrop (p : nat).

Definition user_keeps (b : option nat) : M (pyheap FP) unit := fun h =>
  (Ret tt, match b with Some p => h <| user := {[+ p +]} ⊎ user h |> | None => h end).
Definition user_drops (p : nat) : M (pyheap FP) unit := fun h =>
  if bool_decide (p ∈ user h) then py_decref p (h <| user := user h ∖ {[+ p +]} |>)
  else (Ret tt, h).

Definition reader_step (o : reader_op) self : M (pyheap FP) ReaderObject :=
  match o with
  | RConnect d => Reader_on_connect_handler d self
  | RData data => Reader_on_data_handler data self
  | RPull => b ← Reader_pull self; user_keeps b;; mret self
  | RDrop p => user_drops p;; mret self
  end.

Fixpoint reader_run (os : list reader_op) self : M (pyheap FP) ReaderObject :=
  match os with
  | [] => mret self
  | o :: os' => self' ← reader_step o self; reader_run os' self'
  end.
End reader.

(** ** Writer *)

(** [pyshmdata_WriterObject] *)
Record WriterObject (K : Type) := mkWriterObject {
  w_path : option nat;
  w_datatype : option nat;
  w_framesize : option nat;
  w_writer : option (CWriter K);
  w_show_debug_messages : bool }.
Arguments mkWriterObject {K}.
Arguments w_path {K}.
Arguments w_datatype {K}.
Arguments w_framesize {K}.
Arguments w_writer {K}.
Arguments w_show_debug_messages {K}.

#[export] Instance writer_object_settable (K : Type) : Settable (WriterObject K) := fun s =>
  mkWriterObject (w_path s) (w_datatype s) (w_framesize s) (w_writer s) (w_show_debug_messages s).

Section writer.
Context {FP K : Type} `{ErrnoOS K, SemOS K, ShmOS K, FileOS K, SockOS K}.
Implicit Types (self : WriterObject K).

(** The objects of Python and the system. *)
Abbreviation state := (pyheap FP * world K)%type.
Definition on_py {A} (m : M (pyheap FP) A) : M state A := fun '(h, w) =>
  let (r, h') := m h in (r, (h', w)).
Definition on_os {A} (m : M (world K) A) : M state A := fun '(h, w) =>
  let (r, w') := m w in (r, (h, w')).

Definition Writer_new : M (pyheap FP) (WriterObject K) :=
  path ← py_new (OStr []);
  datatype ← py_new (OStr []);
  framesize ← py_new (OInt 4000000);
  mret (mkWriterObject (Some path) (Some datatype) (Some framesize) None false).

(** An optional argument is assigned to a member; what the member is then. *)
Definition assign_arg (member arg : option nat) : M (pyheap FP) (option nat) :=
  match arg with
  | Some p => py_assign member p;; mret (Some p)
  | None => mret member
  end.
(** [PyUnicode_AsUTF8] of a member, which is never NULL. *)
Definition member_text (member : option nat) : M (pyheap FP) cstr :=
  match member with Some p => py_text p | None => undef end.

(** The result is 0, or -1; [pad] and [turns] are for the writer. *)
Definition Writer_init (pad : cstr) (turns : nat) (path : nat) (datatype framesize showDebug : option nat)
  self : M state (Z * WriterObject K) :=
  m ← on_py (assign_arg (w_path self) (Some path));
  let self := self <| w_path := m |> in
  m ← on_py (assign_arg (w_datatype self) datatype);
  let self := self <| w_datatype := m |> in
  m ← on_py (assign_arg (w_framesize self) framesize);
  let self := self <| w_framesize := m |> in
  debug ← on_py (debug_option showDebug (w_show_debug_messages self));
  let self := self <| w_show_debug_messages := debug |> in
  strPath ← on_py (member_text (w_path self));
  strDatatype ← on_py (member_text (w_datatype self));
  size ← on_py (match w_framesize self with Some p => as_size_t p | None => undef end);
  wr ← on_os (shmdata_make_writer pad (c_str strPath) size (c_str strDatatype) None None 0 384 turns);
  mret (match wr with None => (-1)%Z | Some _ => 0%Z end, self <| w_writer := wr |>).

(** The result is True or False; [buffer] is [None] when the arguments cannot
    be parsed. *)
Definition Writer_push (buffer : option nat) self : M state (bool * WriterObject K) :=
  match buffer with
  | None => mret (false, self)
  | Some b =>
      o ← on_py (py_value b);
      match o, w_writer self with
      | OBytes data, Some c =>
          on_py (py_incref b);;
          '(_, c') ← on_os (shmdata_copy_to_shm (Some c) data);
          on_py (py_xdecref (Some b));;
          mret (true, self <| w_writer := c' |>)
      | _, _ => mret (false, self)
      end
  end.

Definition Writer_dealloc self : M state unit :=
  on_py (py_xdecref (w_path self));;
  on_py (py_xdecref (w_datatype self));;
  on_py (py_xdecref (w_framesize self));;
  match w_writer self with
  | Some c => on_os (shmdata_delete_writer (Some c))
  | None => mret tt
  end.
End writer.

(** ** Accounting *)

Section accounts.
Context {FP : Type}.
Implicit Types (h : pyheap FP) (p : nat) (O : gmultiset nat).

(** The objects are those that have an owner, with as many references. *)
Definition accounted O h : Prop :=
  forall p, fst <$> objects h !! p =
    if (multiplicity p O =? 0)%nat then None else Some (Z.of_nat (multiplicity p O)).

Definition own (q : option nat) : gmultiset nat :=
  match q with Some p => {[+ p +]} | None => ∅ end.

Lemma mult_pos p O : p ∈ O -> (0 < multiplicity p O)%nat.
Proof. by rewrite elem_of_multiplicity. Qed.

Lemma accounted_eq O O' h : O = O' -> accounted O h -> accounted O' h.
Proof. by intros ->. Qed.

Lemma accounted_live O h p : accounted O h -> p ∈ O ->
  exists o, objects h !! p = Some (Z.of_nat (multiplicity p O), o).
Proof.
  intros Ha Hp. specialize (Ha p). apply mult_pos in Hp.
  rewrite (proj2 (Nat.eqb_neq _ 0)) in Ha by lia.
  destruct (objects h !! p) as [[n o]|]; [|done]. injection Ha as ->. by exists o.
Qed.

Lemma py_new_spec (o : pyobject FP) O h : accounted O h ->
  exists p h', py_new o h = (Ret p, h') /\ accounted ({[+ p +]} ⊎ O) h' /\ user h' = user h /\
    (p ∉ O) /\ objects h' !! p = Some (1%Z, o) /\
    (forall q, q <> p -> objects h' !! q = objects h !! q).
Proof.
  intros Ha. unfold py_new. set (p := fresh _).
  assert (Hp : objects h !! p = None) by (apply not_elem_of_dom, is_fresh).
  assert (Hm : multiplicity p O = 0).
  { specialize (Ha p). rewrite Hp in Ha. by destruct (Nat.eqb_spec (multiplicity p O) 0). }
  exists p. eexists. split; [done|]. unfold set_member. cbn [objects user]. split_and!; [|done| | |].
  - intros q. cbn [objects user]. rewrite multiplicity_disj_union. destruct (decide (q = p)) as [->|Hq].
    + by rewrite lookup_insert_eq, multiplicity_singleton_eq, Hm.
    + rewrite lookup_insert_ne, multiplicity_singleton_ne by done. apply Ha.
  - intros Hin%mult_pos. lia.
  - by rewrite lookup_insert_eq.
  - intros q Hq. by rewrite lookup_insert_ne.
Qed.

Lemma py_incref_spec p O h : accounted O h -> p ∈ O ->
  exists h', py_incref p h = (Ret tt, h') /\ accounted ({[+ p +]} ⊎ O) h' /\ user h' = user h /\
    (forall q, snd <$> objects h' !! q = snd <$> objects h !! q).
Proof.
  intros Ha Hin. destruct (accounted_live O h p Ha Hin) as [o Eo].
  unfold py_incref. rewrite Eo. eexists. split; [done|]. unfold set_member. cbn [objects user]. split_and!; [|done|].
  - intros q. cbn [objects user]. rewrite multiplicity_disj_union. destruct (decide (q = p)) as [->|Hq].
    + rewrite lookup_insert_eq, multiplicity_singleton_eq. cbn [fst fmap option_fmap option_map]. f_equal. lia.
    + rewrite lookup_insert_ne, multiplicity_singleton_ne by done. apply Ha.
  - intros q. destruct (decide (q = p)) as [->|Hq]; [by rewrite lookup_insert_eq, Eo|].
    by rewrite lookup_insert_ne.
Qed.

Lemma py_decref_spec p O h : accounted ({[+ p +]} ⊎ O) h ->
  exists h', py_decref p h = (Ret tt, h') /\ accounted O h' /\ user h' = user h /\
    (forall q, q ∈ O -> snd <$> objects h' !! q = snd <$> objects h !! q).
Proof.
  intros Ha. destruct (accounted_live _ h p Ha) as [o Eo]; [multiset_solver|].
  unfold py_decref. rewrite Eo, multiplicity_disj_union, multiplicity_singleton_eq.
  eexists. split; [done|]. unfold set_member. cbn [objects user]. split_and!; [|done|].
  - intros q. specialize (Ha q). rewrite multiplicity_disj_union in Ha. cbn [objects user].
    destruct (decide (q = p)) as [->|Hq].
    + destruct (multiplicity p O) as [|n].
      { by rewrite (proj2 (Z.eqb_eq _ 1)), lookup_delete_eq. }
      rewrite (proj2 (Z.eqb_neq _ 1)) by lia. rewrite lookup_insert_eq. cbn [fst fmap option_fmap option_map]. f_equal. lia.
    + rewrite multiplicity_singleton_ne, Nat.add_0_l in Ha by done.
      rewrite <- Ha. by destruct (_ =? 1)%Z; rewrite ?lookup_delete_ne, ?lookup_insert_ne by done.
  - intros q Hq%mult_pos. destruct (decide (q = p)) as [->|Hne].
    + rewrite (proj2 (Z.eqb_neq _ 1)) by lia. by rewrite lookup_insert_eq, Eo.
    + by destruct (_ =? 1)%Z; rewrite ?lookup_delete_ne, ?lookup_insert_ne by done.
Qed.

Lemma py_xdecref_spec q O h : accounted (own q ⊎ O) h ->
  exists h', py_xdecref q h = (Ret tt, h') /\ accounted O h' /\ user h' = user h /\
    (forall r, r ∈ O -> snd <$> objects h' !! r = snd <$> objects h !! r).
Proof.
  destruct q as [p|]; [apply py_decref_spec|]. intros Ha. exists h. split_and!; try done.
  eapply accounted_eq; [|exact Ha]. unfold own. multiset_solver.
Qed.

Lemma py_assign_spec tmp p O h : accounted (own tmp ⊎ O) h -> p ∈ O ->
  exists h', py_assign tmp p h = (Ret tt, h') /\ accounted ({[+ p +]} ⊎ O) h' /\ user h' = user h /\
    (forall r, r ∈ O -> snd <$> objects h' !! r = snd <$> objects h !! r).
Proof.
  intros Ha Hp. destruct (py_incref_spec p _ h Ha) as (h1 & E1 & Ha1 & Hu1 & Hs1); [multiset_solver|].
  destruct (py_xdecref_spec tmp ({[+ p +]} ⊎ O) h1) as (h2 & E2 & Ha2 & Hu2 & Hs2).
  { eapply accounted_eq; [|exact Ha1]. multiset_solver. }
  exists h2. unfold py_assign. rewrite (bind_ret _ _ _ _ _ E1). split_and!; [done|done|congruence|].
  intros r Hr. rewrite Hs2, Hs1; [done|]. multiset_solver.
Qed.
Definition own_all (args : list (option nat)) : gmultiset nat :=
  foldr (fun q O => own q ⊎ O) ∅ args.

Lemma own_all_nil : own_all [] = ∅.
Proof. done. Qed.
Lemma own_all_cons q args : own_all (q :: args) = own q ⊎ own_all args.
Proof. done. Qed.

Lemma build_tuple_spec args O h :
  accounted O h -> (forall p, Some p ∈ args -> p ∈ O) ->
  exists h', build_tuple args h = (Ret tt, h') /\ accounted (own_all args ⊎ O) h' /\ user h' = user h /\
    (forall q, snd <$> objects h' !! q = snd <$> objects h !! q).
Proof.
  revert O h. induction args as [|[p|] args IH]; intros O h Ha Hin; cbn [build_tuple].
  - exists h. split_and!; try done. eapply accounted_eq; [|exact Ha]. by rewrite own_all_nil, (left_id_L ∅ (⊎)).
  - destruct (py_incref_spec p O h Ha) as (h1 & E1 & Ha1 & Hu1 & Hs1); [apply Hin; by left|].
    destruct (IH _ h1 Ha1) as (h2 & E2 & Ha2 & Hu2 & Hs2).
    { intros q Hq. apply gmultiset_elem_of_disj_union. right. apply Hin. by right. }
    exists h2. rewrite (bind_ret _ _ _ _ _ E1). split_and!; [done| |congruence|intros q; by rewrite Hs2].
    eapply accounted_eq; [|exact Ha2]. rewrite own_all_cons. cbn [own]. multiset_solver.
  - destruct (IH O h Ha) as (h2 & E2 & Ha2 & Hu2 & Hs2); [intros q Hq; apply Hin; by right|].
    exists h2. split_and!; try done.
    eapply accounted_eq; [|exact Ha2]. rewrite own_all_cons. cbn [own]. multiset_solver.
Qed.

Lemma free_tuple_spec args O h :
  accounted (own_all args ⊎ O) h ->
  exists h', free_tuple args h = (Ret tt, h') /\ accounted O h' /\ user h' = user h.
Proof.
  revert h. induction args as [|q args IH]; intros h Ha; cbn [free_tuple].
  - exists h. split_and!; try done. eapply accounted_eq; [|exact Ha]. by rewrite own_all_nil, (left_id_L ∅ (⊎)).
  - destruct (py_xdecref_spec q (own_all args ⊎ O) h) as (h1 & E1 & Ha1 & Hu1 & _).
    { eapply accounted_eq; [|exact Ha]. rewrite own_all_cons. multiset_solver. }
    destruct (IH h1 Ha1) as (h2 & E2 & Ha2 & Hu2).
    exists h2. rewrite (bind_ret _ _ _ _ _ E1). split_and!; [done|done|congruence].
Qed.
End accounts.

(** What a Python function guarantees: it returns, it drops no reference of
    others, and it accounts for those that it leaves with the program. *)
Class PyCallLaws (FP : Type) `{!PyCalls FP} := py_call_law :
  forall f args (O : gmultiset nat) (h : pyheap FP),
    accounted (O ⊎ user h) h -> f ∈ O -> (forall p, Some p ∈ args -> p ∈ O) ->
    exists r h', py_call f args h = (Ret r, h') /\ accounted (own r ⊎ O ⊎ user h') h'.

(** ** The reader and its references *)

(** The references that the members hold. *)
Definition fields (self : ReaderObject) : gmultiset nat :=
  own (rd_py_path self) ⊎ own (rd_datatype self) ⊎ own (parsed_datatype self) ⊎
  own (lastBuffer self) ⊎ own (callback self) ⊎ own (callback_user_data self).

Ltac balance H :=
  eapply accounted_eq; [|exact H]; unfold fields, set_member;
  cbn [own rd_py_path rd_datatype parsed_datatype lastBuffer callback callback_user_data];
  multiset_solver.

Section reader_spec.
Context {FP : Type} `{!PyCalls FP} `{!PyCallLaws FP}.
Implicit Types (self : ReaderObject) (h : pyheap FP) (L : gmultiset nat).

(** The owners: the members, [L] that nothing refers to any more, the program. *)
Definition reader_owns self L h : Prop := accounted (fields self ⊎ L ⊎ user h) h.

(** The call of the program's function, on the last buffer. *)
Lemma call_back_spec self L h b dt p :
  reader_owns self L h -> lastBuffer self = Some b -> rd_datatype self = Some dt ->
  parsed_datatype self = Some p ->
  exists h', call_back self h = (Ret tt, h') /\ reader_owns self L h' /\
    match callback self with
    | None => h' = h
    | Some f => exists h1 r h2,
        py_call f [callback_user_data self; Some b; Some dt; Some p] h1 = (Ret r, h2) /\
        (forall q, snd <$> objects h1 !! q = snd <$> objects h !! q)
    end.
Proof.
  intros Ha Hb Hdt Hp. unfold call_back. rewrite Hb, Hdt, Hp.
  destruct (callback self) as [f|] eqn:Hf; [|by exists h].
  unfold reader_owns in *. set (args := [callback_user_data self; Some b; Some dt; Some p]).
  assert (Hin : forall q, Some q ∈ args \/ q = f -> q ∈ fields self).
  { intros q Hq. unfold fields. rewrite Hb, Hdt, Hp, Hf. rewrite !gmultiset_elem_of_disj_union.
    unfold args in Hq. rewrite !elem_of_cons, elem_of_nil in Hq.
    destruct Hq as [[<-|[[= ->]|[[= ->]|[[= ->]|[]]]]]| ->]; cbn [own]; multiset_solver. }
  destruct (build_tuple_spec args _ h Ha) as (h1 & E1 & Ha1 & Hu1 & Hs1).
  { intros q Hq. rewrite !gmultiset_elem_of_disj_union. auto. }
  destruct (py_call_law f args (own_all args ⊎ fields self ⊎ L) h1) as (r & h2 & E2 & Ha2).
  { rewrite Hu1. eapply accounted_eq; [|exact Ha1]. multiset_solver. }
  { rewrite !gmultiset_elem_of_disj_union. auto. }
  { intros q Hq. rewrite !gmultiset_elem_of_disj_union. auto. }
  destruct (free_tuple_spec args (own r ⊎ fields self ⊎ L ⊎ user h2) h2) as (h3 & E3 & Ha3 & Hu3).
  { eapply accounted_eq; [|exact Ha2]. multiset_solver. }
  destruct (py_xdecref_spec r (fields self ⊎ L ⊎ user h2) h3) as (h4 & E4 & Ha4 & Hu4 & _).
  { eapply accounted_eq; [|exact Ha3]. multiset_solver. }
  exists h4. split_and!.
  - cbv zeta. fold args. rewrite (bind_ret _ _ _ _ _ E1), (bind_ret _ _ _ _ _ E2), (bind_ret _ _ _ _ _ E3).
    exact E4.
  - by rewrite Hu4, Hu3.
  - by exists h1, r, h2.
Qed.

Lemma on_data_spec data self L h :
  reader_owns self L h -> frame_mutex self = false ->
  (callback self <> None -> rd_datatype self <> None /\ parsed_datatype self <> None) ->
  exists b h', let self' := self <| lastBuffer := Some b |> in
    Reader_on_data_handler data self h = (Ret self', h') /\ reader_owns self' L h' /\
    match callback self with
    | None => user h' = user h /\ snd <$> objects h' !! b = Some (OBytes data)
    | Some f => exists h1 r h2,
        py_call f [callback_user_data self; Some b; rd_datatype self; parsed_datatype self] h1 =
          (Ret r, h2) /\ snd <$> objects h1 !! b = Some (OBytes data)
    end.
Proof.
  intros Ha Hm Hc. destruct (py_new_spec (OBytes data) _ h Ha) as (b & h1 & E1 & Ha1 & Hu1 & _ & Hb & _).
  set (self1 := self <| lastBuffer := Some b |>).
  destruct (py_xdecref_spec (lastBuffer self) (fields self1 ⊎ L ⊎ user h) h1) as (h2 & E2 & Ha2 & Hu2 & Hs2).
  { unfold self1. destruct self. balance Ha1. }
  assert (Hb2 : snd <$> objects h2 !! b = Some (OBytes data)).
  { rewrite Hs2, Hb; [done|]. unfold self1. destruct self. unfold fields, set_member.
    cbn [own lastBuffer]. multiset_solver. }
  assert (Hcb : exists h3, call_back self1 h2 = (Ret tt, h3) /\ reader_owns self1 L h3 /\
    match callback self with
    | None => h3 = h2
    | Some f => exists h' r h'', py_call f [callback_user_data self; Some b; rd_datatype self; parsed_datatype self] h' =
        (Ret r, h'') /\ (forall q, snd <$> objects h' !! q = snd <$> objects h2 !! q)
    end).
  { destruct (callback self) as [f|] eqn:Hf.
    - destruct (Hc ltac:(done)) as [[dt Hdt]%not_eq_None_Some [p Hp]%not_eq_None_Some].
      destruct (call_back_spec self1 L h2 b dt p) as (h3 & E3 & Ha3 & H3);
        [unfold reader_owns; by rewrite Hu2, Hu1|done|by destruct self|by destruct self|].
      exists h3. split_and!; [done|done|]. rewrite Hdt, Hp.
      replace (callback self1) with (Some f) in H3 by (by destruct self).
      by replace (callback_user_data self1) with (callback_user_data self) in H3 by (by destruct self).
    - exists h2. unfold reader_owns. rewrite Hu2, Hu1. split_and!; [|done|done].
      unfold call_back. by replace (callback self1) with (@None nat) by (by destruct self). }
  destruct Hcb as (h3 & E3 & Ha3 & H3). exists b, h3. split_and!.
  - unfold Reader_on_data_handler. rewrite Hm, andb_false_r, (bind_ret _ _ _ _ _ E1).
    destruct self as [pa da pd lb cb cu rr fm df sd]. cbn in Hm. subst fm. destruct df.
    + rewrite (bind_ret _ _ _ _ _ E2). by rewrite (bind_ret _ _ _ _ _ E3).
    + rewrite (bind_ret _ _ _ _ _ E2). by rewrite (bind_ret _ _ _ _ _ E3).
  - exact Ha3.
  - destruct (callback self) as [f|]; [|subst h3; by rewrite Hu2, Hu1].
    destruct H3 as (h' & r & h'' & E & Hq). exists h', r, h''. by rewrite Hq.
Qed.

Lemma pull_spec self L h b :
  reader_owns self L h -> lastBuffer self = Some b ->
  exists h', (b' ← Reader_pull self; user_keeps b';; mret self) h = (Ret self, h') /\
    reader_owns self L h' /\ user h' = {[+ b +]} ⊎ user h.
Proof.
  intros Ha Hb. destruct (py_incref_spec b _ h Ha) as (h1 & E1 & Ha1 & Hu1 & _).
  { unfold fields. rewrite Hb. cbn [own]. multiset_solver. }
  exists (h1 <| user := {[+ b +]} ⊎ user h1 |>). split_and!.
  - rewrite (bind_ret _ _ _ (Some b) h1); [done|]. unfold Reader_pull. rewrite Hb.
    by rewrite (bind_ret _ _ _ _ _ E1).
  - intros p. unfold set_member. cbn [objects user]. rewrite Hu1.
    replace (fields self ⊎ L ⊎ ({[+ b +]} ⊎ user h)) with ({[+ b +]} ⊎ (fields self ⊎ L ⊎ user h))
      by multiset_solver. apply Ha1.
  - unfold set_member. cbn [user]. by rewrite Hu1.
Qed.

Lemma drop_spec self L h p : reader_owns self L h ->
  exists h', user_drops p h = (Ret tt, h') /\ reader_owns self L h'.
Proof.
  intros Ha. unfold user_drops. case_bool_decide as Hp; [|by exists h].
  set (h1 := h <| user := user h ∖ {[+ p +]} |>).
  destruct (py_decref_spec p (fields self ⊎ L ⊎ user h1) h1) as (h2 & E2 & Ha2 & Hu2 & _).
  { intros q. unfold h1, set_member. cbn [objects user].
    replace ({[+ p +]} ⊎ (fields self ⊎ L ⊎ user h ∖ {[+ p +]})) with (fields self ⊎ L ⊎ user h)
      by multiset_solver. apply Ha. }
  exists h2. split; [done|]. unfold reader_owns. by rewrite Hu2.
Qed.

(** *** Construction and destruction *)

Definition kind_of h (p : nat) : option (pyobject FP) := snd <$> objects h !! p.
Definition is_function h (q : option nat) : bool :=
  match q with
  | Some p => match kind_of h p with Some OFunction => true | _ => false end
  | None => false
  end.

Lemma py_value_spec p (o : pyobject FP) h : kind_of h p = Some o -> py_value p h = (Ret o, h).
Proof. unfold kind_of, py_value. by destruct (objects h !! p) as [[n o']|]; [intros [= ->]|]. Qed.

Lemma accounted_kind O h p : accounted O h -> p ∈ O -> exists o, kind_of h p = Some o.
Proof. intros Ha Hp. destruct (accounted_live O h p Ha Hp) as [o E]. exists o. unfold kind_of. by rewrite E. Qed.

Lemma callable_check_spec q O h : accounted O h -> (forall p, q = Some p -> p ∈ O) ->
  callable_check q h = (Ret (is_function h q), h).
Proof.
  intros Ha Hq. destruct q as [p|]; [|done]. destruct (accounted_kind O h p Ha (Hq p eq_refl)) as [o E].
  unfold callable_check. rewrite (bind_ret _ _ _ _ _ (py_value_spec p o h E)).
  unfold is_function. rewrite E. by destruct o.
Qed.

Lemma new_spec h : accounted (user h) h ->
  exists self h', Reader_new h = (Ret self, h') /\ reader_owns self ∅ h' /\ user h' = user h /\
    (forall q, q ∈ user h -> kind_of h' q = kind_of h q) /\
    callback self = None /\ lastBuffer self = None /\ parsed_datatype self = None /\
    rd_datatype self <> None /\ frame_mutex self = false.
Proof.
  intros Ha. destruct (py_new_spec (OStr []) _ h Ha) as (p & h1 & E1 & Ha1 & Hu1 & Hp & _ & Hk1).
  destruct (py_new_spec (OStr []) _ h1 Ha1) as (d & h2 & E2 & Ha2 & Hu2 & Hd & _ & Hk2).
  eexists _, h2. split; [unfold Reader_new; rewrite (bind_ret _ _ _ _ _ E1); by rewrite (bind_ret _ _ _ _ _ E2)|].
  split; [unfold reader_owns; rewrite Hu2, Hu1; balance Ha2|]. split; [congruence|].
  split; [|done]. intros q Hq. unfold kind_of. rewrite Hk2, Hk1; [done| |]; intros ->; [done|].
  apply Hd. multiset_solver.
Qed.

(** What the steps of [Reader_init] keep. *)
Definition keeps self L h self' h' : Prop :=
  reader_owns self' L h' /\ user h' = user h /\
  (forall q, q ∈ user h -> kind_of h' q = kind_of h q) /\
  rd_datatype self' = rd_datatype self /\ parsed_datatype self' = parsed_datatype self /\
  lastBuffer self' = lastBuffer self /\ frame_mutex self' = frame_mutex self.

Lemma keeps_refl self L h : reader_owns self L h -> keeps self L h self h.
Proof. intros Ha. unfold keeps. by split_and!. Qed.

Lemma keeps_trans self L h self1 h1 self2 h2 :
  keeps self L h self1 h1 -> keeps self1 L h1 self2 h2 -> keeps self L h self2 h2.
Proof.
  intros (_ & Hu & Hk & ? & ? & ? & ?) (Ha' & Hu' & Hk' & ? & ? & ? & ?).
  unfold keeps. split_and!; try congruence; [done|]. intros q Hq. rewrite Hk', Hk; [done..|]. by rewrite Hu.
Qed.

Ltac assigned Ha Hin p tmp O h :=
  destruct (py_assign_spec tmp p O h) as (h1 & E1 & Ha1 & Hu1 & Hk1);
  [unfold reader_owns in Ha; balance Ha|multiset_solver|];
  eexists _, h1; split; [by rewrite (bind_ret _ _ _ _ _ E1)|];
  split; [|unfold set_member; by cbn];
  unfold keeps; split_and!; try done; [unfold reader_owns; rewrite Hu1; balance Ha1|];
  intros q Hq; apply Hk1; multiset_solver.

Lemma set_path_spec path self L h : reader_owns self L h -> path ∈ user h ->
  exists self' h', set_path path self h = (Ret self', h') /\ keeps self L h self' h' /\
    callback self' = callback self.
Proof.
  intros Ha Hin. unfold set_path. destruct self as [pa da pd lb cb cu rr fm dr dbg].
  assigned Ha Hin path pa (own da ⊎ own pd ⊎ own lb ⊎ own cb ⊎ own cu ⊎ L ⊎ user h) h.
Qed.

Lemma set_callback_spec q self L h : reader_owns self L h -> (forall p, q = Some p -> p ∈ user h) ->
  exists self' h', set_callback q self h = (Ret self', h') /\ keeps self L h self' h' /\
    callback self' = if is_function h q then q else callback self.
Proof.
  intros Ha Hin. unfold set_callback.
  rewrite (bind_ret _ _ _ _ _ (callable_check_spec q (user h ⊎ (fields self ⊎ L)) h
    ltac:(eapply accounted_eq; [|exact Ha]; multiset_solver)
    ltac:(intros p Hp; apply Hin in Hp; multiset_solver))).
  destruct q as [p|]; [|exists self, h; split; [done|]; split; [by apply keeps_refl|done]].
  specialize (Hin p eq_refl).
  destruct (is_function h (Some p)); [|exists self, h; split; [done|]; split; [by apply keeps_refl|done]].
  destruct self as [pa da pd lb cb cu rr fm dr dbg].
  assigned Ha Hin p cb (own pa ⊎ own da ⊎ own pd ⊎ own lb ⊎ own cu ⊎ L ⊎ user h) h.
Qed.

Lemma set_user_data_spec q self L h : reader_owns self L h -> (forall p, q = Some p -> p ∈ user h) ->
  exists self' h', set_user_data q self h = (Ret self', h') /\ keeps self L h self' h' /\
    callback self' = callback self.
Proof.
  intros Ha Hin. unfold set_user_data.
  destruct q as [p|]; [|exists self, h; split; [done|]; split; [by apply keeps_refl|done]].
  specialize (Hin p eq_refl). destruct self as [pa da pd lb cb cu rr fm dr dbg].
  assigned Ha Hin p cu (own pa ⊎ own da ⊎ own pd ⊎ own lb ⊎ own cb ⊎ L ⊎ user h) h.
Qed.

Lemma set_drop_frames_spec q self L h : reader_owns self L h -> (forall p, q = Some p -> p ∈ user h) ->
  exists self' h', set_drop_frames q self h = (Ret self', h') /\ keeps self L h self' h' /\
    callback self' = callback self.
Proof.
  intros Ha Hin. unfold set_drop_frames.
  destruct q as [p|]; [|exists self, h; split; [done|]; split; [by apply keeps_refl|done]].
  destruct (accounted_kind _ h p Ha) as [o E]; [specialize (Hin p eq_refl); multiset_solver|].
  assert (Et : exists b, is_true p h = (Ret b, h)).
  { eexists. unfold is_true. by rewrite (bind_ret _ _ _ _ _ (py_value_spec p o h E)). }
  destruct Et as [b Et]. eexists _, h. split; [by rewrite (bind_ret _ _ _ _ _ Et)|].
  destruct self. split; [|done]. unfold keeps. by split_and!.
Qed.

Lemma debug_option_spec q b O h : accounted O h -> (forall p, q = Some p -> p ∈ O) ->
  exists b', debug_option q b h = (Ret b', h).
Proof.
  intros Ha Hin. destruct q as [p|]; [|by exists b].
  destruct (accounted_kind _ h p Ha (Hin p eq_refl)) as [o E].
  eexists. unfold debug_option, bool_check. by rewrite (bind_ret _ _ _ _ _ (py_value_spec p o h E)).
Qed.

(** The arguments are references of the program, and the path is a text. *)
Lemma init_spec path cb ud df sd self L h s :
  reader_owns self L h -> (forall q, Some q ∈ [Some path; cb; ud; df; sd] -> q ∈ user h) ->
  kind_of h path = Some (OStr s) ->
  exists self' h', Reader_init path cb ud df sd self h = (Ret (0%Z, self'), h') /\
    keeps self L h self' h' /\ rd_reader self' = true /\
    callback self' = if is_function h cb then cb else callback self.
Proof.
  intros Ha Hin Hs.
  destruct (set_path_spec path self L h Ha) as (s1 & h1 & E1 & K1 & C1); [apply Hin; by left|].
  pose proof K1 as (Ha1 & Hu1 & Hk1 & _).
  destruct (set_callback_spec cb s1 L h1 Ha1) as (s2 & h2 & E2 & K2 & C2).
  { intros p ->. rewrite Hu1. apply Hin. right. by left. }
  pose proof (keeps_trans _ _ _ _ _ _ _ K1 K2) as K2'. pose proof K2' as (Ha2 & Hu2 & _).
  destruct (set_user_data_spec ud s2 L h2 Ha2) as (s3 & h3 & E3 & K3 & C3).
  { intros p ->. rewrite Hu2. apply Hin. do 2 right. by left. }
  pose proof (keeps_trans _ _ _ _ _ _ _ K2' K3) as K3'. pose proof K3' as (Ha3 & Hu3 & _).
  destruct (set_drop_frames_spec df s3 L h3 Ha3) as (s4 & h4 & E4 & K4 & C4).
  { intros p ->. rewrite Hu3. apply Hin. do 3 right. by left. }
  pose proof (keeps_trans _ _ _ _ _ _ _ K3' K4) as K4'. pose proof K4' as (Ha4 & Hu4 & Hk4 & K).
  destruct (debug_option_spec sd (rd_show_debug_messages s4) _ h4 Ha4) as [b E5].
  { intros p ->. assert (p ∈ user h) by (apply Hin; do 4 right; by left). rewrite Hu4. multiset_solver. }
  eexists _, h4. split.
  { unfold Reader_init. rewrite (bind_ret _ _ _ _ _ E1), (bind_ret _ _ _ _ _ E2), (bind_ret _ _ _ _ _ E3),
      (bind_ret _ _ _ _ _ E4), (bind_ret _ _ _ _ _ E5). rewrite (bind_ret _ _ _ s h4); [done|].
    unfold py_text. rewrite (bind_ret _ _ _ (OStr s) h4); [done|]. apply py_value_spec.
    rewrite Hk4; [done|]. apply Hin. by left. }
  split; [|split; [done|]].
  - by destruct s4.
  - replace (is_function h cb) with (is_function h1 cb).
    + rewrite <- C1, <- C2, <- C3, <- C4. by destruct s4.
    + unfold is_function. destruct cb as [f|]; [|done]. rewrite Hk1; [done|]. apply Hin. right. by left.
Qed.

Lemma dealloc_spec self L h : reader_owns self L h ->
  exists h', Reader_dealloc self h = (Ret tt, h') /\ user h' = user h /\
    accounted (own (parsed_datatype self) ⊎ own (lastBuffer self) ⊎ own (callback self) ⊎ L ⊎ user h') h'.
Proof.
  intros Ha. unfold reader_owns in Ha. destruct self as [pa da pd lb cb cu rr fm dr dbg].
  set (R := own pd ⊎ own lb ⊎ own cb ⊎ L ⊎ user h).
  destruct (py_xdecref_spec pa (own da ⊎ own cu ⊎ R) h) as (h1 & E1 & Ha1 & Hu1 & _); [unfold R; balance Ha|].
  destruct (py_xdecref_spec da (own cu ⊎ R) h1) as (h2 & E2 & Ha2 & Hu2 & _); [balance Ha1|].
  destruct (py_xdecref_spec cu R h2) as (h3 & E3 & Ha3 & Hu3 & _); [balance Ha2|].
  exists h3. split_and!; [|congruence|].
  - unfold Reader_dealloc. rewrite (bind_ret _ _ _ _ _ E1). by rewrite (bind_ret _ _ _ _ _ E2).
  - rewrite Hu3, Hu2, Hu1. unfold R in Ha3. balance Ha3.
Qed.
End reader_spec.

(** *** Any number of callbacks and calls *)

Section life.
Context {FP : Type} `{!PyCalls FP} `{!PyCallLaws FP} (stof : cstr -> outcome FP) (fdiv : FP -> FP -> FP).
Implicit Types (self : ReaderObject) (h : pyheap FP) (L : gmultiset nat).

Lemma on_connect_spec d dict self L h :
  reader_owns self L h -> Reader_parse_datatype stof fdiv d = Ret dict ->
  exists dt p h', let self' := self <| rd_datatype := Some dt |> <| parsed_datatype := Some p |> in
    Reader_on_connect_handler stof fdiv d self h = (Ret self', h') /\
    reader_owns self' (own (parsed_datatype self) ⊎ L) h' /\ user h' = user h /\
    snd <$> objects h' !! p = Some (ODict dict).
Proof.
  intros Ha Hd. unfold reader_owns in *.
  destruct (py_new_spec (OStr d) _ h Ha) as (dt & h1 & E1 & Ha1 & Hu1 & _).
  destruct (py_new_spec (ODict dict) _ h1 Ha1) as (p & h2 & E2 & Ha2 & Hu2 & _ & Hp & _).
  destruct self as [pa da pd lb cb cu rr fm df sd].
  destruct (py_xdecref_spec da ({[+ p +]} ⊎ {[+ dt +]} ⊎ own pa ⊎ own pd ⊎ own lb ⊎ own cb ⊎ own cu ⊎ L ⊎ user h) h2)
    as (h3 & E3 & Ha3 & Hu3 & Hs3).
  { balance Ha2. }
  exists dt, p, h3. split_and!.
  - unfold Reader_on_connect_handler. rewrite (bind_ret _ _ _ _ _ E1).
    rewrite (bind_ret _ _ _ dict h1) by (by rewrite Hd).
    rewrite (bind_ret _ _ _ _ _ E2). by rewrite (bind_ret _ _ _ _ _ E3).
  - rewrite Hu3, Hu2, Hu1. balance Ha3.
  - congruence.
  - rewrite Hs3, Hp; [done|]. multiset_solver.
Qed.

(** What the follower guarantees: a data callback comes after a connection; and
    the types can be parsed. *)
Fixpoint follower_trace (connected : bool) (os : list reader_op) : bool :=
  match os with
  | [] => true
  | RConnect d :: os' =>
      (match Reader_parse_datatype stof fdiv d with Ret _ => true | _ => false end) && follower_trace true os'
  | RData _ :: os' => connected && follower_trace connected os'
  | _ :: os' => follower_trace connected os'
  end.
Fixpoint connections (os : list reader_op) : nat :=
  match os with [] => 0 | RConnect _ :: os' => S (connections os') | _ :: os' => connections os' end.
Definition has_data (os : list reader_op) : bool :=
  existsb (fun o => match o with RData _ => true | _ => false end) os.
Definition held (q : option nat) : nat := match q with Some _ => 1 | None => 0 end.

Lemma size_own q : size (own q) = held q.
Proof. destruct q; [apply gmultiset_size_singleton|done]. Qed.

(** A reader at rest. *)
Definition at_rest self L h : Prop :=
  reader_owns self L h /\ frame_mutex self = false /\ rd_datatype self <> None.

Lemma reader_step_spec o self L h :
  at_rest self L h -> follower_trace (bool_decide (parsed_datatype self <> None)) [o] = true ->
  exists self' h' L', reader_step stof fdiv o self h = (Ret self', h') /\ at_rest self' L' h' /\
    size L' + held (parsed_datatype self') = size L + held (parsed_datatype self) + connections [o] /\
    (parsed_datatype self <> None \/ 0 < connections [o] <-> parsed_datatype self' <> None) /\
    held (lastBuffer self') = Nat.max (held (lastBuffer self)) (if has_data [o] then 1 else 0) /\
    callback self' = callback self.
Proof.
  intros (Ha & Hm & Hd) Ht. destruct o as [d|data| |p]; cbn [reader_step].
  - cbn in Ht. destruct (Reader_parse_datatype stof fdiv d) as [dict|e| |] eqn:E; try done.
    destruct (on_connect_spec d dict self L h Ha E) as (dt & p & h' & E' & Ha' & _).
    eexists _, h', _. split; [exact E'|]. split; [split; [exact Ha'|by destruct self]|].
    rewrite gmultiset_size_disj_union, size_own. destruct self as [? ? pd lb ? ? ? ? ? ?].
    unfold set_member. cbn. split_and!; [destruct pd; cbn; lia|split; [done|]; intros _; right; lia| |done].
    by destruct lb.
  - cbn in Ht. rewrite andb_true_r in Ht. apply bool_decide_eq_true in Ht.
    destruct (on_data_spec data self L h Ha Hm) as (b & h' & E' & Ha' & _); [done|].
    exists (self <| lastBuffer := Some b |>), h', L. split; [exact E'|].
    destruct self as [? ? pd lb ? ? ? ? ? ?]. split; [done|]. unfold set_member. cbn.
    split_and!; [lia| |by destruct lb|done]. split; [intros [?|?]; [done|lia]|by left].
  - exists self. destruct (lastBuffer self) as [b|] eqn:Hb.
    + destruct (pull_spec self L h b Ha Hb) as (h' & E' & Ha' & _). exists h', L. rewrite E'.
      split_and!; try done; cbn; try lia. split; [intros [?|?]; [done|lia]|by left].
    + exists h, L. unfold Reader_pull. rewrite Hb. split_and!; try done; cbn; try lia.
      split; [intros [?|?]; [done|lia]|by left].
  - destruct (drop_spec self L h p Ha) as (h' & E' & Ha'). exists self, h', L.
    rewrite (bind_ret _ _ _ _ _ E'). split_and!; try done; cbn; try lia.
    split; [intros [?|?]; [done|lia]|by left].
Qed.

Lemma connections_cons o os : connections (o :: os) = connections [o] + connections os.
Proof. by destruct o. Qed.

Lemma follower_trace_cons c o os : follower_trace c (o :: os) = true ->
  follower_trace c [o] = true /\ follower_trace (c || (0 <? connections [o])%nat) os = true.
Proof.
  destruct o; cbn; rewrite ?orb_false_r; intros H; try done.
  - apply andb_true_iff in H as [-> H]. by rewrite orb_true_r.
  - by apply andb_true_iff in H as [-> H].
Qed.

Lemma reader_run_spec os self L h :
  at_rest self L h -> follower_trace (bool_decide (parsed_datatype self <> None)) os = true ->
  exists self' h' L', reader_run stof fdiv os self h = (Ret self', h') /\ at_rest self' L' h' /\
    size L' + held (parsed_datatype self') = size L + held (parsed_datatype self) + connections os /\
    held (lastBuffer self') = Nat.max (held (lastBuffer self)) (if has_data os then 1 else 0) /\
    callback self' = callback self.
Proof.
  revert self L h. induction os as [|o os IH]; intros self L h Hr Ht.
  - exists self, h, L. split_and!; try done; cbn; lia.
  - apply follower_trace_cons in Ht as [Ht1 Ht2].
    destruct (reader_step_spec o self L h Hr Ht1) as (self1 & h1 & L1 & E1 & Hr1 & Hs1 & Hp1 & Hb1 & Hc1).
    destruct (IH self1 L1 h1 Hr1) as (self2 & h2 & L2 & E2 & Hr2 & Hs2 & Hb2 & Hc2).
    { rewrite <- Ht2. f_equal. apply eq_true_iff_eq.
      rewrite orb_true_iff, !bool_decide_eq_true, Nat.ltb_lt. symmetry. exact Hp1. }
    exists self2, h2, L2. split; [cbn; by rewrite (bind_ret _ _ _ _ _ E1)|].
    split; [done|]. split; [rewrite connections_cons; lia|]. split; [|congruence].
    rewrite Hb2, Hb1. unfold has_data. cbn [existsb].
    destruct o, (existsb _ os); cbn; lia.
Qed.

End life.

(** ** Theorems *)

(** C39: a reader made by a program that gives it a path, and possibly a
    function, user data and options, then run through any number of
    connections, frames, calls of pull and references dropped by the program:
    everything returns, no object is used after its end, and each reference
    has an owner.  At the end of the reader, one dictionary for each
    connection, the last buffer and the function stay for ever. *)
Theorem python_reader_life {FP} `{!PyCalls FP} `{!PyCallLaws FP} stof fdiv path cb ud df sd os (h : pyheap FP) s :
  accounted (user h) h -> (forall q, Some q ∈ [Some path; cb; ud; df; sd] -> q ∈ user h) ->
  kind_of h path = Some (OStr s) -> follower_trace stof fdiv false os = true ->
  exists self h1 self1 h2 self2 h3 L3 h4 L4,
    Reader_new h = (Ret self, h1) /\
    Reader_init path cb ud df sd self h1 = (Ret (0%Z, self1), h2) /\
    reader_run stof fdiv os self1 h2 = (Ret self2, h3) /\
    reader_owns self2 L3 h3 /\ frame_mutex self2 = false /\
    Reader_dealloc self2 h3 = (Ret tt, h4) /\ accounted (L4 ⊎ user h4) h4 /\
    size L4 = connections os + (if has_data os then 1 else 0) + (if is_function h cb then 1 else 0).
Proof.
  intros Ha Hin Hs Ht.
  destruct (new_spec h Ha) as (self & h1 & E1 & Ha1 & Hu1 & Hk1 & Hcb & Hlb & Hpd & Hdt & Hm).
  assert (Hp : path ∈ user h) by (apply Hin; by left).
  destruct (init_spec path cb ud df sd self ∅ h1 s Ha1) as (self1 & h2 & E2 & K & _ & Hc).
  { intros q Hq. rewrite Hu1. by apply Hin. }
  { by rewrite Hk1. }
  destruct K as (Ha2 & Hu2 & _ & Hdt1 & Hpd1 & Hlb1 & Hm1).
  destruct (reader_run_spec stof fdiv os self1 ∅ h2) as (self2 & h3 & L3 & E3 & (Ha3 & Hm3 & _) & Hs3 & Hb3 & Hc3).
  { split_and!; [done|congruence|congruence]. }
  { rewrite bool_decide_eq_false_2; [done|]. intros Hne. apply Hne. congruence. }
  destruct (dealloc_spec self2 L3 h3 Ha3) as (h4 & E4 & Hu4 & Ha4).
  exists self, h1, self1, h2, self2, h3, L3, h4.
  exists (own (parsed_datatype self2) ⊎ own (lastBuffer self2) ⊎ own (callback self2) ⊎ L3).
  split_and!; try done.
  rewrite !gmultiset_size_disj_union, !size_own.
  rewrite Hpd1, Hpd in Hs3. change (size (∅ : gmultiset nat)) with 0 in Hs3. rewrite Hlb1, Hlb in Hb3.
  assert (Hheld : held (callback self2) = if is_function h cb then 1 else 0).
  { rewrite Hc3, Hc, Hcb. replace (is_function h1 cb) with (is_function h cb).
    - destruct cb as [f|]; [|done]. by destruct (is_function h (Some f)).
    - unfold is_function. destruct cb as [f|]; [|done]. rewrite Hk1; [done|]. apply Hin. right. by left. }
  rewrite Hheld, Hb3. cbn [held] in *. destruct (has_data os); cbn; lia.
Qed.

(** C40: each frame becomes a new bytearray with exactly its bytes, which pull
    then gives, and on which the function of the program is called with its
    user data, the type and the parsed type; the option drop_frames drops
    nothing. *)
Theorem python_gets_frame {FP} `{!PyCalls FP} `{!PyCallLaws FP} data (self : ReaderObject) L (h : pyheap FP) :
  at_rest self L h ->
  (callback self <> None -> rd_datatype self <> None /\ parsed_datatype self <> None) ->
  exists b h', let self' := self <| lastBuffer := Some b |> in
    Reader_on_data_handler data self h = (Ret self', h') /\ at_rest self' L h' /\
    match callback self with
    | None => kind_of h' b = Some (OBytes data)
    | Some f => exists h1 r h2,
        py_call f [callback_user_data self; Some b; rd_datatype self; parsed_datatype self] h1 =
          (Ret r, h2) /\ kind_of h1 b = Some (OBytes data)
    end /\
    exists h'', Reader_pull self' h' = (Ret (Some b), h'') /\ kind_of h'' b = kind_of h' b.
Proof.
  intros (Ha & Hm & Hd) Hc. destruct (on_data_spec data self L h Ha Hm Hc) as (b & h' & E & Ha' & Hb).
  exists b, h'. cbv zeta. split; [exact E|]. split; [split; [exact Ha'|by destruct self]|]. split.
  - destruct (callback self); [exact Hb|]. by destruct Hb.
  - destruct (py_incref_spec b _ h' Ha') as (h'' & E'' & _ & _ & Hk).
    { destruct self. unfold fields, set_member. cbn [own lastBuffer]. multiset_solver. }
    exists h''. split; [|apply Hk]. unfold Reader_pull. destruct self. unfold set_member. cbn [lastBuffer].
    by rewrite (bind_ret _ _ _ _ _ E'').
Qed.

(** Pushing a bytearray on an open writer is [shmdata_copy_to_shm] of its
    bytes, with True whatever its result; anything else is refused with False,
    and nothing happens. *)
Theorem push_copies {FP K} `{ErrnoOS K, SemOS K, ShmOS K, FileOS K, SockOS K} (b : option nat)
  (self : WriterObject K) (O : gmultiset nat) (h : pyheap FP) (w : world K) :
  accounted O h -> (forall p, b = Some p -> p ∈ O) ->
  match (b ≫= kind_of h), w_writer self with
  | Some (OBytes data), Some c =>
      forall r c' w', shmdata_copy_to_shm (Some c) data w = (Ret (r, c'), w') ->
        Writer_push b self (h, w) = (Ret (true, self <| w_writer := c' |>), (h, w'))
  | _, _ => Writer_push b self (h, w) = (Ret (false, self), (h, w))
  end.
Proof.
  intros Ha Hb. destruct b as [p|]; [|done]. cbn [mbind option_bind].
  destruct (accounted_live O h p Ha (Hb p eq_refl)) as [o Eo]. unfold kind_of. rewrite Eo. cbn [fmap option_fmap option_map snd].
  assert (Ev : on_py (py_value p) (h, w) = (Ret o, (h, w))) by (unfold on_py, py_value; by rewrite Eo).
  unfold Writer_push. rewrite (bind_ret _ _ _ _ _ Ev).
  destruct o; try done. destruct (w_writer self) as [c|]; [|done]. intros r c' w' E.
  set (h1 := h <| objects := <[p := ((Z.of_nat (multiplicity p O) + 1)%Z, OBytes bs)]> (objects h) |>).
  rewrite (bind_ret _ _ _ tt (h1, w)) by (unfold on_py, py_incref; by rewrite Eo).
  rewrite (bind_ret _ _ _ (r, c') (h1, w')) by (unfold on_os; by rewrite E).
  rewrite (bind_ret _ _ _ tt (h, w')); [done|].
  pose proof (mult_pos p O (Hb p eq_refl)) as Hpos.
  unfold on_py, py_xdecref, py_decref, h1, set_member. cbn [objects user]. rewrite lookup_insert_eq.
  rewrite (proj2 (Z.eqb_neq _ 1)) by lia. rewrite insert_insert_eq.
  replace (Z.of_nat (multiplicity p O) + 1 - 1)%Z with (Z.of_nat (multiplicity p O)) by lia.
  rewrite insert_id by done. by destruct h.
Qed.

(** ** Concrete instances *)

(** A program whose functions keep the buffer they are given. *)
Module Keeper.
#[local] Instance keeper : PyCalls Z := fun _ args =>
  match args with
  | [_; Some b; _; _] => py_incref b;; user_keeps (Some b);; mret None
  | _ => mret None
  end.

Lemma keeper_law : PyCallLaws Z.
Proof.
  intros f args O h Ha _ Hargs. exists None.
  assert (Hno : accounted (own None ⊎ O ⊎ user h) h)
    by (eapply accounted_eq; [|exact Ha]; cbn [own]; multiset_solver).
  unfold py_call, keeper.
  destruct args as [|q0 [|[b|] [|q2 [|q3 [|]]]]]; try (by exists h).
  destruct (py_incref_spec b _ h Ha) as (h1 & E1 & Ha1 & Hu1 & _).
  { assert (b ∈ O) by (apply Hargs; right; by left). multiset_solver. }
  exists (h1 <| user := {[+ b +]} ⊎ user h1 |>). split; [by rewrite (bind_ret _ _ _ _ _ E1)|].
  intros p. unfold set_member. cbn [objects user]. rewrite Hu1.
  replace (own None ⊎ O ⊎ ({[+ b +]} ⊎ user h)) with ({[+ b +]} ⊎ (O ⊎ user h))
    by (cbn [own]; multiset_solver). apply Ha1.
Qed.
#[local] Existing Instance keeper_law.

(** The path, a function, and True. *)
Definition program : pyheap Z :=
  mkPyHeap {[0 := (1%Z, OStr $"/tmp/shm"); 1 := (1%Z, OFunction); 2 := (1%Z, OBool true)]}
    {[+ 0; 1; 2 +]}.

Lemma program_accounted : accounted (user program) program.
Proof.
  intros p. do 3 (destruct p as [|p]; [by vm_compute|]). unfold program. cbn [objects user].
  rewrite !multiplicity_disj_union, !multiplicity_singleton_ne by done.
  by rewrite !lookup_insert_ne, lookup_singleton_ne by done.
Qed.

Definition no_float (s : cstr) : outcome Z := Throw InvalidArgument.
Definition example_ops : list reader_op :=
  [RConnect $"video/x-raw, width=(int)35"; RData $"abc"; RData $"de"; RPull; RDrop 0;
   RConnect $"audio/x-raw"; RData $"f"].

(** Two dictionaries, the last buffer and the function stay; the program has the
    three buffers. *)
Lemma python_reader_life_witness : exists self h1 self1 h2 self2 h3 h4 L,
  Reader_new program = (Ret self, h1) /\
  Reader_init 0 (Some 1) None (Some 2) (Some 2) self h1 = (Ret (0%Z, self1), h2) /\
  reader_run no_float Z.div example_ops self1 h2 = (Ret self2, h3) /\
  Reader_dealloc self2 h3 = (Ret tt, h4) /\ accounted (L ⊎ user h4) h4 /\ size L = 4.
Proof.
  destruct (python_reader_life no_float Z.div 0 (Some 1) None (Some 2) (Some 2) example_ops program
    $"/tmp/shm" program_accounted) as (self & h1 & self1 & h2 & self2 & h3 & L3 & h4 & L4 & E1 & E2 & E3 & _ & _ & E4 & Ha & Hs).
  - intros q Hq. apply (bool_decide_unpack _).
    repeat (apply elem_of_cons in Hq as [Hq|Hq]; [try discriminate Hq; injection Hq as ->; by vm_compute|]).
    by apply elem_of_nil in Hq.
  - by vm_compute.
  - by vm_compute.
  - exists self, h1, self1, h2, self2, h3, h4, L4. split; [exact E1|]. split; [exact E2|].
    split; [exact E3|]. split; [exact E4|]. split; [exact Ha|exact Hs].
Defined.

(** A reader with the function and the option drop_frames. *)
Definition listening : ReaderObject :=
  mkReaderObject (Some 0) (Some 0) (Some 0) None (Some 1) None true false true false.
Definition listening_heap : pyheap Z :=
  mkPyHeap {[0 := (3%Z, OStr $"/tmp/shm"); 1 := (1%Z, OFunction)]} ∅.

Lemma python_gets_frame_witness : exists b h' h1 r h2,
  Reader_on_data_handler $"abc" listening listening_heap =
    (Ret (listening <| lastBuffer := Some b |>), h') /\
  py_call 1 [None; Some b; Some 0; Some 0] h1 = (Ret r, h2) /\ kind_of h1 b = Some (OBytes $"abc").
Proof.
  destruct (python_gets_frame $"abc" listening ∅ listening_heap) as (b & h' & E & _ & (h1 & r & h2 & Ec & Hk) & _).
  - split; [|by vm_compute]. intros p. do 2 (destruct p as [|p]; [by vm_compute|]).
    unfold listening_heap, fields. cbn [objects user listening own rd_py_path rd_datatype parsed_datatype lastBuffer callback callback_user_data].
    rewrite !multiplicity_disj_union, !multiplicity_singleton_ne, !multiplicity_empty by done.
    by rewrite !lookup_insert_ne, lookup_singleton_ne by done.
  - done.
  - exists b, h', h1, r, h2. split; [exact E|]. split; [exact Ec|exact Hk].
Defined.
End Keeper.

(** A writer of the shared example pushes two bytes. *)
Definition pushing : WriterObject kernel := mkWriterObject None None None (Some example_cwriter) false.
Definition pushed_heap : pyheap Z := mkPyHeap {[0 := (1%Z, OBytes $"xy")]} {[+ 0 +]}.

Lemma push_copies_witness : exists c' w',
  Writer_push (Some 0) pushing (pushed_heap, shared_world 1 [0; 0]%Z) =
    (Ret (true, pushing <| w_writer := c' |>), (pushed_heap, w')) /\
  seg_bytes (kern w') 1 = Some $"xycdef" /\
  Writer_push None pushing (pushed_heap, shared_world 1 [0; 0]%Z) =
    (Ret (false, pushing), (pushed_heap, shared_world 1 [0; 0]%Z)).
Proof.
  assert (Ha : accounted {[+ 0 +]} pushed_heap).
  { intros [|p]; [by vm_compute|]. rewrite multiplicity_singleton_ne by done. cbn [objects pushed_heap].
    by rewrite lookup_singleton_ne by done. }
  destruct (shmdata_copy_to_shm (Some example_cwriter) $"xy" (shared_world 1 [0; 0]%Z))
    as [[[r c']|e| |] w'] eqn:E; [|vm_compute in E; discriminate ..].
  exists c', w'. split; [|split].
  - pose proof (push_copies (Some 0) pushing {[+ 0 +]} pushed_heap (shared_world 1 [0; 0]%Z) Ha
      ltac:(intros p [= <-]; multiset_solver)) as H.
    assert (Hk : (Some 0 ≫= kind_of pushed_heap) = Some (OBytes $"xy")) by (by vm_compute).
    rewrite Hk in H. exact (H r c' w' E).
  - apply (f_equal (fun x => seg_bytes (kern x.2) 1)) in E. cbn [snd] in E.
    rewrite <- E. by vm_compute.
  - exact (push_copies None pushing {[+ 0 +]} pushed_heap _ Ha ltac:(done)).
Defined.
