(* ===== verification/Tools.v ===== *)
(** * The command-line tools (utils/sdflow.cpp, utils/sdcrash.cpp)

    [sdflow] prints the frames of a shmdata: its options, the printing of
    values, and the data callback.  [sdcrash] writes a counter: its options
    and its loop, through the C interface.  getopt is a list of options with
    their arguments, then the operands; numbers printed by printf and the
    float arithmetic are parameters. *)

From S2P Require Import Prelude Logger Regex StdLib Posix PosixModel SysVSem SysVShm KernelLimits.
From S2P Require Import SocketProtocol UnixSocketServer UnixSocketClient Reader ReaderTheorems.
From S2P Require Import Writer WriterTheorems Follower CInterface.

Definition UINT_MAX : Z := 4294967295.
Definition ULLONG_MAX : Z := 18446744073709551615.

(** [atoi]; undefined when the value is not an [int]. *)
Definition atoi (s : cstr) : outcome Z :=
  let (neg, s') := read_sign (skip_space s) in
  let v := digits_val 0 (span_digits s').1 in
  let z := if neg then (- v)%Z else v in
  if ((INT_MIN <=? z) && (z <=? INT_MAX))%Z then Ret z else Undef.

(** An option and its argument. *)
Record opt := Opt { opt_char : ascii; optarg : cstr }.

(** ** sdflow *)

Module Sdflow.
Definition MAX_FRAME_TIME_COUNT : nat := 30.

Section print_vals.
Context (sizeof : nat) (format : cstr -> cstr).

(** [vals[i]]; undefined outside of the memory at [data]. *)
Definition vals (data : cstr) (i : nat) : outcome cstr :=
  if (i * sizeof + sizeof <=? length data)%nat then Ret (take sizeof (drop (i * sizeof) data))
  else Undef.

(** [while (val_index < max_val_displayed && val_index * sizeof(T) < size)] *)
Fixpoint print_loop (fuel : nat) (max_val_displayed : Z) (size : nat) (data : cstr)
  (val_index : nat) (printed : cstr) : outcome (nat * cstr) :=
  if (Z.of_nat val_index <? max_val_displayed)%Z && (val_index * sizeof <? size)%nat
  then
    match fuel with
    | O => Sleep
    | S fuel' =>
        v ← vals data val_index;
        print_loop fuel' max_val_displayed size data (S val_index) (printed ++ format v)
    end
  else Ret (val_index, printed).

Definition print_vals (data : cstr) (max_val_displayed : Z) (size : nat) : outcome cstr :=
  '(val_index, printed) ← print_loop size max_val_displayed size data 0 [];
  Ret (if (val_index =? size / sizeof)%nat then printed else printed ++ $"...").
End print_vals.

(** The variables of [main]. *)
Record sdflow := mkSdflow {
  debug : bool;
  show_frame_timings : bool;
  show_version : bool;
  cartridge_return : bool;
  max_val_displayed : Z;
  format : cstr;
  print_info : bool;
  frame_count : Z;
  frames_time : list Z }.

#[export] Instance sdflow_settable : Settable sdflow := fun s =>
  mkSdflow (debug s) (show_frame_timings s) (show_version s) (cartridge_return s)
    (max_val_displayed s) (format s) (print_info s) (frame_count s) (frames_time s).
Implicit Types (st : sdflow).

Definition defaults : sdflow := mkSdflow false false false false 12 $"x" true 0 [].

(** The loop on the options; the others are ignored. *)
Definition apply_option (o : opt) st : outcome sdflow :=
  let c := opt_char o in
  if bool_decide (c = "c"%char) then Ret (st <| cartridge_return := true |>)
  else if bool_decide (c = "d"%char) then Ret (st <| debug := true |>)
  else if bool_decide (c = "f"%char) then Ret (st <| format := optarg o |>)
  else if bool_decide (c = "t"%char) then Ret (st <| show_frame_timings := true |>)
  else if bool_decide (c = "m"%char)
  then n ← atoi (optarg o); Ret (st <| max_val_displayed := (n mod (UINT_MAX + 1))%Z |>)
  else if bool_decide (c = "n"%char) then Ret (st <| print_info := false |>)
  else if bool_decide (c = "v"%char) then Ret (st <| show_version := true |>)
  else Ret st.

Fixpoint apply_options (os : list opt) st : outcome sdflow :=
  match os with
  | [] => Ret st
  | o :: os' => st' ← apply_option o st; apply_options os' st'
  end.

Inductive start := Version | Usage | Run (st : sdflow) (shmpath : cstr).

(** [main] up to the follower. *)
Definition main (os : list opt) (operands : list cstr) : outcome start :=
  st ← apply_options os defaults;
  Ret (if show_version st then Version
       else match operands with [shmpath] => Run st shmpath | _ => Usage end).

(** [push_back], then [pop_front] while there are too many. *)
Fixpoint trim (l : list Z) : list Z :=
  match l with
  | [] => []
  | _ :: l' => if (MAX_FRAME_TIME_COUNT <? length l)%nat then trim l' else l
  end.

Section on_data.
Context {FP : Type} (of_int : Z -> FP) (fdiv : FP -> FP -> FP) (show0 show2 : FP -> cstr).
Context (print_float print_i16 print_char print_hex : cstr -> cstr).

(** The delay and the frames per second. *)
Definition timings (times : list Z) : FP * FP :=
  match last times, head times, last (removelast times) with
  | Some back, Some front, Some before =>
      (of_int (back - before),
       fdiv (of_int 1000) (fdiv (of_int (back - front)) (of_int (Z.of_nat (length times) - 1))))
  | _, _, _ => (of_int 0, of_int 0)
  end.

(** The lines before the values. *)
Definition info (now : Z) (size : nat) st : cstr * sdflow :=
  let st := if show_frame_timings st
            then st <| frames_time := trim (frames_time st ++ [now]) |> else st in
  let (frame_duration, framerate) :=
    if show_frame_timings st then timings (frames_time st) else (of_int 0, of_int 0) in
  (to_string (frame_count st) ++
   (if show_frame_timings st
    then $"    dT: " ++ show0 frame_duration ++ $"ms" ++ $"    fps: " ++ show2 framerate else []) ++
   $"    size: " ++ to_string (Z.of_nat size) ++ $"    data: ",
   st <| frame_count := if (frame_count st =? ULLONG_MAX)%Z then 0%Z else (frame_count st + 1)%Z |>).

Definition values (data : cstr) (size : nat) st : outcome cstr :=
  if bool_decide (format st = $"f") then print_vals 4 print_float data (max_val_displayed st) size
  else if bool_decide (format st = $"c") then print_vals 1 print_char data (max_val_displayed st) size
  else if bool_decide (format st = $"i16") then print_vals 2 print_i16 data (max_val_displayed st) size
  else print_vals 1 print_hex data (max_val_displayed st) size.

(** The data callback: what it prints, at the time [now]. *)
Definition on_data (now : Z) (data : cstr) (size : nat) st : outcome (cstr * sdflow) :=
  let (line, st) := if print_info st then info now size st else ([], st) in
  shown ← values data size st;
  Ret ((if cartridge_return st then [Ascii.ascii_of_nat 27] ++ $"[2K" ++ [Ascii.ascii_of_nat 13] else []) ++
       line ++ shown ++ (if cartridge_return st then [] else [Ascii.ascii_of_nat 10]), st).

(** A number of frames, each with its time. *)
Fixpoint frames (fs : list (Z * (cstr * nat))) st : outcome (list cstr * sdflow) :=
  match fs with
  | [] => Ret ([], st)
  | (now, (data, size)) :: fs' =>
      '(line, st1) ← on_data now data size st;
      '(lines, st2) ← frames fs' st1;
      Ret (line :: lines, st2)
  end.
End on_data.

(** ** Theorems *)

Section spec.
Context (sizeof : nat) (format : cstr -> cstr).

(** The number of values that the loop prints: those that start before the
    end of the frame. *)
Definition shown_count (max : Z) (size : nat) : nat :=
  Nat.min (Z.to_nat max) ((size + sizeof - 1) / sizeof).
Definition chunk (data : cstr) (i : nat) : cstr := take sizeof (drop (i * sizeof) data).

Lemma loop_condition max size i : (0 < sizeof)%nat -> (0 <= max)%Z ->
  (Z.of_nat i <? max)%Z && (i * sizeof <? size)%nat = (i <? shown_count max size)%nat.
Proof.
  intros Hs Hm. unfold shown_count.
  destruct (Z.ltb_spec (Z.of_nat i) max), (Nat.ltb_spec (i * sizeof) size),
    (Nat.ltb_spec i (Nat.min (Z.to_nat max) ((size + sizeof - 1) / sizeof))); try done; exfalso.
  - assert (i + 1 <= (size + sizeof - 1) / sizeof)%nat; [|lia].
    apply Nat.div_le_lower_bound; nia.
  - assert ((size + sizeof - 1) / sizeof < i + 1)%nat; [|lia]. apply Nat.Div0.div_lt_upper_bound. nia.
  - lia.
  - lia.
Qed.

Lemma print_loop_spec max size data fuel i acc :
  (0 < sizeof)%nat -> (0 <= max)%Z -> (i <= shown_count max size)%nat ->
  (shown_count max size - i <= fuel)%nat ->
  print_loop sizeof format fuel max size data i acc =
  if (i <? shown_count max size)%nat && negb (shown_count max size * sizeof <=? length data)%nat
  then Undef
  else Ret (shown_count max size,
            acc ++ concat ((fun j => format (chunk data j)) <$> seq i (shown_count max size - i))).
Proof.
  intros Hs Hm. set (k := shown_count max size). revert i acc.
  induction fuel as [|fuel IH]; intros i acc Hi Hf; cbn [print_loop];
    rewrite loop_condition by done; fold k; destruct (Nat.ltb_spec i k) as [Hlt|Hge]; try lia.
  - replace i with k by lia. rewrite Nat.sub_diag. cbn. by rewrite app_nil_r.
  - unfold vals. destruct (Nat.leb_spec (k * sizeof) (length data)) as [Hfit|Hno]; cbn [negb andb].
    + assert (E : (i * sizeof + sizeof <=? length data)%nat = true) by (apply Nat.leb_le; nia).
      rewrite E. cbn [mbind outcome_bind]. rewrite IH by lia.
      cbn [negb]. rewrite andb_false_r.
      replace (k - i)%nat with (S (k - S i)) by lia. cbn [seq fmap list_fmap concat].
      by rewrite <- app_assoc.
    + destruct (Nat.leb_spec (i * sizeof + sizeof) (length data)) as [H1|H1]; [|done].
      cbn [mbind outcome_bind]. rewrite IH by lia. cbn [negb]. rewrite andb_true_r.
      destruct (Nat.ltb_spec (S i) k) as [H2|H2]; [done|]. exfalso.
      replace k with (S i) in Hno by lia. nia.
  - replace i with k by lia. rewrite Nat.sub_diag. cbn. by rewrite app_nil_r.
Qed.
End spec.

(** [print_vals] ends and prints the values of the frame in order, at most
    [max_val_displayed] of them, then an ellipsis unless exactly all the whole
    values were printed.  The last value is read beyond the end of the frame
    when the size is not a multiple of the size of a value, which is undefined
    when the memory ends there. *)
Theorem print_vals_spec sizeof format data max size :
  (0 < sizeof)%nat -> (0 <= max)%Z ->
  let k := shown_count sizeof max size in
  print_vals sizeof format data max size =
    (if (k * sizeof <=? length data)%nat
     then Ret (concat ((fun j => format (chunk sizeof data j)) <$> seq 0 k) ++
               (if (k =? size / sizeof)%nat then [] else $"..."))
     else Undef) /\
  (size mod sizeof = 0 -> size <= length data -> k * sizeof <= length data)%nat /\
  (size mod sizeof <> 0 -> (Z.of_nat size <= max)%Z -> size < k * sizeof)%nat.
Proof.
  intros Hs Hm. cbv zeta. set (k := shown_count sizeof max size).
  assert (Hk : (k <= (size + sizeof - 1) / sizeof)%nat) by (unfold k, shown_count; lia).
  pose proof (Nat.div_mod_eq size sizeof) as Hdm. pose proof (Nat.mod_upper_bound size sizeof ltac:(lia)) as Hmb.
  split_and!.
  - unfold print_vals. rewrite print_loop_spec; [|done|done|lia|].
    + fold k. rewrite Nat.sub_0_r. cbn [app]. destruct (Nat.leb_spec (k * sizeof) (length data)) as [Hf|Hf].
      * rewrite andb_false_r. cbn [mbind outcome_bind]. destruct (_ =? _)%nat; by rewrite ?app_nil_r.
      * clearbody k. by rewrite (proj2 (Nat.ltb_lt 0 k)) by nia.
    + fold k. rewrite Nat.sub_0_r. etrans; [exact Hk|]. destruct (Nat.eq_dec size 0) as [->|Hne].
      * rewrite Nat.div_small by lia. lia.
      * apply Nat.Div0.div_le_upper_bound. nia.
  - intros Hz Hle. rewrite Hz in Hdm.
    assert ((size + sizeof - 1) / sizeof <= size / sizeof)%nat; [|nia].
    apply Nat.lt_succ_r, Nat.Div0.div_lt_upper_bound. nia.
  - intros Hz Hle. assert (k = S (size / sizeof)) as ->; [|nia]. unfold k, shown_count.
    assert ((size + sizeof - 1) / sizeof = S (size / sizeof))%nat as E.
    { symmetry. apply (Nat.div_unique _ _ _ (size mod sizeof - 1)); nia. }
    rewrite E. assert (size / sizeof < size)%nat by (apply Nat.Div0.div_lt_upper_bound; nia). lia.
Qed.

(** Five bytes shown as pairs: the last pair takes a byte that is not of the
    frame, and an ellipsis follows the complete output. *)
Lemma print_vals_spec_witness :
  let show (v : cstr) := v ++ $"," in
  print_vals 2 show $"abcde#" 12 5 = Ret $"ab,cd,e#,..." /\
  print_vals 2 show $"abcde" 12 5 = Undef /\
  print_vals 2 show $"abcd" 12 4 = Ret $"ab,cd,".
Proof.
  intros show.
  destruct (print_vals_spec 2 show $"abcde#" 12 5 ltac:(lia) ltac:(lia)) as (-> & _).
  destruct (print_vals_spec 2 show $"abcde" 12 5 ltac:(lia) ltac:(lia)) as (-> & _).
  destruct (print_vals_spec 2 show $"abcd" 12 4 ltac:(lia) ltac:(lia)) as (-> & _).
  by vm_compute.
Defined.

(** The last [MAX_FRAME_TIME_COUNT] times. *)
Definition window (l : list Z) : list Z := drop (length l - MAX_FRAME_TIME_COUNT) l.

Lemma trim_window l : trim l = window l.
Proof.
  unfold window. induction l as [|x l IH]; [done|]. cbn [trim].
  destruct (Nat.ltb_spec MAX_FRAME_TIME_COUNT (length (x :: l))) as [H|H].
  - rewrite IH. cbn [length] in *. by replace (S (length l) - _)%nat with (S (length l - MAX_FRAME_TIME_COUNT)) by lia.
  - by replace (length (x :: l) - MAX_FRAME_TIME_COUNT)%nat with 0%nat by lia.
Qed.

Lemma window_app l l' : window (window l ++ l') = window (l ++ l').
Proof.
  unfold window. rewrite !length_app, length_drop. set (n := MAX_FRAME_TIME_COUNT).
  destruct (Nat.le_gt_cases (length l) n) as [H|H].
  - replace (length l - n)%nat with 0%nat by lia. by rewrite Nat.sub_0_r.
  - rewrite <- (drop_app_le l l' (length l - n)) by lia. rewrite drop_drop. f_equal. lia.
Qed.

Section window_spec.
Context {FP : Type} (of_int : Z -> FP) (fdiv : FP -> FP -> FP) (show0 show2 : FP -> cstr).
Context (print_float print_i16 print_char print_hex : cstr -> cstr).

Lemma on_data_state now data size st line st' :
  print_info st = true -> show_frame_timings st = true ->
  on_data of_int fdiv show0 show2 print_float print_i16 print_char print_hex now data size st =
    Ret (line, st') ->
  st' = st <| frames_time := trim (frames_time st ++ [now]) |>
           <| frame_count := if (frame_count st =? ULLONG_MAX)%Z then 0%Z else (frame_count st + 1)%Z |>.
Proof.
  intros Hp Ht. unfold on_data, info. rewrite Hp, Ht. cbn [show_frame_timings set_member]. rewrite Ht.
  destruct (timings _ _ _) as [a b]. destruct (values _ _ _ _ _ _ _); try done.
  by intros [= _ <-].
Qed.

(** Over any number of frames printed with their timings, one line is
    printed for each; the times kept are the last [MAX_FRAME_TIME_COUNT], so
    that the memory of the tool is bounded and the rate is over at most 29
    intervals; and the frame number counts modulo 2^64. *)
Theorem frames_window fs st lines st' :
  print_info st = true -> show_frame_timings st = true ->
  (length (frames_time st) <= MAX_FRAME_TIME_COUNT)%nat ->
  (0 <= frame_count st <= ULLONG_MAX)%Z ->
  frames of_int fdiv show0 show2 print_float print_i16 print_char print_hex fs st = Ret (lines, st') ->
  length lines = length fs /\ frames_time st' = window (frames_time st ++ (fst <$> fs)) /\
  (length (frames_time st') <= MAX_FRAME_TIME_COUNT)%nat /\
  frame_count st' = ((frame_count st + Z.of_nat (length fs)) mod 2 ^ 64)%Z.
Proof.
  intros Hp Ht Hl Hc E.
  assert (Hw : forall l, (length (window l) <= MAX_FRAME_TIME_COUNT)%nat)
    by (intros l; unfold window; rewrite length_drop; lia).
  assert (H : length lines = length fs /\ frames_time st' = window (frames_time st ++ (fst <$> fs)) /\
    frame_count st' = ((frame_count st + Z.of_nat (length fs)) mod 2 ^ 64)%Z);
    [|destruct H as (-> & -> & ->); auto].
  revert st lines st' Hp Ht Hl Hc E. induction fs as [|[now [data size]] fs IH];
    intros st lines st' Hp Ht Hl Hc E; cbn [frames] in E.
  - injection E as <- <-. cbn [fmap list_fmap length]. rewrite app_nil_r, Z.add_0_r.
    split; [done|]. split.
    + unfold window. by replace (length _ - _)%nat with 0%nat by lia.
    + rewrite Z.mod_small; [done|]. unfold ULLONG_MAX in Hc. lia.
  - destruct (on_data _ _ _ _ _ _ _ _ now data size st) as [[line st1]|e| |] eqn:E1; try done.
    cbn in E. destruct (frames _ _ _ _ _ _ _ _ fs st1) as [[lines' st2]|e| |] eqn:E2; try done.
    cbn in E. injection E as <- <-. apply on_data_state in E1; [|done|done]. subst st1.
    assert (Hl1 : (length (trim (frames_time st ++ [now])) <= MAX_FRAME_TIME_COUNT)%nat)
      by (rewrite trim_window; apply Hw).
    match type of E2 with frames _ _ _ _ _ _ _ _ _ ?s = _ => destruct (IH s lines' st2) as (H1 & H2 & H3) end;
      [done|done|exact Hl1| |exact E2|].
    { cbn. unfold ULLONG_MAX in *. case_match eqn:Hm; [lia|]. apply Z.eqb_neq in Hm. lia. }
    cbn [frames_time frame_count set_member] in H2, H3. cbn [length fmap list_fmap fst].
    split; [by rewrite H1|]. split.
    + rewrite H2, trim_window, window_app, <- app_assoc. done.
    + rewrite H3. unfold ULLONG_MAX in *. destruct (Z.eqb_spec (frame_count st) 18446744073709551615) as [->|Hm].
      * replace (18446744073709551615 + Z.of_nat (S (length fs)))%Z
          with (0 + Z.of_nat (length fs) + 1 * 2 ^ 64)%Z by lia. by rewrite Z.mod_add.
      * f_equal. lia.
Qed.
End window_spec.

(** Two frames, times in milliseconds, the frame number at its maximum. *)
Lemma frames_window_witness :
  let st := defaults <| show_frame_timings := true |> <| frame_count := ULLONG_MAX |> in
  let id (s : cstr) := s in
  exists lines st',
    frames (fun z => z) Z.div to_string to_string id id id id
      [(1000%Z, ($"a", 1)); (1040%Z, ($"bc", 2))] st = Ret (lines, st') /\
    length lines = 2 /\ frames_time st' = [1000%Z; 1040%Z] /\ frame_count st' = 1%Z.
Proof.
  intros st id.
  destruct (frames (fun z => z) Z.div to_string to_string id id id id
      [(1000%Z, ($"a", 1)); (1040%Z, ($"bc", 2))] st) as [[lines st']|e| |] eqn:E;
    try (vm_compute in E; discriminate).
  destruct (frames_window (fun z => z) Z.div to_string to_string id id id id _ st lines st'
    eq_refl eq_refl ltac:(simpl; unfold MAX_FRAME_TIME_COUNT; lia)
    ltac:(unfold st, ULLONG_MAX; cbn; lia) E) as (Hl & Ht & _ & Hc).
  exists lines, st'. split; [done|]. split; [exact Hl|]. split; [exact Ht|exact Hc].
Defined.
End Sdflow.

(** ** sdcrash *)

Module Sdcrash.
Record sdcrash := mkSdcrash {
  cr_debug : bool;
  verbose : bool;
  properly_quit : bool;
  num_writes : Z;
  num_writes_enabled : bool }.

#[export] Instance sdcrash_settable : Settable sdcrash := fun s =>
  mkSdcrash (cr_debug s) (verbose s) (properly_quit s) (num_writes s) (num_writes_enabled s).
Implicit Types (o : sdcrash).

Definition crash_defaults : sdcrash := mkSdcrash false false false 0 false.

Definition crash_option (x : opt) o : outcome sdcrash :=
  let c := opt_char x in
  if bool_decide (c = "d"%char) then Ret (o <| cr_debug := true |>)
  else if bool_decide (c = "v"%char) then Ret (o <| verbose := true |>)
  else if bool_decide (c = "q"%char) then Ret (o <| properly_quit := true |>)
  else if bool_decide (c = "n"%char)
  then n ← atoi (optarg x); Ret (o <| num_writes := n |> <| num_writes_enabled := true |>)
  else Ret o.

Fixpoint crash_options (xs : list opt) o : outcome sdcrash :=
  match xs with
  | [] => Ret o
  | x :: xs' => o' ← crash_option x o; crash_options xs' o'
  end.

(** [sizeof(Frame)], and the bytes of a frame. *)
Definition sizeof_Frame : Z := 8.
Definition frame_bytes (count : Z) : cstr := le 8 count.

(** [mylog]: what it prints. *)
Definition mylog o (str : cstr) : cstr := if cr_debug o then str ++ [Ascii.ascii_of_nat 10] else [].

Section loop.
Context {K : Type} `{ErrnoOS K, SemOS K, ShmOS K, FileOS K, SockOS K}.
Implicit Types (w : option (CWriter K)).

(** [leave], and the end of [main]. *)
Definition leave o w : M (world K) unit :=
  when (properly_quit o) (shmdata_delete_writer w).

(** The loop of [main], [turns] turns at most; the option -v prints more. *)
Fixpoint loop (turns : nat) (count : Z) o w : M (world K) (option (CWriter K) * sdcrash) :=
  match turns with
  | O => mret (w, o)
  | S turns' =>
      let count := to_size_t (count + 1) in
      if num_writes_enabled o && (num_writes o <=? 0)%Z then mret (w, o)
      else
        '(_, w) ← shmdata_copy_to_shm w (frame_bytes count);
        let o := if num_writes_enabled o then o <| num_writes := (num_writes o - 1)%Z |> else o in
        loop turns' count o w
  end.

(** [main] after the options; the result is the exit code. *)
Definition crash_main (pad shmpath : cstr) (reader_turns turns : nat) o : M (world K) Z :=
  writer ← shmdata_make_writer pad shmpath sizeof_Frame $"application/x-sdcrash" None None 0 384
             reader_turns;
  match writer with
  | None => mret 1%Z
  | Some _ =>
      '(w, o) ← loop turns 0 o writer;
      leave o w;;
      mret 0%Z
  end.
End loop.

(** ** Theorems *)

Section writes.
Context {K : Type} `{FileOS K} `{ErrnoOS K} `{SemOS K} `{ShmOS K} `{SockOS K}
  `{!SemLaws K} `{!ShmLaws K} `{!SockLaws K} `{!FileLaws K} `{!FrameLaws K}.
Implicit Types (c : CWriter K) (k : K).

(** A writer that nobody uses at the moment, its segment with the bytes [m]. *)
Definition idle c (sem : sysVSem) (shm : sysVShm) (p : Z) (cl : list Z) (m : cstr) k : Prop :=
  wr_sem_ (writer_ c) = Some sem /\ sysVSem_is_valid sem = true /\
  wr_shm_ (writer_ c) = Some shm /\ get_mem shm = Some p /\
  (sizeof_Frame <= shm_size_ (connect_data_ (writer_ c)))%Z /\ 8 <= length m /\
  NoDup cl /\ (Z.of_nat (length cl) < SHRT_MAX)%Z /\
  (exists srv, srv_ (writer_ c) = Some srv /\ clients_ srv = cl) /\
  (exists a, (0 <= a)%Z /\ sem_vals k (semid_ sem) = Some [a; 0%Z]) /\
  seg_at k p = Some (shmid_ shm) /\ seg_bytes k (shmid_ shm) = Some m.

Lemma copy_idle count c sem shm p cl m (W : world K) :
  idle c sem shm p cl m (kern W) ->
  exists c' W', shmdata_copy_to_shm (Some c) (frame_bytes count) W = (Ret (1%Z, Some c'), W') /\
    idle c' sem shm p cl (frame_bytes count ++ drop 8 m) (kern W').
Proof using All.
  intros (Hsem & Hval & Hshm & Hp & Hsz & Hm8 & Hnd & Hl & (srv & Hsrv & <-) & (a & Ha & Hv) & Hat & Hm).
  assert (Hlen : length (frame_bytes count) = 8) by apply length_le.
  destruct (ktotal_run _ _ _ W (copy_to_shm_spec (frame_bytes count) (writer_ c) sem srv shm p m a
    (fds (kern W)) (out (kern W)) Hsem Hval Hshm Hp Hsrv Hnd Hl Ha ltac:(by rewrite Hlen)
    ltac:(by rewrite Hlen))) as ([res w'] & W' & E & -> & srv' & -> & Hpub).
  { by split_and!. }
  exists (with_writer (with_srv (Some srv') (writer_ c)) c), W'. split.
  - unfold shmdata_copy_to_shm, deref. by rewrite (bind_ret _ _ _ _ _ E).
  - destruct Hpub as (Hv' & Hb & Hat' & _ & Hcl & _). rewrite Hlen in Hb.
    assert (Hl8 : 8 <= length (frame_bytes count ++ drop 8 m)) by (rewrite length_app, Hlen; lia).
    revert Hl8 Hb. generalize (frame_bytes count ++ drop 8 m). intros m' Hl8 Hb.
    unfold idle. cbn. split_and!; try done.
    + by exists srv'.
    + eexists. split; [|exact Hv']. lia.
Qed.

(** With the option -n, [sdcrash] makes exactly that many writes and ends,
    within one turn more than there are writes; the segment then starts with
    the number of the last one, on 8 bytes, and the rest is unchanged. *)
Theorem sdcrash_writes (n extra : nat) o c sem shm p cl m (W : world K) :
  num_writes_enabled o = true -> num_writes o = Z.of_nat n -> (Z.of_nat n < 2 ^ 64)%Z ->
  idle c sem shm p cl m (kern W) ->
  exists c' o' W', loop (S n + extra) 0 o (Some c) W = (Ret (Some c', o'), W') /\
    num_writes o' = 0%Z /\
    idle c' sem shm p cl (if decide (n = 0) then m else frame_bytes (Z.of_nat n) ++ drop 8 m) (kern W').
Proof using All.
  intros He Hn Hmax Hi.
  enough (Hg : forall j count o c m W, num_writes_enabled o = true -> num_writes o = Z.of_nat j ->
    (0 <= count)%Z -> (count + Z.of_nat j < 2 ^ 64)%Z -> idle c sem shm p cl m (kern W) ->
    exists c' o' W', loop (S j + extra) count o (Some c) W = (Ret (Some c', o'), W') /\
      num_writes o' = 0%Z /\
      idle c' sem shm p cl (if decide (j = 0) then m
                            else frame_bytes (count + Z.of_nat j) ++ drop 8 m) (kern W')).
  { apply (Hg n 0%Z o c m W); try done; lia. }
  clear n o c m W He Hn Hmax Hi. induction j as [|j IH]; intros count o c m W He Hn Hc Hmax Hi.
  - exists c, o, W. split; [|split; [done|]].
    + cbn. by rewrite He, Hn.
    + by rewrite decide_True.
  - assert (Hcount : to_size_t (count + 1) = (count + 1)%Z) by (unfold to_size_t; rewrite Z.mod_small; lia).
    destruct (copy_idle (count + 1) c sem shm p cl m W Hi) as (c1 & W1 & E1 & Hi1).
    pose (o1 := o <| num_writes := Z.of_nat j |>).
    destruct (IH (count + 1)%Z o1 c1 _ W1 He eq_refl ltac:(lia)
      ltac:(lia) Hi1) as (c' & o' & W' & E & Ho & Hi').
    exists c', o', W'. split; [|split; [exact Ho|]].
    + change (S (S j) + extra)%nat with (S (S j + extra)). cbn [loop]. rewrite He, Hn.
      rewrite (proj2 (Z.leb_gt _ _)) by lia. cbn [andb]. rewrite Hcount, (bind_ret _ _ _ _ _ E1).
      cbv iota beta. replace (Z.of_nat (S j) - 1)%Z with (Z.of_nat j) by lia. exact E.
    + rewrite decide_False by lia. destruct (decide (j = 0)) as [->|Hj].
      * exact Hi'.
      * replace (count + Z.of_nat (S j))%Z with (count + 1 + Z.of_nat j)%Z by lia.
        rewrite drop_app_length' in Hi' by (symmetry; apply length_le). exact Hi'.
Qed.
End writes.

(** A segment of one frame, with the semaphores and the clients of a writer. *)
Definition crash_world : world kernel :=
  World (Kernel 0 1 {[1 := [0%Z; 0%Z]]} {[621%Z := 1]} {[1 := zeros 8]} {[622%Z := 1]} {[2 := 1]}
    (k_net (kern (shared_world 1 [0; 0]%Z)))) [].
Definition crash_shm : sysVShm := SysVShm 622 8 1 true (Some 2%Z).
Definition crash_writer : CWriter kernel :=
  mkCWriter None None 0 (mkWriter $"/s" (OnConnectData 0 (zeros 6) 8 (zeros user_data_size))
    (Some shared_server) (Some crash_shm) (Some writer_sem) 8 true).

(** -n 2. *)
Lemma sdcrash_writes_witness :
  exists c o W',
    crash_options [Opt "n" $"2"] crash_defaults = Ret o /\
    exists o', loop 6 0 o (Some crash_writer) crash_world = (Ret (Some c, o'), W') /\
    num_writes o' = 0%Z /\
    seg_bytes (kern W') 1 = Some (Ascii.ascii_of_nat 2 :: zeros 7).
Proof.
  destruct shared_clients as [Hnd Hl].
  destruct (sdcrash_writes 2 3 (mkSdcrash false false false 2 true) crash_writer writer_sem crash_shm
    2 (clients_ shared_server) (zeros 8) crash_world eq_refl eq_refl ltac:(lia))
    as (c & o' & W' & E & Ho & Hi).
  { unfold idle. split_and!; try done; [exists shared_server; done|]. exists 0%Z. by vm_compute. }
  exists c, (mkSdcrash false false false 2 true), W'. split; [by vm_compute|]. exists o'.
  split; [exact E|]. split; [exact Ho|].
  destruct Hi as (_ & _ & _ & _ & _ & _ & _ & _ & _ & _ & _ & Hb). exact Hb.
Defined.
End Sdcrash.
