(* ===== verification/ShmProtocol.v ===== *)
(** * The shared-memory protocol as a transition system

    One writer thread that calls [Writer::copy_to_shm] (writer.cpp), the
    server thread that adds and removes clients (unix-socket-server.cpp), any
    number of readers (reader.cpp), the semaphore set (sysv-sem.cpp), the
    shared-memory segments, and the time-out thread of [WriteLock].  A step is
    one system call, one byte of [memcpy], or one event of the environment;
    all threads and processes interleave at steps.

    Semaphore steps run the operation arrays of [SysVSem.v] by the documented
    semantics of semop(2) ([run_ops]).  A send succeeds exactly when the peer
    is alive.  A client that ended with unread input makes the server's read
    fail (ECONNRESET), one that ended with none makes it return 0.  Segments
    are identified by their creation number; the shm key names the last one.
    [s_lost] and [s_last] are ghost: the number of decrements that dead
    readers still owed, and the frame of the last write. *)

From S2P Require Import Prelude Posix SysVSem.

Abbreviation frame := cstr (only parsing).

(** ** States *)

(** A reader between two messages, in [ReadLock::ReadLock], in the data
    callback. *)
Inductive rphase := RIdle | RWaitLock (size : nat) | RReading (size : nat).

Record reader := Reader {
  r_inbox : list nat;     (* sizes of the UpdateMsg not read yet *)
  r_cur_size : nat;       (* cur_size_ *)
  r_seg : nat;            (* the attached segment *)
  r_phase : rphase }.

(** The program points of [copy_to_shm f]. *)
Inductive wphase :=
| WIdle                                   (* no call *)
| WAcquire (f : frame)                    (* in semop(write_start) *)
| WGot (f : frame)                        (* semop returned, flag not set *)
| WLocked (f : frame)                     (* lock held, before the resize test *)
| WNotify (f : frame) (todo : list nat)   (* in the loop of notify_update *)
| WCommit (f : frame) (num_readers : nat) (* before commit_readers *)
| WCopy (f : frame) (i : nat)             (* memcpy, i bytes done *)
| WRelease (f : frame).                   (* before ~WriteLock *)

Record st := St {
  s_sems : list Z;
  s_writer : wphase;
  s_armed : bool;           (* the time-out thread is waiting *)
  s_shm_size : nat;         (* connect_data_.shm_size_ *)
  s_segs : gmap nat cstr;
  s_cur : nat;              (* the segment the key names *)
  s_clients : list nat;     (* clients_ *)
  s_notified : list nat;    (* clients_notified_ *)
  s_reset : list nat;       (* clients that ended with unread input *)
  s_readers : gmap nat reader;
  s_lost : nat;
  s_last : frame }.

Inductive label :=
| LCall (f : frame) | LAcquire | LFlag | LTimeout | LResize
| LSend (c : nat) (f : frame) | LSendFail (c : nat) | LNotified | LCommit
| LCopy | LRelease
| LConnect (c : nat) | LJoin (c : nat) | LLeave (c : nat) | LCancel (c : nat)
| LEnd (c : nat)
| LRecv (c : nat) | LLock (c : nat) (data : frame) | LUnlock (c : nat).

(** ** Field updates *)

Definition with_sems v s := St v (s_writer s) (s_armed s) (s_shm_size s) (s_segs s)
  (s_cur s) (s_clients s) (s_notified s) (s_reset s) (s_readers s) (s_lost s) (s_last s).
Definition with_writer v s := St (s_sems s) v (s_armed s) (s_shm_size s) (s_segs s)
  (s_cur s) (s_clients s) (s_notified s) (s_reset s) (s_readers s) (s_lost s) (s_last s).
Definition with_armed v s := St (s_sems s) (s_writer s) v (s_shm_size s) (s_segs s)
  (s_cur s) (s_clients s) (s_notified s) (s_reset s) (s_readers s) (s_lost s) (s_last s).
Definition with_shm sz sg c s := St (s_sems s) (s_writer s) (s_armed s) sz sg
  c (s_clients s) (s_notified s) (s_reset s) (s_readers s) (s_lost s) (s_last s).
Definition with_clients cl nt rs s := St (s_sems s) (s_writer s) (s_armed s)
  (s_shm_size s) (s_segs s) (s_cur s) cl nt rs (s_readers s) (s_lost s) (s_last s).
Definition with_readers v s := St (s_sems s) (s_writer s) (s_armed s) (s_shm_size s)
  (s_segs s) (s_cur s) (s_clients s) (s_notified s) (s_reset s) v (s_lost s) (s_last s).
Definition with_lost v s := St (s_sems s) (s_writer s) (s_armed s) (s_shm_size s)
  (s_segs s) (s_cur s) (s_clients s) (s_notified s) (s_reset s) (s_readers s) v (s_last s).
Definition with_last v s := St (s_sems s) (s_writer s) (s_armed s) (s_shm_size s)
  (s_segs s) (s_cur s) (s_clients s) (s_notified s) (s_reset s) (s_readers s) (s_lost s) v.

Definition set_reader c r s := with_readers (<[c := r]> (s_readers s)) s.
Definition without (c : nat) (l : list nat) : list nat := filter (fun d => d <> c) l.

(** ** The operations of each thread *)

(** Decrements of semaphore 0 that a reader still owes. *)
Definition owing (r : reader) : nat :=
  length (r_inbox r) + match r_phase r with RIdle => 0 | _ => 1 end.

(** The update callback up to [ReadLock]: attach again when the size changes. *)
Definition recv_update (s : st) (r : reader) (size : nat) (rest : list nat) : reader :=
  let seg := if bool_decide (size <> r_cur_size r) then s_cur s else r_seg r in
  Reader rest size seg (RWaitLock size).

(** The bytes the data callback is given. *)
Definition visible (s : st) (r : reader) (size : nat) : cstr :=
  take size (default [] (s_segs s !! r_seg r)).

(** The resize test of [copy_to_shm]: a new zeroed segment under the same key,
    then [connect_data_.shm_size_ = size]. *)
Definition resize (f : frame) (s : st) : st :=
  if bool_decide (s_shm_size s < length f)
  then with_shm (length f)
         (<[S (s_cur s) := replicate (length f) Ascii.zero]> (s_segs s)) (S (s_cur s)) s
  else s.

(** [clients_notified_.clear()] *)
Definition clear_notified (s : st) : st := with_clients (s_clients s) [] (s_reset s) s.

(** A successful [send] of the update message. *)
Definition deliver_update (c size : nat) (r : reader) (s : st) : st :=
  with_clients (s_clients s) (s_notified s ++ [c]) (s_reset s)
    (set_reader c (Reader (r_inbox r ++ [size]) (r_cur_size r) (r_seg r) (r_phase r)) s).

(** [clients_mutex_] is held by the writer thread. *)
Definition mutex_held (s : st) : bool :=
  match s_writer s with WNotify _ _ => true | _ => false end.

(** The server removes and closes a client. *)
Definition drop_client (c : nat) (s : st) : st :=
  with_clients (without c (s_clients s)) (s_notified s) (without c (s_reset s)) s.

(** The process of a reader ends, or closes its socket. *)
Definition end_reader (c : nat) (r : reader) (s : st) : st :=
  with_clients (s_clients s) (s_notified s)
    (if bool_decide (r_inbox r <> [] /\ c ∈ s_clients s) then c :: s_reset s else s_reset s)
    (with_lost (s_lost s + owing r) (with_readers (delete c (s_readers s)) s)).

Definition set_phase (r : reader) (p : rphase) : reader :=
  Reader (r_inbox r) (r_cur_size r) (r_seg r) p.

(** A reader that has not got a message; it may have ended already. *)
Definition unused (o : option reader) : Prop :=
  match o with Some r => r_cur_size r = 0 /\ r_inbox r = [] /\ r_phase r = RIdle | None => True end.

(** select(2) cannot watch more descriptors. *)
Definition FD_SETSIZE : nat := 1024.

(** ** The step relation *)

Inductive lstep : label -> st -> st -> Prop :=
(* copy_to_shm: WriteLock::WriteLock *)
| step_call s f :
    s_writer s = WIdle ->
    lstep (LCall f) s (with_armed true (with_writer (WAcquire f) s))
| step_acquire s f vs :
    s_writer s = WAcquire f -> run_ops write_start (s_sems s) = OpsDone vs ->
    lstep LAcquire s (with_last f (with_sems vs (with_writer (WGot f) s)))
| step_flag s f :
    s_writer s = WGot f ->
    lstep LFlag s (with_armed false (with_writer (WLocked f) s))
| step_timeout s f :
    s_writer s = WAcquire f \/ s_writer s = WGot f -> s_armed s = true ->
    lstep LTimeout s
      (with_lost 0 (with_armed false (with_sems (<[0 := 0%Z]> (s_sems s)) s)))
(* resize test, then notify_update *)
| step_resize s f :
    s_writer s = WLocked f ->
    lstep LResize s (with_writer (WNotify f (s_clients s)) (clear_notified (resize f s)))
| step_send s f c r todo :
    s_writer s = WNotify f (c :: todo) -> s_readers s !! c = Some r ->
    lstep (LSend c f) s (with_writer (WNotify f todo) (deliver_update c (length f) r s))
| step_send_fail s f c todo :
    s_writer s = WNotify f (c :: todo) -> s_readers s !! c = None ->
    lstep (LSendFail c) s (with_writer (WNotify f todo) s)
| step_notified s f :
    s_writer s = WNotify f [] ->
    lstep LNotified s (with_writer (WCommit f (length (s_notified s))) s)
(* commit_readers *)
| step_commit s f n vs :
    s_writer s = WCommit f n ->
    (if (0 <? n)%nat then run_ops (read_commit_reader (Z.of_nat n)) (s_sems s) = OpsDone vs
     else vs = s_sems s) ->
    lstep LCommit s (with_sems vs (with_writer (WCopy f 0) s))
(* memcpy, byte by byte *)
| step_copy s f i b m :
    s_writer s = WCopy f i -> f !! i = Some b -> s_segs s !! s_cur s = Some m ->
    lstep LCopy s
      (with_writer (WCopy f (S i))
        (with_shm (s_shm_size s) (<[s_cur s := <[i := b]> m]> (s_segs s)) (s_cur s) s))
| step_copied s f i :
    s_writer s = WCopy f i -> f !! i = None ->
    lstep LCopy s (with_writer (WRelease f) s)
(* WriteLock::~WriteLock *)
| step_release s f vs :
    s_writer s = WRelease f -> run_ops write_end (s_sems s) = OpsDone vs ->
    lstep LRelease s (with_sems vs (with_writer WIdle s))
(* the server thread: clients come and go *)
| step_connect s c :
    s_readers s !! c = None -> c ∉ s_clients s ->
    lstep (LConnect c) s (set_reader c (Reader [] 0 (s_cur s) RIdle) s)
| step_join s c :
    mutex_held s = false -> unused (s_readers s !! c) ->
    c ∉ s_clients s -> length (s_clients s) < FD_SETSIZE ->
    lstep (LJoin c) s (with_clients (s_clients s ++ [c]) (s_notified s) (s_reset s) s)
| step_leave s c :
    mutex_held s = false -> c ∈ s_clients s -> ~ (c ∈ s_reset s /\ c ∈ s_notified s) ->
    lstep (LLeave c) s (drop_client c s)
| step_cancel s c vs :
    mutex_held s = false -> c ∈ s_clients s -> c ∈ s_reset s -> c ∈ s_notified s ->
    run_ops read_end (s_sems s) = OpsDone vs ->
    lstep (LCancel c) s (with_lost (s_lost s - 1) (with_sems vs (drop_client c s)))
| step_end s c r :
    s_readers s !! c = Some r ->
    lstep (LEnd c) s (end_reader c r s)
(* a reader: update message, ReadLock, callback, ~ReadLock *)
| step_recv s c r size rest :
    s_readers s !! c = Some r -> r_phase r = RIdle -> r_inbox r = size :: rest ->
    lstep (LRecv c) s (set_reader c (recv_update s r size rest) s)
| step_lock s c r size vs :
    s_readers s !! c = Some r -> r_phase r = RWaitLock size ->
    run_ops read_start (s_sems s) = OpsDone vs ->
    lstep (LLock c (visible s r size)) s
      (with_sems vs (set_reader c (set_phase r (RReading size)) s))
| step_unlock s c r size vs :
    s_readers s !! c = Some r -> r_phase r = RReading size ->
    run_ops read_end (s_sems s) = OpsDone vs ->
    lstep (LUnlock c) s (with_sems vs (set_reader c (set_phase r RIdle) s)).

(** The writer has created the segment and the semaphores. *)
Definition initial (s : st) : Prop :=
  exists size, s = St [0%Z; 0%Z] WIdle false size
    {[0 := replicate size Ascii.zero]} 0 [] [] [] ∅ 0 [].

Definition sum_over (w : reader -> nat) (m : gmap nat reader) : nat :=
  map_fold (fun _ r acc => w r + acc) 0 m.

(** Decrements owed by live readers. *)
Abbreviation total := (sum_over owing).

(** The intended use of the time-out: it fires while the writer waits for
    readers that are all dead and that the server has no reset to read from. *)
Definition timely (l : label) (s : st) : Prop :=
  match l with
  | LTimeout => total (s_readers s) = 0 /\ (exists f, s_writer s = WAcquire f) /\
      (forall c, c ∈ s_reset s -> c ∉ s_notified s)
  | _ => True
  end.

Definition any_step (s s' : st) : Prop := exists l, lstep l s s'.
Definition step (s s' : st) : Prop := exists l, timely l s /\ lstep l s s'.

(** ** Execution

    A label determines the step: [exec] computes it. *)

Definition ops_value (r : ops_result) : option (list Z) :=
  match r with OpsDone vs => Some vs | _ => None end.

Definition exec_writer (l : label) (s : st) : option st :=
  match l, s_writer s with
  | LCall f, WIdle => Some (with_armed true (with_writer (WAcquire f) s))
  | LAcquire, WAcquire f =>
      vs ← ops_value (run_ops write_start (s_sems s));
      Some (with_last f (with_sems vs (with_writer (WGot f) s)))
  | LFlag, WGot f => Some (with_armed false (with_writer (WLocked f) s))
  | LTimeout, (WAcquire _ | WGot _) =>
      if s_armed s
      then Some (with_lost 0 (with_armed false (with_sems (<[0 := 0%Z]> (s_sems s)) s)))
      else None
  | LResize, WLocked f =>
      Some (with_writer (WNotify f (s_clients s)) (clear_notified (resize f s)))
  | LSend c g, WNotify f (d :: todo) =>
      guard (c = d /\ g = f);;
      r ← s_readers s !! c;
      Some (with_writer (WNotify f todo) (deliver_update c (length f) r s))
  | LSendFail c, WNotify f (d :: todo) =>
      guard (c = d /\ s_readers s !! c = None);; Some (with_writer (WNotify f todo) s)
  | LNotified, WNotify f [] => Some (with_writer (WCommit f (length (s_notified s))) s)
  | LCommit, WCommit f n =>
      vs ← (if (0 <? n)%nat
            then ops_value (run_ops (read_commit_reader (Z.of_nat n)) (s_sems s))
            else Some (s_sems s));
      Some (with_sems vs (with_writer (WCopy f 0) s))
  | LCopy, WCopy f i =>
      match f !! i with
      | Some b =>
          m ← s_segs s !! s_cur s;
          Some (with_writer (WCopy f (S i))
            (with_shm (s_shm_size s) (<[s_cur s := <[i := b]> m]> (s_segs s)) (s_cur s) s))
      | None => Some (with_writer (WRelease f) s)
      end
  | LRelease, WRelease f =>
      vs ← ops_value (run_ops write_end (s_sems s));
      Some (with_sems vs (with_writer WIdle s))
  | _, _ => None
  end.

#[export] Instance rphase_eq_dec : EqDecision rphase.
Proof. solve_decision. Defined.
#[export] Instance unused_dec o : Decision (unused o).
Proof. destruct o; unfold unused; apply _. Defined.

Definition exec (l : label) (s : st) : option st :=
  match l with
  | LConnect c =>
      guard (s_readers s !! c = None /\ c ∉ s_clients s);;
      Some (set_reader c (Reader [] 0 (s_cur s) RIdle) s)
  | LJoin c =>
      guard (mutex_held s = false /\ unused (s_readers s !! c) /\ (c ∉ s_clients s) /\
        (length (s_clients s) < FD_SETSIZE)%nat);;
      Some (with_clients (s_clients s ++ [c]) (s_notified s) (s_reset s) s)
  | LLeave c =>
      guard (mutex_held s = false /\ c ∈ s_clients s /\ ~ (c ∈ s_reset s /\ c ∈ s_notified s));;
      Some (drop_client c s)
  | LCancel c =>
      guard (mutex_held s = false /\ c ∈ s_clients s /\ c ∈ s_reset s /\ c ∈ s_notified s);;
      vs ← ops_value (run_ops read_end (s_sems s));
      Some (with_lost (s_lost s - 1) (with_sems vs (drop_client c s)))
  | LEnd c => r ← s_readers s !! c; Some (end_reader c r s)
  | LRecv c =>
      r ← s_readers s !! c;
      match r_phase r, r_inbox r with
      | RIdle, size :: rest => Some (set_reader c (recv_update s r size rest) s)
      | _, _ => None
      end
  | LLock c data =>
      r ← s_readers s !! c;
      match r_phase r with
      | RWaitLock size =>
          guard (data = (visible s r size));;
          vs ← ops_value (run_ops read_start (s_sems s));
          Some (with_sems vs (set_reader c (set_phase r (RReading size)) s))
      | _ => None
      end
  | LUnlock c =>
      r ← s_readers s !! c;
      match r_phase r with
      | RReading size =>
          vs ← ops_value (run_ops read_end (s_sems s));
          Some (with_sems vs (set_reader c (set_phase r RIdle) s))
      | _ => None
      end
  | _ => exec_writer l s
  end.

(** A schedule: a list of labels. *)
Fixpoint execs (ls : list label) (s : st) : option st :=
  match ls with
  | [] => Some s
  | l :: ls' => s' ← exec l s; execs ls' s'
  end.

Lemma ops_value_some r vs : ops_value r = Some vs <-> r = OpsDone vs.
Proof. destruct r; simpl; naive_solver. Qed.

Lemma exec_writer_sound l s s' : exec_writer l s = Some s' -> lstep l s s'.
Proof.
  unfold exec_writer. intros H.
  destruct l, (s_writer s) as [|f'|f'|f'|f' [|d todo]|f' n|f' i|f'] eqn:Hw; try discriminate;
    simplify_option_eq; rewrite ?ops_value_some in *; destruct_and?; subst;
    try (econstructor; by eauto).
  - destruct (s_armed s) eqn:Ha; simplify_eq. by apply step_timeout with f'; [left|].
  - destruct (s_armed s) eqn:Ha; simplify_eq. by apply step_timeout with f'; [right|].
  - apply step_commit with n; [done|].
    destruct (0 <? n)%nat; [by apply ops_value_some|by simplify_eq].
  - destruct (f' !! i) as [b|] eqn:Hb; simplify_option_eq.
    + by apply step_copy.
    + by apply step_copied with i.
Qed.

Lemma exec_sound l s s' : exec l s = Some s' -> lstep l s s'.
Proof.
  unfold exec. intros H. destruct l; try (by apply exec_writer_sound);
    simplify_option_eq; rewrite ?ops_value_some in *; destruct_and?; try (econstructor; by eauto).
  - destruct (r_phase _) eqn:Hp; try done. destruct (r_inbox _) eqn:Hb; simplify_eq. by apply step_recv.
  - destruct (r_phase _) eqn:Hp; try done. case_guard; [|done].
    apply bind_Some in H as (_ & _ & H). apply bind_Some in H as (vs & Hv & [= <-]). apply ops_value_some in Hv. subst data.
    by apply step_lock.
  - destruct (r_phase _) eqn:Hp; try done.
    apply bind_Some in H as (vs & Hv & [= <-]). apply ops_value_some in Hv.
    by apply step_unlock with size.
Qed.

Lemma exec_complete l s s' : lstep l s s' -> exec l s = Some s'.
Proof.
  intros Hs. destruct Hs as [s f Hw|s f vs Hw Ho|s f Hw|s f Hw Ha|s f Hw|s f c r todo Hw Hr
    |s f c todo Hw Hr|s f Hw|s f n vs Hw Ho|s f i b m Hw Hb Hm|s f i Hw Hb|s f vs Hw Ho
    |s c Hr Hc|s c Hm Hr|s c Hm|s c vs Hm Hc Hr Hn Ho|s c r Hr|s c r size rest Hr Hp Hb
    |s c r size vs Hr Hp Ho|s c r size vs Hr Hp Ho]; unfold exec, exec_writer;
    rewrite ?Hw, ?Ho, ?Hr; try done;
    try (rewrite option_guard_True by tauto; rewrite ?Ho, ?Hr; done).
  - destruct Hw as [-> | ->]; by rewrite Ha.
  - destruct (0 <? n)%nat; [by rewrite Ho|by subst].
  - by rewrite Hb, Hm.
  - by rewrite Hb.
  - cbn [mbind option_bind]. by rewrite Hp, Hb.
  - cbn [mbind option_bind]. rewrite Hp, option_guard_True by done. done.
  - cbn [mbind option_bind]. by rewrite Hp.
Qed.

Lemma execs_app l1 l2 s : execs (l1 ++ l2) s = execs l1 s ≫= execs l2.
Proof.
  revert s. induction l1 as [|l l1 IH]; intros s; [done|]. simpl.
  destruct (exec l s); simpl; [apply IH|done].
Qed.
