(* ===== verification/ShmSystem.v ===== *)
(** * A system of one writer and its readers

    The [Writer] and the [Reader] objects of several processes on one kernel.
    The kernel is seen from the writer's process; a reader is named by the
    descriptor that the server gets for its connection.  An operation of the
    system is a whole call of the code: [copy_to_shm], a turn of the loop of
    [client_interaction] ([interaction_turn]), the members that the constructor
    of a reader attaches ([attach_members]), what a reader does with the
    message that greets it and with an update ([on_server_connected],
    [on_update]), and the end of the process of a reader.  [simulates] says
    when a state of [ShmProtocol.v] describes a system. *)

From S2P Require Import Prelude Logger StdLib Posix PosixModel SysVSem SysVShm SocketProtocol.
From S2P Require Import UnixSocketServer UnixSocketClient ServerTheorems Reader ReaderTheorems.
From S2P Require Import Writer WriterTheorems SystemCalls ShmProtocol.

Section system.
Context {K : Type} `{FileOS K} `{ErrnoOS K} `{SemOS K} `{ShmOS K} `{SockOS K} `{PeerOS K}.

(** ** States *)

(** A data callback that records the bytes it is given. *)
Definition note (bs : cstr) : M (world K) unit :=
  fun w => (Ret tt, World (kern w) (logs w ++ [(LInfo, bs)])).
Definition note_cbs : reader_cbs K := ReaderCbs (Some (buffer_cb note)) None None.

(** A reader, the message that greeted it, the bytes it has read on its
    socket, the frames its callback was given. *)
Record endpoint := Endpoint {
  ep_reader : Reader.Reader; ep_data : option onConnectData; ep_read : nat; ep_given : list cstr }.

(** The writer, the variables of its server's thread ([cnx_msg], and [allset]
    and [maxfd]), the readers. *)
Record system := System {
  sy_world : world K; sy_writer : Writer; sy_cnx : onConnectData; sy_locals : locals;
  sy_readers : gmap nat endpoint }.

Definition kern_of (C : system) : K := kern (sy_world C).
Definition with_reader (c : nat) (e : endpoint) (W : world K) (C : system) : system :=
  System W (sy_writer C) (sy_cnx C) (sy_locals C) (<[c := e]> (sy_readers C)).

(** ** Operations *)

(** [copy_to_shm] by the writer, when it has not to wait for readers. *)
Definition ready (C : system) : bool :=
  match wr_sem_ (sy_writer C) with
  | Some sem => bool_decide (sem_vals (kern_of C) (semid_ sem) = Some [0%Z; 0%Z])
  | None => false
  end.
Definition do_publish (f : cstr) (C : system) : option system :=
  if ready C
  then
    match copy_to_shm f (sy_writer C) (sy_world C) with
    | (Ret (true, w'), W') => Some (System W' w' (sy_cnx C) (sy_locals C) (sy_readers C))
    | _ => None
    end
  else None.

(** The server's thread.  Its connections are those of readers, which write
    nothing before they are greeted. *)
Definition server_cbs (sem : sysVSem) : callbacks (K := K) :=
  Callbacks None None (fun _ => cancel_commited_reader sem).
Definition do_turn (C : system) : option system :=
  srv ← srv_ (sy_writer C);
  sem ← wr_sem_ (sy_writer C);
  match interaction_turn (server_cbs sem) (sy_cnx C) srv (sy_locals C) (sy_world C) with
  | (Ret (srv', loc'), W') =>
      if bool_decide (Forall (fun c => c ∈ pending_clients_ srv \/ inq (kern W') c = [])
                             (pending_clients_ srv'))
      then Some (System W' (with_srv (Some srv') (sy_writer C)) (sy_cnx C) loc' (sy_readers C))
      else None
  | _ => None
  end.

(** A new reader of the path of the writer, whose connection is or will be
    [c] in the server: it attaches. *)
Definition unheard (C : system) (c : nat) : bool :=
  let fd := Z.of_nat c in
  bool_decide (fd ∉ fds (kern_of C)) ||
  match srv_ (sy_writer C) with
  | Some srv => bool_decide (fd ∈ pending_clients_ srv /\ inq (kern_of C) fd = []) &&
      negb (peer_closed (kern_of C) fd)
  | None => false
  end.
Definition do_open (c : nat) (C : system) : option system :=
  let path := wr_path_ (sy_writer C) in
  if bool_decide (sy_readers C !! c = None) && unheard C c
  then
    match attach_members path (sy_world C) with
    | (Ret (shm, sem), W') =>
        if sysVShm_is_valid shm && sysVSem_is_valid sem
        then Some (with_reader c (Endpoint (mkReader path 0 (Some shm) (Some sem) true) None 0 []) W' C)
        else None
    | _ => None
    end
  else None.

(** The reader [c] reads what greets it: it answers with the same message. *)
Definition greeting (C : system) (c : nat) (e : endpoint) : cstr :=
  take sizeof_connect (drop (ep_read e) (out (kern_of C) (Z.of_nat c))).
Definition handle_connect (C : system) (c : nat) (e : endpoint) (d : onConnectData) : option system :=
  match on_server_connected note_cbs d (ep_reader e)
          (World (peer_write (Z.of_nat c) (connect_bytes d) (kern_of C)) (logs (sy_world C))) with
  | (Ret r', W') =>
      Some (with_reader c (Endpoint r' (Some d) (ep_read e + sizeof_connect) (ep_given e)) W' C)
  | _ => None
  end.

(** It reads the next update on its socket and handles it. *)
Definition next_message (C : system) (c : nat) (e : endpoint) : cstr :=
  take sizeof_update (drop (ep_read e) (out (kern_of C) (Z.of_nat c))).
Definition handle_update (C : system) (c : nat) (e : endpoint) (size : Z) : option system :=
  match on_update note_cbs size (ep_reader e) (sy_world C) with
  | (Ret r', W') =>
      given ← last (logs W');
      Some (with_reader c (Endpoint r' (ep_data e) (ep_read e + sizeof_update)
                             (ep_given e ++ [given.2])) W' C)
  | _ => None
  end.

Definition do_receive (c : nat) (C : system) : option system :=
  e ← sy_readers C !! c;
  match ep_data e with
  | None =>
      if bool_decide (Z.of_nat c ∈ fds (kern_of C)) &&
         (sizeof_connect <=? length (greeting C c e))%nat
      then handle_connect C c e (read_connect (greeting C c e) (default_connect (zeros 6)))
      else None
  | Some _ =>
      if (length (next_message C c e) <? sizeof_update)%nat then None
      else
        match event_of (update_of (next_message C c e)) with
        | EUpdate size => handle_update C c e size
        | _ => None
        end
  end.

(** The process of the reader [c] ends. *)
Definition do_end (c : nat) (C : system) : option system :=
  e ← sy_readers C !! c;
  let fd := Z.of_nat c in
  let k := kern_of C in
  let k' := if bool_decide (fd ∈ fds k)
            then peer_end fd (ep_read e <? length (out k fd))%nat k else k in
  Some (System (World k' (logs (sy_world C))) (sy_writer C) (sy_cnx C) (sy_locals C)
          (delete c (sy_readers C))).

Inductive op := Publish (f : cstr) | Turn | Open (c : nat) | Receive (c : nat) | Exit (c : nat).
#[export] Instance op_eq_dec : EqDecision op.
Proof. solve_decision. Defined.
Definition do_op (o : op) (C : system) : option system :=
  match o with
  | Publish f => do_publish f C
  | Turn => do_turn C
  | Open c => do_open c C
  | Receive c => do_receive c C
  | Exit c => do_end c C
  end.
Fixpoint do_ops (os : list op) (C : system) : option system :=
  match os with
  | [] => Some C
  | o :: os' => C' ← do_op o C; do_ops os' C'
  end.

(** Sizes fit in [size_t]. *)
Definition op_ok (o : op) : Prop :=
  match o with Publish f => (Z.of_nat (length f) < 2 ^ 64)%Z | _ => True end.
Definition published_by (os : list op) : list cstr :=
  mjoin ((fun o => match o with Publish f => [f] | _ => [] end) <$> os).

(** The server has the reader [c] among its clients. *)
Definition joined (C : system) (c : nat) : Prop :=
  exists srv, srv_ (sy_writer C) = Some srv /\ Z.of_nat c ∈ clients_ srv.

(** ** The relation with a state of the protocol *)

Implicit Types (k : K) (s : st) (srv : UnixSocketServer) (cnx : onConnectData).

(** The writer, but for the sockets. *)
Record writer_rel k (w : Writer) s srv (sem : sysVSem) (shm : sysVShm) (p : Z) (m : cstr)
  : Prop := {
  wr_idle : s_writer s = WIdle;
  wr_srv : srv_ w = Some srv;
  wr_sem : wr_sem_ w = Some sem /\ sysVSem_is_valid sem = true;
  wr_shm : wr_shm_ w = Some shm /\ shm_owner_ shm = true;
  wr_key : file_key k (c_str (wr_path_ w)) "n"%char = shm_key_ shm;
  wr_semkey : sem_key k (file_key k (c_str (wr_path_ w)) "m"%char) = Some (semid_ sem) /\
    sem_mine k (semid_ sem) = true /\ sem_owner_ sem = true;
  wr_mine : seg_mine k (shmid_ shm) = true;
  wr_vals : sem_vals k (semid_ sem) = Some (s_sems s);
  wr_size : shm_size_ (connect_data_ w) = Z.of_nat (s_shm_size s);
  wr_seg : s_segs s !! s_cur s = Some m;
  wr_holds : shm_holds shm p m (World k []);
  wr_msg : um_msg_type_ (srv_update_msg_ srv) = 1%Z /\ length (um_pad (srv_update_msg_ srv)) = 6 }.

(** Something was written on a connection that the server has not read. *)
Abbreviation heard k c := (inq k (Z.of_nat c) <> []).

(** The server: nothing is to be read from a client, and its end is seen
    exactly when the reader is gone, with a reset when it left updates unread;
    a pending client has been greeted, and has answered or not. *)
Record server_rel k (loc : locals) cnx s srv : Prop := {
  sv_inv : server_inv srv loc k;
  sv_clients : clients_ srv ≡ₚ Z.of_nat <$> s_clients s;
  sv_notified : clients_notified_ srv ≡ₚ Z.of_nat <$> s_notified s;
  sv_connected c : c ∈ clients_ srv ++ pending_clients_ srv -> p_connected (peer_of k c) = true;
  sv_client c : c ∈ s_clients s ->
    inq k (Z.of_nat c) = [] /\
    (peer_closed k (Z.of_nat c) = true <-> s_readers s !! c = None) /\
    (s_readers s !! c = None -> p_reset (peer_of k (Z.of_nat c)) = bool_decide (c ∈ s_reset s));
  sv_pending c : Z.of_nat c ∈ pending_clients_ srv ->
    out k (Z.of_nat c) = connect_bytes cnx /\
    length (inq k (Z.of_nat c)) <= sizeof_connect /\
    (is_Some (s_readers s !! c) -> peer_closed k (Z.of_nat c) = false) /\
    (heard k c -> s_readers s !! c = None ->
       peer_closed k (Z.of_nat c) = true /\ p_reset (peer_of k (Z.of_nat c)) = false);
  sv_serving : serving srv = true }.

(** The address at which a reader has its segment. *)
Definition address (e : endpoint) : option Z := rd_shm_ (ep_reader e) ≫= shm_.

(** A reader that has not been greeted: it waits, or the greeting is there. *)
Definition waits k s srv (c : nat) (e : endpoint) (r : reader) : Prop :=
  (c ∉ s_clients s) /\ ep_read e = 0 /\ unused (Some r) /\
  if bool_decide (Z.of_nat c ∈ pending_clients_ srv)
  then inq k (Z.of_nat c) = [] else (Z.of_nat c ∈ fds k -> out k (Z.of_nat c) = []).
(** One that has been: it is a client, or its answer is there. *)
Definition follows k s srv (c : nat) (e : endpoint) (r : reader) : Prop :=
  ep_read e <= length (out k (Z.of_nat c)) /\
  drop (ep_read e) (out k (Z.of_nat c)) =
    update_stream (um_pad (srv_update_msg_ srv)) (Z.of_nat <$> r_inbox r) /\
  (c ∈ s_clients s \/ Z.of_nat c ∈ pending_clients_ srv /\ heard k c /\ unused (Some r)).

(** What there is on the socket of a reader. *)
Definition stream_rel k s srv (c : nat) (e : endpoint) (r : reader) : Prop :=
  match ep_data e with Some _ => follows k s srv c e r | None => waits k s srv c e r end.

Record reader_rel k s srv cnx (semid : Z) (shm : sysVShm) (p : Z)
  (c : nat) (e : endpoint) (r : reader) : Prop := {
  rr_phase : r_phase r = RIdle;
  rr_path : file_key k (c_str (rd_path_ (ep_reader e))) "n"%char = shm_key_ shm;
  rr_sem : semid_ <$> rd_sem_ (ep_reader e) = Some semid;
  rr_cur : cur_size_ (ep_reader e) = Z.of_nat (r_cur_size r);
  rr_seg : r_seg r <= s_cur s;
  rr_shm : exists rs q m, rd_shm_ (ep_reader e) = Some rs /\ sysVShm_is_valid rs = true /\
    shm_owner_ rs = false /\ shm_ rs = Some q /\ q <> p /\ seg_at k q = Some (shmid_ rs) /\
    seg_bytes k (shmid_ rs) = Some m /\ (r_seg r = s_cur s -> shmid_ rs = shmid_ shm);
  rr_sizes n : n ∈ r_inbox r -> (Z.of_nat n < 2 ^ 64)%Z;
  rr_data d : ep_data e = Some d -> user_data_ d = user_data_ cnx;
  rr_stream : stream_rel k s srv c e r }.

Definition readers_rel k (rs : gmap nat endpoint) s srv cnx (semid : Z) (shm : sysVShm)
  (p : Z) : Prop :=
  (forall c e, rs !! c = Some e -> exists r, s_readers s !! c = Some r /\
     reader_rel k s srv cnx semid shm p c e r) /\
  (forall c, rs !! c = None -> s_readers s !! c = None) /\
  forall c d e e', rs !! c = Some e -> rs !! d = Some e' -> c <> d -> address e <> address e'.

(** The message that greets the clients. *)
Definition cnx_ok cnx : Prop :=
  cd_msg_type_ cnx = 0%Z /\ length (cd_pad cnx) = 6 /\ (0 <= shm_size_ cnx < 2 ^ 64)%Z /\
  length (user_data_ cnx) = user_data_size.

Definition simulates (C : system) s : Prop :=
  cnx_ok (sy_cnx C) /\ exists srv sem shm p m,
    writer_rel (kern_of C) (sy_writer C) s srv sem shm p m /\
    server_rel (kern_of C) (sy_locals C) (sy_cnx C) s srv /\
    readers_rel (kern_of C) (sy_readers C) s srv (sy_cnx C) (semid_ sem) shm p.
End system.

Arguments system : clear implicits.
