(* ===== verification/ShmInvariant.v ===== *)
(** * The invariant of the shared-memory protocol

    [inv] relates the semaphore values to what each thread still has to do,
    says which readers may hold the lock, that every reader that will read is
    attached to the current segment, and what that segment contains.  Every
    step preserves it as long as the time-out is [timely]. *)

From S2P Require Import Prelude Posix SysVSem ShmProtocol.

(** ** Definitions *)

(** Decrements of semaphore 0 still to come, by live readers or lost. *)
Definition due (s : st) : nat := total (s_readers s) + s_lost s.

(** Resets the server has not read yet, for clients notified last. *)
Definition resets (s : st) : list nat := filter (fun c => c ∈ s_notified s) (s_reset s).

Definition sem_inv (s : st) : Prop :=
  let d := Z.of_nat (due s) in
  match s_writer s with
  | WIdle | WAcquire _ => s_sems s = [d; 0%Z]
  | WGot _ | WLocked _ => due s = 0 /\ s_sems s = [1%Z; 1%Z]
  | WNotify _ _ => due s = length (s_notified s) /\ s_sems s = [1%Z; 1%Z]
  | WCommit _ n => n <= FD_SETSIZE /\ s_sems s = [(1 + d - Z.of_nat n)%Z; 1%Z] /\
      (0 <= 1 + d - Z.of_nat n)%Z
  | WCopy _ _ | WRelease _ => s_sems s = [(1 + d)%Z; 1%Z]
  end.

Definition lock_free (w : wphase) : bool :=
  match w with WIdle | WAcquire _ => true | _ => false end.

(** Will [size] be read from the current segment? *)
Definition fresh (s : st) (r : reader) (size : nat) : Prop :=
  r_seg r = s_cur s \/ size = 0.

Definition todo_of (s : st) : list nat :=
  match s_writer s with WNotify _ todo => todo | _ => [] end.
Definition frame_of (s : st) : frame :=
  match s_writer s with WNotify f _ => f | _ => [] end.

Record reader_inv (s : st) (c : nat) (r : reader) : Prop := {
  ri_owing : owing r <= 1;
  ri_inbox size : size ∈ r_inbox r ->
    size = length (s_last s) /\ (size = r_cur_size r -> fresh s r size);
  ri_wait size : r_phase r = RWaitLock size \/ r_phase r = RReading size ->
    size = length (s_last s) /\ r_cur_size r = size /\ fresh s r size;
  ri_reading size : r_phase r = RReading size -> lock_free (s_writer s) = true;
  ri_cur : r_cur_size r <= s_shm_size s;
  ri_todo : c ∈ todo_of s -> owing r = 0;
  ri_client : c ∈ s_clients s -> owing r = 0 ->
    fresh s r (r_cur_size r) \/ (c ∈ todo_of s /\ r_cur_size r <> length (frame_of s)) }.

Record client_inv (s : st) : Prop := {
  ci_nodup : NoDup (s_clients s);
  ci_len : length (s_clients s) <= FD_SETSIZE;
  ci_todo : NoDup (todo_of s) /\ todo_of s ⊆ s_clients s;
  ci_count : mutex_held s = true ->
    length (s_notified s) + length (todo_of s) <= length (s_clients s);
  ci_reset : s_reset s ⊆ s_clients s;
  ci_dead c : c ∈ s_reset s -> s_readers s !! c = None;
  ci_resets : length (resets s) <= s_lost s;
  ci_due : due s <= FD_SETSIZE;
  ci_disarmed f : s_writer s = WAcquire f -> s_armed s = false -> due s = 0 }.

(** What the current segment, of contents [m], holds. *)
Definition mem_inv (s : st) (m : cstr) : Prop :=
  match s_writer s with
  | WIdle | WAcquire _ =>
      length (s_last s) <= length m /\ take (length (s_last s)) m = s_last s
  | WGot f | WLocked f => s_last s = f
  | WNotify f _ | WCommit f _ => s_last s = f /\ length f <= length m
  | WCopy f i => s_last s = f /\ length f <= length m /\ i <= length f /\ take i m = take i f
  | WRelease f => s_last s = f /\ length f <= length m /\ take (length f) m = f
  end.

Definition seg_inv (s : st) : Prop :=
  exists m, s_segs s !! s_cur s = Some m /\ length m = s_shm_size s /\ mem_inv s m.

Record inv (s : st) : Prop := {
  inv_sem : sem_inv s;
  inv_clients : client_inv s;
  inv_readers c r : s_readers s !! c = Some r -> reader_inv s c r;
  inv_seg : seg_inv s }.

(** ** Sums over the readers *)

Section sums.
Context (w : reader -> nat).
Implicit Types (m : gmap nat reader) (r : reader) (c : nat).

Lemma sum_insert_new m c r :
  m !! c = None -> sum_over w (<[c := r]> m) = w r + sum_over w m.
Proof. intros Hc. unfold sum_over. rewrite map_fold_insert_L; [done|intros; lia|done]. Qed.

Lemma sum_delete m c r : m !! c = Some r -> sum_over w m = w r + sum_over w (delete c m).
Proof.
  intros Hc. rewrite <- (insert_delete_id m c r Hc) at 1.
  apply sum_insert_new, lookup_delete_eq.
Qed.

Lemma sum_replace m c r r' :
  m !! c = Some r -> sum_over w (<[c := r']> m) + w r = sum_over w m + w r'.
Proof.
  intros Hc. rewrite (sum_delete m c r Hc).
  rewrite <- insert_delete_eq, sum_insert_new by apply lookup_delete_eq. lia.
Qed.

Lemma sum_le m c r : m !! c = Some r -> w r <= sum_over w m.
Proof. intros Hc. rewrite (sum_delete m c r Hc). lia. Qed.

Lemma sum_pos m : 0 < sum_over w m -> exists c r, m !! c = Some r /\ 0 < w r.
Proof.
  induction m as [|c r m Hc IH] using map_ind; [unfold sum_over; rewrite map_fold_empty; lia|].
  rewrite sum_insert_new by done. intros Hp. destruct (decide (w r = 0)) as [Hz|Hz].
  - destruct IH as (c' & r' & H1 & H2); [lia|]. exists c', r'. split; [|done].
    rewrite lookup_insert_ne; [done|congruence].
  - exists c, r. rewrite lookup_insert_eq. split; [done|lia].
Qed.
End sums.

(** ** The list operations of the server *)

Lemma elem_of_without c d l : d ∈ without c l <-> d ∈ l /\ d <> c.
Proof. unfold without. rewrite list_elem_of_filter. tauto. Qed.

Lemma without_sub c l : without c l ⊆ l.
Proof. intros d Hd. by apply elem_of_without in Hd as [? _]. Qed.

Lemma without_nodup c l : NoDup l -> NoDup (without c l).
Proof. apply NoDup_filter. Qed.

Lemma without_length c l : length (without c l) <= length l.
Proof. apply length_filter. Qed.

Lemma without_length_lt c l : c ∈ l -> length (without c l) < length l.
Proof.
  intros Hc. apply length_filter_lt with c; [done|]. by intros [].
Qed.

(** A live client among the notified ones changes no pending reset. *)
Lemma resets_app_alive c (rs nt : list nat) :
  c ∉ rs -> filter (fun d => d ∈ nt ++ [c]) rs = filter (fun d => d ∈ nt) rs.
Proof.
  intros Hc. apply filter_ext_in. intros d Hd. rewrite elem_of_app, list_elem_of_singleton.
  split; [|auto]. by intros [| ->].
Qed.

(** ** Frame lemmas: what a step leaves alone *)

Lemma reader_inv_ext s s' c r :
  s_last s' = s_last s -> s_cur s' = s_cur s -> s_shm_size s' = s_shm_size s ->
  todo_of s' = todo_of s -> (c ∈ todo_of s -> frame_of s' = frame_of s) ->
  (c ∈ s_clients s' -> c ∈ s_clients s \/ r_cur_size r = 0) ->
  (lock_free (s_writer s) = true -> lock_free (s_writer s') = true \/
     forall size, r_phase r <> RReading size) ->
  reader_inv s c r -> reader_inv s' c r.
Proof.
  intros El Ec Em Et Ef Hc Hw [H1 H2 H3 H4 H5 H6 H7].
  split; unfold fresh in *; rewrite ?El, ?Ec, ?Em, ?Et; auto.
  - intros size Hp. destruct (Hw (H4 size Hp)) as [|Hn]; [done|]. by destruct (Hn size).
  - intros Hin Ho. destruct (Hc Hin) as [Hin'|Hz]; [|rewrite Hz; auto].
    destruct (H7 Hin' Ho) as [|[Ht Hl]]; [auto|]. right. by rewrite Ef.
Qed.

(** No reader is in its callback while the writer holds the lock. *)
Lemma no_reading s c r size :
  inv s -> s_readers s !! c = Some r -> lock_free (s_writer s) = false ->
  r_phase r <> RReading size.
Proof.
  intros Hi Hr Hw Hp. apply inv_readers with (c := c) (r := r) in Hi; [|done].
  apply ri_reading with (size := size) in Hi; [|done]. congruence.
Qed.

Lemma owing_zero s c r :
  total (s_readers s) = 0 -> s_readers s !! c = Some r -> owing r = 0.
Proof. intros Ht Hr. pose proof (sum_le owing _ _ _ Hr). lia. Qed.

Lemma owing_zero_idle r : owing r = 0 -> r_inbox r = [] /\ r_phase r = RIdle.
Proof.
  unfold owing. intros Ho. split; [apply nil_length_inv; lia|].
  destruct (r_phase r); [done|lia|lia].
Qed.

(** A reader that owes nothing. *)
Lemma reader_inv_idle s c r :
  owing r = 0 -> r_cur_size r <= s_shm_size s ->
  (c ∈ s_clients s -> fresh s r (r_cur_size r) \/
     (c ∈ todo_of s /\ r_cur_size r <> length (frame_of s))) ->
  reader_inv s c r.
Proof.
  intros Ho Hc Hf. destruct (owing_zero_idle r Ho) as [Hb Hp].
  split; rewrite ?Ho, ?Hb, ?Hp; auto.
  - intros size Hin. inversion Hin.
  - intros size [|]; done.
  - done.
Qed.

(** A reader that owes one decrement for the last frame. *)
Lemma reader_inv_busy s c r size p :
  r = Reader [] size (r_seg r) p -> p = RWaitLock size \/ p = RReading size ->
  size = length (s_last s) -> fresh s r size ->
  (p = RReading size -> lock_free (s_writer s) = true) ->
  size <= s_shm_size s -> c ∉ todo_of s ->
  reader_inv s c r.
Proof.
  intros -> Hp -> Hf Hw Hsz Ht. split; simpl; try done.
  - unfold owing. simpl. destruct p; lia.
  - intros size Hin. inversion Hin.
  - destruct Hp as [->| ->]; intros size [E|E]; by inversion E.
  - intros size ->. apply Hw. destruct Hp as [E|E]; inversion E. done.
  - unfold owing. simpl. destruct Hp as [->| ->]; simpl; lia.
Qed.

(** A reader with one message to read. *)
Lemma reader_inv_sent s c r size :
  r = Reader [size] (r_cur_size r) (r_seg r) RIdle -> size = length (s_last s) ->
  (size = r_cur_size r -> fresh s r size) -> r_cur_size r <= s_shm_size s ->
  c ∉ todo_of s ->
  reader_inv s c r.
Proof.
  intros -> -> Hf Hsz Ht. split; simpl; try done.
  - intros size Hin. apply list_elem_of_singleton in Hin as ->. split; [done|exact Hf].
  - intros size [E|E]; inversion E.
Qed.

(** A reader other than the client [c] handled by [notify_update]. *)
Lemma reader_inv_todo s s' c d r todo f :
  s_writer s = WNotify f (c :: todo) -> s_writer s' = WNotify f todo ->
  s_last s' = s_last s -> s_cur s' = s_cur s -> s_shm_size s' = s_shm_size s ->
  s_clients s' = s_clients s -> d <> c -> reader_inv s d r -> reader_inv s' d r.
Proof.
  intros Hw Hw' El Ec Em Ek Hne [H1 H2 H3 H4 H5 H6 H7].
  unfold todo_of, frame_of in *.
  split; unfold fresh, todo_of, frame_of in *; rewrite ?El, ?Ec, ?Em, ?Ek, ?Hw', ?Hw in *; auto.
  - intros Hin. apply H6. by right.
  - intros Hin Ho. destruct (H7 Hin Ho) as [|[Ht Hl]]; [by left|].
    right. split; [|done]. by apply elem_of_cons in Ht as [->|].
Qed.

Ltac ltb_case H :=
  match type of H with
  | context [(0 <? ?x)%Z] => destruct (Z.ltb_spec 0 x)
  end.
Ltac st_simpl := unfold due, resets, fresh, mutex_held, todo_of, frame_of in *; simpl in *.
Ltac st_case s := destruct s as [sems w armed shm segs cur cl nt rs rd lost last]; st_simpl; subst.

(** ** Each step preserves the invariant *)

Lemma inv_call s f :
  inv s -> s_writer s = WIdle -> inv (with_armed true (with_writer (WAcquire f) s)).
Proof.
  intros [Hs Hc Hr Hm] Hw. split.
  - unfold sem_inv in *. by rewrite Hw in Hs.
  - destruct Hc. st_case s. split; st_simpl; try done.
  - intros c r Hcr. apply (reader_inv_ext s); auto; st_case s; done.
  - destruct Hm as (m & ? & ? & Hm). exists m. split; [done|]. split; [done|].
    unfold mem_inv in *. by rewrite Hw in Hm.
Qed.

Lemma inv_acquire s f vs :
  inv s -> s_writer s = WAcquire f -> run_ops write_start (s_sems s) = OpsDone vs ->
  inv (with_last f (with_sems vs (with_writer (WGot f) s))).
Proof.
  intros [Hs Hc Hr Hm] Hw Ho. unfold sem_inv in Hs. rewrite Hw in Hs. rewrite Hs in Ho.
  rewrite run_write_start in Ho by (unfold SEMVMX; lia).
  destruct (Z.eqb_spec (Z.of_nat (due s)) 0) as [Hd|]; [|done]. injection Ho as <-.
  assert (Ht : total (s_readers s) = 0) by (unfold due in Hd; lia). split.
  - unfold sem_inv. simpl. split; [unfold due in *; simpl; lia|done].
  - destruct Hc. st_case s. split; st_simpl; try done.
  - intros c r Hcr. simpl in Hcr. pose proof (owing_zero _ _ _ Ht Hcr) as Hz.
    pose proof (ri_client _ _ _ (Hr c r Hcr)) as H7. pose proof (ri_cur _ _ _ (Hr c r Hcr)).
    apply reader_inv_idle; [done|done|]. intros Hin. st_case s. auto.
  - destruct Hm as (m & ? & ? & Hm). by exists m.
Qed.

Lemma inv_flag s f :
  inv s -> s_writer s = WGot f -> inv (with_armed false (with_writer (WLocked f) s)).
Proof.
  intros [Hs Hc Hr Hm] Hw. split.
  - unfold sem_inv in *. by rewrite Hw in Hs.
  - destruct Hc. st_case s. split; st_simpl; try done.
  - intros c r Hcr. apply (reader_inv_ext s); auto; st_case s; done.
  - destruct Hm as (m & ? & ? & Hm). exists m. split; [done|]. split; [done|].
    unfold mem_inv in *. by rewrite Hw in Hm.
Qed.

Lemma inv_timeout s :
  inv s -> timely LTimeout s -> s_armed s = true ->
  inv (with_lost 0 (with_armed false (with_sems (<[0 := 0%Z]> (s_sems s)) s))).
Proof.
  intros [Hs Hc Hr Hm] (Ht & (f & Hw) & Hn) Ha. unfold sem_inv in Hs. rewrite Hw in Hs. split.
  - unfold sem_inv. simpl. rewrite Hw, Hs. unfold due. simpl. by rewrite Ht.
  - destruct Hc. st_case s. split; st_simpl; try done; try lia.
    apply Nat.le_0_r, length_zero_iff_nil, elem_of_nil_inv. intros c Hcr.
    apply list_elem_of_filter in Hcr as [? ?]. by apply (Hn c).
  - intros c r Hcr. apply (reader_inv_ext s); auto; st_case s; done.
  - destruct Hm as (m & ? & ? & Hm). exists m. split; [done|]. by split.
Qed.

Lemma inv_resize s f :
  inv s -> s_writer s = WLocked f ->
  inv (with_writer (WNotify f (s_clients s)) (clear_notified (resize f s))).
Proof.
  intros [Hs Hc Hr Hm] Hw. unfold sem_inv in Hs. rewrite Hw in Hs. destruct Hs as [Hd Hs].
  assert (Ht : total (s_readers s) = 0) by (unfold due in Hd; lia).
  assert (Hlen : s_shm_size (resize f s) = max (s_shm_size s) (length f)).
  { unfold resize. case_bool_decide; simpl; lia. }
  assert (E : s_readers (resize f s) = s_readers s /\ s_clients (resize f s) = s_clients s /\
    s_reset (resize f s) = s_reset s /\ s_lost (resize f s) = s_lost s /\
    s_last (resize f s) = s_last s /\ s_sems (resize f s) = s_sems s).
  { unfold resize. by case_bool_decide. }
  destruct E as (E1 & E2 & E3 & E4 & E5 & E6). split.
  - unfold sem_inv, due in *. simpl. by rewrite E1, E4, E6.
  - destruct Hc. split; unfold due, resets, mutex_held, todo_of in *; simpl;
      rewrite ?E1, ?E2, ?E3, ?E4; try done; try (split; done); try lia.
    rewrite Hw in *. simpl in *. etransitivity; [|apply Nat.le_0_l].
    apply Nat.le_0_r, length_zero_iff_nil, elem_of_nil_inv. intros c Hcr.
    apply list_elem_of_filter in Hcr as [Hcr ?]. inversion Hcr.
  - intros c r Hcr. simpl in Hcr. rewrite E1 in Hcr.
    pose proof (owing_zero _ _ _ Ht Hcr) as Hz. pose proof (ri_cur _ _ _ (Hr c r Hcr)) as H5.
    apply reader_inv_idle; simpl; [done|rewrite Hlen; lia|]. rewrite E2. intros Hin.
    destruct (ri_client _ _ _ (Hr c r Hcr) Hin Hz) as [Hf|[Hf _]];
      [|unfold todo_of in Hf; rewrite Hw in Hf; by inversion Hf].
    unfold fresh, todo_of, frame_of, resize in *. case_bool_decide; simpl; [|by left].
    right. split; [done|]. lia.
  - destruct Hm as (m & Hm1 & Hm2 & Hm). unfold mem_inv in Hm. rewrite Hw in Hm.
    unfold seg_inv, resize, mem_inv. case_bool_decide; simpl.
    + exists (replicate (length f) Ascii.zero). rewrite lookup_insert_eq, length_replicate. done.
    + exists m. repeat split; try done. lia.
Qed.

Lemma inv_send s f c r todo :
  inv s -> s_writer s = WNotify f (c :: todo) -> s_readers s !! c = Some r ->
  inv (with_writer (WNotify f todo) (deliver_update c (length f) r s)).
Proof.
  intros [Hs Hc Hr Hm] Hw Hcr. unfold sem_inv in Hs. rewrite Hw in Hs. destruct Hs as [Hd Hs].
  assert (Hin : c ∈ todo_of s) by (unfold todo_of; rewrite Hw; left).
  pose proof (ri_todo _ _ _ (Hr c r Hcr) Hin) as Hz. destruct (owing_zero_idle r Hz) as [Hb Hp].
  set (r' := Reader (r_inbox r ++ [length f]) (r_cur_size r) (r_seg r) (r_phase r)).
  assert (Ho : owing r' = 1) by (unfold owing; simpl; by rewrite Hb, Hp).
  pose proof (sum_replace owing _ c r r' Hcr) as Ht.
  assert (sub : c ∈ todo_of s -> c ∈ s_clients s) by apply (proj2 (ci_todo _ Hc)).
  assert (Hnin : c ∉ todo).
  { pose proof (proj1 (ci_todo _ Hc)) as Hnd. unfold todo_of in Hnd. rewrite Hw in Hnd.
    by apply NoDup_cons in Hnd as [? _]. }
  assert (Hl : s_last s = f).
  { destruct Hm as (m & _ & _ & Hm). unfold mem_inv in Hm. rewrite Hw in Hm. tauto. }
  split.
  - unfold sem_inv, due in *. simpl. fold r'. rewrite length_app. simpl. split; [lia|done].
  - destruct Hc. unfold due, resets, mutex_held, todo_of in *. rewrite Hw in *. simpl in *.
    split; unfold due, resets, mutex_held, todo_of in *; simpl; fold r'; try done.
    + destruct ci_todo0 as [Hnd Hsub]. apply NoDup_cons in Hnd as [_ Hnd].
      split; [done|]. intros d Hdin. apply Hsub. by right.
    + intros _. specialize (ci_count0 eq_refl). rewrite length_app. simpl. lia.
    + intros d Hdr. rewrite lookup_insert_ne; [auto|]. intros <-. apply ci_dead0 in Hdr. congruence.
    + rewrite resets_app_alive; [done|]. intros Hdr. apply ci_dead0 in Hdr. congruence.
    + specialize (ci_count0 eq_refl). lia.
  - intros d r0 Hd0. simpl in Hd0. destruct (decide (d = c)) as [->|Hne].
    + rewrite lookup_insert_eq in Hd0. injection Hd0 as <-.
      apply reader_inv_sent with (size := length f); simpl; try done.
      * by rewrite Hb, Hp.
      * by rewrite Hl.
      * intros E. destruct (ri_client _ _ _ (Hr c r Hcr) (sub Hin) Hz) as [Hf|[_ Hf]].
        -- unfold fresh in *. simpl. by rewrite E.
        -- unfold frame_of in Hf. rewrite Hw in Hf. congruence.
      * apply (ri_cur _ _ _ (Hr c r Hcr)).
    + rewrite lookup_insert_ne in Hd0 by done.
      by apply (reader_inv_todo s _ c d r0 todo f); auto.
  - destruct Hm as (m & Hm1 & Hm2 & Hm). exists m. split; [done|]. split; [done|].
    unfold mem_inv in *. by rewrite Hw in Hm.
Qed.

Lemma inv_send_fail s f c todo :
  inv s -> s_writer s = WNotify f (c :: todo) -> s_readers s !! c = None ->
  inv (with_writer (WNotify f todo) s).
Proof.
  intros [Hs Hc Hr Hm] Hw Hcr. split.
  - unfold sem_inv in *. by rewrite Hw in Hs.
  - destruct Hc. st_case s. split; st_simpl; try done.
    + destruct ci_todo0 as [Hnd Hsub]. apply NoDup_cons in Hnd as [_ Hnd].
      split; [done|]. intros d Hd. apply Hsub. by right.
    + intros _. specialize (ci_count0 eq_refl). lia.
  - intros d r Hdr. apply (reader_inv_todo s _ c d r todo f); auto.
    intros ->. simpl in Hdr. congruence.
  - destruct Hm as (m & ? & ? & Hm). exists m. split; [done|]. split; [done|].
    unfold mem_inv in *. by rewrite Hw in Hm.
Qed.

Lemma inv_notified s f :
  inv s -> s_writer s = WNotify f [] ->
  inv (with_writer (WCommit f (length (s_notified s))) s).
Proof.
  intros [Hs Hc Hr Hm] Hw. pose proof (ci_count _ Hc) as Hn.
  pose proof (ci_len _ Hc) as Hl.
  unfold mutex_held, todo_of in Hn. rewrite Hw in Hn. specialize (Hn eq_refl). simpl in Hn.
  unfold sem_inv in Hs. rewrite Hw in Hs. destruct Hs as [Hd Hs]. split.
  - unfold sem_inv. simpl. change (due (with_writer _ s)) with (due s).
    split; [lia|]. rewrite Hs. split; [repeat f_equal; lia|lia].
  - destruct Hc. st_case s. split; st_simpl; try done.
  - intros c r Hcr. pose proof (Hr c r Hcr) as Hi.
    apply (reader_inv_ext s); auto; unfold todo_of, frame_of; simpl; rewrite Hw; try done.
    intros Hin. inversion Hin.
  - destruct Hm as (m & ? & ? & Hm). exists m. split; [done|]. split; [done|].
    unfold mem_inv in *. by rewrite Hw in Hm.
Qed.

Lemma inv_commit s f n vs :
  inv s -> s_writer s = WCommit f n ->
  (if (0 <? n)%nat then run_ops (read_commit_reader (Z.of_nat n)) (s_sems s) = OpsDone vs
   else vs = s_sems s) ->
  inv (with_sems vs (with_writer (WCopy f 0) s)).
Proof.
  intros [Hs Hc Hr Hm] Hw Ho. unfold sem_inv in Hs. rewrite Hw in Hs.
  destruct Hs as (Hn & Hs & Hd). pose proof (ci_due _ Hc) as Hdue.
  assert (Hv : vs = [(1 + Z.of_nat (due s))%Z; 1%Z]).
  { rewrite Hs in Ho. unfold FD_SETSIZE in *. destruct (Nat.ltb_spec 0 n).
    - rewrite run_commit in Ho by (unfold SEMVMX; lia). injection Ho as <-.
      f_equal; lia.
    - subst. f_equal; lia. }
  split.
  - unfold sem_inv. simpl. by rewrite Hv.
  - destruct Hc. st_case s. split; st_simpl; try done.
  - intros c r Hcr. apply (reader_inv_ext s); auto; st_case s; done.
  - destruct Hm as (m & ? & ? & Hm). exists m. split; [done|]. split; [done|].
    unfold mem_inv in *. rewrite Hw in Hm. simpl. destruct Hm as [? ?].
    repeat split; try done. lia.
Qed.

Lemma inv_copy s f i b m :
  inv s -> s_writer s = WCopy f i -> f !! i = Some b -> s_segs s !! s_cur s = Some m ->
  inv (with_writer (WCopy f (S i))
        (with_shm (s_shm_size s) (<[s_cur s := <[i := b]> m]> (s_segs s)) (s_cur s) s)).
Proof.
  intros [Hs Hc Hr Hm] Hw Hb Hseg. split.
  - unfold sem_inv in *. by rewrite Hw in Hs.
  - destruct Hc. st_case s. split; st_simpl; try done.
  - intros c r Hcr. apply (reader_inv_ext s); auto; st_case s; done.
  - destruct Hm as (m' & Hm1 & Hm2 & Hm). rewrite Hseg in Hm1. injection Hm1 as <-.
    unfold mem_inv in Hm. rewrite Hw in Hm. destruct Hm as (Hl & Hlen & Hi & Ht).
    exists (<[i := b]> m). simpl. rewrite lookup_insert_eq, length_insert.
    pose proof (lookup_lt_Some _ _ _ Hb) as Hlt. repeat split; try done; try lia.
    unfold mem_inv. simpl. rewrite length_insert. repeat split; try done.
    rewrite (take_S_r _ _ _ Hb), (take_S_r _ _ b) by (apply list_lookup_insert_eq; lia).
    rewrite take_insert_ge by lia. by rewrite Ht.
Qed.

Lemma inv_copied s f i :
  inv s -> s_writer s = WCopy f i -> f !! i = None -> inv (with_writer (WRelease f) s).
Proof.
  intros [Hs Hc Hr Hm] Hw Hb. split.
  - unfold sem_inv in *. by rewrite Hw in Hs.
  - destruct Hc. st_case s. split; st_simpl; try done.
  - intros c r Hcr. apply (reader_inv_ext s); auto; st_case s; done.
  - destruct Hm as (m & ? & ? & Hm). exists m. split; [done|]. split; [done|].
    unfold mem_inv in *. rewrite Hw in Hm. simpl. destruct Hm as (? & ? & Hi & Ht).
    apply lookup_ge_None in Hb. assert (i = length f) as -> by lia.
    repeat split; try done. rewrite Ht. apply firstn_all.
Qed.

Lemma inv_release s f vs :
  inv s -> s_writer s = WRelease f -> run_ops write_end (s_sems s) = OpsDone vs ->
  inv (with_sems vs (with_writer WIdle s)).
Proof.
  intros [Hs Hc Hr Hm] Hw Ho. unfold sem_inv in Hs. rewrite Hw in Hs.
  pose proof (ci_due _ Hc) as Hdue. unfold FD_SETSIZE in Hdue. rewrite Hs in Ho.
  rewrite run_write_end in Ho by (unfold SEMVMX; lia).
  destruct (Z.ltb_spec 0 (1 + Z.of_nat (due s))); [|done]. injection Ho as <-. split.
  - unfold sem_inv. simpl. change (due (with_sems _ _)) with (due s). f_equal; lia.
  - destruct Hc. st_case s. split; st_simpl; try done.
  - intros c r Hcr. apply (reader_inv_ext s); auto; st_case s; done.
  - destruct Hm as (m & ? & ? & Hm). exists m. split; [done|]. split; [done|].
    unfold mem_inv in *. rewrite Hw in Hm. simpl. by destruct Hm as (-> & ? & ?).
Qed.

(** *** Clients and readers *)

Lemma sem_inv_ext s s' :
  s_writer s' = s_writer s -> s_sems s' = s_sems s -> due s' = due s ->
  s_notified s' = s_notified s -> sem_inv s -> sem_inv s'.
Proof. unfold sem_inv. by intros -> -> -> ->. Qed.

Lemma seg_inv_ext s s' :
  s_writer s' = s_writer s -> s_segs s' = s_segs s -> s_cur s' = s_cur s ->
  s_shm_size s' = s_shm_size s -> s_last s' = s_last s -> seg_inv s -> seg_inv s'.
Proof. unfold seg_inv, mem_inv. by intros -> -> -> -> ->. Qed.

Lemma inv_connect s c :
  inv s -> s_readers s !! c = None -> c ∉ s_clients s ->
  inv (set_reader c (Reader [] 0 (s_cur s) RIdle) s).
Proof.
  intros [Hs Hc Hr Hm] Hn Hcl. set (r0 := Reader [] 0 (s_cur s) RIdle).
  assert (Ht : total (<[c := r0]> (s_readers s)) = total (s_readers s))
    by (by rewrite (sum_insert_new owing)).
  assert (Hd : due (set_reader c r0 s) = due s) by (unfold due; simpl; by rewrite Ht). split.
  - by apply (sem_inv_ext s).
  - destruct Hc. split; rewrite ?Hd; try done.
    simpl. intros d Hin. rewrite lookup_insert_ne; [auto|]. intros <-. by apply Hcl, ci_reset0.
  - intros d r Hdr. simpl in Hdr. destruct (decide (d = c)) as [->|Hne].
    + rewrite lookup_insert_eq in Hdr. injection Hdr as <-.
      apply reader_inv_idle; [done|simpl; lia|done].
    + rewrite lookup_insert_ne in Hdr by done. apply (reader_inv_ext s); auto.
  - by apply (seg_inv_ext s).
Qed.

Lemma inv_join s c :
  inv s -> mutex_held s = false -> unused (s_readers s !! c) ->
  c ∉ s_clients s -> length (s_clients s) < FD_SETSIZE ->
  inv (with_clients (s_clients s ++ [c]) (s_notified s) (s_reset s) s).
Proof.
  intros [Hs Hc Hr Hm] Hmx Hu Hn Hl. split.
  - by apply (sem_inv_ext s).
  - destruct Hc. split; simpl; try done.
    + apply NoDup_app. split; [done|]. split; [|apply NoDup_singleton].
      intros d Hd Hin. apply list_elem_of_singleton in Hin as ->. done.
    + rewrite length_app. simpl. lia.
    + destruct ci_todo0 as [Hnd Hsub]. split; [done|].
      intros d Hd. apply elem_of_app. left. by apply Hsub.
    + change (mutex_held s = true -> length (s_notified s) + length (todo_of s) <=
        length (s_clients s ++ [c])). rewrite Hmx. done.
    + intros d Hd. apply elem_of_app. left. by apply ci_reset0.
  - intros d r0 Hdr. apply (reader_inv_ext s); auto. simpl.
    rewrite elem_of_app, list_elem_of_singleton. intros [| ->]; [by left|].
    right. simpl in Hdr. rewrite Hdr in Hu. apply Hu.
  - by apply (seg_inv_ext s).
Qed.

(** The resets of other clients are kept, in number, when [c] is dropped. *)
Lemma resets_without c (rs nt : list nat) :
  length (filter (fun d => d ∈ nt) (without c rs)) <= length (filter (fun d => d ∈ nt) rs).
Proof.
  unfold without. induction rs as [|d rs IH]; [done|]. rewrite !filter_cons.
  destruct (decide (d <> c)); rewrite ?filter_cons; destruct (decide (d ∈ nt)); simpl; lia.
Qed.

Lemma resets_without_lt c (rs nt : list nat) :
  c ∈ rs -> c ∈ nt ->
  length (filter (fun d => d ∈ nt) (without c rs)) < length (filter (fun d => d ∈ nt) rs).
Proof.
  intros Hc Hn. induction rs as [|d rs IH]; [inversion Hc|].
  pose proof (resets_without c rs nt) as Hle. unfold without in *. rewrite !filter_cons.
  apply elem_of_cons in Hc as [<-|Hc].
  - rewrite decide_False by (intros Hx; by apply Hx). rewrite (decide_True _ _ Hn). simpl. lia.
  - specialize (IH Hc). destruct (decide (d <> c)); rewrite ?filter_cons;
      destruct (decide (d ∈ nt)); simpl; lia.
Qed.

Lemma client_inv_drop s c lost vs :
  client_inv s -> mutex_held s = false ->
  length (resets (drop_client c s)) <= lost -> lost <= s_lost s ->
  client_inv (with_lost lost (with_sems vs (drop_client c s))).
Proof.
  intros Hc Hmx Hres Hle. destruct Hc. unfold due, resets, todo_of, drop_client in *.
  split; unfold due, resets, todo_of in *; simpl in *; try done.
  - by apply without_nodup.
  - pose proof (without_length c (s_clients s)). lia.
  - unfold mutex_held in Hmx. destruct (s_writer s); try done;
      (split; [constructor|intros d Hd; inversion Hd]).
  - change (mutex_held s = true -> length (s_notified s) + length (todo_of s) <=
        length (without c (s_clients s))). by rewrite Hmx.
  - intros d Hd. apply elem_of_without in Hd as [Hd ?]. apply elem_of_without. auto.
  - intros d Hd. apply ci_dead0, (without_sub c), Hd.
  - lia.
  - intros f Hw Ha. specialize (ci_disarmed0 f Hw Ha). lia.
Qed.

Lemma reader_inv_drop s c lost vs d r :
  reader_inv s d r -> reader_inv (with_lost lost (with_sems vs (drop_client c s))) d r.
Proof.
  intros Hi. apply (reader_inv_ext s); auto. simpl. intros Hin. left.
  by apply (without_sub c).
Qed.

Lemma inv_leave s c : inv s -> mutex_held s = false -> inv (drop_client c s).
Proof.
  intros [Hs Hc Hr Hm] Hmx.
  assert (E : drop_client c s = with_lost (s_lost s) (with_sems (s_sems s) (drop_client c s)))
    by (by destruct s).
  split.
  - by apply (sem_inv_ext s).
  - rewrite E. apply client_inv_drop; try done. etransitivity; [|exact (ci_resets _ Hc)].
    apply resets_without.
  - intros d r Hdr. rewrite E. apply reader_inv_drop. auto.
  - by apply (seg_inv_ext s).
Qed.

Lemma inv_cancel s c vs :
  inv s -> mutex_held s = false -> c ∈ s_reset s -> c ∈ s_notified s ->
  run_ops read_end (s_sems s) = OpsDone vs ->
  inv (with_lost (s_lost s - 1) (with_sems vs (drop_client c s))).
Proof.
  intros [Hs Hc Hr Hm] Hmx Hrs Hnt Ho.
  pose proof (resets_without_lt c _ _ Hrs Hnt) as Hlt. fold (resets s) in Hlt.
  pose proof (ci_resets _ Hc) as Hle. pose proof (ci_due _ Hc) as Hdue.
  assert (Hd : due (with_lost (s_lost s - 1) (with_sems vs (drop_client c s))) = due s - 1
    /\ 1 <= due s) by (unfold due in *; simpl; lia).
  destruct Hd as [Hd Hd1]. split.
  - unfold sem_inv in *. rewrite Hd. unfold FD_SETSIZE in *.
    change (s_writer (with_lost _ _)) with (s_writer s).
    unfold mutex_held in Hmx. simpl.
    destruct (s_writer s); try done; try (destruct Hs; lia);
      repeat match goal with H : _ /\ _ |- _ => destruct H end;
      match goal with H : s_sems s = _ |- _ => rewrite H in Ho end;
      rewrite run_read_end in Ho by (unfold SEMVMX; lia);
      ltb_case Ho; try done; injection Ho as <-; repeat split; try done; try f_equal; try lia.
  - apply client_inv_drop; try done; [|lia]. unfold resets in *. simpl in *. lia.
  - intros d r Hdr. apply reader_inv_drop. auto.
  - by apply (seg_inv_ext s).
Qed.

Lemma inv_end s c r :
  inv s -> s_readers s !! c = Some r -> inv (end_reader c r s).
Proof.
  intros [Hs Hc Hr Hm] Hcr. pose proof (sum_delete owing _ _ _ Hcr) as Ht.
  assert (Hd : due (end_reader c r s) = due s) by (unfold due; simpl; lia).
  assert (Hrs : s_reset (end_reader c r s) = s_reset s \/
    (r_inbox r <> [] /\ c ∈ s_clients s /\ s_reset (end_reader c r s) = c :: s_reset s)).
  { unfold end_reader. simpl. case_bool_decide; tauto. }
  split.
  - by apply (sem_inv_ext s).
  - destruct Hc. split; rewrite ?Hd; try done.
    + change (s_clients (end_reader c r s)) with (s_clients s).
      destruct Hrs as [->|(_ & Hin & ->)]; [done|].
      intros d Hd0. apply elem_of_cons in Hd0 as [->|]; [done|]. by apply ci_reset0.
    + intros d Hin. simpl. destruct (decide (d = c)) as [->|Hne]; [apply lookup_delete_eq|].
      rewrite lookup_delete_ne by done. apply ci_dead0.
      destruct Hrs as [E|(_ & _ & E)]; rewrite E in Hin; [done|].
      by apply elem_of_cons in Hin as [|].
    + unfold resets. change (s_notified (end_reader c r s)) with (s_notified s).
      change (s_lost (end_reader c r s)) with (s_lost s + owing r). unfold resets in *.
      destruct Hrs as [->|(Hb & _ & ->)]; [lia|]. rewrite filter_cons.
      assert (1 <= owing r) by (unfold owing; destruct (r_inbox r); [done|simpl; lia]).
      destruct (decide (c ∈ s_notified s)); simpl; lia.
  - intros d r0 Hdr. simpl in Hdr. destruct (decide (d = c)) as [->|Hne].
    + by rewrite lookup_delete_eq in Hdr.
    + rewrite lookup_delete_ne in Hdr by done. apply (reader_inv_ext s); auto.
  - by apply (seg_inv_ext s).
Qed.

(** Steps of a reader that replace its state by one owing as much or less. *)
Lemma client_inv_reader s c r r' vs :
  client_inv s -> s_readers s !! c = Some r -> owing r' <= owing r ->
  client_inv (with_sems vs (set_reader c r' s)).
Proof.
  intros Hc Hcr Ho. pose proof (sum_replace owing _ c r r' Hcr) as Ht.
  destruct Hc. split; unfold due in *; simpl; try done; try lia.
  - intros d Hd. rewrite lookup_insert_ne; [auto|]. intros <-. apply ci_dead0 in Hd. congruence.
  - intros f Hw Ha. specialize (ci_disarmed0 f Hw Ha). lia.
Qed.

Lemma readers_inv_set s c r' vs :
  (forall d r0, s_readers s !! d = Some r0 -> reader_inv s d r0) ->
  reader_inv (with_sems vs (set_reader c r' s)) c r' ->
  forall d r0, s_readers (with_sems vs (set_reader c r' s)) !! d = Some r0 ->
  reader_inv (with_sems vs (set_reader c r' s)) d r0.
Proof.
  intros Hr Hr' d r0 Hd. simpl in Hd. destruct (decide (d = c)) as [->|Hne].
  - rewrite lookup_insert_eq in Hd. by injection Hd as <-.
  - rewrite lookup_insert_ne in Hd by done. apply (reader_inv_ext s); auto.
Qed.

(** A frame still to be read fits in the current segment. *)
Lemma last_fits s : sem_inv s -> seg_inv s -> due s <> 0 -> length (s_last s) <= s_shm_size s.
Proof.
  intros Hs (m & _ & Hl & Hm) Hd. unfold sem_inv, mem_inv in *. rewrite <- Hl.
  destruct (s_writer s); try tauto; intuition (subst; done || lia).
Qed.

Lemma inv_recv s c r size rest :
  inv s -> s_readers s !! c = Some r -> r_phase r = RIdle -> r_inbox r = size :: rest ->
  inv (set_reader c (recv_update s r size rest) s).
Proof.
  intros [Hs Hc Hr Hm] Hcr Hp Hb. pose proof (Hr c r Hcr) as Hi.
  set (r' := recv_update s r size rest).
  assert (E : set_reader c r' s = with_sems (s_sems s) (set_reader c r' s)) by (by destruct s).
  assert (Ho : owing r' = owing r) by (unfold owing; simpl; rewrite Hp, Hb; simpl; lia).
  pose proof (sum_replace owing _ c r r' Hcr) as Ht.
  assert (Hrest : rest = []).
  { pose proof (ri_owing _ _ _ Hi) as H1. unfold owing in H1. rewrite Hb in H1.
    destruct rest; [done|simpl in H1; lia]. }
  assert (Hmsg : size = length (s_last s) /\ (size = r_cur_size r -> fresh s r size))
    by (apply (ri_inbox _ _ _ Hi); rewrite Hb; left).
  destruct Hmsg as [Hsz Hf]. split.
  - apply (sem_inv_ext s); try done. unfold due. simpl. lia.
  - rewrite E. apply (client_inv_reader s c r); [done..|lia].
  - rewrite E. apply (readers_inv_set s c); [done|].
    apply (reader_inv_busy _ _ _ size (RWaitLock size)); try done; try (by left).
    + unfold r', recv_update. by rewrite Hrest.
    + unfold fresh, r', recv_update in *. simpl. case_bool_decide as Hne; [by left|].
      apply Hf. destruct (decide (size = r_cur_size r)); [done|]. by destruct Hne.
    + simpl. rewrite Hsz. apply last_fits; try done. unfold due. pose proof (sum_le owing _ _ _ Hcr).
      unfold owing in *. rewrite Hb in *. simpl in *. lia.
    + intros Hin. apply (ri_todo _ _ _ Hi) in Hin. unfold owing in Hin. by rewrite Hb in Hin.
  - by apply (seg_inv_ext s).
Qed.

Lemma inv_lock s c r size vs :
  inv s -> s_readers s !! c = Some r -> r_phase r = RWaitLock size ->
  run_ops read_start (s_sems s) = OpsDone vs ->
  inv (with_sems vs (set_reader c (set_phase r (RReading size)) s)).
Proof.
  intros [Hs Hc Hr Hm] Hcr Hp Ho. pose proof (Hr c r Hcr) as Hi.
  set (r' := set_phase r (RReading size)).
  assert (How : owing r' = owing r) by (unfold owing; simpl; by rewrite Hp).
  assert (Hlf : lock_free (s_writer s) = true /\ vs = s_sems s).
  { unfold sem_inv in Hs. destruct (s_writer s); try done;
      repeat match goal with H : _ /\ _ |- _ => destruct H end;
      match goal with H : s_sems s = _ |- _ => rewrite H in Ho end;
      rewrite run_read_start in Ho; simpl in Ho; try done; injection Ho as <-; by split. }
  destruct Hlf as [Hlf ->]. pose proof (sum_replace owing _ c r r' Hcr) as Ht.
  split.
  - apply (sem_inv_ext s); try done. unfold due. simpl. lia.
  - apply (client_inv_reader s c r); [done..|lia].
  - apply (readers_inv_set s c); [done|]. destruct Hi as [H1 H2 H3 H4 H5 H6 H7].
    split; simpl; rewrite ?How; try done.
    + intros sz [E|E]; inversion E; subst. by apply H3; left.
  - by apply (seg_inv_ext s).
Qed.

Lemma inv_unlock s c r size vs :
  inv s -> s_readers s !! c = Some r -> r_phase r = RReading size ->
  run_ops read_end (s_sems s) = OpsDone vs ->
  inv (with_sems vs (set_reader c (set_phase r RIdle) s)).
Proof.
  intros [Hs Hc Hr Hm] Hcr Hp Ho. pose proof (Hr c r Hcr) as Hi.
  set (r' := set_phase r RIdle).
  assert (How : owing r = 1 /\ owing r' = 0 /\ 1 <= due s).
  { pose proof (ri_owing _ _ _ Hi). pose proof (sum_le owing _ _ _ Hcr).
    unfold due. unfold owing in *. simpl. rewrite Hp in *. lia. }
  destruct How as (How & How' & Hdu). pose proof (sum_replace owing _ c r r' Hcr) as Ht.
  pose proof (ri_reading _ _ _ Hi size Hp) as Hlf. pose proof (ci_due _ Hc) as Hdue.
  assert (Hd : due (with_sems vs (set_reader c r' s)) = due s - 1) by (unfold due; simpl; lia).
  split.
  - unfold sem_inv in *. rewrite Hd. simpl. unfold FD_SETSIZE in Hdue.
    destruct (s_writer s); try done; rewrite Hs in Ho;
      rewrite run_read_end in Ho by (unfold SEMVMX; lia); case_hyp Ho; try done;
      injection Ho as <-; f_equal; lia.
  - apply (client_inv_reader s c r); [done..|lia].
  - apply (readers_inv_set s c); [done|]. apply reader_inv_idle; [done|apply (ri_cur _ _ _ Hi)|].
    intros _. left. destruct (ri_wait _ _ _ Hi size (or_intror Hp)) as (_ & Hcs & Hf).
    unfold fresh in *. simpl. by rewrite Hcs.
  - by apply (seg_inv_ext s).
Qed.

