(* ===== verification/ShmRefinement.v ===== *)
(** * What the shared-memory protocol guarantees

    The abstract specification is a queue of frames per reader; the protocol
    refines it.  From the invariant of [ShmInvariant.v]: mutual exclusion, no
    torn read, exactly-once delivery in order, absence of deadlock and
    termination of [copy_to_shm] whatever readers die. *)

From S2P Require Import Prelude Posix SysVSem ShmProtocol ShmInvariant.

(** ** Definitions *)

(** The specification: for each connected reader the frames announced to it
    and not delivered yet. *)
Inductive spec_step : label -> gmap nat (list frame) -> gmap nat (list frame) -> Prop :=
| spec_connect q c : q !! c = None -> spec_step (LConnect c) q (<[c := []]> q)
| spec_end q c : spec_step (LEnd c) q (delete c q)
| spec_send q c f l : q !! c = Some l -> spec_step (LSend c f) q (<[c := l ++ [f]]> q)
| spec_lock q c f l : q !! c = Some (f :: l) -> spec_step (LLock c f) q (<[c := l]> q)
| spec_internal l q :
    match l with LConnect _ | LEnd _ | LSend _ _ | LLock _ _ => False | _ => True end ->
    spec_step l q q.

(** Updates received or to receive whose frame the reader has not been given. *)
Definition undelivered (r : reader) : nat :=
  length (r_inbox r) + match r_phase r with RWaitLock _ => 1 | _ => 0 end.

Definition queue (s : st) (r : reader) : list frame := replicate (undelivered r) (s_last s).

(** The abstract state of a protocol state. *)
Definition queues (s : st) : gmap nat (list frame) := queue s <$> s_readers s.

(** Executions of the protocol, with their labels. *)
Inductive run : st -> list label -> st -> Prop :=
| run_nil s : run s [] s
| run_cons s s' s'' l tr :
    timely l s -> lstep l s s' -> run s' tr s'' -> run s (l :: tr) s''.

(** The frames announced to [c], the frames given to its data callback. *)
Definition sent_to (c : nat) (l : label) : list frame :=
  match l with LSend d f => if decide (d = c) then [f] else [] | _ => [] end.
Definition given_to (c : nat) (l : label) : list frame :=
  match l with LLock d f => if decide (d = c) then [f] else [] | _ => [] end.
Definition sent (c : nat) (tr : list label) : list frame := mjoin (sent_to c <$> tr).
Definition delivered (c : nat) (tr : list label) : list frame := mjoin (given_to c <$> tr).

(** Steps of the writer and of the readers themselves, the time-out and the
    recovery of a reset included: not new calls, and not clients that come,
    leave or die. *)
Definition internal (l : label) : bool :=
  match l with
  | LCall _ | LConnect _ | LJoin _ | LLeave _ | LEnd _ => false
  | _ => true
  end.
Definition internal_step (s s' : st) : Prop :=
  exists l, internal l = true /\ timely l s /\ lstep l s s'.

(** Nothing is left to do: the call has returned and every reader has read. *)
Definition quiescent (s : st) : Prop :=
  s_writer s = WIdle /\ forall c r, s_readers s !! c = Some r -> owing r = 0.

Definition wwork (s : st) : nat :=
  match s_writer s with
  | WIdle => 0
  | WAcquire f => 4 * length (s_clients s) + length f + 10
  | WGot f => 4 * length (s_clients s) + length f + 9
  | WLocked f => 4 * length (s_clients s) + length f + 8
  | WNotify f todo => 4 * length todo + length f + 7
  | WCommit f _ => length f + 6
  | WCopy f i => (length f - i) + 5
  | WRelease _ => 4
  end.
Definition rwork (r : reader) : nat :=
  3 * length (r_inbox r) +
  match r_phase r with RIdle => 0 | RWaitLock _ => 2 | RReading _ => 1 end.
(** An upper bound on the number of internal steps that remain. *)
Definition work (s : st) : nat :=
  wwork s + sum_over rwork (s_readers s) + length (s_reset s) +
  (if s_armed s then 1 else 0).

(** ** The invariant holds in every reachable state *)

Lemma inv_initial s : initial s -> inv s.
Proof.
  intros [size ->]. split.
  - done.
  - split; unfold due, todo_of, resets; simpl; try done; try constructor; try lia.
    + constructor.
    + intros d Hd. inversion Hd.
    + vm_compute. lia.
  - intros c r Hcr. simpl in Hcr. by rewrite lookup_empty in Hcr.
  - exists (replicate size Ascii.zero). simpl. rewrite lookup_singleton_eq, length_replicate.
    repeat split. simpl. lia.
Qed.

Lemma inv_step l s s' : inv s -> timely l s -> lstep l s s' -> inv s'.
Proof.
  intros Hi Ht Hl. destruct Hl;
    eauto using inv_call, inv_acquire, inv_flag, inv_timeout, inv_resize, inv_send,
      inv_send_fail, inv_notified, inv_commit, inv_copy, inv_copied, inv_release, inv_connect,
      inv_join, inv_leave, inv_cancel, inv_end, inv_recv, inv_lock, inv_unlock.
Qed.

Lemma inv_reachable s : reachable initial step s -> inv s.
Proof.
  apply invariant_reachable; [apply inv_initial|].
  intros s0 s' _ Hi (l & Ht & Hl). by apply (inv_step l s0).
Qed.
#[export] Hint Resolve inv_initial inv_reachable : shm.

(** ** Safety *)

(** No reader is between [ReadLock] and [~ReadLock] while the writer holds the
    lock. *)
Lemma writer_excludes s c r size :
  inv s -> s_readers s !! c = Some r -> r_phase r = RReading size ->
  lock_free (s_writer s) = true.
Proof. intros Hi Hr Hp. by apply (ri_reading _ _ _ (inv_readers _ Hi _ _ Hr) size). Qed.

(** What a reader about to read or reading sees, while no writer holds the lock. *)
Lemma visible_last s c r size :
  inv s -> s_readers s !! c = Some r -> lock_free (s_writer s) = true ->
  r_phase r = RWaitLock size \/ r_phase r = RReading size ->
  visible s r size = s_last s /\ size = length (s_last s).
Proof.
  intros Hi Hr Hl Hp.
  destruct (ri_wait _ _ _ (inv_readers _ Hi _ _ Hr) _ Hp) as (Hsz & _ & Hf).
  split; [|done]. destruct (inv_seg _ Hi) as (m & Hm & _ & Hmem). unfold visible, mem_inv in *.
  destruct Hf as [->|Hz].
  - rewrite Hm. simpl. rewrite Hsz. by destruct (s_writer s); destruct Hmem.
  - subst size. rewrite Hz in *. simpl. by destruct (s_last s).
Qed.

Lemma lock_enabled s vs :
  inv s -> run_ops read_start (s_sems s) = OpsDone vs -> lock_free (s_writer s) = true.
Proof.
  intros Hi Ho. pose proof (inv_sem _ Hi) as Hs. unfold sem_inv in Hs.
  destruct (s_writer s); try done;
    repeat match goal with H : _ /\ _ |- _ => destruct H end;
    match goal with H : s_sems s = _ |- _ => rewrite H in Ho end;
    by rewrite run_read_start in Ho.
Qed.

(** ** Refinement *)

Lemma queues_lookup s c : queues s !! c = queue s <$> (s_readers s !! c).
Proof. apply lookup_fmap. Qed.

(** The queues depend on the readers, and on the last frame if some reader has
    not been given it. *)
Lemma queues_ext s s' :
  s_readers s' = s_readers s ->
  (s_last s' = s_last s \/ total (s_readers s) = 0) -> queues s' = queues s.
Proof.
  intros Hr Hl. unfold queues. rewrite Hr. apply map_fmap_ext. intros c r Hcr.
  unfold queue. destruct Hl as [->|Hz]; [done|].
  pose proof (owing_zero _ _ _ Hz Hcr) as Ho. destruct (owing_zero_idle r Ho) as [Hb Hp].
  unfold undelivered. by rewrite Hb, Hp.
Qed.

Lemma queues_set s c r' :
  queues (set_reader c r' s) = <[c := queue s r']> (queues s).
Proof. unfold queues. simpl. by rewrite fmap_insert. Qed.

Lemma queues_set_same s c r r' :
  s_readers s !! c = Some r -> undelivered r' = undelivered r ->
  queues (set_reader c r' s) = queues s.
Proof.
  intros Hr Hu. rewrite queues_set. apply insert_id. rewrite queues_lookup, Hr. simpl.
  unfold queue. by rewrite Hu.
Qed.

Lemma replicate_snoc {A} n (x : A) : replicate n x ++ [x] = replicate (S n) x.
Proof. symmetry. apply replicate_cons_app. Qed.

Lemma send_refines s f c r todo :
  inv s -> s_writer s = WNotify f (c :: todo) -> s_readers s !! c = Some r ->
  spec_step (LSend c f) (queues s)
    (queues (with_writer (WNotify f todo) (deliver_update c (length f) r s))).
Proof.
  intros Hi Hw Hr. destruct (inv_seg _ Hi) as (m & _ & _ & Hm). unfold mem_inv in Hm.
  rewrite Hw in Hm. destruct Hm as [Hl _].
  set (r' := Reader (r_inbox r ++ [length f]) (r_cur_size r) (r_seg r) (r_phase r)).
  change (queues (with_writer _ _)) with (queues (set_reader c r' s)). rewrite queues_set.
  assert (E : queue s r' = queue s r ++ [f]).
  { unfold queue, undelivered. simpl. rewrite length_app, Hl, replicate_snoc.
    f_equal. simpl. lia. }
  rewrite E. apply spec_send. by rewrite queues_lookup, Hr.
Qed.

Lemma lock_refines s c r size vs :
  inv s -> s_readers s !! c = Some r -> r_phase r = RWaitLock size ->
  run_ops read_start (s_sems s) = OpsDone vs ->
  spec_step (LLock c (visible s r size)) (queues s)
    (queues (with_sems vs (set_reader c (set_phase r (RReading size)) s))).
Proof.
  intros Hi Hr Hp Ho. pose proof (lock_enabled _ _ Hi Ho) as Hl.
  destruct (visible_last _ _ _ _ Hi Hr Hl (or_introl Hp)) as [-> _].
  set (r' := set_phase r (RReading size)).
  change (queues (with_sems _ _)) with (queues (set_reader c r' s)). rewrite queues_set.
  apply spec_lock. rewrite queues_lookup, Hr. simpl. f_equal.
  unfold queue, undelivered. rewrite Hp. simpl. by rewrite Nat.add_0_r, Nat.add_1_r.
Qed.

(** The protocol refines its specification. *)
Lemma step_refines l s s' :
  inv s -> lstep l s s' -> spec_step l (queues s) (queues s').
Proof.
  intros Hi Hl.
  assert (Hstay : s_readers s' = s_readers s ->
    (s_last s' = s_last s \/ total (s_readers s) = 0) ->
    match l with LConnect _ | LEnd _ | LSend _ _ | LLock _ _ => False | _ => True end ->
    spec_step l (queues s) (queues s')).
  { intros Hr Hla Hlab. rewrite (queues_ext s s' Hr Hla). by apply spec_internal. }
  destruct Hl; eauto using send_refines, lock_refines; try (apply Hstay; [done|by left|done]).
  - apply Hstay; [done| |done]. right. pose proof (inv_sem _ Hi) as Hs. unfold sem_inv in Hs.
    rewrite H in Hs. rewrite Hs, run_write_start in H0 by (unfold SEMVMX; lia).
    destruct (Z.eqb_spec (Z.of_nat (due s)) 0) as [Hd|]; [|done]. unfold due in Hd. lia.
  - apply Hstay; [|left|done]; unfold resize; by case_bool_decide.
  - rewrite queues_set. apply spec_connect. by rewrite queues_lookup, H.
  - unfold queues at 2. simpl. rewrite fmap_delete. apply spec_end.
  - rewrite (queues_set_same s c r); [by apply spec_internal|done|].
    unfold undelivered. simpl. rewrite H0, H1. simpl. lia.
  - change (queues (with_sems _ _)) with (queues (set_reader c (set_phase r RIdle) s)).
    rewrite (queues_set_same s c r); [by apply spec_internal|done|].
    unfold undelivered. simpl. by rewrite H0.
Qed.

(** ** Executions *)

Inductive spec_run : gmap nat (list frame) -> list label -> gmap nat (list frame) -> Prop :=
| spec_run_nil q : spec_run q [] q
| spec_run_cons q q' q'' l tr :
    spec_step l q q' -> spec_run q' tr q'' -> spec_run q (l :: tr) q''.

Lemma run_refines s tr s' : inv s -> run s tr s' -> spec_run (queues s) tr (queues s').
Proof.
  intros Hi Hr. induction Hr as [|s s1 s2 l tr Ht Hl Hr IH]; [constructor|].
  econstructor; [by apply step_refines|]. apply IH. by apply (inv_step l s).
Qed.

Lemma run_inv s tr s' : inv s -> run s tr s' -> inv s'.
Proof. intros Hi Hr. induction Hr; eauto using inv_step. Qed.

Lemma sent_cons c l tr : sent c (l :: tr) = sent_to c l ++ sent c tr.
Proof. done. Qed.
Lemma delivered_cons c l tr : delivered c (l :: tr) = given_to c l ++ delivered c tr.
Proof. done. Qed.

(** One step of the specification, seen from one reader. *)
Lemma spec_step_fifo l q q' c fs :
  spec_step l q q' -> l <> LEnd c -> q !! c = Some fs ->
  exists fs', q' !! c = Some fs' /\ fs ++ sent_to c l = given_to c l ++ fs'.
Proof.
  intros Hs Hne Hc.
  destruct Hs as [q d Hd|q d|q d f k Hd|q d f k Hd|l q Hl]; simpl.
  - exists fs. rewrite lookup_insert_ne by congruence. by rewrite app_nil_r.
  - exists fs. rewrite lookup_delete_ne by congruence. by rewrite app_nil_r.
  - destruct (decide (d = c)) as [->|].
    + exists (k ++ [f]). rewrite lookup_insert_eq. by simplify_eq.
    + exists fs. rewrite lookup_insert_ne by done. by rewrite app_nil_r.
  - destruct (decide (d = c)) as [->|].
    + exists k. rewrite lookup_insert_eq, app_nil_r. by simplify_eq.
    + exists fs. rewrite lookup_insert_ne by done. by rewrite app_nil_r.
  - exists fs. by destruct l; try done; rewrite app_nil_r.
Qed.

Lemma spec_run_fifo q tr q' c fs :
  spec_run q tr q' -> LEnd c ∉ tr -> q !! c = Some fs ->
  exists fs', q' !! c = Some fs' /\ fs ++ sent c tr = delivered c tr ++ fs'.
Proof.
  intros Hr. revert fs. induction Hr as [q|q q1 q2 l tr Hs Hr IH]; intros fs Hn Hc.
  - exists fs. by rewrite app_nil_r.
  - rewrite not_elem_of_cons in Hn. destruct Hn as [Hne Hn].
    destruct (spec_step_fifo _ _ _ _ _ Hs (not_eq_sym Hne) Hc) as (fs1 & Hc1 & E1).
    destruct (IH fs1 Hn Hc1) as (fs2 & Hc2 & E2). exists fs2. split; [done|].
    by rewrite sent_cons, delivered_cons, app_assoc, E1, <- !app_assoc, E2.
Qed.

Lemma queue_short s c r : inv s -> s_readers s !! c = Some r -> length (queue s r) <= 1.
Proof.
  intros Hi Hr. pose proof (ri_owing _ _ _ (inv_readers _ Hi _ _ Hr)) as Ho.
  unfold queue. rewrite length_replicate. unfold owing, undelivered in *.
  destruct (r_phase r); lia.
Qed.

(** ** Progress *)

Definition enabled (s : st) : Prop :=
  exists l s', internal l = true /\ timely l s /\ lstep l s s'.

Lemma writer_enabled s : inv s -> lock_free (s_writer s) = false -> enabled s.
Proof.
  intros Hi Hl. pose proof (inv_sem _ Hi) as Hs. pose proof (ci_due _ (inv_clients _ Hi)) as Hd.
  unfold sem_inv in Hs. unfold FD_SETSIZE in *.
  destruct (s_writer s) as [| |f|f|f [|c todo]|f n|f i|f] eqn:Hw; try done.
  - exists LFlag. eexists. split; [done|]. split; [done|]. by econstructor.
  - exists LResize. eexists. split; [done|]. split; [done|]. by econstructor.
  - exists LNotified. eexists. split; [done|]. split; [done|]. by econstructor.
  - destruct (s_readers s !! c) as [r|] eqn:Hr.
    + exists (LSend c f). eexists. split; [done|]. split; [done|]. by eapply step_send.
    + exists (LSendFail c). eexists. split; [done|]. split; [done|]. by eapply step_send_fail.
  - exists LCommit. destruct Hs as (Hn & Hs & Hp).
    destruct (0 <? n)%nat eqn:E; eexists; (split; [done|]); (split; [done|]);
      (eapply step_commit; [done|]); rewrite E; [|done].
    apply Nat.ltb_lt in E. rewrite Hs. apply run_commit; unfold SEMVMX; lia.
  - exists LCopy. destruct (f !! i) as [b|] eqn:Hb.
    + destruct (inv_seg _ Hi) as (m & Hm & _). eexists. split; [done|]. split; [done|].
      by eapply step_copy.
    + eexists. split; [done|]. split; [done|]. by eapply step_copied.
  - exists LRelease. eexists. split; [done|]. split; [done|]. eapply step_release; [done|].
    rewrite Hs, run_write_end by (unfold SEMVMX; lia).
    destruct (Z.ltb_spec 0 (1 + Z.of_nat (due s))); [done|lia].
Qed.

Lemma sem_lock_free s :
  inv s -> lock_free (s_writer s) = true -> s_sems s = [Z.of_nat (due s); 0%Z].
Proof.
  intros Hi Hl. pose proof (inv_sem _ Hi) as Hs. unfold sem_inv in Hs.
  by destruct (s_writer s).
Qed.

Lemma read_end_free s :
  inv s -> lock_free (s_writer s) = true -> 0 < due s ->
  run_ops read_end (s_sems s) = OpsDone [(Z.of_nat (due s) - 1)%Z; 0%Z].
Proof.
  intros Hi Hl Hd. rewrite (sem_lock_free s Hi Hl).
  pose proof (ci_due _ (inv_clients _ Hi)) as Hd'. unfold FD_SETSIZE in Hd'.
  rewrite run_read_end by (unfold SEMVMX; lia).
  destruct (Z.ltb_spec 0 (Z.of_nat (due s))); [done|lia].
Qed.

Lemma reader_enabled s c r :
  inv s -> lock_free (s_writer s) = true -> s_readers s !! c = Some r -> 0 < owing r ->
  enabled s.
Proof.
  intros Hi Hl Hr Ho. unfold owing in Ho. destruct (r_phase r) as [|size|size] eqn:Hp.
  - destruct (r_inbox r) as [|size rest] eqn:Hb; [simpl in Ho; lia|].
    exists (LRecv c). eexists. split; [done|]. split; [done|]. by eapply step_recv.
  - exists (LLock c (visible s r size)). eexists. split; [done|]. split; [done|].
    eapply step_lock; [done..|]. by rewrite (sem_lock_free s Hi Hl), run_read_start.
  - exists (LUnlock c). eexists. split; [done|]. split; [done|].
    eapply step_unlock; [done..|]. apply read_end_free; [done|done|].
    unfold due. pose proof (sum_le owing _ _ _ Hr). unfold owing in *. rewrite Hp in *. lia.
Qed.

(** The writer waits and no live reader owes anything. *)
Lemma acquire_enabled s f :
  inv s -> s_writer s = WAcquire f -> total (s_readers s) = 0 -> enabled s.
Proof.
  intros Hi Hw Ht. assert (Hl : lock_free (s_writer s) = true) by (by rewrite Hw).
  destruct (decide (due s = 0)) as [Hd|Hd].
  - exists LAcquire. eexists. split; [done|]. split; [done|]. eapply step_acquire; [done|].
    rewrite (sem_lock_free s Hi Hl), Hd. by rewrite run_write_start by (unfold SEMVMX; lia).
  - destruct (s_armed s) eqn:Ha;
      [|by destruct Hd; apply (ci_disarmed _ (inv_clients _ Hi) f)].
    destruct (resets s) as [|c rs] eqn:Hrs.
    + exists LTimeout. eexists. split; [done|]. split.
      * split; [done|]. split; [by exists f|]. intros c Hc Hn.
        apply (filter_nil_not_elem_of _ _ _ Hrs Hn Hc).
      * eapply step_timeout; [by left|done].
    + assert (Hc : c ∈ resets s) by (rewrite Hrs; left). apply list_elem_of_filter in Hc as [Hn Hc].
      exists (LCancel c). eexists. split; [done|]. split; [done|].
      eapply step_cancel; [unfold mutex_held; by rewrite Hw| |done|done|].
      * by apply (ci_reset _ (inv_clients _ Hi)).
      * apply read_end_free; [done|done|lia].
Qed.

Lemma enabled_or_quiescent s : inv s -> quiescent s \/ enabled s.
Proof.
  intros Hi. destruct (lock_free (s_writer s)) eqn:Hl; [|right; by apply writer_enabled].
  destruct (decide (total (s_readers s) = 0)) as [Ht|Ht].
  - destruct (s_writer s) as [|f| | | | | |] eqn:Hw; try done.
    + left. split; [done|]. intros c r. by apply owing_zero.
    + right. by apply (acquire_enabled s f).
  - right. destruct (sum_pos owing (s_readers s)) as (c & r & Hr & Ho); [lia|].
    by apply (reader_enabled s c r).
Qed.

(** ** Termination *)

Lemma work_reader s c r r' vs :
  s_readers s !! c = Some r -> rwork r' < rwork r ->
  work (with_sems vs (set_reader c r' s)) < work s.
Proof.
  intros Hr Hw. pose proof (sum_replace rwork _ c r r' Hr) as Ht.
  unfold work, wwork. simpl. lia.
Qed.

Lemma work_writer s s' :
  s_readers s' = s_readers s -> s_reset s' = s_reset s ->
  wwork s' + (if s_armed s' then 1 else 0) < wwork s + (if s_armed s then 1 else 0) ->
  work s' < work s.
Proof. unfold work. intros -> -> ?. lia. Qed.

Lemma work_send s f c r todo :
  s_writer s = WNotify f (c :: todo) -> s_readers s !! c = Some r ->
  work (with_writer (WNotify f todo) (deliver_update c (length f) r s)) < work s.
Proof.
  intros Hw Hr.
  set (r' := Reader (r_inbox r ++ [length f]) (r_cur_size r) (r_seg r) (r_phase r)).
  pose proof (sum_replace rwork _ c r r' Hr) as Ht.
  assert (rwork r' = 3 + rwork r) by (unfold rwork; simpl; rewrite length_app; simpl; lia).
  unfold work, wwork. rewrite Hw. simpl. fold r'. lia.
Qed.

Lemma work_cancel s c vs :
  c ∈ s_reset s -> work (with_lost (s_lost s - 1) (with_sems vs (drop_client c s))) < work s.
Proof.
  intros Hc. pose proof (without_length c (s_clients s)).
  pose proof (without_length_lt c (s_reset s) Hc).
  unfold work, wwork. simpl. destruct (s_writer s); lia.
Qed.

Lemma work_resize s f :
  s_writer s = WLocked f ->
  work (with_writer (WNotify f (s_clients s)) (clear_notified (resize f s))) < work s.
Proof.
  intros Hw. apply work_writer; unfold resize; case_bool_decide; try done;
    unfold wwork; simpl; rewrite Hw; lia.
Qed.

Lemma work_decreases l s s' : internal l = true -> lstep l s s' -> work s' < work s.
Proof.
  intros Hl Hs.
  destruct Hs as [|s f vs Hw|s f Hw|s f Hw Ha|s f Hw|s f c r todo Hw Hr|s f c todo Hw|s f Hw
    |s f n vs Hw|s f i b m Hw Hb|s f i Hw|s f vs Hw| | | |s c vs _ _ Hc| |s c r size rest Hr Hp Hb
    |s c r size vs Hr Hp|s c r size vs Hr Hp]; try done;
    try (apply work_writer; [done|done|]; unfold wwork; simpl; rewrite Hw; simpl; lia).
  - apply work_writer; [done|done|]. unfold wwork. simpl. rewrite Ha. lia.
  - by apply work_resize.
  - by apply work_send.
  - apply work_writer; [done|done|]. unfold wwork. simpl. rewrite Hw.
    apply lookup_lt_Some in Hb. lia.
  - by apply work_cancel.
  - apply (work_reader s c r _ (s_sems s)); [done|]. unfold rwork. simpl. rewrite Hp, Hb.
    simpl. lia.
  - apply (work_reader s c r); [done|]. unfold rwork. simpl. rewrite Hp. lia.
  - apply (work_reader s c r); [done|]. unfold rwork. simpl. rewrite Hp. lia.
Qed.

(** [n] internal steps. *)
Lemma nsteps_work n s s' : nsteps internal_step n s s' -> n + work s' <= work s.
Proof.
  intros H. induction H as [|n s1 s2 s3 (l & Hl & _ & Hs) _ IH]; [lia|].
  pose proof (work_decreases _ _ _ Hl Hs). lia.
Qed.

Lemma inv_internal s s' : inv s -> internal_step s s' -> inv s'.
Proof. intros Hi (l & _ & Ht & Hs). by apply (inv_step l s). Qed.

Lemma reaches_quiescent s : inv s -> exists s', rtc internal_step s s' /\ quiescent s'.
Proof.
  intros Hi. remember (work s) as n eqn:Hn. revert s Hi Hn.
  induction n as [n IH] using lt_wf_ind. intros s Hi Hn.
  destruct (enabled_or_quiescent s Hi) as [Hq|(l & s1 & Hl & Ht & Hs)]; [by exists s|].
  assert (Hstep : internal_step s s1) by (by exists l).
  destruct (IH (work s1)) with (s := s1) as (s2 & H1 & H2).
  - rewrite Hn. by apply (work_decreases l).
  - by apply (inv_internal s).
  - done.
  - exists s2. split; [|done]. by apply rtc_l with s1.
Qed.
