(* ===== verification/ShmTheorems.v ===== *)
(** * Theorems about the shared-memory protocol

    The properties of [copy_to_shm] and of the readers in every reachable
    state, with concrete executions, and the two executions in which the
    time-out of [WriteLock] defeats the lock.  Reachable by [step] means that
    the time-out fires only while the writer waits for dead readers
    ([timely]); readers may die at any point.  [any_step] has no such
    restriction. *)

From S2P Require Import Prelude Posix SysVSem ShmProtocol ShmInvariant ShmRefinement.

(** ** Concrete executions *)

(** A writer that creates a segment of [size] bytes. *)
Definition start (size : nat) : st :=
  St [0%Z; 0%Z] WIdle false size {[0 := replicate size Ascii.zero]} 0 [] [] [] ∅ 0 [].

(** [copy_to_shm f] with clients [cs], all alive, without time-out, up to the
    copy of [f]. *)
Definition publish (cs : list nat) (f : frame) : list label :=
  [LCall f; LAcquire; LFlag; LResize] ++ ((fun c => LSend c f) <$> cs) ++
  [LNotified; LCommit] ++ replicate (S (length f)) LCopy ++ [LRelease].

(** A reader connects, is published a frame and receives the message. *)
Definition demo_labels : list label :=
  [LConnect 7; LJoin 7] ++ publish [7] ($"frame") ++ [LRecv 7].
Definition demo : st := default (start 2) (execs demo_labels (start 2)).
Definition demo_reading : st := default (start 2) (exec (LLock 7 ($"frame")) demo).
(** The writer waits for that reader. *)
Definition demo_busy : st := default (start 2) (exec (LCall ($"x")) demo).

Lemma start_initial size : initial (start size).
Proof. by exists size. Qed.

Lemma execs_any_reachable ls s s' :
  execs ls s = Some s' -> reachable initial any_step s -> reachable initial any_step s'.
Proof.
  revert s. induction ls as [|l ls IH]; intros s; simpl; [by intros [= ->]|].
  destruct (exec l s) as [s1|] eqn:E; simpl; [|done]. intros H Hr. apply (IH s1 H).
  apply (reach_step _ _ s); [done|]. exists l. by apply exec_sound.
Qed.

Definition not_timeout (l : label) : bool := match l with LTimeout => false | _ => true end.

Lemma not_timeout_timely l s : not_timeout l = true -> timely l s.
Proof. by destruct l. Qed.

Lemma execs_reachable ls s s' :
  forallb not_timeout ls = true -> execs ls s = Some s' ->
  reachable initial step s -> reachable initial step s'.
Proof.
  revert s. induction ls as [|l ls IH]; intros s; simpl; [by intros _ [= ->]|].
  intros [Hl Hls]%andb_true_iff. destruct (exec l s) as [s1|] eqn:E; simpl; [|done].
  intros H Hr. apply (IH s1 Hls H). apply (reach_step _ _ s); [done|].
  exists l. split; [by apply not_timeout_timely|by apply exec_sound].
Qed.

Lemma execs_run ls s s' :
  forallb not_timeout ls = true -> execs ls s = Some s' -> run s ls s'.
Proof.
  revert s. induction ls as [|l ls IH]; intros s; simpl; [by intros _ [= ->]; constructor|].
  intros [Hl Hls]%andb_true_iff. destruct (exec l s) as [s1|] eqn:E; simpl; [|done].
  intros H. apply run_cons with s1; [by apply not_timeout_timely|by apply exec_sound|auto].
Qed.

Lemma start_reachable size : reachable initial step (start size).
Proof. apply reach_init, start_initial. Qed.
Lemma start_any_reachable size : reachable initial any_step (start size).
Proof. apply reach_init, start_initial. Qed.

Lemma demo_reachable : reachable initial step demo.
Proof.
  apply (execs_reachable demo_labels (start 2)); [done| |apply start_reachable].
  by vm_compute.
Qed.

(** ** Properties *)

(** C3: exactly-once delivery in order.  Along any execution in which a
    connected reader stays alive, the frames still queued for it followed by
    the frames announced to it are, byte for byte, the frames its data
    callback gets followed by those queued at the end, of which there is at
    most one: no frame is lost, repeated, reordered or torn, through resizes
    and whatever other readers die.
    The time-out fires on dead readers only. *)
Theorem exactly_once s tr s' c r :
  reachable initial step s -> run s tr s' -> LEnd c ∉ tr -> s_readers s !! c = Some r ->
  exists r', s_readers s' !! c = Some r' /\
    queue s r ++ sent c tr = delivered c tr ++ queue s' r' /\ length (queue s' r') <= 1.
Proof.
  intros Hs Hr Hn Hc. apply inv_reachable in Hs.
  pose proof (run_refines _ _ _ Hs Hr) as Hspec.
  destruct (spec_run_fifo _ _ _ c (queue s r) Hspec Hn) as (fs & Hfs & E);
    [by rewrite queues_lookup, Hc|].
  rewrite queues_lookup in Hfs. destruct (s_readers s' !! c) as [r'|] eqn:Hr'; [|done].
  injection Hfs as <-. exists r'. split; [done|]. split; [done|].
  apply (queue_short s' c); [|done]. by apply (run_inv s tr).
Qed.

Lemma exactly_once_witness : exists s c r, reachable initial step s /\
  s_readers s !! c = Some r /\ queue s r = [$"frame"] /\
  exists r', queue s r ++ sent c [LLock c ($"frame")] =
    delivered c [LLock c ($"frame")] ++ queue demo_reading r' /\ length (queue demo_reading r') <= 1.
Proof.
  exists demo, 7, (Reader [] 5 1 (RWaitLock 5)). split; [apply demo_reachable|].
  split; [by vm_compute|]. split; [by vm_compute|].
  destruct (exactly_once demo [LLock 7 ($"frame")] demo_reading 7 (Reader [] 5 1 (RWaitLock 5)))
    as (r' & _ & E & Hl).
  - apply demo_reachable.
  - apply execs_run; [done|by vm_compute].
  - rewrite list_elem_of_singleton. discriminate.
  - by vm_compute.
  - exists r'. exact (conj E Hl).
Defined.

(** C4: mutual exclusion and integrity.  While a reader's data callback runs,
    the writer does not hold the lock and the bytes visible to the callback
    are exactly the last frame written.
    The time-out fires on dead readers only. *)
Theorem callback_sees_frame s c r size :
  reachable initial step s -> s_readers s !! c = Some r -> r_phase r = RReading size ->
  lock_free (s_writer s) = true /\ visible s r size = s_last s /\ size = length (s_last s).
Proof.
  intros Hs Hr Hp. apply inv_reachable in Hs.
  pose proof (writer_excludes _ _ _ _ Hs Hr Hp) as Hl. split; [done|].
  by apply (visible_last s c); auto.
Qed.

Lemma callback_sees_frame_witness : exists s c r, reachable initial step s /\
  s_readers s !! c = Some r /\ r_phase r = RReading 5 /\ visible s r 5 = s_last s.
Proof.
  exists demo_reading, 7, (Reader [] 5 1 (RReading 5)).
  assert (Hr : reachable initial step demo_reading).
  { apply (execs_reachable [LLock 7 ($"frame")] demo); [done| |apply demo_reachable].
    by vm_compute. }
  split; [done|]. split; [by vm_compute|]. split; [done|].
  apply (callback_sees_frame demo_reading 7 (Reader [] 5 1 (RReading 5)) 5);
    [done|by vm_compute|done].
Defined.

(** C11: the protocol refines its specification, one queue of frames per
    reader: a connection creates the queue, a notification appends the frame
    being written, a callback takes the oldest, every other step changes
    nothing.
    The time-out fires on dead readers only. *)
Theorem protocol_refines l s s' :
  reachable initial step s -> lstep l s s' -> spec_step l (queues s) (queues s').
Proof. intros Hs. apply step_refines. by apply inv_reachable. Qed.

Lemma protocol_refines_witness :
  lstep (LLock 7 ($"frame")) demo demo_reading /\
  spec_step (LLock 7 ($"frame")) (queues demo) (queues demo_reading).
Proof.
  assert (Hl : lstep (LLock 7 ($"frame")) demo demo_reading)
    by (apply exec_sound; by vm_compute).
  split; [done|]. by apply protocol_refines; [apply demo_reachable|].
Defined.

(** C10: no deadlock.  Whatever readers have died and wherever, if the call of
    the writer has not returned or a reader has a frame to read, some thread
    can take a step by itself (the time-out and the recovery of a reset count
    as such).
    The time-out fires on dead readers only. *)
Theorem no_deadlock s :
  reachable initial step s ->
  quiescent s \/ exists l s', internal l = true /\ timely l s /\ lstep l s s'.
Proof. intros Hs. apply enabled_or_quiescent. by apply inv_reachable. Qed.

Lemma demo_busy_reachable : reachable initial step demo_busy.
Proof.
  apply (execs_reachable [LCall ($"x")] demo); [done| |apply demo_reachable].
  by vm_compute.
Qed.

Lemma no_deadlock_witness : reachable initial step demo_busy /\ ~ quiescent demo_busy /\
  exists l s', internal l = true /\ timely l demo_busy /\ lstep l demo_busy s'.
Proof.
  split; [apply demo_busy_reachable|].
  assert (Hq : ~ quiescent demo_busy) by (intros [H _]; vm_compute in H; discriminate).
  split; [done|]. destruct (no_deadlock demo_busy) as [H|H]; [apply demo_busy_reachable|done|done].
Defined.

(** C6: termination.  From every reachable state at most [work s] internal
    steps are possible, and however they are chosen they can be continued to
    a state in which [copy_to_shm] has returned and every reader has read.
    The time-out fires on dead readers only. *)
Theorem write_completes s :
  reachable initial step s ->
  (forall n s', nsteps internal_step n s s' -> n <= work s) /\
  forall s', rtc internal_step s s' -> exists s'', rtc internal_step s' s'' /\ quiescent s''.
Proof.
  intros Hs%inv_reachable. split.
  - intros n s' Hn. pose proof (nsteps_work _ _ _ Hn). lia.
  - intros s' Hr. apply reaches_quiescent. induction Hr; eauto using inv_internal.
Qed.

Lemma write_completes_witness : reachable initial step demo_busy /\ work demo_busy = 18 /\
  exists s'', rtc internal_step demo_busy s'' /\ quiescent s''.
Proof.
  split; [apply demo_busy_reachable|]. split; [by vm_compute|].
  apply (proj2 (write_completes demo_busy demo_busy_reachable) demo_busy). constructor.
Defined.

(** C26: meaning and bounds of the semaphores.  Without writer the first is
    the number of reads still owed, dead readers included, and the second is
    0; with a writer the second is 1.  Both always lie between 0 and
    FD_SETSIZE + 1, so no [semop] fails with ERANGE, and the number of readers
    that is committed fits a [short].
    The time-out fires on dead readers only. *)
Theorem semaphores_count s :
  reachable initial step s ->
  (lock_free (s_writer s) = true -> s_sems s = [Z.of_nat (due s); 0%Z]) /\
  (lock_free (s_writer s) = false -> exists a, s_sems s = [a; 1%Z]) /\
  Forall (fun v => 0 <= v <= Z.of_nat FD_SETSIZE + 1)%Z (s_sems s) /\
  (forall f n, s_writer s = WCommit f n -> to_short (Z.of_nat n) = Z.of_nat n).
Proof.
  intros Hi%inv_reachable. pose proof (inv_sem _ Hi) as Hs.
  pose proof (ci_due _ (inv_clients _ Hi)) as Hd. unfold sem_inv in Hs.
  split; [by apply sem_lock_free|]. split.
  { intros Hl. destruct (s_writer s); try done; destruct_and?; by eexists. }
  unfold FD_SETSIZE in *. split.
  - destruct (s_writer s); destruct_and?;
      match goal with H : s_sems s = _ |- _ => rewrite H end;
      repeat constructor; lia.
  - intros f n Hw. rewrite Hw in Hs. destruct Hs as (Hn & _ & _).
    apply to_short_small. lia.
Qed.

Lemma semaphores_count_witness :
  reachable initial step demo_busy /\ s_sems demo_busy = [Z.of_nat (due demo_busy); 0%Z] /\
  due demo_busy = 1.
Proof.
  split; [apply demo_busy_reachable|]. split; [|by vm_compute].
  apply (proj1 (semaphores_count demo_busy demo_busy_reachable)). by vm_compute.
Defined.

(** ** The time-out of WriteLock *)

(** Reader 7 is still in its callback for AAAA when the time-out of the second
    call fires; it ends its callback while BBBB is copied.  The third call
    waits for nobody: it writes while the reader, in no hurry this time,
    reads. *)
Definition slow_labels : list label :=
  [LConnect 7; LJoin 7] ++ publish [7] ($"AAAA") ++
  [LRecv 7; LLock 7 ($"AAAA"); LCall ($"BBBB"); LTimeout; LAcquire; LFlag; LResize;
   LSend 7 ($"BBBB"); LNotified; LCommit; LCopy; LCopy; LUnlock 7; LCopy; LCopy; LCopy;
   LRelease; LRecv 7; LLock 7 ($"BBBB")].
(** The third call up to the middle of its copy. *)
Definition third_labels : list label :=
  [LCall ($"CCCC"); LAcquire; LFlag; LResize; LSend 7 ($"CCCC"); LNotified; LCommit;
   LCopy; LCopy].

Definition slow : st := default (start 4) (execs slow_labels (start 4)).
Definition torn : st := default (start 4) (execs third_labels slow).

(** C34: the time-out does not tell a slow reader from a dead one.  After one
    time-out that fires while a live reader is in its callback, a later call
    acquires the lock at once although a reader is in its callback, and that
    callback sees bytes of two frames. *)
Theorem slow_reader_sees_torn_frame : exists s s' r,
  reachable initial any_step s /\ run s third_labels s' /\
  s_readers s' !! 7 = Some r /\ r_phase r = RReading 4 /\
  s_writer s' = WCopy ($"CCCC") 2 /\ visible s' r 4 = $"CCBB".
Proof.
  exists slow, torn, (Reader [4] 4 0 (RReading 4)). split.
  { apply (execs_any_reachable slow_labels (start 4)); [by vm_compute|].
    apply start_any_reachable. }
  split; [apply execs_run; [done|by vm_compute]|].
  split; [by vm_compute|]. split; [done|]. split; by vm_compute.
Qed.

(** The time-out thread of a call without clients loses the race: it fires
    after [semop] has returned and before the flag is set. *)
Definition race_labels : list label :=
  [LCall ($"A"); LAcquire; LTimeout; LFlag; LResize; LNotified; LCommit; LCopy; LCopy].
Definition stuck : st := default (start 1) (execs race_labels (start 1)).

Lemma stuck_stays s s' :
  any_step s s' -> s_writer s = WRelease ($"A") /\ s_sems s = [0%Z; 1%Z] ->
  s_writer s' = WRelease ($"A") /\ s_sems s' = [0%Z; 1%Z].
Proof.
  intros [l Hs] [Hw Hv].
  assert (Hops : run_ops read_start [0%Z; 1%Z] = OpsSleep /\
    run_ops read_end [0%Z; 1%Z] = OpsSleep /\ run_ops write_end [0%Z; 1%Z] = OpsSleep) by done.
  destruct Hops as (H1 & H2 & H3).
  destruct Hs as [|? ? ? Hw'|? ? Hw'|? ? Hw' ?|? ? Hw'|? ? ? ? ? Hw'|? ? ? ? Hw'|? ? Hw'
    |? ? ? ? Hw'|? ? ? ? ? Hw'|? ? ? Hw'|? ? ? Hw' Ho| | | |? ? ? _ _ _ _ Ho| |
    |? ? ? ? ? ? ? Ho|? ? ? ? ? ? ? Ho];
    try (by split); try congruence;
    try (rewrite Hv in Ho; congruence).
  destruct Hw'; congruence.
Qed.

(** C35: if the time-out fires between the return of [semop] and the setting
    of the flag and no reader has been notified, [~WriteLock] sleeps for ever,
    whatever the other processes do. *)
Theorem timeout_race_blocks_writer : exists s,
  reachable initial any_step s /\
  forall s', rtc any_step s s' -> s_writer s' = WRelease ($"A").
Proof.
  exists stuck. split.
  { apply (execs_any_reachable race_labels (start 1)); [by vm_compute|].
    apply start_any_reachable. }
  intros s' Hr. enough (s_writer s' = WRelease ($"A") /\ s_sems s' = [0%Z; 1%Z]) by tauto.
  assert (H0 : s_writer stuck = WRelease ($"A") /\ s_sems stuck = [0%Z; 1%Z])
    by (split; by vm_compute).
  revert H0. induction Hr; eauto using stuck_stays.
Qed.
