(* ===== verification/PublishRun.v ===== *)
(** * A publication as a run of the protocol

    The labels of one call of [copy_to_shm] that nothing interleaves, and the
    state of [ShmProtocol.v] after them: the part of the simulation of
    [ShmSimulation.v] that does not mention the code. *)

From S2P Require Import Prelude Posix SysVSem ShmProtocol ShmInvariant ShmRefinement ShmTheorems.

(** ** The labels *)

(** The labels of [copy_to_shm f]: the time-out fires when reads are owed, a
    message is sent to each client that is alive. *)
Definition send_label (alive : nat -> bool) (f : frame) (c : nat) : label :=
  if alive c then LSend c f else LSendFail c.
Definition is_alive (s : st) (c : nat) : bool := bool_decide (is_Some (s_readers s !! c)).
Definition publish_labels (s : st) (f : frame) : list label :=
  LCall f :: (if bool_decide (s_sems s = [0%Z; 0%Z]) then [] else [LTimeout]) ++
  [LAcquire; LFlag; LResize] ++ (send_label (is_alive s) f <$> s_clients s) ++
  [LNotified; LCommit] ++ replicate (S (length f)) LCopy ++ [LRelease].

(** No live reader owes a read, and the server has none to cancel. *)
Definition settled (s : st) : Prop :=
  total (s_readers s) = 0 /\ forall c, c ∈ s_reset s -> c ∉ s_notified s.

Definition push (size : nat) (r : reader) : reader :=
  Reader (r_inbox r ++ [size]) (r_cur_size r) (r_seg r) (r_phase r).
Definition push_all (size : nat) (cs : list nat) (rs : gmap nat reader) : gmap nat reader :=
  foldl (fun m c => alter (push size) c m) rs cs.

(** The state after it. *)
Record after_publish (f : frame) (s s' : st) (m : cstr) : Prop := {
  ap_writer : s_writer s' = WIdle;
  ap_sems : s_sems s' = [Z.of_nat (length (s_notified s')); 0%Z];
  ap_size : s_shm_size s' = s_shm_size s `max` length f;
  ap_cur : s_cur s' = if bool_decide (s_shm_size s < length f) then S (s_cur s) else s_cur s;
  ap_seg : s_segs s' !! s_cur s' = Some (f ++ drop (length f) m);
  ap_clients : s_clients s' = s_clients s;
  ap_notified : s_notified s' = filter (fun c => is_Some (s_readers s !! c)) (s_clients s);
  ap_reset : s_reset s' = s_reset s;
  ap_readers : s_readers s' = push_all (length f) (s_clients s) (s_readers s) }.

Lemma push_all_lookup size cs rs c :
  NoDup cs ->
  push_all size cs rs !! c = if decide (c ∈ cs) then push size <$> rs !! c else rs !! c.
Proof.
  unfold push_all. revert rs. induction cs as [|d cs IH]; intros rs Hnd.
  - by rewrite decide_False by apply not_elem_of_nil.
  - apply NoDup_cons in Hnd as [Hd Hnd]. simpl. rewrite IH by done.
    destruct (decide (c = d)) as [->|Hne].
    + rewrite decide_False by done. rewrite decide_True by left. apply lookup_alter_eq.
    + rewrite lookup_alter_ne by done. apply decide_ext. rewrite elem_of_cons. tauto.
Qed.

Section publication.
Implicit Types (s : st) (f : frame) (m : cstr).

Lemma execs_sends alive f todo s :
  s_writer s = WNotify f todo ->
  (forall c, alive c = is_alive s c) ->
  execs (send_label alive f <$> todo) s =
    Some (with_writer (WNotify f []) (with_clients (s_clients s)
      (s_notified s ++ filter (fun c => alive c = true) todo) (s_reset s)
      (with_readers (push_all (length f) todo (s_readers s)) s))).
Proof.
  revert s. induction todo as [|c todo IH]; intros s Hw Hal.
  - destruct s. simpl in *. subst. cbn. by rewrite app_nil_r.
  - rewrite filter_cons. cbn [fmap list_fmap execs].
    change (send_label alive f c) with (if alive c then LSend c f else LSendFail c).
    destruct (alive c) eqn:Hc; pose proof Hc as Hc'; rewrite Hal in Hc'; unfold is_alive in Hc'.
    + apply bool_decide_eq_true in Hc' as [r Hr].
      rewrite (exec_complete _ _ _ (step_send s f c r todo Hw Hr)). cbn [mbind option_bind].
      rewrite IH; [|by destruct s|].
      * rewrite decide_True by done.
        assert (HR : push_all (length f) (c :: todo) (s_readers s) =
          push_all (length f) todo (<[c := push (length f) r]> (s_readers s))).
        { unfold push_all. simpl. f_equal. apply map_eq. intros d.
          destruct (decide (d = c)) as [->|Hne];
            [by rewrite lookup_insert_eq, lookup_alter_eq, Hr|
             by rewrite lookup_insert_ne, lookup_alter_ne]. }
        rewrite HR. destruct s; simpl in *. by rewrite <- app_assoc.
      * intros d. rewrite Hal. unfold is_alive. destruct s; simpl in *. apply bool_decide_ext.
        destruct (decide (d = c)) as [->|Hne]; [|by rewrite lookup_insert_ne].
        rewrite lookup_insert_eq, Hr. split; intros _; by eexists.
    + apply bool_decide_eq_false, eq_None_not_Some in Hc'.
      rewrite (exec_complete _ _ _ (step_send_fail s f c todo Hw Hc')). cbn [mbind option_bind].
      rewrite IH; [|by destruct s|intros d; rewrite Hal; by destruct s].
      rewrite decide_False by done.
      assert (HR : push_all (length f) (c :: todo) (s_readers s) =
        push_all (length f) todo (s_readers s)).
      { unfold push_all. simpl. f_equal. apply map_eq. intros d.
        destruct (decide (d = c)) as [->|Hne];
          [by rewrite lookup_alter_eq, Hc'|by rewrite lookup_alter_ne]. }
      rewrite HR. by destruct s.
Qed.

Lemma copied_bytes f m i b :
  f !! i = Some b -> i < length m ->
  <[i := b]> (take i f ++ drop i m) = take (S i) f ++ drop (S i) m.
Proof.
  intros Hb Hi. pose proof (lookup_lt_Some _ _ _ Hb) as Hl.
  rewrite insert_app_r_alt by (rewrite length_take; lia).
  rewrite length_take, Nat.min_l, Nat.sub_diag by lia.
  destruct (drop i m) as [|x l] eqn:E.
  - apply (f_equal length) in E. rewrite length_drop in E. simpl in E. lia.
  - cbn. rewrite (take_S_r _ _ _ Hb), <- app_assoc. simpl. f_equal. f_equal.
    replace (S i) with (i + 1) by lia. rewrite <- drop_drop, E. done.
Qed.

Lemma execs_copies f m n i s :
  n + i = length f -> length f <= length m -> s_writer s = WCopy f i ->
  s_segs s !! s_cur s = Some (take i f ++ drop i m) ->
  execs (replicate (S n) LCopy) s =
    Some (with_writer (WRelease f) (with_shm (s_shm_size s)
      (<[s_cur s := f ++ drop (length f) m]> (s_segs s)) (s_cur s) s)).
Proof.
  revert i s. induction n as [|n IH]; intros i s Hn Hl Hw Hm.
  - assert (Hi : f !! i = None) by (apply lookup_ge_None; lia).
    cbn [replicate execs]. rewrite (exec_complete _ _ _ (step_copied s f i Hw Hi)).
    cbn [mbind option_bind]. f_equal. rewrite (take_ge f) in Hm by lia.
    replace i with (length f) in * by lia. destruct s; simpl in *.
    unfold with_writer, with_shm. simpl. by rewrite insert_id.
  - destruct (lookup_lt_is_Some_2 f i) as [b Hb]; [lia|].
    change (replicate (S (S n)) LCopy) with (LCopy :: replicate (S n) LCopy).
    cbn [execs]. rewrite (exec_complete _ _ _ (step_copy s f i b _ Hw Hb Hm)).
    cbn [mbind option_bind]. rewrite copied_bytes by (done || lia).
    rewrite (IH (S i)); [|lia|done|by destruct s|].
    + destruct s; unfold with_writer, with_shm; simpl in *. by rewrite insert_insert_eq.
    + destruct s; simpl in *. by rewrite lookup_insert_eq.
Qed.

(** From the lock to the commit, and from the commit to the end. *)
Definition notify_labels (s : st) (f : frame) : list label :=
  [LAcquire; LFlag; LResize] ++ (send_label (is_alive s) f <$> s_clients s) ++ [LNotified].
Definition copy_labels (f : frame) : list label :=
  LCommit :: replicate (S (length f)) LCopy ++ [LRelease].

Definition resized (f : frame) s : st := clear_notified (resize f s).
Definition notified (s : st) : list nat := filter (fun c => is_Some (s_readers s !! c)) (s_clients s).

Lemma execs_notify s f :
  s_writer s = WAcquire f -> s_sems s = [0%Z; 0%Z] ->
  execs (notify_labels s f) s = Some
    (with_last f (with_sems [1%Z; 1%Z] (with_armed false
      (with_writer (WCommit f (length (notified s)))
        (with_clients (s_clients s) (notified s) (s_reset s)
          (with_readers (push_all (length f) (s_clients s) (s_readers s)) (resized f s))))))).
Proof.
  intros Hw Hv. unfold notify_labels. cbn [app execs].
  assert (Ho : run_ops write_start (s_sems s) = OpsDone [1%Z; 1%Z]) by (by rewrite Hv).
  rewrite (exec_complete _ _ _ (step_acquire s f _ Hw Ho)). cbn [mbind option_bind].
  set (s1 := with_last _ _). rewrite (exec_complete _ _ _ (step_flag s1 f eq_refl)).
  cbn [mbind option_bind]. set (s2 := with_armed _ _).
  rewrite (exec_complete _ _ _ (step_resize s2 f eq_refl)). cbn [mbind option_bind].
  rewrite execs_app. set (s3 := with_writer _ _).
  assert (H3 : s_writer s3 = WNotify f (s_clients s) /\ s_readers s3 = s_readers s).
  { unfold s3, s2, s1, resize. by case_bool_decide. }
  rewrite (execs_sends (is_alive s) f (s_clients s) s3); [|by apply H3|].
  2: { intros c. unfold is_alive. by rewrite (proj2 H3). }
  cbn [mbind option_bind execs]. set (s4 := with_writer _ _).
  rewrite (exec_complete _ _ _ (step_notified s4 f eq_refl)). cbn [mbind option_bind].
  f_equal. unfold s4, s3, s2, s1, resized, resize. destruct s as [v w ar sz sg cu cl nt rs rd lo la].
  simpl in *. rewrite (filter_ext_in (fun c => is_alive _ c = true) (fun c => is_Some (rd !! c))).
  - unfold notified. simpl. by case_bool_decide.
  - intros c _. unfold is_alive. simpl. by rewrite bool_decide_eq_true.
Qed.

Lemma execs_copy s f n m :
  s_writer s = WCommit f n -> s_sems s = [1%Z; 1%Z] -> (Z.of_nat n < SEMVMX)%Z ->
  s_segs s !! s_cur s = Some m -> length f <= length m ->
  execs (copy_labels f) s = Some (with_sems [Z.of_nat n; 0%Z] (with_writer WIdle
    (with_shm (s_shm_size s) (<[s_cur s := f ++ drop (length f) m]> (s_segs s)) (s_cur s) s))).
Proof.
  intros Hw Hv Hn Hm Hl. unfold copy_labels. cbn [execs].
  assert (Ho : if (0 <? n)%nat
    then run_ops (read_commit_reader (Z.of_nat n)) (s_sems s) = OpsDone [(1 + Z.of_nat n)%Z; 1%Z]
    else [(1 + Z.of_nat n)%Z; 1%Z] = s_sems s).
  { rewrite Hv. destruct (Nat.ltb_spec 0 n); [by apply run_commit; lia|].
    by replace n with 0 by lia. }
  rewrite (exec_complete _ _ _ (step_commit s f n _ Hw Ho)). cbn [mbind option_bind].
  rewrite execs_app. rewrite (execs_copies f m (length f) 0); [|lia|done|by destruct s|by destruct s].
  cbn [mbind option_bind execs]. set (s1 := with_writer _ _).
  assert (He : run_ops write_end (s_sems s1) = OpsDone [Z.of_nat n; 0%Z]).
  { change (s_sems s1) with [(1 + Z.of_nat n)%Z; 1%Z].
    rewrite run_write_end by (unfold SEMVMX in *; lia).
    destruct (Z.ltb_spec 0 (1 + Z.of_nat n)); [|lia]. cbn [andb Z.ltb Z.compare].
    by replace (1 + Z.of_nat n - 1)%Z with (Z.of_nat n) by lia. }
  rewrite (exec_complete _ _ _ (step_release s1 f _ eq_refl He)). by destruct s.
Qed.

Lemma notify_calm s f : forallb not_timeout (notify_labels s f) = true.
Proof.
  unfold notify_labels. rewrite !forallb_app. simpl. rewrite andb_true_r.
  apply forallb_forall. intros l Hl. apply list_elem_of_In, list_elem_of_fmap in Hl as (c & -> & _).
  unfold send_label. by destruct (is_alive s c).
Qed.

Lemma copy_calm f : forallb not_timeout (copy_labels f) = true.
Proof.
  unfold copy_labels. cbn [forallb not_timeout andb]. rewrite forallb_app, andb_true_r.
  apply forallb_forall. intros l Hl. apply list_elem_of_In, elem_of_replicate in Hl as [-> _]. done.
Qed.

Lemma steps_app s tr s' tr' s'' : run s tr s' -> run s' tr' s'' -> run s (tr ++ tr') s''.
Proof. intros H1 H2. induction H1; [done|]. simpl. eapply run_cons; eauto. Qed.

(** What the segment held before the copy of [f]. *)
Definition base_bytes f s m : cstr :=
  if bool_decide (s_shm_size s < length f) then replicate (length f) Ascii.zero else m.

(** The publication of [f] from a state in which the writer is idle. *)
Lemma publish_runs s f a m :
  s_writer s = WIdle -> s_sems s = [Z.of_nat a; 0%Z] -> a = 0 \/ settled s ->
  NoDup (s_clients s) -> (Z.of_nat (length (s_clients s)) < SEMVMX)%Z ->
  s_segs s !! s_cur s = Some m -> length m = s_shm_size s ->
  exists s', run s (publish_labels s f) s' /\ after_publish f s s' (base_bytes f s m).
Proof.
  intros Hw Hv Hset Hnd Hlen Hm Hsz. unfold publish_labels.
  set (s1 := with_armed true (with_writer (WAcquire f) s)).
  assert (Ht : exists b l, run s1
    (if bool_decide (s_sems s = [0%Z; 0%Z]) then [] else [LTimeout])
    (with_lost l (with_armed b (with_sems [0%Z; 0%Z] s1)))).
  { case_bool_decide as Ha.
    - exists true, (s_lost s). rewrite <- Ha. destruct s. apply run_nil.
    - destruct Hset as [->|[Hs1 Hs2]]; [done|]. exists false, 0.
      eapply run_cons; [split; [exact Hs1|split; [by exists f|exact Hs2]]| |constructor].
      replace (with_lost _ _) with
        (with_lost 0 (with_armed false (with_sems (<[0 := 0%Z]> (s_sems s1)) s1)))
        by (unfold s1; simpl; by rewrite Hv).
      by apply (step_timeout s1 f); [left|]. }
  destruct Ht as (b & l & Hrun). set (s2 := with_lost _ _) in Hrun.
  pose proof (execs_notify s2 f eq_refl eq_refl) as Hnot. set (s3 := with_last _ _) in Hnot.
  set (m' := base_bytes f s m).
  assert (Hseg3 : s_segs s3 !! s_cur s3 = Some m').
  { unfold s3, m', base_bytes, resized, resize. simpl.
    destruct (bool_decide (_ < _)); simpl; [|done]. by rewrite lookup_insert_eq. }
  assert (Hn : length (notified s2) <= length (s_clients s)) by apply length_filter.
  assert (Hl : length f <= length m').
  { unfold m', base_bytes. clear Hrun. case_bool_decide; [by rewrite length_replicate|lia]. }
  pose proof (execs_copy s3 f (length (notified s2)) m' eq_refl eq_refl ltac:(lia) Hseg3 Hl) as Hcopy.
  eexists. split.
  - eapply run_cons; [done|by apply step_call|]. eapply steps_app; [exact Hrun|].
    rewrite (app_assoc _ [LNotified; LCommit]), (app_assoc _ (_ ++ _)).
    replace (_ ++ _) with (notify_labels s2 f ++ copy_labels f)
      by (unfold notify_labels, copy_labels; by rewrite <- !app_assoc).
    eapply steps_app; eapply execs_run; [apply notify_calm|exact Hnot|apply copy_calm|exact Hcopy].
  - unfold s3, s2, s1, resized, resize, m', base_bytes. clear Hrun Hnot Hcopy.
    split; simpl; try done; destruct (bool_decide (_ < _)) eqn:Hb; simpl; try done;
      try (apply bool_decide_eq_true in Hb; lia); try (apply bool_decide_eq_false in Hb; lia);
      by rewrite ?lookup_insert_eq.
Qed.

(** *** A whole read *)

Definition receive_labels (c : nat) (data : frame) : list label := [LRecv c; LLock c data; LUnlock c].

(** The reader after an update of size [n] and the read. *)
Definition has_read s r (n : nat) (rest : list nat) : reader :=
  set_phase (recv_update s r n rest) RIdle.

Lemma receive_runs s c r n rest m d :
  s_readers s !! c = Some r -> r_phase r = RIdle -> r_inbox r = n :: rest ->
  s_sems s = [Z.of_nat (S d); 0%Z] -> (Z.of_nat (S d) <= SEMVMX)%Z ->
  s_segs s !! s_cur s = Some m -> (n = r_cur_size r -> r_seg r = s_cur s \/ n = 0) ->
  run s (receive_labels c (take n m))
    (with_sems [Z.of_nat d; 0%Z] (set_reader c (has_read s r n rest) s)).
Proof.
  intros Hr Hp Hin Hv Hd Hm Hfresh. unfold receive_labels.
  set (r1 := recv_update s r n rest). set (s1 := set_reader c r1 s).
  assert (Hvis : take n m = visible s1 r1 n).
  { unfold visible, r1, recv_update, s1. simpl. case_bool_decide as Hn.
    - by rewrite Hm.
    - destruct (Hfresh Hn) as [->| ->]; [by rewrite Hm|done]. }
  rewrite Hvis.
  assert (Hro : run_ops read_start (s_sems s1) = OpsDone (s_sems s)).
  { unfold s1. simpl. rewrite Hv. apply (run_read_start (Z.of_nat (S d)) 0). }
  set (s2 := with_sems (s_sems s) (set_reader c (set_phase r1 (RReading n)) s1)).
  assert (Hre : run_ops read_end (s_sems s2) = OpsDone [Z.of_nat d; 0%Z]).
  { change (s_sems s2) with (s_sems s). rewrite Hv, run_read_end by done.
    destruct (Z.ltb_spec 0 (Z.of_nat (S d))); [|lia]. do 2 f_equal. lia. }
  eapply run_cons; [done|by eapply step_recv|].
  eapply run_cons; [done|eapply (step_lock s1 c r1 n); [apply lookup_insert_eq|done|exact Hro]|].
  eapply run_cons; [done| |apply run_nil].
  replace (with_sems [Z.of_nat d; 0%Z] (set_reader c (has_read s r n rest) s)) with
    (with_sems [Z.of_nat d; 0%Z] (set_reader c (set_phase (set_phase r1 (RReading n)) RIdle) s2)).
  - by eapply (step_unlock s2 c (set_phase r1 (RReading n)) n); [apply lookup_insert_eq| |].
  - unfold s2, s1, set_reader, with_readers, with_sems. simpl. by rewrite !insert_insert_eq.
Qed.
End publication.
