(* ===== verification/ShmSimulation.v ===== *)
(** * The code runs as the protocol says

    Publications, updates and ends of readers of a system ([ShmSystem.v]) are
    runs of the transition system of [ShmProtocol.v]; what concerns the
    server's thread is in [ServerSimulation.v]. *)

From S2P Require Import Prelude Logger StdLib Posix PosixModel SysVSem SysVShm SocketProtocol.
From S2P Require Import UnixSocketServer UnixSocketClient ServerTheorems Reader ReaderTheorems.
From S2P Require Import Writer WriterTheorems SystemCalls ShmSystem.
From S2P Require Import ShmProtocol ShmInvariant ShmRefinement ShmTheorems PublishRun.

Section simulation.
Context {K : Type} `{FileOS K} `{ErrnoOS K} `{SemOS K} `{ShmOS K} `{SockOS K} `{PeerOS K}
  `{!SemLaws K} `{!ShmLaws K} `{!SockLaws K} `{!FileLaws K} `{!FrameLaws K} `{!PeerLaws K}.
Implicit Types (k : K) (s : st) (f m : cstr) (srv : UnixSocketServer).

(** The segment after a publication, and the mappings of the readers. *)
Definition segment_after f s (shm : sysVShm) (p : Z) (w' : Writer) (shm' : sysVShm) (p' : Z)
  m (W W' : world K) : Prop :=
  wr_shm_ w' = Some shm' /\ shm_owner_ shm' = true /\ shm_key_ shm' = shm_key_ shm /\
  seg_mine (kern W') (shmid_ shm') = true /\
  shm_size_ (connect_data_ w') = Z.of_nat (s_shm_size s `max` length f) /\
  shm_holds shm' p' (f ++ drop (length f) (base_bytes f s m)) W' /\
  (forall q i m0, q <> p -> seg_at (kern W) q = Some i -> seg_bytes (kern W) i = Some m0 ->
     q <> p' /\ seg_at (kern W') q = Some i /\ is_Some (seg_bytes (kern W') i)) /\
  (length f <= s_shm_size s -> shm' = shm).

(** The server after it. *)
Definition server_after f (srv : UnixSocketServer) (w w' : Writer) (semid : Z)
  (srv' : UnixSocketServer) (W W' : world K) : Prop :=
  srv_ w' = Some srv' /\ clients_ srv' = clients_ srv /\ wr_sem_ w' = wr_sem_ w /\
  wr_path_ w' = wr_path_ w /\
  sem_vals (kern W') semid = Some [Z.of_nat (length (clients_notified_ srv')); 0%Z] /\
  forall d, out (kern W') d =
    if decide (d ∈ clients_notified_ srv')
    then out (kern W) d ++ update_bytes (mkUpdateMsg (um_msg_type_ (srv_update_msg_ srv))
                                (um_pad (srv_update_msg_ srv)) (Z.of_nat (length f)))
    else out (kern W) d.

Lemma copy_effect f w srv sem shm p m a (W : world K) w' W' s :
  writer_rel (kern W) w s srv sem shm p m -> clients_ srv ≡ₚ Z.of_nat <$> s_clients s ->
  NoDup (s_clients s) ->
  length (s_clients s) <= FD_SETSIZE -> length m = s_shm_size s ->
  s_sems s = [Z.of_nat a; 0%Z] -> copy_to_shm f w W = (Ret (true, w'), W') ->
  exists srv' shm' p', server_after f srv w w' (semid_ sem) srv' W W' /\
    segment_after f s shm p w' shm' p' m W W'.
Proof using All.
  intros Hw Hcl Hnd Hlen Hm Hv E. destruct Hw as [_ Hsrv [Hsem Hval] [Hshm Hown] Hkey _ Hmine
    Hvals Hsize _ Hh _].
  assert (Hnd' : NoDup (clients_ srv)) by (rewrite Hcl; by apply (NoDup_fmap_2 _)).
  assert (Hl : (Z.of_nat (length (clients_ srv)) < SHRT_MAX)%Z).
  { rewrite Hcl, length_fmap. unfold SHRT_MAX, FD_SETSIZE in *. lia. }
  rewrite Hv in Hvals. assert (Hh' := Hh). destruct Hh' as (Hp & Hb & Hk & Hat & _).
  destruct (decide (length f <= s_shm_size s)) as [Hle|Hgt].
  - destruct (copy_to_shm_in_place f w sem srv shm p m (Z.of_nat a) W)
      as (srv' & W1 & E1 & (Hs & Hb1 & Ha1 & Hsub & Hcl1 & Ho) & Hk1 & Hat1 & Hm1 & Hi1);
      try done; [lia|lia|lia|].
    rewrite E1 in E. injection E as <- <-. exists srv', shm, p.
    split; [done|]. split; [done|]. split; [done|]. split; [done|].
    split; [simpl; by rewrite Hm1|]. split; [simpl; lia|].
    assert (Hbase : base_bytes f s m = m) by (unfold base_bytes; by rewrite bool_decide_false by lia).
    rewrite Hbase. split; [destruct Hh as (_ & _ & _ & _ & Hid & Hne); unfold shm_holds; by rewrite Hk1, Hat1|].
    split; [|done]. intros q i m0 Hq Hqa Hqb. split; [done|]. split; [by rewrite Hat1|].
    destruct (decide (i = shmid_ shm)) as [->|Hi]; [by rewrite Hb1|]. rewrite Hi1 by done. by eexists.
  - pose proof (copy_to_shm_grown f w sem srv shm p m (Z.of_nat a) W) as Hg. rewrite E in Hg.
    destruct Hg as (_ & _ & shm' & p' & srv' & -> & Hp' & (Hs & _ & _ & Hsub & Hcl1 & Ho) &
      Hh1 & Hk1 & Hown1 & Hmine1 & Hst & Hfr); try done; [lia|lia|].
    exists srv', shm', p'. split; [done|]. do 4 (split; [done|]). split; [simpl; lia|].
    assert (Hbase : base_bytes f s m = replicate (length f) Ascii.zero)
      by (unfold base_bytes; by rewrite bool_decide_true by lia).
    rewrite Hbase, drop_ge, app_nil_r by (by rewrite length_replicate).
    split; [done|]. split; [|lia]. intros q i m0 Hq Hqa Hqb.
    destruct (Hst q i m0) as [Hqa' Hqb']; [congruence|done|done|].
    destruct (Hfr q i m0 Hq Hqa Hqb). split; [done|]. split; [done|]. by eexists.
Qed.

Lemma update_stream_app pad l l' :
  update_stream pad (l ++ l') = update_stream pad l ++ update_stream pad l'.
Proof. induction l as [|z l IH]; [done|]. simpl. by rewrite IH, app_assoc. Qed.

(** *** What an operation leaves to the others *)

(** The socket of a reader that an operation does not concern. *)
Lemma stream_rel_keep k k' s s' srv srv' c e r :
  stream_rel k s srv c e r ->
  out k' (Z.of_nat c) = out k (Z.of_nat c) -> inq k' (Z.of_nat c) = inq k (Z.of_nat c) ->
  (Z.of_nat c ∈ fds k' -> Z.of_nat c ∈ fds k) ->
  (Z.of_nat c ∈ pending_clients_ srv' <-> Z.of_nat c ∈ pending_clients_ srv) ->
  (c ∈ s_clients s' <-> c ∈ s_clients s) ->
  um_pad (srv_update_msg_ srv') = um_pad (srv_update_msg_ srv) ->
  stream_rel k' s' srv' c e r.
Proof.
  intros Hs Ho Hi Hf Hp Hc Hpad. unfold stream_rel, follows, waits in *. rewrite Ho, Hi, Hpad.
  destruct (ep_data e); [by rewrite Hc, Hp|]. destruct Hs as (H1' & H2' & H3' & H4').
  rewrite Hc. do 3 (split; [done|]). rewrite (bool_decide_ext _ _ Hp).
  case_bool_decide; [done|]. auto.
Qed.

(** A reader that stays attached, with more to read perhaps. *)
Lemma reader_rel_keep k k' s s' srv srv' cnx semid shm shm' p p' c e r r' :
  reader_rel k s srv cnx semid shm p c e r ->
  shm_key_ shm' = shm_key_ shm -> file_key k' = file_key k -> s_cur s <= s_cur s' ->
  (s_cur s' = s_cur s -> shm' = shm) ->
  (forall q i m, address e = Some q -> q <> p -> seg_at k q = Some i -> seg_bytes k i = Some m ->
     q <> p' /\ seg_at k' q = Some i /\ is_Some (seg_bytes k' i)) ->
  r_phase r' = r_phase r -> r_cur_size r' = r_cur_size r -> r_seg r' = r_seg r ->
  (forall n, n ∈ r_inbox r' -> (Z.of_nat n < 2 ^ 64)%Z) -> stream_rel k' s' srv' c e r' ->
  reader_rel k' s' srv' cnx semid shm' p' c e r'.
Proof.
  intros [Hph Hpath Hsem Hcur Hseg (rs & q & m & Hrs & Hv & Hown & Hq & Hqp & Hqa & Hqb & Hsg)
    _ Hd _] Hk Hf Hle Hsame Hmap Hp' Hc' Hs' Hsz Hst.
  destruct (Hmap q (shmid_ rs) m) as (Hqp' & Hqa' & m' & Hqb');
    [unfold address; by rewrite Hrs|done..|].
  split; rewrite ?Hk, ?Hf, ?Hp', ?Hc', ?Hs'; try done; [lia|].
  exists rs, q, m'. do 7 (split; [done|]). intros He. rewrite Hsame by lia. apply Hsg. lia.
Qed.

(** The server's invariant speaks of its sets and of the open descriptors. *)
Lemma server_inv_keep srv srv' loc k k' :
  server_inv srv loc k -> clients_ srv' = clients_ srv ->
  pending_clients_ srv' = pending_clients_ srv -> srv_fd_ srv' = srv_fd_ srv ->
  fds k' = fds k -> server_inv srv' loc k'.
Proof. intros [] Hc Hp Hs Hf. split; rewrite ?Hc, ?Hp, ?Hs, ?Hf; done. Qed.

(** A client and a pending client are different, and not negative. *)
Lemma client_not_pending k loc cnx s srv c :
  server_rel k loc cnx s srv -> Z.of_nat c ∈ pending_clients_ srv -> c ∉ s_clients s.
Proof.
  intros Hsv Hp Hc. apply (si_disjoint _ _ _ (sv_inv _ _ _ _ _ Hsv) (Z.of_nat c)); [|done].
  rewrite (sv_clients _ _ _ _ _ Hsv). by apply list_elem_of_fmap_2.
Qed.

Lemma client_open k loc cnx s srv c :
  server_rel k loc cnx s srv -> c ∈ clients_ srv -> c ∈ fds k /\ (0 <= c)%Z.
Proof.
  intros Hsv Hc. destruct (sv_inv _ _ _ _ _ Hsv).
  assert (c ∈ allset loc) by (apply si_watched; apply elem_of_app; by left).
  split; [by apply si_open|]. by apply si_bounds.
Qed.

(** *** A publication *)

Section publication.
Context (f m : cstr) (s s' : st) (srv srv' : UnixSocketServer) (sem : sysVSem) (w w' : Writer)
  (shm shm' : sysVShm) (p p' : Z) (W W' : world K) (loc : locals) (cnx : onConnectData).
Hypothesis Hw : writer_rel (kern W) w s srv sem shm p m.
Hypothesis Hsv : server_rel (kern W) loc cnx s srv.
Hypothesis Hnd : NoDup (s_clients s).
Hypothesis Hf : (Z.of_nat (length f) < 2 ^ 64)%Z.
Hypothesis Hap : after_publish f s s' (base_bytes f s m).
Hypothesis Hsame : same_peers (kern W) (kern W').
Hypothesis Hsa : server_after f srv w w' (semid_ sem) srv' W W'.
Hypothesis Hsg : segment_after f s shm p w' shm' p' m W W'.
Hypothesis Hpad : um_pad (srv_update_msg_ srv') = um_pad (srv_update_msg_ srv).
Hypothesis Hpend : pending_clients_ srv' = pending_clients_ srv.
Hypothesis Hfd : srv_fd_ srv' = srv_fd_ srv.
Hypothesis Hserving : serving srv' = serving srv.
Hypothesis Hnot : forall c, c ∈ clients_notified_ srv' <->
  c ∈ clients_ srv /\ peer_closed (kern W) c = false.

Lemma closed_same d : peer_closed (kern W') d = peer_closed (kern W) d.
Proof using Hsame. unfold peer_closed. by rewrite (sp_peer _ _ Hsame). Qed.

Lemma readers_lookup c : s_readers s' !! c =
  if decide (c ∈ s_clients s) then push (length f) <$> s_readers s !! c else s_readers s !! c.
Proof using Hap Hnd. rewrite (ap_readers _ _ _ _ Hap). by apply push_all_lookup. Qed.

Lemma readers_none c : s_readers s' !! c = None <-> s_readers s !! c = None.
Proof using Hap Hnd.
  rewrite readers_lookup. destruct (decide _); [|done]. by destruct (s_readers s !! c).
Qed.

(** The readers that are told are the clients that live. *)
Lemma told_client c : Z.of_nat c ∈ clients_notified_ srv' <->
  c ∈ s_clients s /\ is_Some (s_readers s !! c).
Proof using Hnot Hsv.
  rewrite Hnot, (sv_clients _ _ _ _ _ Hsv), list_elem_of_fmap. split.
  - intros [(d & Hd & Hin) Hc]. apply Nat2Z.inj in Hd as <-. split; [done|].
    apply not_eq_None_Some. intros Hn.
    destruct (sv_client _ _ _ _ _ Hsv c Hin) as (_ & Hcl & _). apply Hcl in Hn. congruence.
  - intros [Hin [r Hr]]. split; [by exists c|].
    destruct (sv_client _ _ _ _ _ Hsv c Hin) as (_ & Hcl & _).
    destruct (peer_closed (kern W) (Z.of_nat c)); [|done]. destruct Hcl as [Hcl _].
    by rewrite Hcl in Hr.
Qed.

Lemma notified_after : clients_notified_ srv' ≡ₚ Z.of_nat <$> s_notified s' <->
  NoDup (clients_notified_ srv').
Proof using Hap Hnd Hnot Hsv.
  rewrite (ap_notified _ _ _ _ Hap). split.
  - intros ->. apply (NoDup_fmap_2 _). by apply NoDup_filter.
  - intros Hn. apply NoDup_Permutation; [done|by apply (NoDup_fmap_2 _), NoDup_filter|].
    intros c. rewrite list_elem_of_fmap. split.
    + intros Hc. assert (Hc' := Hc). apply Hnot in Hc' as [Hc' _].
      rewrite (sv_clients _ _ _ _ _ Hsv) in Hc'. apply list_elem_of_fmap in Hc' as (d & -> & _).
      exists d. split; [done|]. apply list_elem_of_filter. apply told_client in Hc. tauto.
    + intros (d & -> & Hd). apply told_client. apply list_elem_of_filter in Hd. tauto.
Qed.

Lemma readers_after_publish rs :
  readers_rel (kern W) rs s srv cnx (semid_ sem) shm p ->
  readers_rel (kern W') rs s' srv' cnx (semid_ sem) shm' p'.
Proof using All.
  intros (Hr & Hnone & Hdis). split; [|split; [intros c Hc; by apply readers_none, Hnone|done]].
  intros c e He. destruct (Hr c e He) as (r & Hsr & Hrel).
  destruct Hsa as (_ & _ & _ & _ & _ & Ho). destruct Hsg as (_ & _ & Hk & _ & _ & _ & Hmap & Hkeep).
  pose proof (ap_cur _ _ _ _ Hap) as Hac.
  assert (Hcur : s_cur s <= s_cur s') by (rewrite Hac; case_bool_decide; lia).
  assert (Hshm : s_cur s' = s_cur s -> shm' = shm).
  { rewrite Hac. case_bool_decide; [lia|]. intros _. apply Hkeep. lia. }
  assert (Hkeepr : forall r', r_phase r' = r_phase r -> r_cur_size r' = r_cur_size r ->
    r_seg r' = r_seg r -> (forall n, n ∈ r_inbox r' -> (Z.of_nat n < 2 ^ 64)%Z) ->
    stream_rel (kern W') s' srv' c e r' ->
    reader_rel (kern W') s' srv' cnx (semid_ sem) shm' p' c e r').
  { intros r' Hph Hcs Hsg' Hsz Hst.
    apply (reader_rel_keep _ _ _ _ _ _ _ _ _ _ _ _ _ _ _ _ Hrel); try done; [apply Hsame|].
    intros q i mi _ Hq Ha Hb. by apply (Hmap q i mi). }
  rewrite readers_lookup. destruct (decide (c ∈ s_clients s)) as [Hc|Hc].
  - exists (push (length f) r). rewrite Hsr. split; [done|]. apply Hkeepr; try done.
    + simpl. intros n [Hn|Hn%list_elem_of_singleton]%elem_of_app; [|by subst].
      by apply (rr_sizes _ _ _ _ _ _ _ _ _ _ Hrel).
    + pose proof (rr_stream _ _ _ _ _ _ _ _ _ _ Hrel) as Hst. unfold stream_rel in *.
      destruct (ep_data e); [|by destruct Hst as [Hst _]].
      destruct Hst as (Hread & Hbytes & _). unfold follows.
      rewrite Ho, decide_True by (apply told_client; by split; [|eexists]).
      rewrite (proj1 (wr_msg _ _ _ _ _ _ _ _ Hw)), length_app, drop_app_le, Hbytes by done.
      split; [lia|]. split; [|left; by rewrite (ap_clients _ _ _ _ Hap)].
      unfold push. cbn [r_inbox]. rewrite fmap_app, update_stream_app, Hpad. cbn [fmap list_fmap update_stream]. by rewrite app_nil_r.
  - exists r. split; [done|]. apply Hkeepr; try done; [apply Hrel|].
    apply (stream_rel_keep (kern W) _ s _ srv); [apply Hrel| |apply Hsame|by rewrite (sp_fds _ _ Hsame)|
      by rewrite Hpend|by rewrite (ap_clients _ _ _ _ Hap)|done].
    rewrite Ho, decide_False; [done|]. rewrite told_client. tauto.
Qed.

Lemma server_after_publish :
  NoDup (clients_notified_ srv') -> server_rel (kern W') loc cnx s' srv'.
Proof using All.
  intros Hn. destruct Hsa as (_ & Hcl & _ & _ & _ & Ho). destruct Hsame as [Sf Sk Ss Sp Si].
  split.
  - by apply (server_inv_keep srv _ _ (kern W)); [apply Hsv| | | |].
  - rewrite Hcl, (ap_clients _ _ _ _ Hap). apply Hsv.
  - by apply notified_after.
  - intros c. rewrite Hcl, Hpend, Sp. apply Hsv.
  - intros c. rewrite (ap_clients _ _ _ _ Hap), closed_same, Sp, Si, (ap_reset _ _ _ _ Hap).
    intros Hc. destruct (sv_client _ _ _ _ _ Hsv c Hc) as (Hi & H1' & H2').
    split; [done|]. rewrite readers_none. done.
  - intros c. rewrite Hpend, closed_same, Sp, Si. intros Hc.
    pose proof (client_not_pending _ _ _ _ _ _ Hsv Hc) as Hcc.
    destruct (sv_pending _ _ _ _ _ Hsv c Hc) as (Ho' & Hl & Ha & Hd).
    rewrite readers_none. split; [|split; [done|split; [|done]]].
    + rewrite Ho, decide_False; [done|]. rewrite told_client. tauto.
    + rewrite readers_lookup, decide_False by done. done.
  - rewrite Hserving. apply Hsv.
Qed.
End publication.

Lemma publish_simulated f (C C' : system K) s :
  inv s -> simulates C s -> op_ok (Publish f) -> do_publish f C = Some C' ->
  exists s', run s (publish_labels s f) s' /\ simulates C' s' /\ s_clients s' = s_clients s /\
    sy_readers C' = sy_readers C /\ sy_cnx C' = sy_cnx C.
Proof using All.
  intros Hinv (Hcnx & srv & sem & shm & p & m & Hw & Hsv & Hr) Hf E. destruct C as [W w cnx loc rs].
  unfold kern_of in *. cbn [sy_world sy_writer sy_readers sy_cnx sy_locals] in *.
  unfold do_publish, ready, kern_of in E.
  cbn [sy_world sy_writer sy_readers sy_cnx sy_locals] in E.
  rewrite (proj1 (wr_sem _ _ _ _ _ _ _ _ Hw)) in E. case_bool_decide as Hv; [|done].
  rewrite (wr_vals _ _ _ _ _ _ _ _ Hw) in Hv. injection Hv as Hv.
  destruct (copy_to_shm f w W) as [[[[] w']|e| |] W'] eqn:Ec; try done. injection E as <-.
  destruct (inv_clients _ Hinv) as [Hnd Hlen _ _ _ _ _ _ _].
  destruct (inv_seg _ Hinv) as (m0 & Hm0 & Hlm & _).
  rewrite (wr_seg _ _ _ _ _ _ _ _ Hw) in Hm0. injection Hm0 as <-.
  destruct (publish_runs s f 0 m) as (s' & Hrun & Hap); try done;
    [apply Hw|by left|unfold FD_SETSIZE, SEMVMX in *; lia|apply Hw|].
  destruct (copy_effect f w srv sem shm p m 0 W w' W' s Hw (sv_clients _ _ _ _ _ Hsv) Hnd Hlen Hlm Hv Ec)
    as (srv' & shm' & p' & Hsa & Hsg).
  destruct (copy_to_shm_notifies (kern W) f w srv (wr_srv _ _ _ _ _ _ _ _ Hw)) with
    (w := W) (a := (true, w')) (w' := W') as (Hsame & srv1 & Hs1 & Ht1 & Hp1 & Hnd1 & Hpe1 & Hfd1 & Hsg1 & Hn1);
    [|done|done|done|]; [by intros c; apply client_open with (1 := Hsv)|].
  assert (srv1 = srv') as -> by (destruct Hsa as (Hsa & _); congruence).
  exists s'. split; [done|]. split; [|by split; [apply Hap|]]. split; [done|].
  exists srv', sem, shm', p', (f ++ drop (length f) (base_bytes f s m)).
  unfold kern_of. cbn [sy_world sy_writer sy_readers sy_cnx sy_locals].
  split; [|split; [by eapply server_after_publish|by eapply readers_after_publish]].
  destruct Hsa as (Hsa1 & Hsa2 & Hsa3 & Hsa4 & Hsa5 & Hsa6).
  destruct Hsg as (Hg1 & Hg2 & Hg3 & Hg4 & Hg5 & Hg6 & _).
  assert (Hnp : clients_notified_ srv' ≡ₚ Z.of_nat <$> s_notified s')
    by (by eapply notified_after).
  destruct Hw as [Hidle Hsrv Hsem Hshm Hkey Hskey Hmine _ Hsize Hseg _ Hmsg].
  destruct Hap as [Ha1 Ha2 Ha3 Ha4 Ha5 Ha6 Ha7 Ha8 Ha9]. destruct Hsame as [_ Sk [= Ss Sm] _ _].
  split; try done.
  - by rewrite Hsa3.
  - by rewrite Sk, Hsa4, Hg3.
  - by rewrite Ss, Sm, Sk, Hsa4.
  - rewrite Hsa5, Ha2. do 3 f_equal. by rewrite Hnp, length_fmap.
  - by rewrite Ha3.
  - by rewrite Ht1, Hp1.
Qed.

(** *** An update *)

(** What a read leaves alone. *)
Definition read_only (k k' : K) : Prop :=
  shm_view k' = shm_view k /\ sock_view k' = sock_view k /\ same_peers k k'.

Lemma on_buffer_note r sem shm q i m size n (W : world K) :
  rd_sem_ r = Some sem -> rd_shm_ r = Some shm -> shm_ shm = Some q ->
  seg_at (kern W) q = Some i -> seg_bytes (kern W) i = Some m ->
  (0 <= size <= Z.of_nat (length m))%Z -> (0 < n <= SEMVMX)%Z ->
  sem_vals (kern W) (semid_ sem) = Some [n; 0%Z] ->
  exists W', on_buffer note_cbs r size W = (Ret true, W') /\ read_only (kern W) (kern W') /\
    logs W' = logs W ++ [(LInfo, take (Z.to_nat size) m)] /\
    sem_vals (kern W') (semid_ sem) = Some [(n - 1)%Z; 0%Z].
Proof using All.
  intros Hsem Hshm Hq Ha Hm Hs Hn Hv. unfold on_buffer. rewrite Hsem.
  destruct (semop_done (kern W) (semid_ sem) read_start _ _ Hv (run_read_start n 0))
    as (k1 & E1 & Hv1 & _).
  destruct (semop_frame _ _ _ _ _ E1) as [Hu1 Hk1]. pose proof (semop_same _ _ _ _ _ E1) as Hp1.
  rewrite (bind_ret _ _ _ (mkReadLock sem true) (World k1 (logs W))).
  2: { unfold ReadLock_ctor, sys_wait, mbind, M_bind. by rewrite E1. }
  cbn [rl_valid_ negb on_data_cb_ note_cbs]. rewrite Hshm. unfold get_mem, buffer_cb. rewrite Hq.
  assert (Hu1' := Hu1). injection Hu1' as Eb _ Ea _.
  pose proof (run_read_end n 0 (proj2 Hn)) as Hr. rewrite (proj2 (Z.ltb_lt 0 n)) in Hr by lia.
  destruct (semop_done k1 (semid_ sem) read_end _ _ Hv1 Hr) as (k3 & E3 & Hv3 & _).
  destruct (semop_frame _ _ _ _ _ E3) as [Hu3 Hk3]. pose proof (semop_same _ _ _ _ _ E3) as Hp3.
  exists (World k3 (logs W ++ [(LInfo, take (Z.to_nat size) m)])). split; [|split; [|by split]].
  - refine (eq_trans (bind_ret _ _ _ tt (World k1 (logs W ++ [(LInfo, take (Z.to_nat size) m)])) _) _).
    + cbn [kern]. by rewrite (load_law k1 q i m); [|by rewrite Ea|by rewrite Eb|lia].
    + unfold ReadLock_dtor, sys_wait. cbn [rl_valid_ rl_sem_ when]. unfold mbind, M_bind.
      cbn [kern logs]. by rewrite E3.
  - unfold read_only. cbn [kern]. rewrite Hu3, Hk3. do 2 (split; [done|]).
    by apply (same_peers_trans _ k1).
Qed.

(** The segment of a reader after an update. *)
Definition followed (old : sysVShm) (q0 : Z) (id size : Z) (r r' : Reader.Reader) (k k' : K) : Prop :=
  exists rs q, r' = with_cur_size size (Some rs) r /\ sysVShm_is_valid rs = true /\
    shm_owner_ rs = false /\ shm_ rs = Some q /\ (q = q0 \/ seg_at k q = None) /\
    seg_at k' q = Some (shmid_ rs) /\ is_Some (seg_bytes k' (shmid_ rs)) /\
    (if (size =? cur_size_ r)%Z then rs = old else shmid_ rs = id) /\
    stays (Some q0) k k' /\ seg_key k' = seg_key k /\ seg_mine k' = seg_mine k.

Lemma on_update_note r sem old q0 m0 id m size n (W W' : world K) r' :
  rd_sem_ r = Some sem -> sem_vals (kern W) (semid_ sem) = Some [n; 0%Z] -> (0 < n <= SEMVMX)%Z ->
  rd_shm_ r = Some old -> sysVShm_is_valid old = true -> shm_owner_ old = false ->
  shm_ old = Some q0 -> seg_at (kern W) q0 = Some (shmid_ old) ->
  seg_bytes (kern W) (shmid_ old) = Some m0 ->
  file_key (kern W) (c_str (rd_path_ r)) "n"%char <> (-1)%Z ->
  seg_key (kern W) (file_key (kern W) (c_str (rd_path_ r)) "n"%char) = Some id ->
  seg_bytes (kern W) id = Some m -> (size = cur_size_ r -> shmid_ old = id \/ size = 0%Z) ->
  (0 <= size <= Z.of_nat (length m))%Z -> on_update note_cbs size r W = (Ret r', W') ->
  followed old q0 id size r r' (kern W) (kern W') /\
  last (logs W') = Some (LInfo, take (Z.to_nat size) m) /\
  sock_view (kern W') = sock_view (kern W) /\
  same_peers (kern W) (kern W') /\
  sem_vals (kern W') (semid_ sem) = Some [(n - 1)%Z; 0%Z].
Proof using All.
  intros Hsem Hv Hn Hold Hval Hown Hq0 Ha0 Hb0 Hne Hkey Hm Hsame Hs E.
  unfold on_update in E. apply bind_inv in E as (o & W1 & E1 & E2).
  apply bind_inv in E2 as (b & W2 & E2 & [= <- <-]). unfold followed.
  destruct (Z.eqb_spec size (cur_size_ r)) as [Hsz|Hsz]; cbn [negb] in E1.
  - injection E1 as <- <-.
    assert (Hm' : exists m', seg_bytes (kern W) (shmid_ old) = Some m' /\
      (0 <= size <= Z.of_nat (length m'))%Z /\ take (Z.to_nat size) m' = take (Z.to_nat size) m).
    { destruct (Hsame Hsz) as [->| ->]; [by exists m|]. exists m0. simpl. split; [done|]. lia || (split; [lia|done]). }
    destruct Hm' as (m' & Hm' & Hs' & Ht).
    destruct (on_buffer_note (with_cur_size size (rd_shm_ r) r) sem old q0 (shmid_ old) m' size n W)
      as (W3 & E3 & (Hu & Hk & Hp) & Hl & Hv3); try done. rewrite E3 in E2. injection E2 as <- <-.
    injection Hu as Eb Ek Ea Em. split; [|split; [|split; [|split]]].
    + exists old, q0. rewrite Hold, Ea, Eb, Hb0, Ek, Em. do 4 (split; [done|]). split; [by left|].
      split; [done|]. split; [by eexists|]. split; [done|]. split; [|done].
      intros q i mi _. by rewrite Ea, Eb.
    + by rewrite Hl, last_snoc, Ht.
    + done.
    + done.
    + done.
  - apply bind_inv in E1 as (rs & W1' & E1 & [= <- <-]).
    assert (Hf : forall bs w1, sem_holds sem [n; 0%Z] w1 ->
      exists w2, note bs w1 = (Ret tt, w2) /\ sem_holds sem [n; 0%Z] w2) by (by eexists).
    destruct (attach_again_spec note_cbs note sem n eq_refl Hf Hn r old q0 (shmid_ old) _ id m W
      Hold Hval Hown Hq0 Ha0 eq_refl Hne Hkey Hm) as (rs' & W1'' & E1' & Hov & _ & Hst & Hk & Hmi & Hown' & Hc).
    pose proof E1 as Ep. rewrite E1' in E1. injection E1 as -> ->.
    destruct (other_views_eq _ _ Hov) as [HS HK].
    pose proof (kpe_attach r (kern W) W rs W1' (same_peers_refl _) Ep) as Hpc.
    assert (Hv1 : sem_vals (kern W1') (semid_ sem) = Some [n; 0%Z]) by (by injection HS as -> _ _).
    destruct Hc as [Hnone|(q & Hq & Hid & Hfree & Hvs & Hat & Hb)].
    { destruct (on_buffer_unattached note_cbs note sem n eq_refl Hf Hn
        (with_cur_size size (Some rs) r) rs size W1' Hsem eq_refl Hnone Hv1) as (W3 & E3).
      rewrite E3 in E2. done. }
    destruct (on_buffer_note (with_cur_size size (Some rs) r) sem rs q id m size n W1')
      as (W3 & E3 & (Hu & Hk3 & Hp) & Hl & Hv3); try done. rewrite E3 in E2. injection E2 as <- <-.
    injection Hu as Eb Ek Ea Em. split; [|split; [|split; [|split]]].
    + exists rs, q. rewrite Ea, Eb, Ek, Em, Hid, Hat, Hb, Hk, Hmi. do 4 (split; [done|]).
      split; [by right|]. split; [done|]. split; [by eexists|]. split; [done|]. split; [|done].
      intros q1 i mi Hq1 Hqa Hqb. rewrite Ea, Eb. by apply Hst.
    + by rewrite Hl, last_snoc.
    + by rewrite Hk3, HK.
    + by apply (same_peers_trans _ (kern W1')).
    + done.
Qed.

(** The writer and the server when a reader has done something. *)
Lemma writer_rel_keep k k' w s s' srv sem shm p m :
  writer_rel k w s srv sem shm p m -> s_writer s' = s_writer s ->
  s_shm_size s' = s_shm_size s -> s_segs s' = s_segs s -> s_cur s' = s_cur s ->
  file_key k' = file_key k -> sem_names k' = sem_names k -> seg_key k' = seg_key k ->
  seg_mine k' = seg_mine k -> seg_at k' p = seg_at k p ->
  seg_bytes k' (shmid_ shm) = seg_bytes k (shmid_ shm) ->
  sem_vals k' (semid_ sem) = Some (s_sems s') -> writer_rel k' w s' srv sem shm p m.
Proof.
  intros [Hidle Hsrv Hsem Hshm Hkey Hskey Hmine _ Hsize Hseg Hholds Hmsg] E1 E2 E3 E4 E5 [= E6 E6'] E7 E8 E9 E10 E11.
  split; rewrite ?E6', ?E1, ?E2, ?E3, ?E4, ?E5, ?E6, ?E8; try done.
  unfold shm_holds in *. simpl in *. by rewrite E7, E9, E10.
Qed.

Lemma server_rel_keep k k' loc cnx s s' srv :
  server_rel k loc cnx s srv -> (forall d, out k' d = out k d) -> same_peers k k' ->
  s_clients s' = s_clients s -> s_notified s' = s_notified s -> s_reset s' = s_reset s ->
  (forall c, s_readers s' !! c = None <-> s_readers s !! c = None) -> server_rel k' loc cnx s' srv.
Proof.
  intros [Hi Hc Hn Hk Hcl Hp Hsv] Eo [Ef _ _ Ep Ei] E1 E2 E3 Hr. unfold peer_closed in *.
  split; rewrite ?E1, ?E2, ?E3; try done.
  - by apply (server_inv_keep srv _ _ k).
  - intros c. rewrite Ep. apply Hk.
  - intros c Hin. unfold peer_closed. rewrite Ep, Ei, Hr. by apply Hcl.
  - intros c Hin. unfold peer_closed. rewrite Ep, Ei, Eo, Hr, <- not_eq_None_Some, Hr, not_eq_None_Some.
    by apply Hp.
Qed.

Lemma read_message pad n l (bs : cstr) (i : nat) :
  length pad = 6 -> drop i bs = update_stream pad (n :: l) ->
  i + sizeof_update <= length bs /\ drop (i + sizeof_update) bs = update_stream pad l /\
  take sizeof_update (drop i bs) = update_bytes (mkUpdateMsg 1 pad n).
Proof.
  intros Hpad Hd. pose proof (length_update_bytes (mkUpdateMsg 1 pad n) Hpad) as Hl.
  cbn [update_stream] in Hd. split; [|split].
  - apply (f_equal length) in Hd. rewrite length_drop, length_app, Hl in Hd.
    unfold sizeof_update in *. lia.
  - by rewrite <- drop_drop, Hd, drop_app_length'.
  - by rewrite Hd, take_app_length'.
Qed.

(** One reader changes, or is new: the others stay related. *)
Lemma readers_insert k k' s s' srv srv' cnx semid shm p rs c e r :
  readers_rel k rs s srv cnx semid shm p -> s_readers s' = <[c := r]> (s_readers s) ->
  reader_rel k' s' srv' cnx semid shm p c e r ->
  (forall d e' r', d <> c -> rs !! d = Some e' -> reader_rel k s srv cnx semid shm p d e' r' ->
     reader_rel k' s' srv' cnx semid shm p d e' r' /\ address e' <> address e) ->
  readers_rel k' (<[c := e]> rs) s' srv' cnx semid shm p.
Proof.
  intros (Hr & Hnone & Hdis) Hs' Hc Hothers. split; [|split].
  - intros d e' He'. rewrite Hs'. destruct (decide (d = c)) as [->|Hne].
    + rewrite lookup_insert_eq in He'. injection He' as <-. exists r. by rewrite lookup_insert_eq.
    + rewrite lookup_insert_ne in He' by auto. rewrite lookup_insert_ne by auto. destruct (Hr d e' He') as (r' & Hr' & Hrel').
      exists r'. split; [done|]. by apply (Hothers d e').
  - intros d [Hd Hne]%lookup_insert_None. rewrite Hs', lookup_insert_ne by done. by apply Hnone.
  - assert (Hother : forall d e', d <> c -> rs !! d = Some e' -> address e' <> address e).
    { intros d e' Hne He'. destruct (Hr d e' He') as (r' & _ & Hrel'). by apply (Hothers d e' r'). }
    intros c1 c2 e1 e2 H1' H2' Hne. apply lookup_insert_Some in H1' as [[<- <-]|[Hn1 H1']];
      apply lookup_insert_Some in H2' as [[<- <-]|[Hn2 H2']]; try done.
    + apply not_eq_sym. by apply (Hother c2).
    + by apply (Hother c1).
    + by apply (Hdis c1 c2).
Qed.

(** The one that has handled an update of size [n]. *)
Lemma reader_after_read s c e r n rest d semid shm p srv cnx old q0 id k k' r' given :
  reader_rel k s srv cnx semid shm p c e r ->
  length (um_pad (srv_update_msg_ srv)) = 6 -> ep_data e <> None ->
  r_inbox r = n :: rest -> shmid_ shm = id -> seg_at k p <> None ->
  q0 <> p -> (r_seg r = s_cur s -> shmid_ old = shmid_ shm) ->
  followed old q0 id (Z.of_nat n) (ep_reader e) r' k k' -> sock_view k' = sock_view k ->
  let s' := with_sems [Z.of_nat d; 0%Z] (set_reader c (has_read s r n rest) s) in
  reader_rel k' s' srv cnx semid shm p c
    (Endpoint r' (ep_data e) (ep_read e + sizeof_update) given) (has_read s r n rest).
Proof using All.
  intros [Hph Hpath Hsem Hcur Hseg _ Hsz Hd Hstr] Hpad Hgr Hin Hid Hpn Hqp Hsg
    (rsh & q & -> & Hv & Hown & Hq & Hfree & Hat & [mq Hb] & Hsame & Hst & Hk & Hmi)
    [= Hfd Hout Hinq Hfk] s'.
  unfold stream_rel in Hstr. destruct (ep_data e) as [dt|] eqn:Edt; [|done].
  destruct Hstr as (Hread & Hbytes & Hcl). rewrite Hin in Hbytes, Hsz. cbn [fmap list_fmap] in Hbytes.
  destruct (read_message _ _ _ _ _ Hpad Hbytes) as (Hr1 & Hr2 & _).
  assert (Hc : c ∈ s_clients s).
  { destruct Hcl as [Hcl|(_ & _ & Hu)]; [done|]. destruct Hu as (_ & Hu & _). by rewrite Hin in Hu. }
  split; try done; simpl.
  - by rewrite Hfk.
  - case_bool_decide; lia.
  - exists rsh, q, mq. do 4 (split; [done|]). split.
    { destruct Hfree as [->|Hfree]; [done|]. intros ->. done. }
    do 2 (split; [done|]). rewrite Hcur in Hsame.
    destruct (Z.eqb_spec (Z.of_nat n) (Z.of_nat (r_cur_size r))) as [Heq|Hne].
    + rewrite bool_decide_false by lia. by subst.
    + intros _. congruence.
  - intros z Hz. apply Hsz. by right.
  - unfold stream_rel, follows. cbn [ep_data ep_read]. rewrite Hout. split; [done|]. split; [done|]. by left.
Qed.

Lemma readers_after_read s rs c e r n rest d semid shm p srv cnx old q0 m0 id k k' r' given :
  readers_rel k rs s srv cnx semid shm p -> rs !! c = Some e -> s_readers s !! c = Some r ->
  length (um_pad (srv_update_msg_ srv)) = 6 -> ep_data e <> None ->
  r_inbox r = n :: rest -> shmid_ shm = id -> seg_at k p <> None ->
  rd_shm_ (ep_reader e) = Some old -> shm_ old = Some q0 -> q0 <> p ->
  seg_at k q0 = Some (shmid_ old) -> seg_bytes k (shmid_ old) = Some m0 ->
  (r_seg r = s_cur s -> shmid_ old = shmid_ shm) ->
  followed old q0 id (Z.of_nat n) (ep_reader e) r' k k' -> sock_view k' = sock_view k ->
  let s' := with_sems [Z.of_nat d; 0%Z] (set_reader c (has_read s r n rest) s) in
  readers_rel k' (<[c := Endpoint r' (ep_data e) (ep_read e + sizeof_update) given]> rs) s' srv cnx
    semid shm p.
Proof using All.
  intros Hrs He Hsr Hpad Hgr Hin Hid Hpn Hold Hq0 Hqp Ha0 Hb0 Hsg Hfol Hsock s'.
  assert (Hrs' := Hrs). destruct Hrs' as (Hr & _ & Hdis). destruct (Hr c e He) as (r0 & Hsr0 & Hrel).
  rewrite Hsr in Hsr0. injection Hsr0 as <-.
  eapply (readers_insert k k' s s' srv srv); [done|done|by eapply reader_after_read|].
  intros d' e' r0 Hne He' Hrel'. assert (Hoq : address e' <> Some q0).
  { intros Hx. destruct (Hdis c d' e e' He He'); [done|]. unfold address at 1. by rewrite Hold; simpl; rewrite Hq0. }
  destruct Hfol as (rsh & q & -> & _ & _ & Hq & Hfree & _ & _ & _ & Hst & _). injection Hsock as Hfd Hout Hinq Hfk.
  split.
  - apply (reader_rel_keep _ _ _ _ _ _ _ _ _ _ _ _ _ _ _ _ Hrel'); try done; [|apply Hrel'|].
    + intros q' i mi Hq' Hqp' Ha Hb'. destruct (Hst q' i mi) as [Ha' Hb'']; [congruence|done|done|].
      split; [done|]. split; [done|]. by eexists.
    + apply (stream_rel_keep k _ s _ srv); [apply Hrel'|by rewrite Hout|by rewrite Hinq|by rewrite Hfd|done..].
  - destruct (rr_shm _ _ _ _ _ _ _ _ _ _ Hrel') as (rd & qd & md & Hrd & _ & _ & Hqd & _ & Had & _).
    unfold address in *. rewrite Hrd in *. simpl in *. rewrite Hq. destruct Hfree as [->|Hfree]; congruence.
Qed.

(** What the invariant says of a reader with a message, the writer idle. *)
Lemma message_facts s c r n rest m :
  inv s -> s_writer s = WIdle -> s_readers s !! c = Some r -> r_phase r = RIdle ->
  r_inbox r = n :: rest -> s_segs s !! s_cur s = Some m ->
  exists d, s_sems s = [Z.of_nat (S d); 0%Z] /\ (Z.of_nat (S d) <= SEMVMX)%Z /\ n <= length m /\
    (n = r_cur_size r -> r_seg r = s_cur s \/ n = 0).
Proof.
  intros Hinv Hw Hr Hp Hin Hm. destruct (inv_seg _ Hinv) as (m0 & Hm0 & Hl & _).
  rewrite Hm in Hm0. injection Hm0 as <-. pose proof (inv_sem _ Hinv) as Hs.
  unfold sem_inv in Hs. rewrite Hw in Hs.
  pose proof (ci_due _ (inv_clients _ Hinv)) as Hdue. unfold FD_SETSIZE in Hdue.
  pose proof (sum_le owing (s_readers s) c r Hr) as Ho. unfold owing at 1 in Ho.
  rewrite Hin, Hp in Ho. simpl in Ho.
  destruct (inv_readers _ Hinv c r Hr) as [_ Hbox _ _ _ _ _].
  destruct (Hbox n) as [Hn Hf]; [rewrite Hin; left|].
  exists (pred (due s)). assert (Hd : due s <> 0) by (unfold due; lia).
  replace (S (pred (due s))) with (due s) by lia. split; [done|].
  split; [unfold SEMVMX; lia|]. split; [|exact Hf].
  rewrite Hl, Hn. by apply (last_fits s (inv_sem _ Hinv) (inv_seg _ Hinv)).
Qed.


(** What the next message of a reader that was greeted is. *)
Lemma do_receive_message c e r (C : system K) s srv cnx semid shm p :
  reader_rel (kern_of C) s srv cnx semid shm p c e r ->
  length (um_pad (srv_update_msg_ srv)) = 6 -> sy_readers C !! c = Some e -> ep_data e <> None ->
  match r_inbox r with
  | [] => do_receive c C = None
  | n :: _ => do_receive c C = handle_update C c e (Z.of_nat n) /\
      um_size_ (update_of (next_message C c e)) = Z.of_nat n
  end.
Proof.
  intros Hrel Hpad He Hgr. unfold do_receive. rewrite He. cbn [mbind option_bind]. unfold next_message.
  pose proof (rr_stream _ _ _ _ _ _ _ _ _ _ Hrel) as Hstr. unfold stream_rel in Hstr.
  destruct (ep_data e); [|done]. destruct Hstr as (_ & Hbytes & _).
  destruct (r_inbox r) as [|n rest] eqn:Hin; cbn [fmap list_fmap] in Hbytes; [by rewrite Hbytes|].
  destruct (read_message _ _ _ _ _ Hpad Hbytes) as (_ & _ & Htake). rewrite Htake.
  rewrite length_update_bytes, Nat.ltb_irrefl by done.
  pose proof (rr_sizes _ _ _ _ _ _ _ _ _ _ Hrel n) as Hsz. rewrite Hin in Hsz.
  specialize (Hsz ltac:(left)). by rewrite update_of_bytes by (simpl; lia || done).
Qed.

(** A message that is handled. *)
Lemma received_update c e r (C C' : system K) s srv cnx semid shm p :
  reader_rel (kern_of C) s srv cnx semid shm p c e r ->
  length (um_pad (srv_update_msg_ srv)) = 6 -> sy_readers C !! c = Some e -> ep_data e <> None ->
  do_receive c C = Some C' ->
  exists n rest r' W' given, r_inbox r = n :: rest /\
    on_update note_cbs (Z.of_nat n) (ep_reader e) (sy_world C) = (Ret r', W') /\
    last (logs W') = Some given /\
    C' = with_reader c (Endpoint r' (ep_data e) (ep_read e + sizeof_update)
                          (ep_given e ++ [given.2])) W' C.
Proof.
  intros Hrel Hpad He Hgr E. pose proof (do_receive_message c e r C s _ _ _ _ _ Hrel Hpad He Hgr) as Hm.
  destruct (r_inbox r) as [|n rest]; [by rewrite Hm in E|]. destruct Hm as [Hm _]. rewrite Hm in E.
  unfold handle_update in E.
  destruct (on_update note_cbs (Z.of_nat n) (ep_reader e) (sy_world C)) as [[r'|ex| |] W'] eqn:Eu; try done.
  destruct (last (logs W')) as [given|] eqn:Hlast; [|done]. injection E as <-.
  by exists n, rest, r', W', given.
Qed.

Lemma receive_simulated c (C C' : system K) s e :
  inv s -> simulates C s -> sy_readers C !! c = Some e -> ep_data e <> None ->
  do_receive c C = Some C' ->
  exists data s' e', run s (receive_labels c data) s' /\ simulates C' s' /\
    C' = with_reader c e' (sy_world C') C /\ ep_given e' = ep_given e ++ [data].
Proof using All.
  intros Hinv (Hcnx & srv & sem & shm & p & m & Hw & Hsv & Hrs) He Hgr E.
  destruct (proj1 Hrs c e He) as (r & Hsr & Hrel).
  destruct (received_update c e r C C' s _ _ _ _ _ Hrel (proj2 (wr_msg _ _ _ _ _ _ _ _ Hw)) He Hgr E)
    as (n & rest & r' & W' & given & Hin & Eu & Hlast & ->).
  destruct (message_facts s c r n rest m) as (d & Hv & Hd & Hnm & Hfresh); try done;
    [apply Hw|apply Hrel|apply Hw|].
  destruct (rr_shm _ _ _ _ _ _ _ _ _ _ Hrel)
    as (old & q0 & m0 & Hold & Hval & Hown & Hq0 & Hqp & Ha0 & Hb0 & Hsg).
  pose proof (rr_sem _ _ _ _ _ _ _ _ _ _ Hrel) as Hsem.
  destruct (rd_sem_ (ep_reader e)) as [fsem|] eqn:Hfs; [|done]. injection Hsem as Hsem.
  pose proof (wr_vals _ _ _ _ _ _ _ _ Hw) as Hvals. rewrite Hv, <- Hsem in Hvals.
  destruct (wr_holds _ _ _ _ _ _ _ _ Hw) as (Hp & Hb & Hk & Hat & Hid & Hne). simpl in Hb, Hk, Hat.
  pose proof (rr_path _ _ _ _ _ _ _ _ _ _ Hrel) as Hpath.
  pose proof (rr_cur _ _ _ _ _ _ _ _ _ _ Hrel) as Hcur. unfold kern_of in *.
  destruct (on_update_note (ep_reader e) fsem old q0 m0 (shmid_ shm) m (Z.of_nat n) (Z.of_nat (S d))
    (sy_world C) W' r') as (Hfol & Hl & Hsock & Hpc & Hv'); rewrite ?Hpath; try done; [|lia|].
  { rewrite Hcur. intros Heq%Nat2Z.inj. destruct (Hfresh Heq) as [Hs| ->]; [left; auto|by right]. }
  exists (take n m). eexists _, _.
  split; [apply (receive_runs s c r n rest m d); try done; apply Hw || apply Hrel|].
  split; [|split; [reflexivity|simpl; rewrite Hlast in Hl; injection Hl as ->; by rewrite Nat2Z.id]].
  split; [done|]. exists srv, sem, shm, p, m. unfold kern_of. cbn [with_reader sy_world sy_writer sy_cnx sy_locals sy_readers].
  assert (Hfol' := Hfol). destruct Hfol' as (rsh & q & _ & _ & _ & _ & _ & _ & _ & _ & Hst & Hkk & Hmi).
  destruct (Hst p (shmid_ shm) m) as [Hat' Hb']; [congruence|done|done|].
  injection Hsock as Es1 Es2 Es3 Es4. split; [|split].
  - apply (writer_rel_keep (kern (sy_world C)) _ _ s); try done; [apply Hpc|congruence|congruence|].
    rewrite <- Hsem, Hv'. cbn [s_sems with_sems]. do 3 f_equal. lia.
  - apply (server_rel_keep (kern (sy_world C)) _ _ _ s); try done; [intros z; by rewrite Es2|].
    intros z. simpl. rewrite lookup_insert_None. split; [by intros []|].
    intros Hz. split; [done|]. intros ->. by rewrite Hsr in Hz.
  - eapply readers_after_read; try done; [apply Hw|by rewrite Hat|].
    unfold sock_view. congruence.
Qed.

(** *** The end of a reader *)

(** The kernel after it. *)
Definition ended (c : nat) (unread : bool) (k : K) : K :=
  if bool_decide (Z.of_nat c ∈ fds k) then peer_end (Z.of_nat c) unread k else k.

Lemma ended_frame c b k :
  sem_view (ended c b k) = sem_view k /\ shm_view (ended c b k) = shm_view k /\
  fds (ended c b k) = fds k /\ file_key (ended c b k) = file_key k /\
  (forall d, out (ended c b k) d = out k d) /\ (forall d, inq (ended c b k) d = inq k d) /\
  (Z.of_nat c ∈ fds k -> peer_of (ended c b k) (Z.of_nat c) =
     Peer (p_connected (peer_of k (Z.of_nat c))) true b) /\
  forall d, d <> Z.of_nat c -> peer_of (ended c b k) d = peer_of k d.
Proof using All.
  unfold ended. case_bool_decide as Hd; [|by split_and!].
  destruct (peer_end_law (Z.of_nat c) b k Hd) as (E1 & E2 & E3 & E4 & E5 & E6 & E7 & E8). by split_and!.
Qed.

Lemma update_stream_nil pad l : length pad = 6 -> update_stream pad l = [] <-> l = [].
Proof.
  intros Hpad. destruct l as [|z l]; [done|]. split; [|done]. cbn [update_stream]. intros E.
  apply app_eq_nil in E as [E _]. pose proof (length_update_bytes (mkUpdateMsg 1 pad z) Hpad) as Hl.
  by rewrite E in Hl.
Qed.

(** What it leaves unread says whether it owed reads. *)
Lemma unread_inbox k s srv c e r :
  follows k s srv c e r -> length (um_pad (srv_update_msg_ srv)) = 6 ->
  (ep_read e <? length (out k (Z.of_nat c)))%nat = bool_decide (r_inbox r <> []).
Proof.
  intros (Hread & Hbytes & _) Hpad. apply (f_equal length) in Hbytes as Hl. rewrite length_drop in Hl.
  assert (Hn : update_stream (um_pad (srv_update_msg_ srv)) (Z.of_nat <$> r_inbox r) = [] <-> r_inbox r = []).
  { rewrite update_stream_nil by done. by destruct (r_inbox r). }
  case_bool_decide as Hb.
  - apply Nat.ltb_lt. destruct (update_stream _ _); [by destruct Hb; apply Hn|simpl in Hl; lia].
  - apply Nat.ltb_ge. destruct (r_inbox r); [|done]. simpl in Hl. lia.
Qed.

Lemma server_after_end k loc cnx s srv c e r :
  server_rel k loc cnx s srv -> s_readers s !! c = Some r -> stream_rel k s srv c e r ->
  length (um_pad (srv_update_msg_ srv)) = 6 -> c ∉ s_reset s ->
  server_rel (ended c (ep_read e <? length (out k (Z.of_nat c)))%nat k) loc cnx (end_reader c r s) srv.
Proof using All.
  intros Hsv Hr Hstr Hpad Hres. set (b := (_ <? _)%nat).
  destruct (ended_frame c b k) as (_ & _ & Ef & _ & Eo & Ei & Ec & Ed).
  assert (Hconn : forall d, p_connected (peer_of (ended c b k) d) = p_connected (peer_of k d)).
  { intros d. unfold ended. case_bool_decide as Hin; [|done].
    destruct (peer_end_law (Z.of_nat c) b k Hin) as (_ & _ & _ & _ & _ & _ & E1 & E2).
    destruct (decide (d = Z.of_nat c)) as [->|Hne]; [by rewrite E1|by rewrite E2]. }
  assert (Hne : forall d : nat, d <> c -> Z.of_nat d <> Z.of_nat c) by lia.
  split; try (by apply Hsv).
  - by apply (server_inv_keep srv _ _ k); [apply Hsv| | | |].
  - intros d Hd. rewrite Hconn. by apply Hsv.
  - cbn [s_clients end_reader with_clients with_lost with_readers s_readers s_reset]. intros d Hd.
    destruct (sv_client _ _ _ _ _ Hsv d Hd) as (Hi & Hcl & Hrs). unfold peer_closed in *. rewrite Ei.
    split; [done|]. destruct (decide (d = c)) as [->|Hdc].
    + rewrite lookup_delete_eq, Ec; [|apply (client_open _ _ _ _ _ _ Hsv);
        rewrite (sv_clients _ _ _ _ _ Hsv); by apply list_elem_of_fmap_2].
      split; [done|]. intros _. cbn [p_reset].
      assert (Hb : b = bool_decide (r_inbox r <> [])).
      { unfold stream_rel in Hstr. destruct (ep_data e).
        - by apply (unread_inbox k s srv c e r).
        - by destruct Hstr as [Hstr _]. }
      rewrite Hb. apply bool_decide_ext. destruct (decide (r_inbox r <> [])) as [Hx|Hx].
      * rewrite (bool_decide_true (_ /\ _)) by done. rewrite elem_of_cons. tauto.
      * rewrite (bool_decide_false (_ /\ _)) by tauto. tauto.
    + rewrite lookup_delete_ne, Ed by auto. split; [done|]. intros Hn. rewrite (Hrs Hn).
      apply bool_decide_ext. destruct (bool_decide (r_inbox r <> [] /\ _)); [|done].
      rewrite elem_of_cons. tauto.
  - cbn [s_readers end_reader with_clients with_lost with_readers]. intros d Hd.
    destruct (sv_pending _ _ _ _ _ Hsv d Hd) as (Ho & Hl & Ha & Hdead). unfold peer_closed in *.
    rewrite Eo, Ei. do 2 (split; [done|]). destruct (decide (d = c)) as [->|Hdc].
    + rewrite lookup_delete_eq. split; [by intros []|]. intros Hh _. rewrite Ec.
      * cbn [p_closed p_reset]. split; [done|]. unfold stream_rel in Hstr.
        destruct (ep_data e); [|destruct Hstr as (_ & _ & _ & Hw); by rewrite bool_decide_true in Hw].
        unfold b. rewrite (unread_inbox k s srv c e r Hstr Hpad). destruct Hstr as (_ & _ & Hcl).
        destruct Hcl as [Hcl|(_ & _ & _ & Hu & _)]; [by destruct (client_not_pending _ _ _ _ _ _ Hsv Hd)|].
        by rewrite Hu.
      * destruct (sv_inv _ _ _ _ _ Hsv). apply si_open, si_watched, elem_of_app. by right.
    + rewrite lookup_delete_ne, Ed by auto. done.
Qed.

Lemma end_simulated c (C C' : system K) s e :
  inv s -> simulates C s -> sy_readers C !! c = Some e -> do_end c C = Some C' ->
  exists s', run s [LEnd c] s' /\ simulates C' s' /\ sy_writer C' = sy_writer C /\
    sy_cnx C' = sy_cnx C /\ sy_readers C' = delete c (sy_readers C).
Proof using All.
  intros Hinv (Hcnx & srv & sem & shm & p & m & Hw & Hsv & (Hr & Hnone & Hdis)) He E.
  unfold do_end in E. rewrite He in E. cbn [mbind option_bind] in E. injection E as <-.
  destruct (Hr c e He) as (r & Hsr & Hrel).
  exists (end_reader c r s). split; [eapply run_cons; [done|by apply step_end|constructor]|].
  split; [|done]. split; [done|]. exists srv, sem, shm, p, m. unfold kern_of in *.
  cbn [sy_world sy_writer sy_cnx sy_locals sy_readers kern].
  fold (ended c (ep_read e <? length (out (kern (sy_world C)) (Z.of_nat c)))%nat (kern (sy_world C))).
  set (b := (_ <? _)%nat). set (k := kern (sy_world C)) in *.
  destruct (ended_frame c b k) as (Esem & [= Eb Ek Ea Em] & Ef & Efk & Eo & Ei & _).
  pose proof (sem_names_view _ _ Esem) as Esk. injection Esem as Esv _ _.
  assert (Hreset : c ∉ s_reset s).
  { intros Hx. pose proof (ci_dead _ (inv_clients _ Hinv) c Hx). congruence. }
  split; [|split].
  - apply (writer_rel_keep k _ _ s); try done; [by rewrite Ea|by rewrite Eb|].
    rewrite Esv. by apply (wr_vals _ _ _ _ _ _ _ _ Hw).
  - apply server_after_end; try done; [apply Hrel|apply Hw].
  - split; [|split].
    + intros d e' [Hne He']%lookup_delete_Some. destruct (Hr d e' He') as (r' & Hsr' & Hrel').
      exists r'. split; [simpl; by rewrite lookup_delete_ne|].
      apply (reader_rel_keep _ _ _ _ _ _ _ _ _ _ _ _ _ _ _ _ Hrel'); try done; [|apply Hrel'|].
      * intros q i mi _ Hq Hqa Hqb. rewrite Ea, Eb. split; [done|]. split; [done|]. by eexists.
      * apply (stream_rel_keep k _ s _ srv); [apply Hrel'|done|done|by rewrite Ef|done..].
    + intros d Hd. simpl. apply lookup_delete_None in Hd as [->|Hd]; [by rewrite lookup_delete_eq|].
      apply lookup_delete_None. right. by apply Hnone.
    + intros c1 c2 e1 e2 [_ H1']%lookup_delete_Some [_ H2']%lookup_delete_Some. by apply Hdis.
Qed.
End simulation.
