(* ===== verification/ServerRun.v ===== *)
(** * A turn of the server

    The labels of one turn of the loop of [client_interaction] as a run of the
    protocol, and what the turn does to the kernel, from the laws of the
    system calls: the two halves that [ServerSimulation.v] puts together. *)

From S2P Require Import Prelude Logger StdLib Posix PosixModel SysVSem SysVShm SocketProtocol.
From S2P Require Import UnixSocketServer Reader Writer SystemCalls ShmSystem.
From S2P Require Import ShmProtocol ShmInvariant ShmRefinement ShmTheorems PublishRun.

(** ** In the protocol *)

(** The clients that left with updates unread, and were notified last. *)
Definition cancels (s : st) (c : nat) : Prop := c ∈ s_reset s /\ c ∈ s_notified s.
#[export] Instance cancels_dec s c : Decision (cancels s c).
Proof. unfold cancels. apply _. Defined.
Definition leave_label (s : st) (c : nat) : label :=
  if bool_decide (cancels s c) then LCancel c else LLeave c.
Definition turn_labels (s : st) (gone acked : list nat) : list label :=
  (leave_label s <$> gone) ++ (LJoin <$> acked).

(** The state after the turn: [gone] left, [acked] joined. *)
Record after_turn (gone acked : list nat) (s s' : st) : Prop := {
  at_writer : s_writer s' = s_writer s;
  at_sems a : s_sems s = [a; 0%Z] ->
    s_sems s' = [(a - Z.of_nat (length (filter (cancels s) gone)))%Z; 0%Z];
  at_size : s_shm_size s' = s_shm_size s;
  at_segs : s_segs s' = s_segs s /\ s_cur s' = s_cur s;
  at_clients : s_clients s' = filter (fun c => c ∉ gone) (s_clients s) ++ acked;
  at_notified : s_notified s' = s_notified s;
  at_reset : s_reset s' = filter (fun c => c ∉ gone) (s_reset s);
  at_readers : s_readers s' = s_readers s }.

Section turn.
Implicit Types (s : st) (c : nat) (gone acked : list nat).

(** A client that left can be removed; the semaphores are as committed. *)
Lemma leave_step s c :
  inv s -> s_writer s = WIdle -> c ∈ s_clients s ->
  exists s1, lstep (leave_label s c) s s1 /\ after_turn [c] [] s s1.
Proof.
  intros Hinv Hw Hc. pose proof (inv_sem _ Hinv) as Hs. unfold sem_inv in Hs. rewrite Hw in Hs.
  destruct (inv_clients _ Hinv) as [_ _ _ _ _ _ Hres Hdue _]. unfold leave_label.
  assert (Hf : forall l : list nat, without c l = filter (fun d => d ∉ [c]) l).
  { intros l. apply filter_ext_in. intros d _. by rewrite list_elem_of_singleton. }
  case_bool_decide as Hcan.
  - assert (Hr : c ∈ resets s) by (apply list_elem_of_filter; unfold cancels in Hcan; tauto).
    destruct (resets s) as [|x l]; [by apply elem_of_nil in Hr|]. simpl in Hres.
    eexists. split.
    + apply (step_cancel s c [Z.of_nat (due s) - 1; 0]%Z); try done; [by unfold mutex_held; rewrite Hw|by destruct Hcan..|].
      rewrite Hs, run_read_end by (unfold SEMVMX, FD_SETSIZE in *; lia).
      destruct (Z.ltb_spec 0 (Z.of_nat (due s))); [done|]. unfold due in *. lia.
    + split; simpl; rewrite ?Hf, ?app_nil_r; try done.
      intros a. rewrite Hs, filter_cons, decide_True by done. by intros [= <-].
  - exists (drop_client c s). split; [by apply step_leave; [unfold mutex_held; rewrite Hw| |]|].
    split; simpl; rewrite ?Hf, ?app_nil_r; try done.
    intros a ->. rewrite filter_cons, decide_False by done. simpl. by rewrite Z.sub_0_r.
Qed.

Lemma leaves_run s gone :
  inv s -> s_writer s = WIdle -> NoDup gone -> gone ⊆ s_clients s ->
  exists s', run s (leave_label s <$> gone) s' /\ after_turn gone [] s s'.
Proof.
  revert s. induction gone as [|c gone IH]; intros s Hinv Hw Hnd Hsub.
  - exists s. split; [constructor|].
    split; simpl; rewrite ?app_nil_r, ?filter_all; try done;
      try (by intros; apply not_elem_of_nil). intros a ->. by rewrite Z.sub_0_r.
  - apply NoDup_cons in Hnd as [Hc Hnd].
    destruct (leave_step s c Hinv Hw) as (s1 & Hstep & [A1 A2 A3 A4 A5 A6 A7 A8]); [apply Hsub; left|].
    assert (Hcan : forall d, d ∈ gone -> cancels s1 d <-> cancels s d).
    { intros d Hd. unfold cancels. rewrite A6, A7, list_elem_of_filter, list_elem_of_singleton.
      assert (d <> c) by congruence. tauto. }
    destruct (IH s1) as (s' & Hrun & [B1 B2 B3 B4 B5 B6 B7 B8]); [|congruence|done| |].
    { apply (run_inv s [leave_label s c]); [done|]. eapply run_cons; [|done|constructor].
      unfold leave_label. by case_bool_decide. }
    { intros d Hd. rewrite A5, app_nil_r, list_elem_of_filter, list_elem_of_singleton.
      split; [congruence|]. apply Hsub. by right. }
    exists s'. split.
    + cbn [fmap list_fmap]. eapply run_cons; [|exact Hstep|].
      * unfold leave_label. by case_bool_decide.
      * replace (leave_label s <$> gone) with (leave_label s1 <$> gone); [done|].
        apply list_fmap_ext. intros i d Hd. unfold leave_label.
        rewrite (bool_decide_ext _ _ (Hcan d (list_elem_of_lookup_2 _ _ _ Hd))). done.
    + assert (Hff : forall l : list nat, filter (fun d => d ∉ gone) (filter (fun d => d ∉ [c]) l) =
        filter (fun d => d ∉ c :: gone) l).
      { intros l. rewrite list_filter_filter. apply filter_ext_in. intros d _.
        rewrite !not_elem_of_cons. pose proof (not_elem_of_nil d). tauto. }
      split; rewrite ?B1, ?B3, ?B6, ?B8; try done.
      * intros a Ha. rewrite (B2 _ (A2 a Ha)). f_equal.
        rewrite (filter_ext_in (cancels s1) (cancels s) gone Hcan), !filter_cons.
        destruct (decide (cancels s c)); cbn [length filter list_filter]; simpl; lia.
      * destruct A4, B4. split; congruence.
      * by rewrite B5, A5, !app_nil_r, Hff.
      * by rewrite B7, A7, Hff.
Qed.

Lemma joins_run s acked :
  s_writer s = WIdle -> NoDup acked -> length (s_clients s) + length acked <= FD_SETSIZE ->
  (forall c, c ∈ acked -> (c ∉ s_clients s) /\ unused (s_readers s !! c)) ->
  run s (LJoin <$> acked) (with_clients (s_clients s ++ acked) (s_notified s) (s_reset s) s).
Proof.
  revert s. induction acked as [|c acked IH]; intros s Hw Hnd Hl Hc.
  - destruct s. unfold with_clients. simpl. rewrite app_nil_r. constructor.
  - apply NoDup_cons in Hnd as [Hca Hnd]. cbn [fmap list_fmap]. simpl in Hl.
    destruct (Hc c) as [Hcc Hu]; [left|].
    eapply run_cons; [done|apply (step_join s c); try done; [by unfold mutex_held; rewrite Hw|lia]|].
    set (s1 := with_clients _ _ _ s).
    replace (with_clients _ _ _ s) with
      (with_clients (s_clients s1 ++ acked) (s_notified s1) (s_reset s1) s1)
      by (unfold s1, with_clients; simpl; by rewrite <- app_assoc).
    apply IH; try done.
    + unfold s1. simpl. rewrite length_app. simpl. lia.
    + intros d Hd. unfold s1. simpl. rewrite elem_of_app, list_elem_of_singleton.
      destruct (Hc d) as [Hdc Hdu]; [by right|]. split; [|done].
      intros [?| ->]; [done|]. done.
Qed.

(** A turn in which [gone] leave and [acked] join. *)
Lemma turn_runs s gone acked :
  inv s -> s_writer s = WIdle -> NoDup gone -> gone ⊆ s_clients s -> NoDup acked ->
  length (s_clients s) + length acked <= FD_SETSIZE + length gone ->
  (forall c, c ∈ acked -> (c ∉ s_clients s) /\ unused (s_readers s !! c)) ->
  exists s', run s (turn_labels s gone acked) s' /\ after_turn gone acked s s'.
Proof.
  intros Hinv Hw Hg Hsub Ha Hl Hc.
  destruct (leaves_run s gone Hinv Hw Hg Hsub) as (s1 & Hrun & [B1 B2 B3 B4 B5 B6 B7 B8]).
  rewrite app_nil_r in B5. eexists. split.
  - unfold turn_labels. eapply steps_app; [exact Hrun|]. apply joins_run; [congruence|done| |].
    + rewrite B5. assert (length (filter (fun c => c ∉ gone) (s_clients s)) + length gone =
        length (s_clients s)); [|lia].
      rewrite <- (filter_app_complement (fun c => c ∉ gone) (s_clients s)) at 2.
      rewrite length_app. f_equal. apply Permutation_length, NoDup_Permutation; [done| |].
      * apply NoDup_filter, (ci_nodup _ (inv_clients _ Hinv)).
      * intros c. rewrite list_elem_of_filter. split; [|intros [Hx _]; by destruct (decide (c ∈ gone))].
        intros Hx. split; [by intros Hn|by apply Hsub].
    + intros c Hca. rewrite B5, B8, list_elem_of_filter. destruct (Hc c Hca). tauto.
  - split; try done. simpl. by rewrite B5.
Qed.

Lemma turn_trace c s gone acked :
  sent c (turn_labels s gone acked) = [] /\ delivered c (turn_labels s gone acked) = [] /\
  LEnd c ∉ turn_labels s gone acked.
Proof.
  unfold turn_labels. induction gone as [|d gone IH]; cbn [fmap list_fmap app].
  - induction acked as [|d acked IH]; [by split_and!; try apply not_elem_of_nil|].
    destruct IH as (E1 & E2 & E3). cbn [fmap list_fmap app] in *. rewrite sent_cons, delivered_cons, E1, E2.
    by rewrite not_elem_of_cons.
  - destruct IH as (E1 & E2 & E3). rewrite sent_cons, delivered_cons, E1, E2, not_elem_of_cons.
    unfold leave_label. by case_bool_decide.
Qed.
End turn.

(** ** In the code *)

Section calls.
Context {K : Type} `{FileOS K} `{ErrnoOS K} `{SemOS K} `{ShmOS K} `{SockOS K} `{PeerOS K}
  `{!SemLaws K} `{!SockLaws K} `{!FrameLaws K} `{!PeerLaws K}.
Context (sem : sysVSem) (srv : UnixSocketServer) (a : Z) (k0 : K).
Hypothesis Ha : (a <= SEMVMX)%Z.
Implicit Types (k : K) (gone acked : list Z) (n : nat) (rset all : gset Z).
#[local] Abbreviation cbs := (server_cbs (K := K) sem).

(** The kernel in the middle of a turn that began in [k0]: [F] is open, the
    ends of [gone] were read, the answers of [acked] too, [n] reads were
    cancelled. *)
Record turned (F : gset Z) gone acked n k : Prop := {
  tn_fds : fds k = F;
  tn_shm : shm_view k = shm_view k0;
  tn_file : file_key k = file_key k0;
  tn_key : sem_names k = sem_names k0;
  tn_vals : sem_vals k (semid_ sem) = Some [(a - Z.of_nat n)%Z; 0%Z];
  tn_out d : d ∉ gone -> out k d = out k0 d;
  tn_inq d : d ∉ gone -> inq k d = if decide (d ∈ acked) then [] else inq k0 d;
  tn_peer d : d ∉ gone -> peer_of k d = peer_of k0 d }.

(** A call that only concerns the descriptor [it]. *)
Lemma turned_call F F' gone acked n k k' it :
  turned F gone acked n k -> sem_view k' = sem_view k -> shm_view k' = shm_view k ->
  file_key k' = file_key k -> peers_but it k k' -> (forall d, d <> it -> out k' d = out k d) ->
  fds k' = F' -> turned F' (gone ++ [it]) acked n k'.
Proof.
  intros [T1 T2 T3 T4 T5 T6 T7 T8] Es Eu Ef Ep Eo EF.
  pose proof (sem_names_view _ _ Es) as Ek. injection Es as Ev _ _.
  split; rewrite ?Ev, ?Ek, ?Eu, ?Ef; try done; intros d;
    rewrite not_elem_of_app, list_elem_of_singleton; intros [Hg Hd]; destruct (Ep d Hd) as [E1 E2];
    rewrite ?Eo, ?E1, ?E2 by done; auto.
Qed.

Lemma turned_drop F gone gone' acked n k :
  turned F gone acked n k -> gone ⊆ gone' -> turned F gone' acked n k.
Proof. intros [T1 T2 T3 T4 T5 T6 T7 T8] Hsub. split; auto. Qed.

(** A reset of a client that was notified is followed by a cancellation. *)
Definition cancelled (c : Z) : Prop := p_reset (peer_of k0 c) = true /\ c ∈ clients_notified_ srv.
#[export] Instance cancelled_dec c : Decision (cancelled c).
Proof. unfold cancelled. apply _. Defined.

Lemma cancel_turned F gone acked n :
  kpartial (turned F gone acked n) (cancel_commited_reader sem)
    (fun _ => turned F gone acked (S n)).
Proof using All.
  intros w r w' Hw E. unfold cancel_commited_reader in E.
  apply bind_inv in E as (r1 & w1 & E1 & E2).
  assert (Hk : kern w' = kern w1) by (by destruct (r1 =? -1)%Z; injection E2 as _ <-). rewrite Hk.
  clear E2 Hk. unfold sys_wait in E1. destruct Hw as [T1 T2 T3 T4 T5 T6 T7 T8].
  pose proof (run_read_end (a - Z.of_nat n) 0 ltac:(lia)) as Hr.
  destruct (Z.ltb_spec 0 (a - Z.of_nat n)).
  - destruct (semop_done _ _ _ _ _ T5 Hr) as (k' & Es & Hv & _). rewrite Es in E1.
    injection E1 as <- <-. simpl. destruct (semop_frame _ _ _ _ _ Es) as [Hu [= S1 S2 S3 S4]].
    destruct (peer_semop _ _ _ _ _ Es) as [Hkey Hp].
    split; rewrite ?S1, ?S2, ?S3, ?S4, ?Hu, ?Hkey, ?Hp; try done. rewrite Hv. do 2 f_equal. lia.
  - by rewrite (semop_sleep _ _ _ _ T5 Hr) in E1.
Qed.

Lemma kp_same {A} (P : K -> Prop) (m : M (world K) A) : keeps (fun k => k) m -> kpartial P m (fun _ => P).
Proof. intros Hm w b w' Hw E. by rewrite (Hm (kern w) w b w' eq_refl E). Qed.

(** A call that keeps the state, then another. *)
Lemma kp_skip {B} (P : K -> Prop) (m : M (world K) unit) (f : M (world K) B) R :
  keeps (fun k => k) m -> kpartial P f R -> kpartial P (m;; f) R.
Proof. intros Hm Hf. by apply (kp_bind P m (fun _ => f) (fun _ => P)); [apply kp_same|]. Qed.

Lemma keeps_errno : keeps (fun k : K => k) get_errno.
Proof. by intros x w b w' Hw [= <- <-]. Qed.
#[local] Hint Resolve keeps_errno : shm.

(** The end of a client is read. *)
Lemma read_client_turned F gone acked n it :
  it ∈ F -> it ∉ gone -> it ∉ acked -> inq k0 it = [] -> peer_closed k0 it = true ->
  kpartial (turned F gone acked n) (read_client cbs srv it)
    (fun _ => turned F (gone ++ [it]) acked (n + if decide (cancelled it) then 1 else 0)).
Proof using All.
  intros HF Hg Hack Hin Hcl. unfold read_client.
  eapply (kp_bind _ _ _ (fun r k => r = ((if p_reset (peer_of k0 it) then -1 else 0)%Z, []) /\
    turned F (gone ++ [it]) acked n k)).
  - apply kp_sys. intros k r k' Hk E. destruct Hk as [T1 T2 T3 T4 T5 T6 T7 T8] eqn:EH. clear EH.
    assert (Hi : inq k it = []) by (rewrite T7 by done; by destruct (decide (it ∈ acked))).
    pose proof (recv_closed it sizeof_connect k) as Hr. unfold peer_closed in *.
    rewrite T8 in Hr by done. specialize (Hr ltac:(by rewrite T1) Hi Hcl). rewrite E in Hr. split; [done|].
    pose proof (recv_frame it sizeof_connect k) as (F1 & F2 & F3 & F4 & _). rewrite E in F1, F2, F3, F4.
    destruct r as [r bs]. destruct (recv_law _ _ _ _ _ _ E) as (F5 & F6 & _).
    apply (turned_call F _ _ _ _ k); try done. by rewrite F5.
  - intros [nread bs]. apply kp_pure. intros [= -> ->].
    destruct (p_reset (peer_of k0 it)) eqn:Hb.
    + cbn [Z.ltb Z.compare]. eapply kp_bind; [apply kp_same, keeps_errno|]. intros err. cbn beta.
      apply kp_skip; [auto with shm|].
      destruct (decide (it ∈ clients_notified_ srv)) as [Hn|Hn].
      * rewrite bool_decide_true, (decide_True (P := cancelled it)) by done. cbn [when].
        apply kp_skip; [auto with shm|]. rewrite Nat.add_1_r. apply cancel_turned.
      * rewrite bool_decide_false, (decide_False (P := cancelled it)) by (done || by intros []). rewrite Nat.add_0_r. by apply kp_ret.
    + cbn [Z.ltb Z.eqb Z.compare]. rewrite (decide_False (P := cancelled it)), Nat.add_0_r by (intros [Hx _]; congruence).
      apply kp_same. auto with shm.
Qed.

Lemma close_turned F gone acked n it :
  it ∈ gone -> kpartial (turned F gone acked n) (sys (close it)) (fun _ => turned (F ∖ {[it]}) gone acked n).
Proof using All.
  intros Hg. apply kp_sys. intros k r k' Hk E. apply (turned_drop _ (gone ++ [it])).
  - pose proof (close_frame it k) as (F1 & F2 & F3 & F4). rewrite E in F1, F2, F3, F4.
    destruct (close_law _ _ _ _ E) as [F5 F6]. apply (turned_call F _ _ _ _ k); try done.
    by rewrite F5, (tn_fds _ _ _ _ _ Hk).
  - intros d. rewrite elem_of_app, list_elem_of_singleton. by intros [?| ->].
Qed.

(** The loop over the clients. *)
Lemma disconnections_turned rset clients acc all F gone acked n :
  NoDup clients ->
  (forall c, c ∈ clients -> c ∈ rset ->
     c ∈ F /\ (c ∉ gone) /\ (c ∉ acked) /\ inq k0 c = [] /\ peer_closed k0 c = true) ->
  kpartial (turned F gone acked n) (check_disconnections cbs srv rset clients acc all)
    (fun '(rem, all') k => let g := filter (fun c => c ∈ rset) clients in
       (rem = acc ++ g /\ all' = all ∖ list_to_set g) /\
       turned (F ∖ list_to_set g) (gone ++ g) acked (n + length (filter cancelled g)) k).
Proof using All.
  revert acc all F gone n. induction clients as [|it clients IH]; intros acc all F gone n Hnd Hc.
  - apply kp_ret. intros k Hk. cbn [filter list_filter list_to_set length]. rewrite !app_nil_r, Nat.add_0_r.
    split; [by split; [|set_solver]|]. by replace (F ∖ ∅) with F by set_solver.
  - apply NoDup_cons in Hnd as [Hit Hnd]. cbn [check_disconnections]. rewrite filter_cons.
    unfold FD_ISSET, FD_CLR. case_bool_decide as Hr.
    + rewrite decide_True by done. destruct (Hc it) as (H1' & H2' & H3' & H4' & H5'); [left|done|].
      eapply kp_bind; [by apply read_client_turned|]. intros []. cbn beta.
      eapply kp_bind; [apply close_turned, elem_of_app; right; by apply list_elem_of_singleton|]. intros r. cbn beta.
      eapply kp_conseq; [apply IH; [done|]|done|].
      * intros c Hin Hcr. destruct (Hc c) as (J1 & J2 & J3 & J4 & J5); [by right|done|].
        assert (c <> it) by (by intros ->). rewrite not_elem_of_app, list_elem_of_singleton. set_solver.
      * intros [rem all'] k ([-> ->] & Hk). cbn zeta in *. set (g := filter _ clients) in *.
        rewrite <- !app_assoc in *. split; [by split; [|set_solver]|].
        rewrite filter_cons. cbn [list_to_set].
        replace (F ∖ ({[it]} ∪ list_to_set g)) with (F ∖ {[it]} ∖ list_to_set g) by set_solver.
        destruct (decide (cancelled it)); cbn [length] in *.
        -- by replace (n + S (length (filter cancelled g))) with (n + 1 + length (filter cancelled g)) by lia.
        -- by replace (n + length (filter cancelled g)) with (n + 0 + length (filter cancelled g)) by lia.
    + rewrite decide_False by done. apply IH; [done|]. intros c Hin. apply Hc. by right.
Qed.

#[local] Ltac mem :=
  intros; repeat match goal with H : _ ∈ _ |- _ => revert H end;
  rewrite ?elem_of_app, ?list_elem_of_singleton; tauto.

(** The loop over the pending clients: those that have answered join, those
    whose end is there are dropped, their descriptor closed unless the read
    failed. *)
Definition dropped (c : Z) : Prop := inq k0 c = [].
#[export] Instance dropped_dec c : Decision (dropped c).
Proof. unfold dropped. apply _. Defined.

(** What the first read of a pending client gives. *)
Lemma ack_read F gone acked n it :
  it ∈ F -> it ∉ gone -> it ∉ acked -> length (inq k0 it) <= sizeof_connect ->
  inq k0 it <> [] \/ peer_closed k0 it = true ->
  kpartial (turned F gone acked n) (sys (recv it sizeof_connect))
    (fun r k => (if decide (dropped it) then (r.1 <= 0)%Z /\ r.2 = [] else (0 < r.1)%Z) /\
      turned F (if decide (dropped it) then gone ++ [it] else gone)
               (if decide (dropped it) then acked else acked ++ [it]) n k).
Proof using All.
  intros H1' H2' H3' H4' H5'.
  apply kp_sys. intros k r k' Hk E. destruct Hk as [T1 T2 T3 T4 T5 T6 T7 T8] eqn:EH. clear EH.
  assert (Hi : inq k it = inq k0 it) by (rewrite T7 by done; by rewrite decide_False).
  pose proof (recv_frame it sizeof_connect k) as (F1 & F2 & F3 & F4 & F4'). rewrite E in F1, F2, F3, F4, F4'.
  cbn [snd] in F1, F2, F3, F4, F4'.
  destruct r as [r bs]. destruct (recv_law _ _ _ _ _ _ E) as (F5 & F6 & _). unfold dropped in *.
  destruct (decide (inq k0 it = [])) as [Hd|Hd].
  - destruct H5' as [H5'|H5']; [done|]. pose proof (recv_closed it sizeof_connect k) as Hrc.
    unfold peer_closed in *. rewrite T8 in Hrc by done.
    specialize (Hrc ltac:(by rewrite T1) ltac:(by rewrite Hi) H5'). rewrite E in Hrc.
    injection Hrc as -> ->. split; [by destruct (p_reset _)|].
    apply (turned_call F _ _ _ _ k); try done. by rewrite F5.
  - destruct (recv_ready it sizeof_connect k) as (k1 & E1 & Hq1);
      [by rewrite T1|by rewrite Hi|unfold sizeof_connect; lia|].
    rewrite E in E1. injection E1 as -> -> <-. rewrite Hi, take_ge by done. cbn [fst snd]. split.
    { destruct (inq k0 it); [done|simpl; lia]. }
    rewrite Hi, drop_ge in Hq1 by done. pose proof (sem_names_view _ _ F1) as Ek.
    injection F1 as Ev _ _.
    split; rewrite ?F2, ?F3, ?F5, ?F6, ?Ev, ?Ek; try done.
    + intros d Hdg. rewrite F6. auto.
    + intros d Hdg. destruct (decide (d = it)) as [->|Hne].
      * rewrite decide_True; [done|]. apply elem_of_app. right. by apply list_elem_of_singleton.
      * destruct (F4 d Hne) as [-> _]. rewrite T7 by done. apply decide_ext.
        rewrite elem_of_app, list_elem_of_singleton. tauto.
    + intros d Hdg. destruct (decide (d = it)) as [->|Hne]; [rewrite F4' by (by rewrite Hi); auto|].
      destruct (F4 d Hne) as [_ ->]. auto.
Qed.

Lemma acks_turned rset pending clients acc all F gone acked n :
  NoDup pending ->
  (forall c, c ∈ pending -> c ∈ rset -> c ∈ F /\ (c ∉ gone) /\ (c ∉ acked) /\
     length (inq k0 c) <= sizeof_connect /\ (inq k0 c <> [] \/ peer_closed k0 c = true)) ->
  kpartial (turned F gone acked n) (check_acks cbs rset pending clients acc all)
    (fun '(clients', rem, all') k => let g := filter (fun c => c ∈ rset) pending in
       let a' := filter (fun c => ~ dropped c) g in let d' := filter dropped g in
       exists closed, closed ⊆ d' /\ clients' = clients ++ a' /\ rem = acc ++ g /\
         all' = all ∖ list_to_set closed /\
         turned (F ∖ list_to_set closed) (gone ++ d') (acked ++ a') n k).
Proof using All.
  revert clients acc all F gone acked. induction pending as [|it pending IH];
    intros clients acc all F gone acked Hnd Hc.
  - apply kp_ret. intros k Hk. exists []. cbn [filter list_filter list_to_set]. rewrite !app_nil_r.
    split; [done|]. split; [done|]. split; [done|]. split; [set_solver|].
    by replace (F ∖ ∅) with F by set_solver.
  - apply NoDup_cons in Hnd as [Hit Hnd]. cbn [check_acks]. rewrite filter_cons.
    unfold FD_ISSET, FD_CLR.
    case_bool_decide as Hr; [|rewrite decide_False by done; apply IH; [done|intros c Hin; apply Hc; by right]].
    rewrite decide_True by done. destruct (Hc it) as (H1' & H2' & H3' & H4' & H5'); [left|done|].
    set (g := filter (fun c => c ∈ rset) pending). cbn zeta. rewrite !filter_cons.
    assert (Hcs : forall (gone' acked' : list Z) (F' : gset Z), (forall c, c ∈ pending -> c ∈ F -> c ∈ F') ->
      (forall c, c ∈ gone' -> c ∈ gone \/ c = it) -> (forall c, c ∈ acked' -> c ∈ acked \/ c = it) ->
      forall c, c ∈ pending -> c ∈ rset -> c ∈ F' /\ (c ∉ gone') /\ (c ∉ acked') /\
        length (inq k0 c) <= sizeof_connect /\ (inq k0 c <> [] \/ peer_closed k0 c = true)).
    { intros gone' acked' F' HF' Hg' Ha' c Hin Hcr.
      destruct (Hc c) as (J1 & J2 & J3 & J4 & J5); [by right|done|]. assert (c <> it) by (by intros ->).
      split; [auto|]. split; [intros Hx; by destruct (Hg' c Hx)|]. split; [intros Hx; by destruct (Ha' c Hx)|done]. }
    eapply kp_bind; [by apply ack_read|].
    intros [nread bs]. apply kp_pure. destruct (decide (dropped it)) as [Hd|Hd]; cbn [fst snd].
    + intros [Hle ->]. rewrite (decide_False (P := ~ dropped it)) by tauto.
      destruct (Z.ltb_spec nread 0); [|destruct (Z.eqb_spec nread 0); [|lia]].
      * apply kp_skip; [auto with shm|].
        eapply kp_conseq; [apply (IH clients (acc ++ [it]) all F (gone ++ [it]) acked Hnd);
          apply Hcs; mem|done|].
        intros [[cl rem] all'] k (closed & Hsub & -> & -> & -> & Hk). exists closed.
        rewrite <- !app_assoc in *. split; [intros c Hcc; right; by apply Hsub|]. done.
      * apply kp_skip; [auto with shm|].
        eapply kp_bind; [apply close_turned; mem|]. intros r. cbn beta.
        eapply kp_conseq; [apply (IH clients (acc ++ [it]) (all ∖ {[it]}) (F ∖ {[it]}) (gone ++ [it])
          acked Hnd); apply Hcs; [|mem..]|done|].
        { intros c Hin HcF. apply elem_of_difference. split; [done|].
          intros Hx%elem_of_singleton. by subst. }
        intros [[cl rem] all'] k (closed & Hsub & -> & -> & -> & Hk). exists (it :: closed).
        rewrite <- !app_assoc in *.
        assert (Hd2 : forall X : gset Z, X ∖ list_to_set (it :: closed) = X ∖ {[it]} ∖ list_to_set closed)
          by (intros X; cbn [list_to_set]; set_solver).
        rewrite !Hd2. split; [|done]. intros c [->|Hcc]%elem_of_cons; [left|right; by apply Hsub].
    + intros Hlt. rewrite (decide_True (P := ~ dropped it)) by done.
      destruct (Z.ltb_spec nread 0); [lia|]. destruct (Z.eqb_spec nread 0); [lia|].
      cbn [server_cbs on_connect_cb_ call_if]. apply kp_skip; [apply keeps_ret|].
      eapply kp_conseq; [apply (IH (clients ++ [it]) (acc ++ [it]) all F gone (acked ++ [it]) Hnd);
        apply Hcs; mem|done|].
      intros [[cl rem] all'] k (closed & Hsub & -> & -> & -> & Hk). exists closed.
      rewrite <- !app_assoc in *. done.
Qed.

(** *** The turn *)

Context (cnx : onConnectData) (loc : locals).
Hypothesis Hinv : server_inv srv loc k0.
Hypothesis Hv : sem_vals k0 (semid_ sem) = Some [a; 0%Z].
Hypothesis Hconn : forall c, c ∈ clients_ srv ++ pending_clients_ srv -> p_connected (peer_of k0 c) = true.
Hypothesis Hclients : forall c, c ∈ clients_ srv -> inq k0 c = [].
Hypothesis Hpending : forall c, c ∈ pending_clients_ srv -> length (inq k0 c) <= sizeof_connect.

(** Nothing but the descriptor [c] is touched. *)
Definition touches (c : Z) k : Prop :=
  sem_view k = sem_view k0 /\ shm_view k = shm_view k0 /\ file_key k = file_key k0 /\
  peers_but c k0 k /\ forall d, d <> c -> out k d = out k0 d.

(** What a turn does. *)
Inductive turn_outcome : UnixSocketServer -> locals -> K -> Prop :=
| TNothing c k :                       (* no connection was accepted *)
    touches c k -> ((c < 0)%Z /\ fds k = fds k0) \/
                   (c ∉ fds k0) /\ fds k = fds k0 ∪ {[c]} /\ out k c = [] ->
    turn_outcome srv loc k
| TAccept c k :                        (* [c] was, and it is greeted *)
    touches c k -> (0 <= c)%Z -> c ∉ fds k0 -> fds k = fds k0 ∪ {[c]} ->
    out k c = connect_bytes cnx -> peer_closed k c = false -> p_connected (peer_of k c) = true ->
    server_inv (with_sets (clients_ srv) (clients_notified_ srv)
                  (set_insert c (pending_clients_ srv)) srv)
      (Locals ({[c]} ∪ allset loc) (if (maxfd loc <? c)%Z then c else maxfd loc)) k ->
    turn_outcome (with_sets (clients_ srv) (clients_notified_ srv)
                    (set_insert c (pending_clients_ srv)) srv)
      (Locals ({[c]} ∪ allset loc) (if (maxfd loc <? c)%Z then c else maxfd loc)) k
| TReady rset closed all k :           (* the ready clients leave or join *)
    let gone := filter (fun c => c ∈ rset) (clients_ srv) in
    let g := filter (fun c => c ∈ rset) (pending_clients_ srv) in
    let acked := filter (fun c => ~ dropped c) g in
    let srv' := with_sets (filter (fun c => c ∉ rset) (clients_ srv) ++ acked)
      (clients_notified_ srv) (foldl (fun p it => set_erase it p) (pending_clients_ srv) g) srv in
    turned (fds k0 ∖ list_to_set gone ∖ list_to_set closed) (gone ++ filter dropped g) acked
      (length (filter cancelled gone)) k ->
    (forall c, c ∈ rset -> c ∈ clients_ srv ++ pending_clients_ srv ->
       inq k0 c <> [] \/ peer_closed k0 c = true) ->
    server_inv srv' (Locals all (maxfd loc)) k ->
    turn_outcome srv' (Locals all (maxfd loc)) k.

Lemma touches_refl c k : sem_view k = sem_view k0 -> shm_view k = shm_view k0 ->
  file_key k = file_key k0 -> (forall d, inq k d = inq k0 d /\ peer_of k d = peer_of k0 d) ->
  (forall d, out k d = out k0 d) -> touches c k.
Proof. intros E1 E2 E3 E4 E5. do 3 (split; [done|]). split; [intros d _; apply E4|intros d _; apply E5]. Qed.

Lemma touches_send c bs k r k' : touches c k -> send c bs k = (r, k') -> touches c k'.
Proof using All.
  intros (E1 & E2 & E3 & E4 & E5) E. destruct (send_frame _ _ _ _ _ E) as [Eu Es].
  pose proof (peer_send c bs k) as [Ef Ep]. rewrite E in Ef, Ep. cbn [snd] in Ef, Ep.
  split; [congruence|]. split; [congruence|]. split; [congruence|]. split.
  - intros d Hd. destruct (E4 d Hd) as [<- <-]. apply Ep.
  - intros d Hd. rewrite <- E5 by done. destruct (send_law _ _ _ _ _ E) as [_ [[_ Ho]|(_ & _ & _ & _ & Ho)]];
      [by rewrite Ho|by apply Ho].
Qed.

Lemma accept_outcome :
  kpartial (fun k => (forall c, touches c k) /\ fds k = fds k0)
    (accept_client cnx srv loc) (fun '(srv', loc') k => turn_outcome srv' loc' k).
Proof using All.
  unfold accept_client.
  eapply (kp_bind _ _ _ (fun c k => touches c k /\
    ((c < 0)%Z /\ fds k = fds k0 \/ (c ∉ fds k0) /\ fds k = fds k0 ∪ {[c]} /\ out k c = [] /\
       (0 <= c)%Z /\ p_connected (peer_of k c) = true))).
  { apply kp_sys. intros k c k' [Ht Hf] E. destruct (Ht c) as (E1 & E2 & E3 & E4 & E5).
    pose proof (accept_frame (srv_fd_ srv) k) as F. rewrite E in F. destruct F as (F1 & F2 & F3 & F4 & F5).
    assert (Hp : peers_but c k0 k') by (intros d Hd; destruct (F4 d Hd) as [-> ->]; by apply E4).
    destruct (accept_law _ _ _ _ E) as [(Hc & Hfd & Ho)|(Hc & Hn & Hfd & Ho & Hod)].
    - split; [|left; by rewrite Hfd]. split; [congruence|]. split; [congruence|]. split; [congruence|].
      split; [done|]. intros d Hd. rewrite Ho. by apply E5.
    - rewrite Hf in Hn, Hfd. split; [|right; split_and!; auto]. split; [congruence|]. split; [congruence|].
      split; [congruence|]. split; [done|]. intros d Hd. rewrite Hod by done. by apply E5. }
  intros c. apply kp_skip.
  { apply keeps_when, keeps_bind; [apply keeps_errno|]. intros err. apply keeps_log. }
  eapply (kp_bind _ _ _ (fun r k => touches c k /\
    (r = (-1)%Z /\ ((c < 0)%Z /\ fds k = fds k0 \/ (c ∉ fds k0) /\ fds k = fds k0 ∪ {[c]} /\ out k c = []) \/
     r <> (-1)%Z /\ (0 <= c)%Z /\ (c ∉ fds k0) /\ fds k = fds k0 ∪ {[c]} /\ out k c = connect_bytes cnx /\
       peer_closed k c = false /\ p_connected (peer_of k c) = true))).
  { apply kp_sys. intros k r k' [Ht Hc] E. split; [by apply (touches_send c (connect_bytes cnx) k r)|].
    destruct (send_law _ _ _ _ _ E) as (Hf & Hr). pose proof (peer_send c (connect_bytes cnx) k) as [_ Ep].
    rewrite E in Ep. cbn [snd] in Ep.
    destruct Hr as [[-> Ho]|(Hr & Hc0 & Hin & Ho & _)].
    - left. split; [done|]. rewrite Hf, Ho. destruct Hc as [Hc|(Hc1 & Hc2 & Hc3 & _)]; [by left|by right].
    - right. split; [lia|]. split; [done|]. destruct Hc as [[Hc _]|(Hc1 & Hc2 & Hc3 & _ & Hc4)]; [lia|].
      split; [done|]. split; [by rewrite Hf|]. split; [by rewrite Ho, Hc3|].
      unfold peer_closed. destruct (Ep c) as [_ ->]. split; [|done].
      destruct (p_closed (peer_of k c)) eqn:Hcl; [|done].
      pose proof (send_closed c (connect_bytes cnx) k Hcl) as Hs. rewrite E in Hs. simpl in Hs. lia. }
  intros r. cbn beta. destruct (Z.eqb_spec r (-1)) as [->|Hne].
  - eapply kp_bind; [apply kp_same, keeps_errno|]. intros err. apply kp_skip; [apply keeps_log|].
    apply kp_ret. intros k [Ht [[_ Hc]|[Hx _]]]; [|done]. by apply (TNothing c).
  - intros w0 [srv' loc'] w' [Ht [[Hx _]|(_ & Hc0 & Hcn & Hf & Ho & Hcl & Hco)]] E; [done|].
    unfold FD_SET in E. destruct ((0 <=? c)%Z && (c <? FD_SETSIZE_Z)%Z) eqn:Hlim; [|done].
    cbn in E. injection E as <- <- <-. apply andb_true_iff in Hlim as [_ Hlim%Z.ltb_lt].
    assert (Hi : server_inv srv loc (kern w0)) by (destruct Hinv; split; try done; rewrite Hf; by apply union_subseteq_l').
    apply TAccept; try done. apply server_inv_accept; try done.
    + intros Hx. apply Hcn. by apply (si_open _ _ _ Hinv).
    + rewrite Hf. by apply elem_of_union_r, elem_of_singleton.
Qed.

(** The loops over the ready clients. *)
Lemma ready_outcome rset :
  srv_fd_ srv ∉ rset ->
  (forall c, c ∈ rset -> c ∈ clients_ srv ++ pending_clients_ srv ->
     inq k0 c <> [] \/ peer_closed k0 c = true) ->
  kpartial (turned (fds k0) [] [] 0)
    ('(to_remove, allset1) ← check_disconnections cbs srv rset (clients_ srv) [] (allset loc);
     clients1 ← remove_clients to_remove (clients_ srv);
     '(clients2, to_remove2, allset2) ←
       check_acks cbs rset (pending_clients_ srv) clients1 [] allset1;
     let pending2 := foldl (fun p it => set_erase it p) (pending_clients_ srv) to_remove2 in
     mret (with_sets clients2 (clients_notified_ srv) pending2 srv, Locals allset2 (maxfd loc)))
    (fun '(srv', loc') k => turn_outcome srv' loc' k).
Proof using All.
  intros Hl Hsound. destruct Hinv as [Icl Ip Idis [Il Il'] Iw Iop Ib] eqn:EI. clear EI.
  assert (Hopen : forall c, c ∈ clients_ srv ++ pending_clients_ srv -> c ∈ fds k0)
    by (intros c Hc; by apply Iop, Iw).
  eapply kp_bind; [apply (disconnections_turned rset (clients_ srv) [] (allset loc) (fds k0) [] [] 0 Icl)|].
  { intros c Hc Hr. split; [apply Hopen, elem_of_app; by left|]. do 2 (split; [apply not_elem_of_nil|]).
    split; [by apply Hclients|]. destruct (Hsound c Hr) as [Hx|Hx]; [apply elem_of_app; by left| |done].
    by destruct Hx; apply Hclients. }
  intros [rem all1]. cbn beta iota zeta. rewrite !app_nil_l.
  set (gone := filter (fun c => c ∈ rset) (clients_ srv)). apply kp_pure. intros [-> ->].
  eapply kp_bind.
  { eapply kt_partial, (remove_clients_spec gone (clients_ srv)); [done|by apply NoDup_filter|].
    intros c Hc. apply list_elem_of_filter in Hc. tauto. }
  intros cl. cbn beta. apply kp_pure. intros ->.
  rewrite (filter_ext_in (fun c => c ∉ gone) (fun c => c ∉ rset) (clients_ srv)).
  2: { intros c Hc. unfold gone. rewrite list_elem_of_filter. tauto. }
  eapply kp_bind; [apply acks_turned; [by apply set_ok_nodup|]|].
  { intros c Hc Hr. assert (Hng : c ∉ gone).
    { intros Hx. apply list_elem_of_filter in Hx as [_ Hx]. by apply (Idis c). }
    split; [apply elem_of_difference; split; [apply Hopen, elem_of_app; by right|by rewrite elem_of_list_to_set]|].
    split; [done|]. split; [apply not_elem_of_nil|]. split; [by apply Hpending|].
    apply Hsound; [done|]. apply elem_of_app. by right. }
  intros [[cl2 rem2] all2]. cbn beta iota zeta. rewrite !app_nil_l.
  set (g := filter (fun c => c ∈ rset) (pending_clients_ srv)). apply kp_ret. intros k (closed & Hclosed & -> & -> & -> & Hk).
  apply (TReady rset closed); fold gone g; [done|done|].
  assert (Hd : filter dropped g ⊆ g) by (intros c Hc; apply list_elem_of_filter in Hc; tauto).
  apply (server_inv_turn srv loc k0); try done.
  - apply sublist_filter.
  - by etrans.
  - intros c Hc Hc'. apply Hclosed in Hc'. apply list_elem_of_filter in Hc', Hc. tauto.
  - apply Hk.
Qed.

Lemma turn_cases :
  kpartial (fun k => k = k0) (interaction_turn cbs cnx srv loc)
    (fun '(srv', loc') k => turn_outcome srv' loc' k).
Proof using All.
  unfold interaction_turn.
  eapply (kp_bind _ _ _ (fun r k => ((0 <= r.1)%Z -> forall c, c ∈ r.2 ->
      c ∈ clients_ srv ++ pending_clients_ srv -> inq k0 c <> [] \/ peer_closed k0 c = true) /\
    (forall c, touches c k) /\ turned (fds k0) [] [] 0 k)).
  { apply kp_sys. intros k [r rs] k' -> E.
    pose proof (select_frame (allset loc) k0) as (F1 & F2 & F3 & F4). rewrite E in F1, F2, F3, F4.
    cbn [fst snd] in *. destruct (select_law _ _ _ _ _ E) as (Hf & Ho & _). split; [|split].
    - intros Hr c Hc Hin. apply (select_sound _ _ _ _ _ c E Hr Hc). by apply Hconn.
    - intros c. apply touches_refl; try done. intros d. by rewrite Ho.
    - pose proof (sem_names_view _ _ F1) as Ek. assert (F1' := F1). injection F1' as Ev _ _. split; try done.
      + rewrite Ev, Hv. by rewrite Z.sub_0_r.
      + intros d _. by rewrite Ho.
      + intros d _. destruct (F4 d) as [-> _]. by destruct (decide (d ∈ [])) as [Hx%elem_of_nil|].
      + intros d _. by destruct (F4 d) as [_ ->]. }
  intros [r rset]. cbn [fst snd]. apply kp_pure. intros Hsound.
  destruct (Z.ltb_spec r 0) as [Hr|Hr].
  { eapply kp_bind; [apply kp_same, keeps_errno|]. intros err. cbn beta. apply kp_skip; [apply keeps_log|].
    apply kp_ret. intros k [Ht Hk]. apply (TNothing (-1)); [done|]. left. split; [lia|]. apply Hk. }
  unfold FD_ISSET. case_bool_decide as Hl.
  - eapply kp_conseq; [apply accept_outcome|intros k [Ht Hk]; split; [done|apply Hk]|done].
  - eapply kp_conseq; [apply (ready_outcome rset Hl (Hsound Hr))|by intros k [_ Hk]|done].
Qed.
End calls.
