(* ===== verification/ServerSimulation.v ===== *)
(** * The server's thread and new readers run as the protocol says

    A turn of the loop of [client_interaction], the members that a new reader
    attaches, and its answer to the greeting, as runs of [ShmProtocol.v]. *)

From S2P Require Import Prelude Logger StdLib Posix PosixModel SysVSem SysVShm SocketProtocol.
From S2P Require Import UnixSocketServer UnixSocketClient ServerTheorems Reader ReaderTheorems.
From S2P Require Import Writer WriterTheorems SystemCalls ShmSystem.
From S2P Require Import ShmProtocol ShmInvariant ShmRefinement ShmTheorems PublishRun.
From S2P Require Import ShmSimulation ServerRun.

(** ** Lists of descriptors *)

Lemma filter_fmap {A B} (f : A -> B) (P : B -> Prop) `{forall x, Decision (P x)} (l : list A) :
  filter P (f <$> l) = f <$> filter (fun x => P (f x)) l.
Proof.
  induction l as [|x l IH]; [done|]. cbn [fmap list_fmap]. rewrite !filter_cons.
  destruct (decide (P (f x))); cbn [fmap list_fmap]; [f_equal|]; apply IH.
Qed.

Lemma of_to_nat (l : list Z) : (forall z, z ∈ l -> (0 <= z)%Z) -> Z.of_nat <$> (Z.to_nat <$> l) = l.
Proof.
  induction l as [|z l IH]; intros Hl; [done|]. cbn [fmap list_fmap].
  rewrite Z2Nat.id by (apply Hl; left). f_equal. apply IH. intros x Hx. apply Hl. by right.
Qed.

Lemma elem_of_to_nat (l : list Z) c : (forall z, z ∈ l -> (0 <= z)%Z) ->
  c ∈ Z.to_nat <$> l <-> Z.of_nat c ∈ l.
Proof.
  intros Hl. rewrite <- (of_to_nat l Hl) at 2. rewrite (list_elem_of_fmap _ _ (Z.of_nat c)). split.
  - by exists c.
  - intros (d & Hd & Hin). by apply Nat2Z.inj in Hd as ->.
Qed.

(** Descriptors that select(2) can watch are few. *)
Lemma watched_length (l : list Z) :
  NoDup l -> (forall z, z ∈ l -> (0 <= z < FD_SETSIZE_Z)%Z) -> length l <= FD_SETSIZE.
Proof.
  intros Hnd Hl. transitivity (length (seqZ 0 FD_SETSIZE_Z)); [|by rewrite length_seqZ].
  apply submseteq_length, NoDup_submseteq; [done|]. intros z Hz. apply elem_of_seqZ.
  specialize (Hl z Hz). lia.
Qed.

Section simulation.
Context {K : Type} `{FileOS K} `{ErrnoOS K} `{SemOS K} `{ShmOS K} `{SockOS K} `{PeerOS K}
  `{!SemLaws K} `{!ShmLaws K} `{!SockLaws K} `{!FileLaws K} `{!FrameLaws K} `{!PeerLaws K}.
Implicit Types (k : K) (s : st) (srv : UnixSocketServer).

(** The readers when only sockets and the server changed. *)
Lemma readers_rel_stream k k' rs s s' srv srv' cnx semid shm p :
  readers_rel k rs s srv cnx semid shm p -> shm_view k' = shm_view k -> file_key k' = file_key k ->
  s_cur s' = s_cur s -> s_readers s' = s_readers s ->
  (forall c e r, s_readers s !! c = Some r -> stream_rel k s srv c e r -> stream_rel k' s' srv' c e r) ->
  readers_rel k' rs s' srv' cnx semid shm p.
Proof.
  intros (Hr & Hnone & Hdis) [= Eb Ek Ea Em] Ef Ec Er Hs. split; [|split; [by rewrite Er|done]].
  intros c e He. destruct (Hr c e He) as (r & Hsr & Hrel). exists r. split; [by rewrite Er|].
  apply (reader_rel_keep _ _ _ _ _ _ _ _ _ _ _ _ _ _ _ _ Hrel); try done; [by rewrite Ec| |apply Hrel|].
  - intros q i m _ Hq Hqa Hqb. rewrite Ea, Eb. split; [done|]. split; [done|]. by eexists.
  - apply Hs; [done|apply Hrel].
Qed.

Lemma writer_rel_sock k k' w s s' srv srv' sem shm p m :
  writer_rel k w s srv sem shm p m -> shm_view k' = shm_view k -> file_key k' = file_key k ->
  sem_names k' = sem_names k -> sem_vals k' (semid_ sem) = Some (s_sems s') ->
  s_writer s' = s_writer s -> s_shm_size s' = s_shm_size s -> s_segs s' = s_segs s ->
  s_cur s' = s_cur s -> srv_update_msg_ srv' = srv_update_msg_ srv ->
  writer_rel k' (with_srv (Some srv') w) s' srv' sem shm p m.
Proof.
  intros Hw [= Eb Ek Ea Em] Ef Es Ev E1 E2 E3 E4 E5.
  destruct (writer_rel_keep k k' w s s' srv sem shm p m Hw) as [W1 W2 W3 W4 W5 W6 W7 W8 W9 W10 W11 W12];
    try done; [by rewrite Ea|by rewrite Eb|]. split; try done. by rewrite E5.
Qed.

(** *** Nothing happened, or a connection was accepted *)

Section touched.
Context (k0 k : K) (s : st) (srv : UnixSocketServer) (loc : locals) (cnx : onConnectData) (c : Z).
Hypothesis Hsv : server_rel k0 loc cnx s srv.
Hypothesis Ht : touches k0 c k.
Hypothesis Hc : (c < 0)%Z \/ c ∉ fds k0.

Lemma served_other d : d ∈ clients_ srv ++ pending_clients_ srv -> d <> c.
Proof using Hsv Hc.
  intros Hd ->. destruct (sv_inv _ _ _ _ _ Hsv) as [_ _ _ _ Hw Ho Hb].
  specialize (Hw c Hd). specialize (Hb c Hw). destruct Hc as [|Hn]; [lia|]. by apply Hn, Ho.
Qed.

Lemma client_other d : d ∈ s_clients s -> Z.of_nat d <> c.
Proof using Hsv Hc.
  intros Hd. apply served_other, elem_of_app. left. rewrite (sv_clients _ _ _ _ _ Hsv).
  by apply list_elem_of_fmap_2.
Qed.

Lemma touched_inq d : d <> c -> inq k d = inq k0 d /\ peer_of k d = peer_of k0 d /\ out k d = out k0 d.
Proof using Ht. intros Hd. destruct Ht as (_ & _ & _ & Hp & Ho). destruct (Hp d Hd). by rewrite Ho. Qed.

Lemma server_touched loc' srv' :
  server_inv srv' loc' k -> clients_ srv' = clients_ srv -> clients_notified_ srv' = clients_notified_ srv ->
  serving srv' = serving srv -> (forall d, d ∈ pending_clients_ srv' -> d ∈ pending_clients_ srv \/
     d = c /\ out k c = connect_bytes cnx /\ inq k c = [] /\ peer_closed k c = false /\
     p_connected (peer_of k c) = true) ->
  server_rel k loc' cnx s srv'.
Proof using Hsv Ht Hc.
  intros Hi Ecl Ent Esr Hp. split; rewrite ?Ecl, ?Ent, ?Esr; try done; try (by apply Hsv).
  - intros d [Hd|Hd]%elem_of_app.
    + destruct (touched_inq d) as (_ & -> & _); [by apply served_other, elem_of_app; left|].
      apply Hsv, elem_of_app. by left.
    + destruct (Hp d Hd) as [Hd'|(-> & _ & _ & _ & Hd')]; [|done].
      destruct (touched_inq d) as (_ & -> & _); [by apply served_other, elem_of_app; right|].
      apply Hsv, elem_of_app. by right.
  - intros d Hd. unfold peer_closed.
    destruct (touched_inq (Z.of_nat d)) as (-> & -> & _); [by apply client_other|]. by apply Hsv.
  - intros d Hd. destruct (Hp _ Hd) as [Hd'|(Hd' & E1 & E2 & E3 & E4)].
    + unfold peer_closed. destruct (touched_inq (Z.of_nat d)) as (-> & -> & ->);
        [by apply served_other, elem_of_app; right|]. by apply Hsv.
    + rewrite Hd', E1, E2, E3. simpl. split; [done|]. split; [lia|]. by split.
Qed.

Lemma stream_touched srv' d e r :
  stream_rel k0 s srv d e r -> um_pad (srv_update_msg_ srv') = um_pad (srv_update_msg_ srv) ->
  (Z.of_nat d <> c -> Z.of_nat d ∈ fds k -> Z.of_nat d ∈ fds k0) ->
  (forall z, z <> c -> z ∈ pending_clients_ srv' <-> z ∈ pending_clients_ srv) ->
  ((0 <= c)%Z -> if bool_decide (c ∈ pending_clients_ srv') then inq k c = []
                 else (c ∈ fds k -> out k c = [])) ->
  stream_rel k s srv' d e r.
Proof using Hsv Ht Hc.
  intros Hs Hpad Hf Hp Hcc. destruct (decide (Z.of_nat d = c)) as [Hd|Hd].
  - unfold stream_rel in *. destruct (ep_data e).
    + exfalso. destruct Hs as (_ & _ & [Hx|(Hx & _)]); [by destruct (client_other d Hx)|].
      by destruct (served_other (Z.of_nat d)); [apply elem_of_app; right|].
    + destruct Hs as (H1' & H2' & H3' & _). specialize (Hcc ltac:(lia)). unfold waits. rewrite Hd. by split_and!.
  - destruct (touched_inq (Z.of_nat d) Hd) as (Ei & _ & Eo).
    apply (stream_rel_keep k0 _ s _ srv); auto.
Qed.
End touched.

(** *** The ready clients leave or join *)

Section served.
Context (k0 k : K) (s s' : st) (srv : UnixSocketServer) (loc : locals) (cnx : onConnectData)
  (sem : sysVSem) (a : Z) (rset all : gset Z) (closed : list Z).
Hypothesis Hinv : inv s.
Hypothesis Hidle : s_writer s = WIdle.
Hypothesis Hsv : server_rel k0 loc cnx s srv.
Let gone := filter (fun c => c ∈ rset) (clients_ srv).
Let g := filter (fun c => c ∈ rset) (pending_clients_ srv).
Let acked := filter (fun c => ~ dropped k0 c) g.
Let srv' := with_sets (filter (fun c => c ∉ rset) (clients_ srv) ++ acked)
  (clients_notified_ srv) (foldl (fun p it => set_erase it p) (pending_clients_ srv) g) srv.
Hypothesis Hk : turned sem a k0 (fds k0 ∖ list_to_set gone ∖ list_to_set closed)
  (gone ++ filter (dropped k0) g) acked (length (filter (cancelled srv k0) gone)) k.
Hypothesis Hsound : forall c, c ∈ rset -> c ∈ clients_ srv ++ pending_clients_ srv ->
  inq k0 c <> [] \/ peer_closed k0 c = true.
Hypothesis Hinv' : server_inv srv' (Locals all (maxfd loc)) k.
(** The same, as the protocol names them. *)
Let gone_n := filter (fun c => Z.of_nat c ∈ rset) (s_clients s).
Let acked_n := Z.to_nat <$> acked.

Lemma pending_nonneg c : c ∈ pending_clients_ srv -> (0 <= c)%Z.
Proof using Hsv.
  intros Hc. destruct (sv_inv _ _ _ _ _ Hsv) as [_ _ _ _ Hw _ Hb].
  apply (Hb c), Hw, elem_of_app. by right.
Qed.

Lemma elem_of_acked c : c ∈ acked <-> c ∈ pending_clients_ srv /\ c ∈ rset /\ inq k0 c <> [].
Proof. unfold acked, g, dropped. rewrite !list_elem_of_filter. tauto. Qed.

Lemma elem_of_acked_n c : c ∈ acked_n <-> Z.of_nat c ∈ acked.
Proof using Hsv.
  apply elem_of_to_nat. intros z Hz. apply elem_of_acked in Hz as [Hz _]. by apply pending_nonneg.
Qed.

Lemma clients_nat c : Z.of_nat c ∈ clients_ srv <-> c ∈ s_clients s.
Proof using Hsv.
  rewrite (sv_clients _ _ _ _ _ Hsv), list_elem_of_fmap. split; [|by exists c].
  intros (d & Hd & Hin). by apply Nat2Z.inj in Hd as ->.
Qed.

(** A client that is ready is gone. *)
Lemma gone_dead c : c ∈ s_clients s -> Z.of_nat c ∈ rset -> s_readers s !! c = None.
Proof using Hsv Hsound.
  intros Hc Hr. destruct (sv_client _ _ _ _ _ Hsv c Hc) as (Hi & Hcl & _). apply Hcl.
  destruct (Hsound _ Hr) as [Hx|Hx]; [apply elem_of_app; left; by apply clients_nat|by destruct Hx|done].
Qed.

Lemma gone_fmap : gone ≡ₚ Z.of_nat <$> gone_n.
Proof using Hsv. unfold gone, gone_n. by rewrite (sv_clients _ _ _ _ _ Hsv), filter_fmap. Qed.

(** The reads cancelled are those of the protocol. *)
Lemma cancelled_count : length (filter (cancelled srv k0) gone) = length (filter (cancels s) gone_n).
Proof using Hsv Hsound.
  rewrite gone_fmap, filter_fmap, length_fmap. f_equal. apply filter_ext_in. intros c Hc.
  apply list_elem_of_filter in Hc as [Hr Hc]. unfold cancelled, cancels.
  destruct (sv_client _ _ _ _ _ Hsv c Hc) as (_ & _ & Hreset).
  rewrite (Hreset (gone_dead c Hc Hr)), bool_decide_eq_true, (sv_notified _ _ _ _ _ Hsv),
    list_elem_of_fmap.
  split; [intros [H1' (d & Hd & Hn)]; by apply Nat2Z.inj in Hd as ->|intros [H1' H2']; eauto].
Qed.

(** A reader whose answer is read can join. *)
Lemma acked_unused rs semid shm p c :
  readers_rel k0 rs s srv cnx semid shm p -> c ∈ acked_n ->
  (c ∉ s_clients s) /\ unused (s_readers s !! c).
Proof using Hsv.
  intros (Hr & Hnone & _) (Hp & Hrs & Hi)%elem_of_acked_n%elem_of_acked.
  assert (Hc : c ∉ s_clients s) by (by apply (client_not_pending k0 loc cnx s srv)). split; [done|].
  destruct (rs !! c) as [e|] eqn:He; [|by rewrite (Hnone c He)].
  destruct (Hr c e He) as (r & Hsr & Hrel). rewrite Hsr.
  pose proof (rr_stream _ _ _ _ _ _ _ _ _ _ Hrel) as Hst. unfold stream_rel in Hst.
  destruct (ep_data e); [|by destruct Hst as (_ & _ & Hu & _)].
  by destruct Hst as (_ & _ & [Hx|(_ & _ & Hu)]).
Qed.

Lemma served_runs rs semid shm p :
  readers_rel k0 rs s srv cnx semid shm p ->
  exists s', run s (turn_labels s gone_n acked_n) s' /\ after_turn gone_n acked_n s s'.
Proof using Hinv Hidle Hsv Hinv'.
  intros Hrs. assert (Hnd : NoDup (s_clients s)) by apply (ci_nodup _ (inv_clients _ Hinv)).
  destruct Hinv' as [Icl _ _ _ Iw _ Ib]. apply turn_runs; try done.
  - by apply NoDup_filter.
  - intros c Hc. by apply list_elem_of_filter in Hc as [_ Hc].
  - apply (NoDup_fmap_1 Z.of_nat). unfold acked_n. rewrite of_to_nat.
    + apply NoDup_app in Icl. tauto.
    + intros z Hz. apply elem_of_acked in Hz as [Hz _]. by apply pending_nonneg.
  - assert (Hl : length (clients_ srv') <= FD_SETSIZE).
    { apply watched_length; [done|]. intros z Hz. specialize (Ib z). specialize (Iw z).
      destruct Ib; [apply Iw, elem_of_app; by left|]. lia. }
    unfold srv' in Hl. cbn [with_sets clients_] in Hl. rewrite length_app in Hl.
    assert (Hg : length gone_n = length gone) by (by rewrite gone_fmap, length_fmap).
    assert (Hs : length (clients_ srv) = length (s_clients s)) by (by rewrite (sv_clients _ _ _ _ _ Hsv), length_fmap).
    pose proof (Permutation_length (filter_app_complement (fun c => c ∈ rset) (clients_ srv))) as Hp.
    rewrite length_app in Hp. unfold acked_n. rewrite length_fmap. fold gone in Hp. lia.
  - intros c Hc. by apply (acked_unused rs semid shm p).
Qed.

Hypothesis Hat : after_turn gone_n acked_n s s'.

(** Descriptors that the turn does not concern. *)
Lemma served_other_fd d : d ∉ gone -> d ∉ acked -> d ∉ filter (dropped k0) g ->
  inq k d = inq k0 d /\ peer_of k d = peer_of k0 d /\ out k d = out k0 d.
Proof using Hk.
  intros H1' H2' H3'. destruct Hk as [_ _ _ _ _ To Ti Tp].
  assert (Hd : d ∉ gone ++ filter (dropped k0) g) by (rewrite not_elem_of_app; tauto).
  rewrite Ti, Tp, To by done. by rewrite decide_False.
Qed.

Lemma unready_other d : d ∉ rset -> inq k d = inq k0 d /\ peer_of k d = peer_of k0 d /\ out k d = out k0 d.
Proof using Hk.
  intros Hd. apply served_other_fd; unfold acked, gone, g; rewrite ?list_elem_of_filter; tauto.
Qed.

Lemma acked_fd d : d ∈ acked -> inq k d = [] /\ peer_of k d = peer_of k0 d /\ out k d = out k0 d.
Proof using Hk Hsv.
  intros Hd. assert (Hd' := Hd). apply elem_of_acked in Hd' as (Hp & Hr & Hi).
  destruct Hk as [_ _ _ _ _ To Ti Tp].
  assert (Hn : d ∉ gone ++ filter (dropped k0) g).
  { rewrite not_elem_of_app. unfold gone, dropped. rewrite !list_elem_of_filter.
    split; [intros [_ Hc]; by apply (si_disjoint _ _ _ (sv_inv _ _ _ _ _ Hsv) d)|tauto]. }
  rewrite Ti, Tp, To by done. by rewrite decide_True.
Qed.

Lemma pending_after d : d ∈ pending_clients_ srv' <-> d ∈ pending_clients_ srv /\ d ∉ rset.
Proof using Hsv.
  unfold srv'. cbn [with_sets pending_clients_].
  rewrite (proj2 (fold_set_erase g (pending_clients_ srv) (si_pending _ _ _ (sv_inv _ _ _ _ _ Hsv))) d).
  unfold g. rewrite list_elem_of_filter. tauto.
Qed.

Lemma clients_after c : c ∈ s_clients s' <-> (c ∈ s_clients s /\ Z.of_nat c ∉ rset) \/ Z.of_nat c ∈ acked.
Proof using Hsv Hat.
  rewrite (at_clients _ _ _ _ Hat), elem_of_app, elem_of_acked_n, !list_elem_of_filter.
  unfold gone_n. rewrite list_elem_of_filter. tauto.
Qed.

Lemma server_served : server_rel k (Locals all (maxfd loc)) cnx s' srv'.
Proof using All.
  split; try done.
  - rewrite (at_clients _ _ _ _ Hat), fmap_app. unfold srv'. cbn [with_sets clients_].
    unfold acked_n. rewrite of_to_nat by (intros z Hz; apply elem_of_acked in Hz as [Hz _]; by apply pending_nonneg).
    apply Permutation_app_tail. rewrite (sv_clients _ _ _ _ _ Hsv), filter_fmap. apply fmap_Permutation.
    rewrite (filter_ext_in (fun c => Z.of_nat c ∉ rset) (fun c => c ∉ gone_n)); [done|].
    intros c Hc. unfold gone_n. rewrite list_elem_of_filter. tauto.
  - unfold srv'. cbn [with_sets clients_notified_]. rewrite (at_notified _ _ _ _ Hat). apply Hsv.
  - intros d [Hd|Hd]%elem_of_app.
    + unfold srv' in Hd. cbn [with_sets clients_] in Hd.
      apply elem_of_app in Hd as [[Hn Hd]%list_elem_of_filter|Hd].
      * destruct (unready_other d Hn) as (_ & -> & _). apply Hsv, elem_of_app. by left.
      * destruct (acked_fd d Hd) as (_ & -> & _). apply elem_of_acked in Hd as [Hd _].
        apply Hsv, elem_of_app. by right.
    + apply pending_after in Hd as [Hd Hn]. destruct (unready_other d Hn) as (_ & -> & _).
      apply Hsv, elem_of_app. by right.
  - intros c Hc. unfold peer_closed. rewrite (at_readers _ _ _ _ Hat), (at_reset _ _ _ _ Hat).
    apply clients_after in Hc as [[Hc Hn]|Hc].
    + destruct (unready_other _ Hn) as (-> & -> & _).
      destruct (sv_client _ _ _ _ _ Hsv c Hc) as (E1 & E2 & E3). split; [done|]. split; [done|].
      intros Hx. rewrite (E3 Hx). apply bool_decide_ext. rewrite list_elem_of_filter.
      unfold gone_n. rewrite list_elem_of_filter. tauto.
    + destruct (acked_fd _ Hc) as (-> & -> & _). apply elem_of_acked in Hc as (Hp & Hr & Hi).
      destruct (sv_pending _ _ _ _ _ Hsv c Hp) as (_ & _ & Hlive & Hdead). unfold peer_closed in *.
      split; [done|]. split.
      * split; [intros Hx; apply eq_None_not_Some; intros Hy; rewrite (Hlive Hy) in Hx; done|].
        intros Hx. by apply (Hdead Hi Hx).
      * intros Hx. rewrite (proj2 (Hdead Hi Hx)). symmetry. apply bool_decide_false.
        intros [_ Hy]%list_elem_of_filter. apply (ci_reset _ (inv_clients _ Hinv)) in Hy.
        by destruct (client_not_pending _ _ _ _ _ _ Hsv Hp).
  - intros c [Hp Hn]%pending_after. unfold peer_closed. rewrite (at_readers _ _ _ _ Hat).
    destruct (unready_other _ Hn) as (-> & -> & ->). by apply Hsv.
  - apply Hsv.
Qed.

Lemma stream_served c e r :
  s_readers s !! c = Some r -> stream_rel k0 s srv c e r -> stream_rel k s' srv' c e r.
Proof using All.
  intros Hr Hs. assert (Hfds : forall d, d ∈ fds k -> d ∈ fds k0).
  { intros d. rewrite (tn_fds _ _ _ _ _ _ _ _ Hk). set_solver. }
  destruct (decide (Z.of_nat c ∈ rset)) as [Hc|Hc].
  - unfold stream_rel in *. destruct (ep_data e).
    + destruct Hs as (H1' & H2' & H3').
      assert (Hac : Z.of_nat c ∈ acked).
      { apply elem_of_acked. destruct H3' as [Hcl|(Hp & Hi & _)]; [|by split_and!].
        by rewrite (gone_dead c Hcl Hc) in Hr. }
      destruct (acked_fd _ Hac) as (_ & _ & Eo). unfold follows. rewrite Eo.
      split; [done|]. split; [done|]. left. apply clients_after. by right.
    + destruct Hs as (H1' & H2' & H3' & H4').
      assert (Hp : Z.of_nat c ∉ pending_clients_ srv).
      { intros Hp. rewrite bool_decide_true in H4' by done.
        destruct (sv_pending _ _ _ _ _ Hsv c Hp) as (_ & _ & Hlive & _).
        destruct (Hsound _ Hc) as [Hx|Hx]; [apply elem_of_app; by right|done|].
        rewrite Hlive in Hx by (by eexists). done. }
      destruct (served_other_fd (Z.of_nat c)) as (Ei & _ & Eo).
      { unfold gone. rewrite list_elem_of_filter. intros [_ Hx]. by apply H1', clients_nat. }
      { rewrite elem_of_acked. tauto. }
      { unfold g. rewrite !list_elem_of_filter. tauto. }
      unfold waits. rewrite Eo, clients_after, elem_of_acked. split; [tauto|]. do 2 (split; [done|]).
      rewrite bool_decide_false in H4' |- * by (done || rewrite pending_after; tauto).
      intros Hx. by apply H4', Hfds.
  - destruct (unready_other _ Hc) as (Ei & _ & Eo).
    apply (stream_rel_keep k0 _ s _ srv); auto.
    + rewrite pending_after. tauto.
    + rewrite clients_after, elem_of_acked. tauto.
Qed.
End served.

(** *** A turn *)

(** A trace of the protocol that concerns no frame and no end. *)
Definition quiet_trace (tr : list label) : Prop :=
  forall c, sent c tr = [] /\ delivered c tr = [] /\ LEnd c ∉ tr.

Lemma quiet_nil : quiet_trace [].
Proof. intros c. do 2 (split; [done|]). apply not_elem_of_nil. Qed.

Lemma touched_simulated k c (C : system K) s srv srv' sem shm p m loc' W' :
  server_rel (kern_of C) (sy_locals C) (sy_cnx C) s srv ->
  writer_rel (kern_of C) (sy_writer C) s srv sem shm p m ->
  readers_rel (kern_of C) (sy_readers C) s srv (sy_cnx C) (semid_ sem) shm p ->
  cnx_ok (sy_cnx C) -> touches (kern_of C) c k -> kern W' = k ->
  (c < 0)%Z \/ c ∉ fds (kern_of C) -> srv_update_msg_ srv' = srv_update_msg_ srv ->
  server_rel k loc' (sy_cnx C) s srv' ->
  (forall z, z <> c -> z ∈ fds k -> z ∈ fds (kern_of C)) ->
  (forall z, z <> c -> z ∈ pending_clients_ srv' <-> z ∈ pending_clients_ srv) ->
  ((0 <= c)%Z -> if bool_decide (c ∈ pending_clients_ srv') then inq k c = []
                 else (c ∈ fds k -> out k c = [])) ->
  simulates (System W' (with_srv (Some srv') (sy_writer C)) (sy_cnx C) loc' (sy_readers C)) s.
Proof using All.
  intros Hsv Hw Hr Hcnx Ht <- Hc Hmsg Hsv' Hf Hp Hcc. split; [done|].
  assert (Ht' := Ht). destruct Ht' as (Ev & Eu & Ef & _). pose proof (sem_names_view _ _ Ev) as Ek. injection Ev as Ev _ _.
  exists srv', sem, shm, p, m. unfold kern_of. cbn [sy_world sy_writer sy_cnx sy_locals sy_readers].
  split; [|split; [done|]].
  - apply (writer_rel_sock (kern_of C) _ _ s s srv); try done. by rewrite Ev; apply Hw.
  - apply (readers_rel_stream (kern_of C) _ _ s _ srv); try done.
    intros d e r _ Hs. apply (stream_touched (kern_of C) _ s srv (sy_locals C) (sy_cnx C) c); try done.
    + by rewrite Hmsg.
    + intros Hd. by apply Hf.
Qed.

(** A connection was accepted, and nothing is there to read. *)
Lemma turn_accepted (C : system K) s srv sem shm p m c W' :
  let pending := set_insert c (pending_clients_ srv) in
  let srv' := with_sets (clients_ srv) (clients_notified_ srv) pending srv in
  let loc' := Locals ({[c]} ∪ allset (sy_locals C))
    (if (maxfd (sy_locals C) <? c)%Z then c else maxfd (sy_locals C)) in
  cnx_ok (sy_cnx C) -> writer_rel (kern_of C) (sy_writer C) s srv sem shm p m ->
  server_rel (kern_of C) (sy_locals C) (sy_cnx C) s srv ->
  readers_rel (kern_of C) (sy_readers C) s srv (sy_cnx C) (semid_ sem) shm p ->
  Forall (fun d => d ∈ pending_clients_ srv \/ inq (kern W') d = []) (pending_clients_ srv') ->
  touches (kern_of C) c (kern W') -> (0 <= c)%Z -> (c ∉ fds (kern_of C)) ->
  fds (kern W') = fds (kern_of C) ∪ {[c]} -> out (kern W') c = connect_bytes (sy_cnx C) ->
  peer_closed (kern W') c = false -> p_connected (peer_of (kern W') c) = true ->
  server_inv srv' loc' (kern W') ->
  simulates (System W' (with_srv (Some srv') (sy_writer C)) (sy_cnx C) loc' (sy_readers C)) s.
Proof using All.
  intros pending srv' loc' Hcnx Hw Hsv Hr Hnew Ht Hc0 Hcf Hf Ho Hcl Hco Hi.
  assert (Hc : (c < 0)%Z \/ c ∉ fds (kern_of C)) by tauto.
  assert (Hiq : inq (kern W') c = []).
  { destruct (proj1 (Forall_forall _ _) Hnew c) as [Hx|Hx]; [apply elem_of_set_insert; by left| |done].
    exfalso. apply (served_other (kern_of C) s srv (sy_locals C) (sy_cnx C) c Hsv Hc c); [|done].
    apply elem_of_app. by right. }
  eapply (touched_simulated (kern W') c _ _ srv _ sem shm p m); try done.
  - apply (server_touched (kern_of C) _ s srv (sy_locals C) _ c); try done.
    intros d [->|Hd]%elem_of_set_insert; [|by left]. right. by split_and!.
  - intros z Hz. rewrite Hf. set_solver.
  - intros z Hz. cbn [srv' with_sets pending_clients_]. unfold pending. rewrite elem_of_set_insert. tauto.
  - intros _. rewrite bool_decide_true; [done|]. apply elem_of_set_insert. by left.
Qed.

Lemma turn_run (C : system K) s srv sem shm p m srv' loc' W' :
  inv s -> cnx_ok (sy_cnx C) -> writer_rel (kern_of C) (sy_writer C) s srv sem shm p m ->
  server_rel (kern_of C) (sy_locals C) (sy_cnx C) s srv ->
  readers_rel (kern_of C) (sy_readers C) s srv (sy_cnx C) (semid_ sem) shm p ->
  Forall (fun c => c ∈ pending_clients_ srv \/ inq (kern W') c = []) (pending_clients_ srv') ->
  turn_outcome sem srv (Z.of_nat (due s)) (kern_of C) (sy_cnx C) (sy_locals C) srv' loc' (kern W') ->
  exists tr s', run s tr s' /\
    simulates (System W' (with_srv (Some srv') (sy_writer C)) (sy_cnx C) loc' (sy_readers C)) s' /\
    quiet_trace tr /\ forall c, is_Some (s_readers s !! c) -> c ∈ s_clients s -> c ∈ s_clients s'.
Proof using All.
  intros Hinv Hcnx Hw Hsv Hr Hnew Hcases.
  inversion Hcases as [c k Ht Hf E1 E2 E3|c k Ht Hc0 Hcf Hf Ho Hcl Hco Hi E1 E2 E3
    |rset closed all k gone g acked srv1 Hk Hsound Hi E1 E2 E3]; clear Hcases; subst k.
  - exists [], s. split; [constructor|]. split; [|split; [apply quiet_nil|done]].
    subst srv' loc'. assert (Hc : (c < 0)%Z \/ c ∉ fds (kern_of C)) by tauto.
    apply (touched_simulated (kern W') c _ _ srv srv sem shm p m); try done.
    + apply (server_touched (kern_of C) _ s srv (sy_locals C) _ c); try done; [|by intros d; left].
      destruct (sv_inv _ _ _ _ _ Hsv) as [I1 I2 I3 I4 I5 I6 I7]. split; try done.
      destruct Hf as [[_ ->]|(_ & -> & _)]; [done|]. by apply union_subseteq_l'.
    + intros z Hz. destruct Hf as [[_ ->]|(_ & -> & _)]; [done|]. set_solver.
    + intros Hc0. rewrite bool_decide_false; [destruct Hf as [[Hneg Hf]|(_ & _ & Hf)]; [lia|done]|].
      intros Hx. apply (served_other (kern_of C) s srv (sy_locals C) (sy_cnx C) c Hsv Hc c); [|done].
      apply elem_of_app. by right.
  - exists [], s. split; [constructor|]. split; [|split; [apply quiet_nil|done]].
    rewrite <- E1 in Hnew. by apply (turn_accepted C s srv sem shm p m c).
  - assert (Hidle := wr_idle _ _ _ _ _ _ _ _ Hw).
    destruct (served_runs (kern_of C) (kern W') s srv (sy_locals C) (sy_cnx C) rset all Hinv Hidle Hsv
      Hi (sy_readers C) (semid_ sem) shm p Hr) as (s' & Hrun & Hat).
    eexists _, s'. split; [exact Hrun|]. split; [|split].
    + split; [done|]. exists srv1, sem, shm, p, m. unfold kern_of.
      cbn [sy_world sy_writer sy_cnx sy_locals sy_readers]. split; [|split].
      * apply (writer_rel_sock (kern_of C) _ _ s s' srv); try done; try apply Hk; try apply Hat.
        rewrite (tn_vals _ _ _ _ _ _ _ _ Hk). f_equal. symmetry. rewrite (at_sems _ _ _ _ Hat (Z.of_nat (due s))).
        -- by rewrite <- (cancelled_count (kern_of C) s srv (sy_locals C) (sy_cnx C) rset Hsv Hsound).
        -- pose proof (inv_sem _ Hinv) as Hs. unfold sem_inv in Hs. by rewrite Hidle in Hs.
      * by apply (server_served (kern_of C) (kern W') s s' srv (sy_locals C) (sy_cnx C) sem
          (Z.of_nat (due s)) rset all closed).
      * apply (readers_rel_stream (kern_of C) _ _ s _ srv); try done; try apply Hk; try apply Hat.
        intros c e r Hsr Hst.
        by apply (stream_served (kern_of C) (kern W') s s' srv (sy_locals C) (sy_cnx C) sem
          (Z.of_nat (due s)) rset all closed).
    + intros c. apply turn_trace.
    + intros c Hal Hc. rewrite (clients_after (kern_of C) s s' srv (sy_locals C) (sy_cnx C) rset Hsv Hat).
      left. split; [done|]. intros Hx.
      rewrite (gone_dead (kern_of C) s srv (sy_locals C) (sy_cnx C) rset Hsv Hsound c Hc Hx) in Hal.
      by destruct Hal.
Qed.

Lemma turn_simulated (C C' : system K) s :
  inv s -> simulates C s -> do_turn C = Some C' ->
  exists tr s', run s tr s' /\ simulates C' s' /\ quiet_trace tr /\ sy_readers C' = sy_readers C /\
    sy_cnx C' = sy_cnx C /\ forall c, is_Some (s_readers s !! c) -> c ∈ s_clients s -> c ∈ s_clients s'.
Proof using All.
  intros Hinv (Hcnx & srv & sem & shm & p & m & Hw & Hsv & Hr) E. unfold do_turn in E.
  rewrite (wr_srv _ _ _ _ _ _ _ _ Hw) in E. cbn [mbind option_bind] in E.
  rewrite (proj1 (wr_sem _ _ _ _ _ _ _ _ Hw)) in E. cbn [mbind option_bind] in E.
  destruct (interaction_turn _ _ _ _ _) as [[[srv' loc']|e| |] W'] eqn:Et; try done.
  case_bool_decide as Hnew; [|done]. injection E as <-. cbn [sy_readers].
  assert (Hidle := wr_idle _ _ _ _ _ _ _ _ Hw). assert (Hs := inv_sem _ Hinv). unfold sem_inv in Hs.
  rewrite Hidle in Hs. pose proof (ci_due _ (inv_clients _ Hinv)) as Hdue.
  pose proof (turn_cases sem srv (Z.of_nat (due s)) (kern_of C)) as Hcases.
  specialize (Hcases ltac:(unfold SEMVMX, FD_SETSIZE in *; lia) (sy_cnx C) (sy_locals C)
    (sv_inv _ _ _ _ _ Hsv)). rewrite <- Hs in Hcases at 1.
  specialize (Hcases (wr_vals _ _ _ _ _ _ _ _ Hw) (sv_connected _ _ _ _ _ Hsv)).
  assert (Hnat : forall z, z ∈ clients_ srv -> exists c, z = Z.of_nat c /\ c ∈ s_clients s).
  { intros z. rewrite (sv_clients _ _ _ _ _ Hsv), list_elem_of_fmap. naive_solver. }
  specialize (Hcases ltac:(intros z (c & -> & Hc)%Hnat; by apply Hsv)).
  specialize (Hcases ltac:(intros z Hz; rewrite <- (Z2Nat.id z) in Hz |- * by
    (by apply (pending_nonneg (kern_of C) s srv (sy_locals C) (sy_cnx C))); by apply Hsv)
    (sy_world C) (srv', loc') W' eq_refl Et). cbn beta iota in Hcases.
  destruct (turn_run C s srv sem shm p m srv' loc' W' Hinv Hcnx Hw Hsv Hr Hnew Hcases)
    as (tr & s' & Hrun & Hsim & Hq & Hkeep).
  exists tr, s'. by split_and!.
Qed.

(** *** A new reader *)

(** What the members of a new reader are, and what they leave alone. *)
Lemma attach_members_spec path id m semid (W W' : world K) rs fs :
  file_key (kern W) (c_str path) "n"%char <> (-1)%Z ->
  seg_key (kern W) (file_key (kern W) (c_str path) "n"%char) = Some id ->
  seg_bytes (kern W) id = Some m ->
  sem_key (kern W) (file_key (kern W) (c_str path) "m"%char) = Some semid ->
  attach_members path W = (Ret (rs, fs), W') ->
  sysVShm_is_valid rs = true -> sysVSem_is_valid fs = true ->
  semid_ fs = semid /\ shm_owner_ rs = false /\ shmid_ rs = id /\
  sem_view (kern W') = sem_view (kern W) /\ sock_view (kern W') = sock_view (kern W) /\
  same_peers (kern W) (kern W') /\
  seg_key (kern W') = seg_key (kern W) /\ seg_mine (kern W') = seg_mine (kern W) /\
  (forall i, seg_bytes (kern W') i = seg_bytes (kern W) i) /\
  (forall q i, seg_at (kern W) q = Some i -> seg_at (kern W') q = Some i) /\
  exists q, shm_ rs = Some q /\ seg_at (kern W) q = None /\ seg_at (kern W') q = Some id.
Proof using All.
  intros Hne Hkey Hm Hsk E Hvs Hvm. unfold attach_members in E.
  apply bind_inv in E as (kn & W1 & E1 & E). unfold sys in E1.
  destruct (peer_ftok (c_str path) "n"%char (kern W)) as (F1 & F2 & F3 & F4 & F5).
  destruct (ftok _ _ _) as [kn' k1]. injection E1 as <- <-. cbn [fst snd] in *. subst kn'.
  apply bind_inv in E as (rs' & W2 & E2 & E).
  assert (F3' := F3). injection F3' as Eb Ek Ea Em. assert (F4' := F4). injection F4' as Ef1 Ef2 Ef3 Ef4.
  destruct (reader_ctor_spec (file_key (kern W) (c_str path) "n"%char) id m shm_default_permission
    (World k1 (logs W)) Hne) as (rs1 & W2' & E2' & Hown & _ & Hat & Hsk2 & Hmi & Hby & Hc);
    [simpl; by rewrite Ek|simpl; by rewrite Eb|].
  rewrite E2' in E2. injection E2 as -> ->.
  destruct (other_views_eq _ _ (keeps_run _ _ _ _ _ (keeps_sysVShm_ctor _ _ _ _) E2')) as [HS HK].
  pose proof (kpe_shm_ctor _ _ _ _ k1 (World k1 (logs W)) _ _ (same_peers_refl k1) E2') as Hp2. simpl in *.
  apply bind_inv in E as (km & W3 & E3 & E). unfold sys in E3.
  destruct (peer_ftok (c_str path) "m"%char (kern W2)) as (G1 & G2 & G3 & G4 & G5).
  destruct (ftok _ _ _) as [km' k3]. injection E3 as <- <-. cbn [fst snd] in *. subst km'.
  apply bind_inv in E as (fs' & W4 & E4 & [= <- <- <-]). unfold sysVSem_ctor in E4.
  apply bind_inv in E4 as (sid & W5 & E5 & E4).
  assert (Ekw : kern W4 = kern W5 /\ fs' = SysVSem (file_key (kern W2) (c_str path) "m"%char) false sid)
    by (by destruct (sid <? 0)%Z; injection E4 as <- <-). destruct Ekw as [Ekw ->]. rewrite Ekw. clear E4 Ekw.
  assert (HS' : sem_view k3 = sem_view (kern W)) by (by rewrite G2, HS).
  assert (HK' : sock_view k3 = sock_view (kern W)) by (by rewrite G4, HK).
  assert (Hfk : file_key (kern W2) = file_key (kern W)) by (injection HK as _ _ _ ->; done).
  assert (Hsk' : sem_key k3 (file_key (kern W2) (c_str path) "m"%char) = Some semid).
  { rewrite Hfk. injection HS' as _ -> _. done. }
  unfold sys in E5. cbn [kern logs] in E5.
  destruct (semget_open _ _ 2 _ Hsk') as [Hr Hv].
  destruct (peer_semget (file_key (kern W2) (c_str path) "m"%char) 2 0 k3) as (P1 & P2 & P3).
  destruct (semget _ _ _ _) as [r k5]. injection E5 as <- <-. cbn [fst snd kern semid_] in *.
  unfold sysVSem_is_valid in Hvm. cbn [semid_] in Hvm. apply Z.ltb_lt in Hvm.
  destruct Hc as [Hc|(q & Hfree & Hh & Hid & _)]; [by rewrite (invalid_unattached _ Hc) in Hvs|].
  destruct Hh as (Hq & _ & _ & Hqa & _). assert (P1' := P1). injection P1' as Pb Pk Pa Pm.
  assert (G3' := G3). injection G3' as Gb Gk Ga Gm.
  split; [destruct Hr; [done|lia]|]. do 2 (split; [done|]). split; [by rewrite Hv|].
  split; [by rewrite P2|]. split.
  { apply (same_peers_trans _ k1); [apply same_view; [by apply sem_names_view|done..]|].
    apply (same_peers_trans _ (kern W2)); [done|]. apply (same_peers_trans _ k3).
    - apply same_view; [by apply sem_names_view|done..].
    - apply same_view; [by apply sem_names_view|done..]. }
  rewrite Pk, Pm, Pb, Pa, Gk, Gm, Gb, Ga, Hsk2, Hmi, Ek, Em. do 2 (split; [done|]).
  split; [intros i; by rewrite Hby, Eb|]. split; [intros q' i Hq'; apply Hat; by rewrite Ea|].
  exists q. split; [done|]. split; [by rewrite <- Ea|]. by rewrite Hqa, Hid.
Qed.

Lemma unheard_spec (C : system K) srv c :
  srv_ (sy_writer C) = Some srv -> unheard C c = true ->
  (Z.of_nat c ∉ fds (kern_of C)) \/
  (Z.of_nat c ∈ pending_clients_ srv /\ inq (kern_of C) (Z.of_nat c) = [] /\
   peer_closed (kern_of C) (Z.of_nat c) = false).
Proof.
  intros Hs. unfold unheard. rewrite Hs, orb_true_iff, andb_true_iff, !bool_decide_eq_true, negb_true_iff.
  tauto.
Qed.

(** The protocol's state after a reader attaches. *)
Definition opened (c : nat) (s : st) : st :=
  set_reader c (ShmProtocol.Reader [] 0 (s_cur s) RIdle) s.

Lemma server_after_open k k' loc cnx s srv c :
  server_rel k loc cnx s srv -> sock_view k' = sock_view k -> same_peers k k' -> c ∉ s_clients s ->
  (Z.of_nat c ∉ fds k) \/
  (Z.of_nat c ∈ pending_clients_ srv /\ inq k (Z.of_nat c) = [] /\ peer_closed k (Z.of_nat c) = false) ->
  server_rel k' loc cnx (opened c s) srv.
Proof.
  intros [I1 I2 I3 I4 I5 I6 I7] [= Ef Eo Ei Efk] [_ _ _ Sp Si] Hcc Hun. unfold peer_closed in *. split; try done.
  - by apply (server_inv_keep srv _ _ k).
  - intros d. rewrite Sp. apply I4.
  - intros d Hd. unfold peer_closed. rewrite Sp, Si. simpl. rewrite lookup_insert_ne by (by intros ->).
    by apply I5.
  - intros d Hd. unfold peer_closed. rewrite Sp, Si, Eo. destruct (decide (d = c)) as [->|Hdc].
    + destruct (I6 c Hd) as (J1 & J2 & _). simpl. rewrite lookup_insert_eq.
      destruct Hun as [Hun|(_ & Hun1 & Hun2)].
      { destruct I1 as [_ _ _ _ Iw Io _]. destruct Hun. apply Io, Iw, elem_of_app. by right. }
      split; [done|]. split; [done|]. split; [done|]. by intros Hh.
    + simpl. rewrite lookup_insert_ne by auto. by apply I6.
Qed.

(** The reader that attached, and the others. *)
Lemma readers_after_open k k' loc rs s srv cnx semid shm p c e q m shmr :
  readers_rel k rs s srv cnx semid shm p -> server_rel k loc cnx s srv ->
  sock_view k' = sock_view k -> seg_bytes k' (shmid_ shm) = Some m -> (q <> p) ->
  (forall i, seg_bytes k' i = seg_bytes k i) ->
  (forall q' i, seg_at k q' = Some i -> seg_at k' q' = Some i) ->
  seg_at k q = None -> seg_at k' q = Some (shmid_ shm) ->
  (c ∉ s_clients s) ->
  (Z.of_nat c ∉ fds k) \/ (Z.of_nat c ∈ pending_clients_ srv /\ inq k (Z.of_nat c) = []) ->
  file_key k (c_str (rd_path_ (ep_reader e))) "n"%char = shm_key_ shm ->
  semid_ <$> rd_sem_ (ep_reader e) = Some semid -> cur_size_ (ep_reader e) = 0%Z ->
  rd_shm_ (ep_reader e) = Some shmr -> sysVShm_is_valid shmr = true -> shm_owner_ shmr = false ->
  shm_ shmr = Some q -> shmid_ shmr = shmid_ shm ->
  ep_data e = None -> ep_read e = 0 ->
  readers_rel k' (<[c := e]> rs) (opened c s) srv cnx semid shm p.
Proof.
  intros Hrs Hsv [= Ef Eo Ei Efk] Hm Hqp Hby Hat Hfree Hqa Hcc Hun Hpath Hsem Hcur Hrd Hv Hown Hq Hid Hd Hread.
  eapply (readers_insert k k' s _ srv srv); [done|done| |].
  - split; try done; simpl.
    + by rewrite Efk.
    + exists shmr, q, m. by rewrite Hid.
    + by intros n Hn%elem_of_nil.
    + intros d. by rewrite Hd.
    + unfold stream_rel, waits. rewrite Hd. do 2 (split; [done|]). split; [done|].
      destruct Hun as [Hun|[Hun Hun1]].
      * rewrite bool_decide_false; [by rewrite Ef|]. intros Hx. apply Hun.
        destruct (sv_inv _ _ _ _ _ Hsv) as [_ _ _ _ Iw Io _]. apply Io, Iw, elem_of_app. by right.
      * rewrite bool_decide_true by done. by rewrite Ei.
  - intros d e' r' Hne He' Hrel. split.
    + apply (reader_rel_keep _ _ _ _ _ _ _ _ _ _ _ _ _ _ _ _ Hrel); try done; [|apply Hrel|].
      * intros q' i mi _ Hq' Hqa' Hqb'. rewrite Hby. split; [done|]. split; [by apply Hat|by eexists].
      * apply (stream_rel_keep k _ s _ srv);
          [apply Hrel|by rewrite Eo|by rewrite Ei|by rewrite Ef|done..].
    + destruct (rr_shm _ _ _ _ _ _ _ _ _ _ Hrel) as (rd & qd & md & Hrd' & _ & _ & Hqd & _ & Had & _).
      unfold address. rewrite Hrd, Hrd'. simpl. rewrite Hq, Hqd. congruence.
Qed.

Lemma open_simulated c (C C' : system K) s :
  inv s -> simulates C s -> do_open c C = Some C' ->
  exists s' e', run s [LConnect c] s' /\ simulates C' s' /\ sy_readers C !! c = None /\
    C' = with_reader c e' (sy_world C') C /\ ep_given e' = [] /\ s_clients s' = s_clients s.
Proof using All.
  intros Hinv (Hcnx & srv & sem & shm & p & m & Hw & Hsv & Hrs) E. unfold do_open in E.
  destruct (bool_decide _ && _) eqn:Hg; [|done].
  apply andb_true_iff in Hg as [Hno%bool_decide_eq_true Hun].
  apply (unheard_spec C srv) in Hun; [|apply Hw].
  destruct (attach_members _ _) as [[[rs fs]|x| |] W'] eqn:Ea; try done.
  destruct (sysVShm_is_valid rs && sysVSem_is_valid fs) eqn:Hv; [|done].
  apply andb_true_iff in Hv as [Hvs Hvm]. injection E as <-.
  destruct (wr_holds _ _ _ _ _ _ _ _ Hw) as (Hp & Hb & Hk & Hat & Hid & Hne). simpl in Hb, Hk, Hat.
  pose proof (wr_key _ _ _ _ _ _ _ _ Hw) as Hkey. unfold kern_of in *.
  destruct (attach_members_spec (wr_path_ (sy_writer C)) (shmid_ shm) m (semid_ sem) (sy_world C) W' rs fs)
    as (E1 & E2 & E3 & E4 & E5 & E6 & E7 & E8 & E9 & E10 & q & Hq & Hfree & Hqa); rewrite ?Hkey; try done;
    [apply (proj1 (wr_semkey _ _ _ _ _ _ _ _ Hw))|].
  assert (Hsn : s_readers s !! c = None) by (by apply Hrs).
  assert (Hcc : c ∉ s_clients s).
  { intros Hc. destruct (client_open _ _ _ _ _ (Z.of_nat c) Hsv) as [Hof _].
    { rewrite (sv_clients _ _ _ _ _ Hsv). by apply list_elem_of_fmap_2. }
    destruct Hun as [Hun|(Hun & _)]; [done|]. by apply (client_not_pending _ _ _ _ _ _ Hsv Hun). }
  exists (opened c s). eexists. split; [eapply run_cons; [done|by apply step_connect|constructor]|].
  split; [|split; [done|by split_and!]].
  split; [done|]. exists srv, sem, shm, p, m. unfold kern_of.
  cbn [with_reader sy_world sy_writer sy_cnx sy_locals sy_readers]. split; [|split].
  - pose proof (sem_names_view _ _ E4) as Esk. injection E4 as Ev _ _. injection E5 as Ef Eo Ei Efk.
    apply (writer_rel_keep (kern (sy_world C)) _ _ s); try done; [by rewrite Hat; apply E10|].
    rewrite Ev. apply Hw.
  - by apply (server_after_open (kern (sy_world C))).
  - eapply (readers_after_open (kern (sy_world C)) _ _ _ s srv _ _ _ _ c _ q m rs); try done;
      try tauto; rewrite ?E9, ?Hqa, ?E3; simpl; congruence.
Qed.

(** *** The greeting *)

Lemma length_greeting cnx : cnx_ok cnx -> length (connect_bytes cnx) = sizeof_connect.
Proof.
  intros (_ & Hp & _ & Hu). unfold connect_bytes, sizeof_connect. rewrite !length_app, !length_le, Hp, Hu. lia.
Qed.

(** What greets a reader is the message of the server, whatever the reader's
    object held before. *)
Lemma read_greeting cnx :
  cnx_ok cnx -> read_connect (connect_bytes cnx) (default_connect (zeros 6)) = cnx.
Proof.
  intros Hc. pose proof (length_greeting cnx Hc) as Hl. destruct Hc as (Ht & Hp & Hs & Hu).
  unfold read_connect. rewrite overwrite_all.
  - apply connect_of_bytes; [rewrite Ht; lia|done|done].
  - rewrite Hl. vm_compute. lia.
Qed.

(** A reader that has something to read and was not greeted yet. *)
Lemma greeted_facts (C : system K) s srv sem shm p c e :
  server_rel (kern_of C) (sy_locals C) (sy_cnx C) s srv -> cnx_ok (sy_cnx C) ->
  readers_rel (kern_of C) (sy_readers C) s srv (sy_cnx C) (semid_ sem) shm p ->
  sy_readers C !! c = Some e -> ep_data e = None ->
  Z.of_nat c ∈ fds (kern_of C) -> sizeof_connect <= length (greeting C c e) ->
  Z.of_nat c ∈ pending_clients_ srv /\ ep_read e = 0 /\ inq (kern_of C) (Z.of_nat c) = [] /\
  out (kern_of C) (Z.of_nat c) = connect_bytes (sy_cnx C) /\
  greeting C c e = connect_bytes (sy_cnx C) /\ peer_closed (kern_of C) (Z.of_nat c) = false.
Proof.
  intros Hsv Hcnx (Hr & _) He Hd Hfd Hl. destruct (Hr c e He) as (r & Hsr & Hrel).
  pose proof (rr_stream _ _ _ _ _ _ _ _ _ _ Hrel) as Hst. unfold stream_rel in Hst. rewrite Hd in Hst.
  destruct Hst as (Hc & Hread & Hu & Hst). unfold greeting in *. rewrite Hread, drop_0 in *.
  case_bool_decide as Hp.
  - destruct (sv_pending _ _ _ _ _ Hsv c Hp) as (Ho & _ & Hlive & _). rewrite Ho.
    rewrite take_ge by (by rewrite length_greeting). split_and!; try done. apply Hlive. by eexists.
  - rewrite (Hst Hfd) in Hl. simpl in Hl. unfold sizeof_connect in Hl. lia.
Qed.

Lemma greeted_follows k k' s srv cnx c e r r' d given :
  cnx_ok cnx -> stream_rel k s srv c e r -> ep_data e = None ->
  Z.of_nat c ∈ pending_clients_ srv -> ep_read e = 0 ->
  out k (Z.of_nat c) = connect_bytes cnx -> out k' (Z.of_nat c) = out k (Z.of_nat c) ->
  inq k' (Z.of_nat c) = connect_bytes cnx ->
  stream_rel k' s srv c (Endpoint r' (Some d) (ep_read e + sizeof_connect) given) r.
Proof.
  intros Hcnx Hst Hd Hp Hread Ho Ho' Hi. pose proof (length_greeting _ Hcnx) as Hlg.
  unfold stream_rel in *. rewrite Hd in Hst. destruct Hst as (_ & _ & Hu & _).
  unfold follows. cbn [ep_data ep_read]. rewrite Ho', Ho, Hread, drop_ge by lia.
  destruct r as [inbox cs seg ph]. destruct Hu as (Hcs & Hin & Hph). cbn in Hcs, Hin, Hph.
  subst. split; [lia|]. split; [done|]. right. split; [done|]. split; [|by split_and!].
  rewrite Hi. intros Hx. by rewrite Hx in Hlg.
Qed.

Lemma server_after_greeting k k' loc cnx s srv c :
  server_rel k loc cnx s srv -> cnx_ok cnx -> Z.of_nat c ∈ pending_clients_ srv ->
  is_Some (s_readers s !! c) -> inq k (Z.of_nat c) = [] ->
  fds k' = fds k -> (forall d, out k' d = out k d) -> (forall d, peer_of k' d = peer_of k d) ->
  inq k' (Z.of_nat c) = inq k (Z.of_nat c) ++ connect_bytes cnx ->
  (forall d, d <> Z.of_nat c -> inq k' d = inq k d) ->
  server_rel k' loc cnx s srv.
Proof.
  intros Hsv Hcnx Hp [r Hsr] Hi E3 E5 E6 E7 E8. assert (Hsv' := Hsv). destruct Hsv' as [I1 I2 I3 I4 I5 I6 I7].
  assert (Hne : forall d : nat, d <> c -> Z.of_nat d <> Z.of_nat c) by lia. split; try done.
  - by apply (server_inv_keep srv _ _ k).
  - intros d. rewrite E6. apply I4.
  - intros d Hdc. unfold peer_closed. rewrite E6, E8; [by apply I5|]. apply Hne. intros ->.
    by apply (client_not_pending _ _ _ _ _ _ Hsv Hp).
  - intros d Hdp. unfold peer_closed. rewrite E5, E6. destruct (decide (d = c)) as [->|Hdc].
    + destruct (I6 c Hdp) as (J1 & J2 & J3 & J4). split; [done|]. split.
      { pose proof (length_greeting _ Hcnx). rewrite E7, Hi, app_nil_l. lia. }
      split; [done|]. intros _ Hx. by rewrite Hsr in Hx.
    + rewrite E8 by auto. by apply I6.
Qed.

Lemma readers_after_greeting k k' rs s srv cnx semid shm p c e r :
  readers_rel k rs s srv cnx semid shm p -> cnx_ok cnx -> rs !! c = Some e -> ep_data e = None ->
  s_readers s !! c = Some r -> Z.of_nat c ∈ pending_clients_ srv -> ep_read e = 0 ->
  out k (Z.of_nat c) = connect_bytes cnx -> inq k (Z.of_nat c) = [] ->
  shm_view k' = shm_view k -> fds k' = fds k -> file_key k' = file_key k ->
  (forall d, out k' d = out k d) ->
  inq k' (Z.of_nat c) = inq k (Z.of_nat c) ++ connect_bytes cnx ->
  (forall d, d <> Z.of_nat c -> inq k' d = inq k d) ->
  readers_rel k' (<[c := Endpoint (ep_reader e) (Some cnx) (ep_read e + sizeof_connect) (ep_given e)]> rs)
    s srv cnx semid shm p.
Proof.
  intros Hrs Hcnx He Hd Hsr Hp Hread Ho Hi [= Eb Egk Ea Em] E3 E4 E5 E7 E8.
  assert (Hrs' := Hrs). destruct Hrs' as (Hr & _ & Hdis). destruct (Hr c e He) as (r0 & Hsr0 & Hrel).
  rewrite Hsr in Hsr0. injection Hsr0 as <-.
  eapply (readers_insert k k' s s srv srv); [done|by rewrite insert_id| |].
  - destruct Hrel as [R1 R2 R3 R4 R5 R6 R7 R8 R9]. split; try done; simpl.
    + by rewrite E4.
    + by rewrite Ea, Eb.
    + intros d [= <-]. done.
    + apply (greeted_follows k _ _ _ cnx _ e _ (ep_reader e)); try done.
      by rewrite E7, Hi.
  - intros d e' r' Hne He' Hrel'. split; [|by apply (Hdis d c e' e)].
    apply (reader_rel_keep _ _ _ _ _ _ _ _ _ _ _ _ _ _ _ _ Hrel'); try done; [|apply Hrel'|].
    + intros q i mi _ Hq Hqa Hqb. rewrite Ea, Eb. split; [done|]. split; [done|]. by eexists.
    + apply (stream_rel_keep k _ s _ srv); [apply Hrel'|done|by rewrite E8 by lia|rewrite E3; tauto|tauto..].
Qed.

Lemma greet_simulated c (C C' : system K) s e :
  inv s -> simulates C s -> sy_readers C !! c = Some e -> ep_data e = None ->
  do_receive c C = Some C' ->
  simulates C' s /\ exists e', C' = with_reader c e' (sy_world C') C /\ ep_given e' = ep_given e /\
    ep_data e' = Some (sy_cnx C).
Proof using All.
  intros Hinv (Hcnx & srv & sem & shm & p & m & Hw & Hsv & Hrs) He Hd E. unfold do_receive in E.
  rewrite He in E. cbn [mbind option_bind] in E. rewrite Hd in E.
  destruct (bool_decide _ && _) eqn:Hg; [|done].
  apply andb_true_iff in Hg as [Hfd%bool_decide_eq_true Hl%Nat.leb_le].
  destruct (greeted_facts C s srv sem shm p c e) as (Hp & Hread & Hi & Ho & Hgr & Hcl); try done.
  rewrite Hgr, (read_greeting _ Hcnx) in E. unfold handle_connect in E. cbn in E. injection E as <-.
  destruct (peer_write_law (Z.of_nat c) (connect_bytes (sy_cnx C)) (kern_of C) Hfd Hcl)
    as (E1 & E2 & E3 & E4 & E5 & E6 & E7 & E8).
  set (k' := peer_write _ _ _) in *. unfold kern_of in *.
  split; [|by eexists]. destruct (proj1 Hrs c e He) as (r & Hsr & _).
  split; [done|]. exists srv, sem, shm, p, m. unfold kern_of.
  cbn [with_reader sy_world sy_writer sy_cnx sy_locals sy_readers kern]. split; [|split].
  - pose proof (sem_names_view _ _ E1) as Ek. injection E1 as Ev _ _. injection E2 as Eb Egk Ea Em.
    apply (writer_rel_keep (kern (sy_world C)) _ _ s); try done; [by rewrite Ea|by rewrite Eb|].
    rewrite Ev. apply Hw.
  - by apply (server_after_greeting (kern (sy_world C)) _ _ _ _ _ c).
  - by apply (readers_after_greeting (kern (sy_world C)) _ _ _ _ _ _ _ _ _ _ r).
Qed.
End simulation.
