(* ===== verification/SystemRuns.v ===== *)
(** * The operations of a system as runs of the protocol

    Each operation of [ShmSystem.v], and so any sequence of them, is a run of
    [ShmProtocol.v] whose labels account for what the data callbacks are
    given. *)

From S2P Require Import Prelude Logger StdLib Posix PosixModel SysVSem SysVShm SocketProtocol.
From S2P Require Import UnixSocketServer UnixSocketClient ServerTheorems Reader ReaderTheorems.
From S2P Require Import Writer WriterTheorems SystemCalls.
From S2P Require Import ShmProtocol ShmSystem ShmInvariant ShmRefinement ShmTheorems PublishRun.
From S2P Require Import ShmSimulation ServerRun ServerSimulation.

(** ** Traces *)

Lemma sent_app c tr tr' : sent c (tr ++ tr') = sent c tr ++ sent c tr'.
Proof. unfold sent. by rewrite fmap_app, join_app. Qed.
Lemma delivered_app c tr tr' : delivered c (tr ++ tr') = delivered c tr ++ delivered c tr'.
Proof. unfold delivered. by rewrite fmap_app, join_app. Qed.

(** Labels that announce and deliver nothing. *)
Definition silent (l : label) : Prop :=
  match l with LSend _ _ | LLock _ _ | LEnd _ => False | _ => True end.

Lemma silent_trace c tr : Forall silent tr ->
  sent c tr = [] /\ delivered c tr = [] /\ LEnd c ∉ tr.
Proof.
  induction 1 as [|l tr Hl Ht (IH1 & IH2 & IH3)]; [by split_and!; try apply not_elem_of_nil|].
  rewrite sent_cons, delivered_cons, IH1, IH2, not_elem_of_cons. by destruct l.
Qed.

Lemma sends_trace c alive f cs : NoDup cs ->
  sent c (send_label alive f <$> cs) = (if decide (c ∈ cs /\ alive c = true) then [f] else []) /\
  delivered c (send_label alive f <$> cs) = [] /\ LEnd c ∉ send_label alive f <$> cs.
Proof.
  induction cs as [|d cs IH]; intros Hnd; cbn [fmap list_fmap].
  { split; [|split; [done|apply not_elem_of_nil]]. rewrite decide_False; [done|].
    by intros [Hc%elem_of_nil _]. }
  apply NoDup_cons in Hnd as [Hd Hnd]. destruct (IH Hnd) as (IH1 & IH2 & IH3).
  rewrite sent_cons, delivered_cons, IH1, IH2, not_elem_of_cons.
  destruct (decide (d = c)) as [->|Hne].
  - rewrite (decide_False (P := c ∈ cs /\ _)) by tauto. unfold send_label.
    destruct (alive c) eqn:Ha; simpl.
    + rewrite (decide_True (P := c = c)) by done.
      rewrite decide_True by (split; [left|done]). by split_and!.
    + rewrite decide_False by (intros [_ ?]; done). by split_and!.
  - assert (Hs : sent_to c (send_label alive f d) = [] /\ given_to c (send_label alive f d) = [] /\
      LEnd c <> send_label alive f d).
    { unfold send_label. destruct (alive d); simpl; [|done]. by rewrite decide_False. }
    destruct Hs as (-> & -> & Hs). split; [|done]. simpl. apply decide_ext.
    rewrite elem_of_cons. naive_solver.
Qed.

Lemma publish_trace c s f : NoDup (s_clients s) -> is_Some (s_readers s !! c) ->
  sent c (publish_labels s f) = (if decide (c ∈ s_clients s) then [f] else []) /\
  delivered c (publish_labels s f) = [] /\ LEnd c ∉ publish_labels s f.
Proof.
  intros Hnd Hal. unfold publish_labels.
  match goal with |- context [LCall f :: ?a ++ ?b ++ ?x ++ ?y ++ ?z ++ ?e] =>
    change (LCall f :: a ++ b ++ x ++ y ++ z ++ e) with ((LCall f :: a) ++ b ++ x ++ y ++ z ++ e) end.
  assert (Hpre : forall b : bool, Forall silent (LCall f :: (if b then [] else [LTimeout])))
    by (intros []; repeat constructor).
  assert (Hcp : Forall silent (replicate (S (length f)) LCopy)) by (by apply Forall_replicate).
  destruct (silent_trace c _ (Hpre (bool_decide (s_sems s = [0%Z; 0%Z])))) as (S1 & D1 & E1).
  destruct (silent_trace c [LAcquire; LFlag; LResize]) as (S2 & D2 & E2); [by repeat constructor|].
  destruct (silent_trace c [LNotified; LCommit]) as (S3 & D3 & E3); [by repeat constructor|].
  destruct (silent_trace c _ Hcp) as (S4 & D4 & E4).
  destruct (silent_trace c [LRelease]) as (S5 & D5 & E5); [by repeat constructor|].
  destruct (sends_trace c (is_alive s) f (s_clients s) Hnd) as (S6 & D6 & E6).
  assert (Ha : is_alive s c = true) by (by apply bool_decide_eq_true).
  rewrite !sent_app, !delivered_app, S1, S2, S3, S4, S5, S6, D1, D2, D3, D4, D5, D6.
  rewrite !app_nil_r. split.
  - apply decide_ext. tauto.
  - split; [done|]. rewrite !not_elem_of_app. tauto.
Qed.

Lemma receive_trace c d data :
  sent d (receive_labels c data) = [] /\
  delivered d (receive_labels c data) = (if decide (c = d) then [data] else []) /\
  LEnd d ∉ receive_labels c data.
Proof.
  unfold receive_labels. rewrite !sent_cons, !delivered_cons, !not_elem_of_cons. simpl.
  rewrite app_nil_r. split_and!; try done. apply not_elem_of_nil.
Qed.

(** ** Any sequence of operations *)

Section runs.
Context {K : Type} `{FileOS K} `{ErrnoOS K} `{SemOS K} `{ShmOS K} `{SockOS K} `{PeerOS K}
  `{!SemLaws K} `{!ShmLaws K} `{!SockLaws K} `{!FileLaws K} `{!FrameLaws K} `{!PeerLaws K}.
Implicit Types (C : system K) (s : st) (e : endpoint) (os : list op).

Lemma joined_clients C s c : simulates C s -> joined C c <-> c ∈ s_clients s.
Proof.
  intros (_ & srv & sem & shm & p & m & Hw & Hsv & _). unfold joined.
  pose proof (wr_srv _ _ _ _ _ _ _ _ Hw) as Es. split.
  - intros (srv0 & E & Hc). rewrite Es in E. injection E as <-.
    rewrite (sv_clients _ _ _ _ _ Hsv) in Hc. by apply (list_elem_of_fmap_inj_2 Z.of_nat) in Hc.
  - intros Hc. exists srv. split; [done|]. rewrite (sv_clients _ _ _ _ _ Hsv).
    by apply list_elem_of_fmap_2.
Qed.

Lemma reader_alive C s c e : simulates C s -> sy_readers C !! c = Some e -> is_Some (s_readers s !! c).
Proof.
  intros (_ & srv & sem & shm & p & m & _ & _ & Hr & _) He. destruct (Hr c e He) as (r & -> & _).
  by eexists.
Qed.

(** The run [tr] accounts for what the readers with [P] were given and for the
    frames [fs] that were published: those announced to a reader are the last
    ones, all of them when it is a client from the start, none when it is not
    at the end. *)
Definition accounts (P : nat -> Prop) C C' (tr : list label) (fs : list cstr) : Prop :=
  forall c e, P c -> sy_readers C !! c = Some e -> exists e', sy_readers C' !! c = Some e' /\
    ep_given e' = ep_given e ++ delivered c tr /\ (LEnd c ∉ tr) /\
    sent c tr `suffix_of` fs /\ (joined C c -> joined C' c /\ sent c tr = fs) /\
    (joined C' c \/ sent c tr = []).

(** The operations after which the server has the same clients and which
    announce nothing. *)
Lemma accounts_quiet P C C' tr :
  sy_writer C' = sy_writer C ->
  (forall c e, P c -> sy_readers C !! c = Some e -> exists e', sy_readers C' !! c = Some e' /\
     ep_given e' = ep_given e ++ delivered c tr /\ (LEnd c ∉ tr) /\ sent c tr = []) ->
  accounts P C C' tr [].
Proof.
  intros Hw Hq c e Hp He. destruct (Hq c e Hp He) as (e' & He' & Hg & Hn & Hs). exists e'.
  rewrite Hs. unfold joined. rewrite Hw. split_and!; try done. by right.
Qed.

Lemma publish_accounts f C C' s :
  inv s -> simulates C s -> op_ok (Publish f) -> do_publish f C = Some C' ->
  exists tr s', run s tr s' /\ simulates C' s' /\ sy_cnx C' = sy_cnx C /\
    accounts (fun _ => True) C C' tr [f].
Proof using All.
  intros Hinv Hsim Hok E.
  destruct (publish_simulated f C C' s Hinv Hsim Hok E) as (s' & Hrun & Hsim' & Hcl & Hrs & Hcnx).
  eexists _, s'. split; [exact Hrun|]. do 2 (split; [done|]). intros c e _ He. exists e.
  destruct (publish_trace c s f (ci_nodup _ (inv_clients _ Hinv))) as (E1 & E2 & E3);
    [by eapply reader_alive|].
  rewrite Hrs, E1, E2, app_nil_r, (joined_clients C s), (joined_clients C' s'), Hcl by done.
  do 3 (split; [done|]). destruct (decide (c ∈ s_clients s)); split_and!; try done.
  - by left.
  - by exists [f].
  - by right.
Qed.

Lemma receive_accounts c C C' s :
  inv s -> simulates C s -> do_receive c C = Some C' ->
  exists tr s', run s tr s' /\ simulates C' s' /\ sy_cnx C' = sy_cnx C /\
    accounts (fun _ => True) C C' tr [].
Proof using All.
  intros Hinv Hsim E.
  destruct (sy_readers C !! c) as [e|] eqn:He; [|unfold do_receive in E; by rewrite He in E].
  destruct (ep_data e) as [d|] eqn:Hd.
  - destruct (receive_simulated c C C' s e Hinv Hsim He) as (data & s' & e' & Hrun & Hsim' & HC & Hg);
      [by rewrite Hd|done|].
    eexists _, s'. split; [exact Hrun|]. split; [done|]. rewrite HC. split; [done|].
    apply accounts_quiet; [done|]. intros d' ed _ Hed. destruct (receive_trace c d' data) as (E1 & E2 & E3).
    rewrite E1, E2. cbn [with_reader sy_readers]. destruct (decide (c = d')) as [->|Hne].
    + exists e'. rewrite lookup_insert_eq. rewrite He in Hed. injection Hed as <-. by split_and!.
    + exists ed. rewrite lookup_insert_ne, app_nil_r by done. by split_and!.
  - destruct (greet_simulated c C C' s e Hinv Hsim He Hd E) as (Hsim' & e' & HC & Hg & _).
    exists [], s. split; [constructor|]. split; [done|]. rewrite HC. split; [done|].
    apply accounts_quiet; [done|]. intros d ed _ Hed. cbn [with_reader sy_readers].
    destruct (decide (c = d)) as [->|Hne].
    + exists e'. rewrite lookup_insert_eq. rewrite He in Hed. injection Hed as <-.
      rewrite app_nil_r. split_and!; try done. apply not_elem_of_nil.
    + exists ed. rewrite lookup_insert_ne, app_nil_r by done. split_and!; try done. apply not_elem_of_nil.
Qed.

Lemma op_simulated o C C' s :
  inv s -> simulates C s -> op_ok o -> do_op o C = Some C' ->
  exists tr s', run s tr s' /\ simulates C' s' /\ sy_cnx C' = sy_cnx C /\
    accounts (fun c => Exit c <> o) C C' tr (published_by [o]).
Proof using All.
  intros Hinv Hsim Hok E.
  destruct o as [f| |c|c|c]; cbn [do_op] in E; unfold published_by; cbn [fmap list_fmap mjoin list_join app].
  - destruct (publish_accounts f C C' s Hinv Hsim Hok E) as (tr & s' & Hrun & Hsim' & Hcnx & Ha).
    exists tr, s'. do 3 (split; [done|]). intros d e _. by apply Ha.
  - destruct (turn_simulated C C' s Hinv Hsim E) as (tr & s' & Hrun & Hsim' & Hq & Hrs & Hcnx & Hkeep).
    exists tr, s'. do 3 (split; [done|]). intros c e _ He. destruct (Hq c) as (E1 & E2 & E3). exists e.
    rewrite Hrs, E1, E2, app_nil_r, (joined_clients C s), (joined_clients C' s') by done.
    do 4 (split; [done|]). split; [|by right]. intros Hc. split; [|done]. apply Hkeep; [|done].
    by eapply reader_alive.
  - destruct (open_simulated c C C' s Hinv Hsim E) as (s' & e' & Hrun & Hsim' & Hno & HC & _).
    eexists _, s'. split; [exact Hrun|]. split; [done|]. rewrite HC. split; [done|]. apply accounts_quiet; [done|].
    intros d e _ He. exists e. cbn [with_reader sy_readers].
    rewrite lookup_insert_ne by (intros ->; congruence). unfold delivered, sent. simpl.
    rewrite app_nil_r. split_and!; try done. rewrite list_elem_of_singleton. congruence.
  - destruct (receive_accounts c C C' s Hinv Hsim E) as (tr & s' & Hrun & Hsim' & Hcnx & Ha).
    exists tr, s'. do 3 (split; [done|]). intros d e _. by apply Ha.
  - destruct (sy_readers C !! c) as [e|] eqn:He; [|unfold do_end in E; by rewrite He in E].
    destruct (end_simulated c C C' s e Hinv Hsim He E) as (s' & Hrun & Hsim' & Hw & Hcnx & Hrs).
    eexists _, s'. split; [exact Hrun|]. do 2 (split; [done|]). apply accounts_quiet; [done|].
    intros d ed Hd Hed. exists ed. assert (Hne : c <> d) by congruence.
    rewrite Hrs, lookup_delete_ne by done. unfold delivered, sent. simpl. rewrite app_nil_r.
    split_and!; try done. rewrite list_elem_of_singleton. congruence.
Qed.

Lemma accounts_trans P Q C C1 C' tr tr' fs fs' :
  accounts P C C1 tr fs -> accounts Q C1 C' tr' fs' ->
  accounts (fun c => P c /\ Q c) C C' (tr ++ tr') (fs ++ fs').
Proof.
  intros Ha Hb c e [Hp Hq] He. destruct (Ha c e Hp He) as (e1 & He1 & Hg1 & Hn1 & Hs1 & Hj1 & Hz1).
  destruct (Hb c e1 Hq He1) as (e2 & He2 & Hg2 & Hn2 & Hs2 & Hj2 & Hz2). exists e2.
  rewrite Hg2, Hg1, delivered_app, sent_app, app_assoc, not_elem_of_app. do 3 (split; [done|]).
  split; [|split].
  - destruct Hz1 as [Hj| ->]; [|by apply suffix_app_r].
    rewrite (proj2 (Hj2 Hj)). destruct Hs1 as [l ->]. exists l. by rewrite app_assoc.
  - intros [Hj Hs]%Hj1. destruct (Hj2 Hj) as [Hj' Hs']. by rewrite Hs, Hs'.
  - destruct Hz1 as [Hj| ->]; [left; by apply Hj2|done].
Qed.

Lemma ops_simulated os C C' s :
  inv s -> simulates C s -> Forall op_ok os -> do_ops os C = Some C' ->
  exists tr s', run s tr s' /\ simulates C' s' /\ sy_cnx C' = sy_cnx C /\
    accounts (fun c => Exit c ∉ os) C C' tr (published_by os).
Proof using All.
  revert C s. induction os as [|o os IH]; intros C s Hinv Hsim Hok E.
  - injection E as <-. exists [], s. split; [constructor|]. do 2 (split; [done|]).
    apply accounts_quiet; [done|]. intros c e _ He. exists e. rewrite app_nil_r.
    split_and!; try done. apply not_elem_of_nil.
  - apply Forall_cons in Hok as [Ho Hok]. cbn [do_ops] in E.
    apply bind_Some in E as (C1 & E1 & E).
    destruct (op_simulated o C C1 s Hinv Hsim Ho E1) as (tr & s1 & Hrun & Hsim1 & Hcnx1 & Ha).
    destruct (IH C1 s1) as (tr' & s' & Hrun' & Hsim' & Hcnx' & Ha'); [by eapply run_inv|done..|].
    exists (tr ++ tr'), s'. split; [by eapply steps_app|]. split; [done|]. split; [congruence|].
    intros c e Hc He. apply not_elem_of_cons in Hc as [Hc Hcs].
    replace (published_by (o :: os)) with (published_by [o] ++ published_by os)
      by (unfold published_by; cbn; by rewrite app_nil_r).
    by apply (accounts_trans _ _ C C1 C' tr tr' _ _ Ha Ha').
Qed.

(** A system that a reachable state of the protocol describes. *)
Definition well_formed C : Prop := exists s, reachable initial step s /\ simulates C s.

Lemma run_reachable s tr s' : reachable initial step s -> run s tr s' -> reachable initial step s'.
Proof.
  intros Hs Hr. induction Hr as [|s s1 s2 l tr Ht Hl Hr IH]; [done|].
  apply IH. apply (reach_step _ _ s); [done|]. by exists l.
Qed.

Lemma ops_well_formed os C C' :
  well_formed C -> Forall op_ok os -> do_ops os C = Some C' -> well_formed C'.
Proof using All.
  intros (s & Hs & Hsim) Hok E.
  destruct (ops_simulated os C C' s (inv_reachable s Hs) Hsim Hok E) as (tr & s' & Hr & Hsim' & _).
  exists s'. split; [by eapply run_reachable|done].
Qed.
End runs.
