(* ===== verification/SystemStart.v ===== *)
(** * The system that a new writer starts

    A valid writer, as its constructor leaves it, and its server's thread
    before its first turn, are a system that the protocol describes: the
    recovery of a dead shmdata included, provided the keys of the path are
    still those of the segment and of the semaphores. *)

From S2P Require Import Prelude Logger StdLib Posix PosixModel SysVSem SysVShm SocketProtocol.
From S2P Require Import UnixSocketServer UnixSocketClient ServerTheorems Reader ReaderTheorems.
From S2P Require Import Writer WriterTheorems SystemCalls.
From S2P Require Import ShmProtocol ShmSystem ShmInvariant ShmRefinement ShmTheorems PublishRun.
From S2P Require Import ShmSimulation ServerRun ServerSimulation SystemRuns.

(** ** The thread starts *)

(** The variables of [client_interaction] before its loop. *)
Definition start_system {K} (w : Writer) (W : world K) : option (system K) :=
  srv ← srv_ w;
  match FD_SET (srv_fd_ srv) ∅ W with
  | (Ret allset, W') => Some (System W' w (connect_data_ w) (Locals allset (srv_fd_ srv)) ∅)
  | _ => None
  end.

Section start.
Context {K : Type} `{FileOS K} `{ErrnoOS K} `{SemOS K} `{ShmOS K} `{SockOS K} `{PeerOS K}
  `{!SemLaws K} `{!ShmLaws K} `{!SockLaws K} `{!FileLaws K} `{!FrameLaws K} `{!PeerLaws K}
  `{!SetupLaws K}.
Implicit Types (k : K) (w : Writer) (srv : UnixSocketServer) (shm : sysVShm) (sem : sysVSem).

(** ** What the members are *)

Definition server_made (pad : cstr) srv k : Prop :=
  server_is_valid srv = true ->
  srv_fd_ srv ∈ fds k /\ (0 <= srv_fd_ srv)%Z /\
  clients_ srv = [] /\ clients_notified_ srv = [] /\ pending_clients_ srv = [] /\
  srv_update_msg_ srv = default_update pad.
Definition segment_made (memsize : Z) shm k : Prop :=
  sysVShm_is_valid shm = true ->
  shm_owner_ shm = true /\ seg_mine k (shmid_ shm) = true /\
  exists p, shm_holds shm p (replicate (Z.to_nat memsize) Ascii.zero) (World k []).
Definition semaphores_made sem k : Prop :=
  sysVSem_is_valid sem = true ->
  sem_vals k (semid_ sem) = Some [0%Z; 0%Z] /\ sem_key k (sem_key_ sem) = Some (semid_ sem) /\
  sem_mine k (semid_ sem) = true /\ sem_owner_ sem = true.

Lemma server_made_keep pad srv k k' : fds k' = fds k -> server_made pad srv k -> server_made pad srv k'.
Proof. unfold server_made. by intros ->. Qed.
Lemma segment_made_keep memsize shm k k' :
  shm_view k' = shm_view k -> segment_made memsize shm k -> segment_made memsize shm k'.
Proof. unfold segment_made, shm_holds. simpl. by intros [= -> -> -> ->]. Qed.
Lemma semaphores_made_keep sem k k' :
  sem_view k' = sem_view k -> semaphores_made sem k -> semaphores_made sem k'.
Proof. unfold semaphores_made. by intros [= -> -> ->]. Qed.

(** A call keeps what it does not touch. *)
Lemma kp_keep {X A} (f : K -> X) (R P : K -> Prop) (m : M (world K) A) Q :
  keeps f m -> (forall k k', f k' = f k -> R k -> R k') -> kpartial P m Q ->
  kpartial (fun k => R k /\ P k) m (fun a k => R k /\ Q a k).
Proof.
  intros Hk HR Hm W a W' [HRk HP] E. split; [|by apply (Hm W)].
  apply (HR (kern W)); [|done]. by apply (Hk (f (kern W)) W a W').
Qed.

Lemma kp_stable {X A} (f : K -> X) (R : K -> Prop) (m : M (world K) A) :
  keeps f m -> (forall k k', f k' = f k -> R k -> R k') -> kpartial R m (fun _ => R).
Proof.
  intros Hk HR W a W' HRk E. apply (HR (kern W)); [|done]. by apply (Hk (f (kern W)) W a W').
Qed.

Lemma kp_then {X A B} (f : K -> X) (R : K -> Prop) (m : M (world K) A) (g : A -> M (world K) B) Q :
  keeps f m -> (forall k k', f k' = f k -> R k -> R k') -> (forall a, kpartial R (g a) Q) ->
  kpartial R (m ≫= g) Q.
Proof. intros Hk HR Hg. eapply kp_bind; [by apply (kp_stable f)|exact Hg]. Qed.

(** One that makes something and keeps the rest. *)
Lemma kp_make {X A B} (f : K -> X) (R : K -> Prop) (m : M (world K) A) S (g : A -> M (world K) B) Q :
  keeps f m -> (forall k k', f k' = f k -> R k -> R k') -> kpartial (fun _ => True) m S ->
  (forall a, kpartial (fun k => R k /\ S a k) (g a) Q) -> kpartial R (m ≫= g) Q.
Proof.
  intros Hk HR Hm Hg. eapply kp_bind; [|exact Hg].
  apply (kp_conseq _ _ _ _ _ (kp_keep f R _ m S Hk HR Hm)); [by intros k Hr|done].
Qed.

(** ** The calls *)

Lemma setup_keeps {A} (f : K -> A * K) :
  (forall k, ipc_view (f k).2 = ipc_view k /\ fds (f k).2 = fds k) ->
  keeps ipc_view (sys f) /\ keeps fds (sys f).
Proof.
  intros Hf. split; apply keeps_sys; intros k a k' E; destruct (Hf k) as [H1' H2']; by rewrite E in *.
Qed.
Lemma keeps_getfl fd : keeps ipc_view (sys (fcntl_getfl fd)) /\ keeps fds (sys (fcntl_getfl fd)).
Proof using All. apply setup_keeps. intros k. apply getfl_frame. Qed.
Lemma keeps_setfl fd n : keeps ipc_view (sys (fcntl_setfl fd n)) /\ keeps fds (sys (fcntl_setfl fd n)).
Proof using All. apply setup_keeps. intros k. apply setfl_frame. Qed.
Lemma keeps_bind_call fd path : keeps ipc_view (sys (bind fd path)) /\ keeps fds (sys (bind fd path)).
Proof using All. apply setup_keeps. intros k. apply bind_frame. Qed.
Lemma keeps_chmod path m : keeps ipc_view (sys (chmod path m)) /\ keeps fds (sys (chmod path m)).
Proof using All. apply setup_keeps. intros k. apply chmod_frame. Qed.
Lemma keeps_listen fd n : keeps ipc_view (sys (listen fd n)) /\ keeps fds (sys (listen fd n)).
Proof using All. apply setup_keeps. intros k. apply listen_frame. Qed.
Lemma keeps_socket : keeps ipc_view (sys socket).
Proof using All.
  apply keeps_sys. intros k fd k' E. pose proof (socket_law k) as Hl. rewrite E in Hl. apply Hl.
Qed.
Lemma keeps_get_errno {X} (f : K -> X) : keeps f get_errno.
Proof. by intros x W a W' Hw [= <- <-]. Qed.
Lemma keeps_stat path : keeps ipc_view (sys (stat path)).
Proof using All.
  apply keeps_sys. intros k a k' E. pose proof (stat_frame path k) as Hl. by rewrite E in Hl.
Qed.
Lemma keeps_unlink path : keeps ipc_view (sys (unlink path)).
Proof using All.
  apply keeps_sys. intros k a k' E. pose proof (unlink_frame path k) as Hl. by rewrite E in Hl.
Qed.
#[local] Hint Resolve keeps_get_errno keeps_socket keeps_stat keeps_unlink : shm.
#[local] Hint Extern 1 (keeps ipc_view (sys _)) => apply keeps_getfl : shm.
#[local] Hint Extern 1 (keeps ipc_view (sys _)) => apply keeps_setfl : shm.
#[local] Hint Extern 1 (keeps ipc_view (sys _)) => apply keeps_bind_call : shm.
#[local] Hint Extern 1 (keeps ipc_view (sys _)) => apply keeps_chmod : shm.
#[local] Hint Extern 1 (keeps ipc_view (sys _)) => apply keeps_listen : shm.

(** Through the binds and the tests of a call. *)
Ltac keeps_calls :=
  repeat (lazymatch goal with
  | |- keeps _ (_ ≫= _) => apply keeps_bind; [|intros ?; cbn beta]
  | |- keeps _ (let _ := _ in _) => cbn zeta
  | |- keeps _ (match _ with _ => _ end) => case_match
  | |- keeps _ _ => solve [auto 3 with shm]
  end).

(** ** The server *)

Lemma keeps_make_server path pad perm : keeps ipc_view (make_server path pad perm).
Proof using All.
  unfold make_server, UnixSocketServer_ctor, UnixSocket_ctor.
  keeps_calls.
Qed.

Lemma keeps_cleaning path : keeps ipc_view (force_sockserv_cleaning path).
Proof using All. unfold force_sockserv_cleaning. keeps_calls. Qed.

Definition is_open (fd : Z) k : Prop := fd = (-1)%Z \/ ((0 <= fd)%Z /\ fd ∈ fds k).
Lemma is_open_keep fd k k' : fds k' = fds k -> is_open fd k -> is_open fd k'.
Proof. unfold is_open. by intros ->. Qed.

Lemma UnixSocket_ctor_spec : kpartial (fun _ : K => True) UnixSocket_ctor is_open.
Proof using All.
  unfold UnixSocket_ctor. eapply kp_bind.
  { apply (kp_sys _ _ is_open). intros k fd k' _ E. pose proof (socket_law k) as Hl. rewrite E in Hl.
    destruct Hl as (_ & [->|[Hf Hfd]]); [by left|right]. rewrite Hfd. set_solver. }
  intros fd. cbn beta. apply kp_skip; [auto with shm|].
  eapply kp_bind; [apply (kp_stable fds), is_open_keep; apply keeps_getfl|]. intros fl. cbn beta.
  apply kp_skip; [auto with shm|].
  eapply kp_bind; [apply (kp_stable fds), is_open_keep; apply keeps_setfl|]. intros r. cbn beta.
  apply kp_skip; [auto with shm|]. by apply kp_ret.
Qed.

Lemma make_server_spec path pad perm :
  kpartial (fun _ : K => True) (make_server path pad perm) (server_made pad).
Proof using All.
  unfold make_server, UnixSocketServer_ctor. eapply kp_bind; [apply UnixSocket_ctor_spec|].
  intros fd. cbn beta zeta. destruct (UnixSocket_is_valid fd) eqn:Hv; [|by apply kp_ret].
  cbn [negb]. rewrite bool_decide_false by done. case_match.
  { apply kp_skip; [auto with shm|]. by apply kp_ret. }
  eapply kp_bind; [apply (kp_stable fds), is_open_keep; apply keeps_bind_call|]. intros r. cbn beta.
  case_match.
  { eapply kp_bind; [apply (kp_stable fds), is_open_keep; apply keeps_get_errno|]. intros err. cbn beta.
    apply kp_skip; [auto with shm|]. by apply kp_ret. }
  eapply kp_bind; [apply (kp_stable fds), is_open_keep; apply keeps_chmod|]. intros r1. cbn beta.
  eapply kp_bind; [apply (kp_stable fds), is_open_keep; apply keeps_listen|]. intros r2. cbn beta.
  case_match.
  - eapply kp_bind; [apply (kp_stable fds), is_open_keep; apply keeps_get_errno|]. intros err. cbn beta.
    apply kp_skip; [auto with shm|]. by apply kp_ret.
  - apply kp_ret. intros k [->|[Hf Hk]]; [done|]. by intros _.
Qed.

(** ** The segment and the semaphores *)

Lemma keeps_ftok path c :
  keeps ipc_view (sys (ftok path c)) /\ keeps sock_view (sys (ftok path c)).
Proof using All.
  split; apply keeps_sys; intros k a k' E; destruct (peer_ftok path c k) as (_ & E1 & E2 & E3 & _);
    rewrite E in *; cbn [snd] in *; unfold ipc_view; congruence.
Qed.

Lemma keeps_semaphore_ctor key owner perm :
  keeps shm_view (sysVSem_ctor key owner perm) /\ keeps sock_view (sysVSem_ctor key owner perm).
Proof using All.
  unfold sysVSem_ctor. split; (apply keeps_bind; [apply keeps_sys|intros id; by auto 4 with shm]);
    intros k r k' E; match type of E with semget ?a ?b ?c k = _ =>
      destruct (peer_semget a b c k) as (E1 & E2 & _) end; by rewrite E in *.
Qed.

Lemma segment_ctor_made key memsize perm :
  (0 <= memsize)%Z -> (0 <= perm < 512)%Z ->
  kpartial (fun _ : K => True) (sysVShm_ctor key memsize true perm)
    (fun shm k => segment_made memsize shm k /\ (sysVShm_is_valid shm = true -> shm_key_ shm = key)).
Proof using All.
  intros Hm Hp W shm W' _ E. destruct (decide (key = (-1)%Z)) as [->|Hk].
  { unfold sysVShm_ctor, sys in E. apply bind_inv in E as (id & W1 & E1 & E). cbn in E.
    by injection E as <- <-. }
  destruct (seg_key (kern W) key) as [id|] eqn:Hkey.
  - destruct (shmget_excl (kern W) key memsize perm id Hkey Hp) as (k' & E1 & _).
    unfold sysVShm_ctor, sys in E. apply bind_inv in E as (r & W1 & E2 & E). rewrite E1 in E2.
    injection E2 as <- <-. rewrite (proj2 (Z.eqb_neq key (-1)) Hk) in E. cbn in E.
    injection E as <- <-. unfold segment_made, sysVShm_is_valid. simpl. by rewrite !andb_false_r.
  - destruct (owner_ctor_spec key memsize perm W Hk Hkey Hm Hp) as (shm1 & W1 & E1 & Hc).
    rewrite E1 in E. injection E as <- <-. destruct Hc as [Hno|(p & _ & _ & _ & Hh & _ & Ek & Eo & Hn & _)].
    + unfold segment_made. by rewrite (invalid_unattached _ Hno).
    + split; [|done]. intros _. do 2 (split; [done|]). by exists p.
Qed.

Lemma semaphores_ctor_made key perm :
  (0 <= perm < 512)%Z ->
  kpartial (fun _ : K => True) (sysVSem_ctor key true perm)
    (fun sem k => semaphores_made sem k /\ sem_key_ sem = key).
Proof using All.
  intros Hp W sem W' _ E. unfold sysVSem_ctor, sys in E. apply bind_inv in E as (id & W1 & E1 & E).
  assert (Ek : kern W' = kern W1 /\ sem = SysVSem key true id)
    by (by destruct (id <? 0)%Z; injection E as <- <-). destruct Ek as [-> ->]. clear E.
  split; [|done]. unfold semaphores_made, sysVSem_is_valid. cbn [semid_ sem_key_]. intros Hv%Z.ltb_lt.
  destruct (sem_key (kern W) key) as [id0|] eqn:Hkey.
  - destruct (semget_excl (kern W) key 2 perm id0 Hkey Hp) as (k' & E2 & _). rewrite E2 in E1.
    injection E1 as <- <-. lia.
  - destruct (semget_create (kern W) key 2 perm Hkey) as (r & k' & E2 & Hc); [lia|done|].
    rewrite E2 in E1. injection E1 as <- <-. destruct Hc as [Hc|(_ & _ & _ & Hc & Hk & Hm)]; [lia|done].
Qed.

(** The objects have the keys of the path. *)
Definition segment_named (path : cstr) shm k : Prop :=
  sysVShm_is_valid shm = true -> file_key k (c_str path) "n"%char = shm_key_ shm.
Definition semaphores_named (path : cstr) sem k : Prop :=
  file_key k (c_str path) "m"%char = sem_key_ sem.

Lemma segment_named_keep path shm k k' :
  sock_view k' = sock_view k -> segment_named path shm k -> segment_named path shm k'.
Proof. unfold segment_named. by intros [= _ _ _ ->]. Qed.

Lemma make_segment_spec path memsize perm :
  (0 <= memsize)%Z -> (0 <= perm < 512)%Z ->
  kpartial (fun _ : K => True) (make_segment path memsize perm)
    (fun shm k => segment_made memsize shm k /\ segment_named path shm k).
Proof using All.
  intros Hm Hp W shm W' _ E. unfold make_segment in E. apply bind_inv in E as (key & W1 & E1 & E).
  unfold sys in E1. destruct (peer_ftok (c_str path) "n"%char (kern W)) as (F1 & _ & _ & F4 & _).
  destruct (ftok _ _ _) as [key' k1]. injection E1 as <- <-. cbn [fst snd] in *. subst key'.
  destruct (other_views_eq _ _ (keeps_run _ _ _ _ _ (keeps_sysVShm_ctor _ _ _ _) E)) as [_ HK].
  destruct (segment_ctor_made _ memsize perm Hm Hp _ _ _ I E) as [Hs Hkey]. split; [done|].
  intros Hv. rewrite (Hkey Hv). injection HK as _ _ _ ->. by injection F4 as _ _ _ ->.
Qed.

Lemma make_semaphore_spec path perm :
  (0 <= perm < 512)%Z ->
  kpartial (fun _ : K => True) (make_semaphore path perm)
    (fun sem k => semaphores_made sem k /\ semaphores_named path sem k).
Proof using All.
  intros Hp W sem W' _ E.
  unfold make_semaphore in E. apply bind_inv in E as (key & W1 & E1 & E).
  unfold sys in E1. destruct (peer_ftok (c_str path) "m"%char (kern W)) as (F1 & _ & _ & F4 & _).
  destruct (ftok _ _ _) as [key' k1]. injection E1 as <- <-. cbn [fst snd] in *. subst key'.
  destruct (semaphores_ctor_made _ perm Hp _ _ _ I E) as [Hs Hkey]. split; [done|].
  pose proof (keeps_run _ _ _ _ _ (proj2 (keeps_semaphore_ctor _ true perm)) E) as HK.
  unfold semaphores_named. rewrite Hkey. injection HK as _ _ _ ->. by injection F4 as _ _ _ ->.
Qed.

(** ** The constructor *)

Definition made pad (memsize : Z) srv shm sem k : Prop :=
  server_made pad srv k /\ segment_made memsize shm k /\ semaphores_made sem k.

Lemma keeps_make_segment path memsize perm : keeps other_views (make_segment path memsize perm).
Proof using All.
  unfold make_segment. apply keeps_bind; [|intros key; apply keeps_sysVShm_ctor].
  apply keeps_sys. intros k a k' E. destruct (peer_ftok (c_str path) "n"%char k) as (_ & E1 & _ & E3 & _).
  rewrite E in *. cbn [snd] in *. unfold other_views. congruence.
Qed.
Lemma keeps_make_semaphore path perm :
  keeps shm_view (make_semaphore path perm) /\ keeps sock_view (make_semaphore path perm).
Proof using All.
  unfold make_semaphore. split; (apply keeps_bind; [|intros key; apply keeps_semaphore_ctor]);
    apply keeps_sys; intros k a k' E; destruct (peer_ftok (c_str path) "m"%char k) as (_ & _ & E2 & E3 & _);
    by rewrite E in *.
Qed.
Lemma keeps_shm_cleaning key : keeps sem_view (force_shm_cleaning key).
Proof using All.
  unfold force_shm_cleaning. apply keeps_bind.
  { apply keeps_sys. intros k r k' E. by destruct (shmget_frame _ _ _ _ _ _ E). }
  intros id. case_match; [by auto with shm|]. apply keeps_bind; [|by auto 6 with shm].
  apply keeps_sys. intros k r k' E. by destruct (shm_rmid_frame _ _ _ _ E).
Qed.

Lemma fds_sock k k' : sock_view k' = sock_view k -> fds k' = fds k.
Proof. by intros [= E _ _ _]. Qed.
Lemma other_sem k k' : other_views k' = other_views k -> sem_view k' = sem_view k.
Proof. intros E. apply (other_views_eq _ _ E). Qed.
Lemma other_fds k k' : other_views k' = other_views k -> fds k' = fds k.
Proof. intros E. apply fds_sock, (other_views_eq _ _ E). Qed.
Lemma ipc_both k k' : ipc_view k' = ipc_view k -> sem_view k' = sem_view k /\ shm_view k' = shm_view k.
Proof. unfold ipc_view, sem_view, shm_view. intros [= ]. split; congruence. Qed.

(** The recovery of a dead shmdata. *)
Lemma retry_made path pad memsize perm :
  (0 <= memsize)%Z -> (0 <= perm < 512)%Z ->
  kpartial (fun _ : K => True) (clean_and_retry path pad memsize perm)
    (fun '(srv, shm, sem) => made pad memsize srv shm sem).
Proof using All.
  intros Hm Hp. unfold clean_and_retry. apply kp_skip; [auto with shm|].
  do 2 (eapply kp_bind; [apply kp_true|]; intros ?; cbn beta).
  eapply kp_bind; [|intros sem; cbn beta].
  { eapply kp_conseq; [apply make_semaphore_spec, Hp|done|]. intros sem k [Hs _]. exact Hs. }
  apply (kp_then ipc_view); [apply keeps_ftok| |intros key].
  { intros k k' E. apply semaphores_made_keep, (ipc_both _ _ E). }
  apply (kp_then sem_view); [apply keeps_shm_cleaning|apply semaphores_made_keep|intros r].
  eapply (kp_make other_views); [apply keeps_make_segment| |by apply make_segment_spec|intros shm].
  { intros k k' E. apply semaphores_made_keep, (other_sem _ _ E). }
  eapply kp_conseq with (P := fun k => semaphores_made sem k /\ segment_made memsize shm k);
    [|by intros k (? & ? & _)|intros x k Hx; exact Hx].
  assert (Hst : forall k k', ipc_view k' = ipc_view k ->
    semaphores_made sem k /\ segment_made memsize shm k ->
    semaphores_made sem k' /\ segment_made memsize shm k').
  { intros k k' [E1 E2]%ipc_both [Hs Hg]. split; [by eapply semaphores_made_keep|by eapply segment_made_keep]. }
  apply (kp_then ipc_view); [apply keeps_cleaning|exact Hst|intros b].
  eapply (kp_make ipc_view); [apply keeps_make_server|exact Hst|apply make_server_spec|intros srv].
  apply kp_ret. by intros k [[Hs Hg] Hsrv].
Qed.

(** The objects made at once. *)
Lemma attempt_made {B} path pad memsize perm (g : UnixSocketServer -> sysVShm -> sysVSem -> M (world K) B) Q :
  (0 <= memsize)%Z -> (0 <= perm < 512)%Z ->
  (forall srv shm sem, kpartial (fun k => made pad memsize srv shm sem k /\ segment_named path shm k /\
     semaphores_named path sem k) (g srv shm sem) Q) ->
  kpartial (fun _ => True)
    (srv ← make_server path pad perm; shm ← make_segment path memsize perm;
     sem ← make_semaphore path perm; g srv shm sem) Q.
Proof using All.
  intros Hm Hp Hg. eapply kp_bind; [apply make_server_spec|]. intros srv. cbn beta.
  eapply (kp_make other_views); [apply keeps_make_segment| |by apply make_segment_spec|intros shm].
  { intros k k' E. apply server_made_keep, other_fds, E. }
  destruct (keeps_make_semaphore path perm) as [K1 K2].
  eapply (kp_make (fun k => (shm_view k, sock_view k))); [| |by apply make_semaphore_spec|intros sem].
  - intros x W a W' Hx E. by rewrite (keeps_run _ _ _ _ _ K1 E), (keeps_run _ _ _ _ _ K2 E).
  - intros k k' E. apply pair_eq in E as [E1 E2]. intros (R1 & R2 & R3). split.
    + by apply (server_made_keep _ _ k); [apply fds_sock|].
    + split; [by apply (segment_made_keep _ _ k)|by apply (segment_named_keep _ _ k)].
  - eapply kp_conseq; [apply Hg| |done]. by intros k [(R1 & R2 & R3) [S1 S2]].
Qed.

Definition writer_made pad path (memsize : Z) d w k : Prop :=
  wr_is_valid_ w = true ->
  wr_path_ w = path /\ connect_data_ w = d /\ exists srv shm sem,
    srv_ w = Some srv /\ wr_shm_ w = Some shm /\ wr_sem_ w = Some sem /\
    valid_members srv shm sem = true /\ made pad memsize srv shm sem k.

(** The server's thread runs. *)
Definition writer_serves w : Prop := wr_is_valid_ w = true -> serving <$> srv_ w = Some true.

(** The end of the constructor. *)
Lemma serve_made pad path memsize d w :
  kpartial (writer_made pad path memsize d w)
    (if negb (wr_is_valid_ w)
     then (log LWarning $"writer failled initialization" [];; mret w)
     else
       match srv_ w with
       | None => undef
       | Some srv' =>
           srv'' ← start_serving srv';
           log LDebug $"writer initialized" [];;
           mret (with_srv (Some srv'') w)
       end)
    (fun w k => writer_serves w /\ writer_made pad path memsize d w k).
Proof using All.
  intros W w' W' Hw E. destruct (wr_is_valid_ w) eqn:Hv; cbn [negb] in E.
  2: { apply bind_inv in E as (u & W1 & [= <- <-] & [= <- <-]). unfold writer_serves. by rewrite Hv. }
  destruct (Hw Hv) as (Hp & Hd & srv & shm & sem & Hs & Hshm & Hsem & Hval & (Hm1 & Hm2)).
  rewrite Hs in E. apply bind_inv in E as (srv'' & W1 & E1 & E).
  apply bind_inv in E as (u & W2 & [= <- <-] & [= <- <-]).
  assert (Hserve : kern W1 = kern W /\ serving srv'' = true /\
    (srv'' = srv \/ srv'' = with_serving true srv)).
  { unfold start_serving in E1. destruct (serving srv) eqn:Hsr; [|injection E1 as <- <-; auto].
    apply bind_inv in E1 as (u & W2 & [= <- <-] & [= <- <-]). auto. }
  destruct Hserve as (Hk & Hsr & Hsv). cbn [kern]. rewrite Hk.
  split; [intros _; cbn; by rewrite Hsr|]. intros _.
  cbn [with_srv wr_path_ connect_data_ wr_shm_ wr_sem_ srv_]. do 2 (split; [done|]).
  exists srv'', shm, sem. do 3 (split; [done|]). split; [by destruct Hsv as [->| ->]|].
  split; [|done]. by destruct Hsv as [->| ->].
Qed.

(** The inspection of the path, when an object is missing. *)
Lemma inspect_made path pad memsize perm d turns srv shm sem :
  (0 <= memsize)%Z -> (0 <= perm < 512)%Z ->
  kpartial (fun _ : K => True)
    (sysVSem_dtor sem;; sysVShm_dtor shm;; UnixSocketServer_dtor srv;;
     log LDebug $"checking if a shmdata having the same path is already active" [];;
     '(inspector, cli) ← Reader_ctor (ReaderCbs None None None) pad path turns;
     Reader_dtor (ReaderCbs None None None) turns inspector cli;;
     if negb (rd_is_valid_ inspector)
     then
       '(srv', shm', sem') ← clean_and_retry path pad memsize perm;
       mret (mkWriter path d (Some srv') (Some shm') (Some sem') memsize
               (valid_members srv' shm' sem'))
     else (log LError $"an other writer is using the same path" [];;
           mret (mkWriter path d None None None memsize false)))
    (writer_made pad path memsize d).
Proof using All.
  intros Hm Hp. do 4 (eapply kp_bind; [apply kp_true|]; intros ?; cbn beta).
  eapply kp_bind; [apply kp_true|]. intros [inspector cli]. cbn beta iota.
  eapply kp_bind; [apply kp_true|]. intros u. cbn beta. case_match.
  - eapply kp_conseq with (P := fun _ => True); [|done|intros x k Hx; exact Hx].
    eapply kp_bind; [by apply retry_made|]. intros [[srv' shm'] sem']. apply kp_ret.
    intros k Hmade Hv. do 2 (split; [done|]). by exists srv', shm', sem'.
  - eapply kp_conseq with (P := fun _ => True); [|done|intros x k Hx; exact Hx].
    apply kp_skip; [auto with shm|]. by apply kp_ret.
Qed.

Lemma writer_ctor_made pad path memsize descr perm turns d :
  (0 <= memsize)%Z -> (0 <= perm < 512)%Z -> onConnectData_ctor pad memsize descr = Ret d ->
  kpartial (fun _ : K => True) (Writer_ctor pad path memsize descr perm turns)
    (fun w k => writer_serves w /\ writer_made pad path memsize d w k).
Proof using All.
  intros Hm Hp Hd W w W' _ E. unfold Writer_ctor in E. apply bind_inv in E as (d0 & W0 & E0 & E).
  unfold lift in E0. rewrite Hd in E0. injection E0 as <- <-.
  refine (attempt_made path pad memsize perm _ (fun w k => writer_serves w /\ writer_made pad path memsize d w k) Hm Hp _ W w W' I E).
  intros srv shm sem. eapply kp_bind; [|intros w0; apply serve_made].
  destruct (valid_members srv shm sem) eqn:Hv.
  - apply kp_ret. intros k (Hmade & _) _. do 2 (split; [done|]). by exists srv, shm, sem.
  - eapply kp_conseq; [by apply inspect_made|done|intros x k Hx; exact Hx].
Qed.

(** ** The keys *)

(** The path still names the objects. *)
Definition keys_kept w k : bool :=
  match wr_shm_ w, wr_sem_ w with
  | Some shm, Some sem =>
      (file_key k (c_str (wr_path_ w)) "n"%char =? shm_key_ shm)%Z &&
      (file_key k (c_str (wr_path_ w)) "m"%char =? sem_key_ sem)%Z
  | _, _ => false
  end.

(** It does when the three objects are made at once. *)
Lemma first_attempt_keys pad path memsize descr perm turns d W srv W1 shm W2 sem W3 :
  (0 <= memsize)%Z -> (0 <= perm < 512)%Z -> onConnectData_ctor pad memsize descr = Ret d ->
  make_server path pad perm W = (Ret srv, W1) -> make_segment path memsize perm W1 = (Ret shm, W2) ->
  make_semaphore path perm W2 = (Ret sem, W3) -> valid_members srv shm sem = true ->
  exists w W', Writer_ctor pad path memsize descr perm turns W = (Ret w, W') /\
    wr_is_valid_ w = true /\ keys_kept w (kern W') = true.
Proof using All.
  intros Hm Hp Hd E1 E2 E3 Hv.
  destruct (make_segment_spec path memsize perm Hm Hp W1 shm W2 I E2) as [_ Hn].
  destruct (make_semaphore_spec path perm Hp W2 sem W3 I E3) as [_ Hsn].
  pose proof (keeps_run _ _ _ _ _ (proj2 (keeps_make_semaphore path perm)) E3) as Hk.
  apply (segment_named_keep _ _ _ _ Hk) in Hn.
  unfold Writer_ctor, lift. rewrite Hd. rewrite (bind_ret _ _ _ d W eq_refl).
  rewrite (bind_ret _ _ _ _ _ E1), (bind_ret _ _ _ _ _ E2), (bind_ret _ _ _ _ _ E3), Hv.
  rewrite (bind_ret _ _ _ (mkWriter path d (Some srv) (Some shm) (Some sem) memsize true) W3 eq_refl). cbn [wr_is_valid_ negb srv_]. unfold start_serving.
  assert (Hsegv : sysVShm_is_valid shm = true).
  { unfold valid_members in Hv. by apply andb_true_iff in Hv as [[_ Hv]%andb_true_iff _]. }
  specialize (Hn Hsegv). unfold semaphores_named in Hsn.
  destruct (serving srv); eexists _, _; (split; [reflexivity|]); (split; [done|]); unfold keys_kept;
    cbn -[file_key]; by rewrite Hn, Hsn, !Z.eqb_refl.
Qed.

(** ** The system *)

Lemma start_simulated pad path memsize d w (W : world K) (C : system K) :
  wr_is_valid_ w = true -> writer_serves w -> writer_made pad path memsize d w (kern W) ->
  keys_kept w (kern W) = true ->
  length pad = 6 -> (0 <= memsize)%Z -> cnx_ok d -> shm_size_ d = memsize ->
  start_system w W = Some C -> simulates C (start (Z.to_nat memsize)).
Proof using All.
  intros Hv Hserves Hmade Hkeys Hpad Hm Hd Hsz E.
  destruct (Hmade Hv) as (Hp & Hcd & srv & shm & sem & Hsrv & Hshm & Hsem & Hval & (M1 & M2 & M3)).
  unfold keys_kept in Hkeys. rewrite Hshm, Hsem, Hp in Hkeys.
  apply andb_true_iff in Hkeys as [Hkn%Z.eqb_eq Hkm%Z.eqb_eq]. rewrite <- Hp in Hkn, Hkm.
  apply andb_true_iff in Hval as [[Hv1 Hv2]%andb_true_iff Hv3].
  destruct (M1 Hv1) as (Hfd & Hfd0 & Hcl & Hno & Hpe & Hum). destruct (M2 Hv2) as (Ho & Hmine & p & Hh).
  destruct (M3 Hv3) as (Hvals & Hkey & Hsm & Hso). unfold start_system in E. rewrite Hsrv in E.
  cbn [mbind option_bind] in E. unfold FD_SET in E.
  destruct (_ && _) eqn:Hb; [|done]. apply andb_true_iff in Hb as [_ Hb%Z.ltb_lt].
  injection E as <-. split; [by rewrite Hcd|].
  exists srv, sem, shm, p, (replicate (Z.to_nat memsize) Ascii.zero). unfold kern_of.
  cbn [sy_world sy_writer sy_cnx sy_locals sy_readers]. split; [|split].
  - split; try done.
    + by rewrite Hkm.
    + rewrite Hcd, Hsz. simpl. lia.
    + by rewrite Hum.
  - split; rewrite ?Hcl, ?Hno, ?Hpe; try done.
    + split; rewrite ?Hcl, ?Hpe; cbn [allset maxfd app].
      * constructor.
      * constructor.
      * intros c Hc. by apply elem_of_nil in Hc.
      * split; [set_solver|apply not_elem_of_nil].
      * intros c Hc. by apply elem_of_nil in Hc.
      * set_solver.
      * intros c [->%elem_of_singleton|Hc]%elem_of_union; [lia|set_solver].
    + intros c Hc. by apply elem_of_nil in Hc.
    + intros c Hc. by apply elem_of_nil in Hc.
    + intros c. intros Hc. by apply elem_of_nil in Hc.
    + specialize (Hserves Hv). rewrite Hsrv in Hserves. by injection Hserves.
  - split; [|split]; try done.
Qed.

Lemma start_facts w (W : world K) (C : system K) : start_system w W = Some C ->
  sy_readers C = ∅ /\ sy_cnx C = connect_data_ w /\ kern_of C = kern W /\ sy_writer C = w.
Proof.
  unfold start_system, FD_SET. intros E. destruct (srv_ w); [|done]. cbn [mbind option_bind] in E.
  destruct (_ && _); [|done]. by injection E as <-.
Qed.

(** The message that the server's thread sends. *)
Lemma writer_greeting pad path memsize descr perm turns (W : world K) w W' :
  Writer_ctor pad path memsize descr perm turns W = (Ret w, W') ->
  length pad = 6 -> (0 <= memsize < 2 ^ 64)%Z -> Ascii.zero ∉ descr ->
  exists d, onConnectData_ctor pad memsize descr = Ret d /\ cnx_ok d /\ shm_size_ d = memsize /\
    c_str (user_data_ d) = descr.
Proof.
  intros E Hpad Hm Hz. unfold Writer_ctor in E. apply bind_inv in E as (d & W0 & E0 & _).
  unfold lift in E0. injection E0 as E0 <-. exists d. split; [done|].
  destruct (Nat.ltb_spec (length descr) user_data_size) as [Hl|Hl].
  - rewrite ctor_user_data in E0 by done. injection E0 as <-. unfold cnx_ok. cbn [cd_msg_type_ cd_pad shm_size_ user_data_].
    split; [|split; [done|by apply c_str_app]]. do 3 (split; [done|]).
    unfold zeros. rewrite length_app. cbn [length]. rewrite length_replicate. unfold user_data_size in *. lia.
  - unfold onConnectData_ctor in E0. by rewrite (proj2 (Nat.ltb_ge _ _) Hl) in E0.
Qed.
End start.

(** ** A concrete system

    A writer of /s on a kernel where three connections will wait, with a
    segment of 6 bytes; then three readers, that attach before they are
    greeted. *)

Definition start_kernel : kernel := Kernel 0 1 ∅ ∅ ∅ ∅ ∅ (Net ∅ (-1) 3 ∅ 2).
Definition new_writer : outcome Writer * world kernel :=
  Writer_ctor (zeros 6) $"/s" 6 $"video/x-raw" 432 1 (World start_kernel []).
Definition new_system : option (system kernel) :=
  match new_writer with (Ret w, W) => start_system w W | _ => None end.

(** 4 and 6 become clients; 5 answers too late for the next turn. *)
Definition connect_all : list op :=
  [Turn; Turn; Turn; Open 4; Receive 4; Open 6; Receive 6; Turn; Open 5; Receive 5].
(** Two frames, the second larger than the segment; 6 ends without reading, and
    a turn of the server cancels its read and takes 5 as a client. *)
Definition two_frames : list op :=
  [Publish $"abc"; Receive 4; Exit 6; Turn; Publish $"abcdefgh"; Receive 4; Receive 5].
Definition connected : option (system kernel) := C ← new_system; do_ops connect_all C.

Lemma new_writer_valid :
  match new_writer with (Ret w, W) => wr_is_valid_ w && keys_kept w (kern W) | _ => false end = true.
Proof. by vm_compute. Qed.

Lemma new_system_well_formed C : new_system = Some C -> well_formed C.
Proof.
  intros E. unfold new_system in E. destruct new_writer as [o W] eqn:Ew.
  destruct o as [w|x| |]; [|discriminate E ..].
  destruct (writer_greeting (zeros 6) $"/s" 6 $"video/x-raw" 432 1 (World start_kernel []) w W Ew)
    as (d & Hd & Hok & Hsz & _); [done|lia|by apply (bool_decide_unpack _); vm_compute|].
  pose proof (writer_ctor_made (zeros 6) $"/s" 6 $"video/x-raw" 432 1 d ltac:(lia) ltac:(lia) Hd
    (World start_kernel []) w W I Ew) as [Hserves Hmade].
  exists (start 6). split; [apply start_reachable|].
  pose proof new_writer_valid as Hv. rewrite Ew in Hv. apply andb_true_iff in Hv as [Hv Hk].
  exact (start_simulated (zeros 6) $"/s" 6 d w W C Hv Hserves Hmade Hk eq_refl ltac:(lia) Hok Hsz E).
Qed.

Lemma connected_well_formed C : connected = Some C -> well_formed C.
Proof.
  intros E. unfold connected in E. apply bind_Some in E as (C0 & E0 & E).
  exact (ops_well_formed connect_all C0 C (new_system_well_formed C0 E0) ltac:(by repeat constructor) E).
Qed.

(** What the callbacks of 4 and 5 are given. *)
Lemma two_frames_given :
  (C ← connected; C' ← do_ops two_frames C;
   Some (ep_given <$> sy_readers C' !! 4, ep_given <$> sy_readers C' !! 5)) =
  Some (Some [$"abc"; $"abcdefgh"], Some [$"abcdefgh"]).
Proof. by vm_compute. Qed.

(** The two before the frames; the description of 4; the writer. *)
Lemma connected_starts :
  match connected with
  | Some C => exists e4, sy_readers C !! 4 = Some e4 /\ ep_given e4 = [] /\
      exists e5, sy_readers C !! 5 = Some e5 /\ ep_given e5 = []
  | None => False
  end.
Proof.
  assert (Hx : (C ← connected; Some (ep_given <$> sy_readers C !! 4, ep_given <$> sy_readers C !! 5)) =
    Some (Some [], Some [])) by (by vm_compute).
  destruct connected as [C|]; [|discriminate Hx]. cbn [mbind option_bind] in Hx.
  destruct (sy_readers C !! 4) as [e4|], (sy_readers C !! 5) as [e5|]; try discriminate Hx.
  injection Hx as H4 H5. exists e4. do 2 (split; [done|]). by exists e5.
Qed.

Lemma connected_greeted :
  match connected with
  | Some C => match sy_readers C !! 4 with Some e => bool_decide (ep_data e <> None) | None => false end
  | None => false
  end = true.
Proof. by vm_compute. Qed.

Lemma connected_ready :
  match connected with
  | Some C => ready C && (3 <=? shm_size_ (connect_data_ (sy_writer C)))%Z
  | None => false
  end = true.
Proof. by vm_compute. Qed.

(** ** A recovery

    The socket file, the segment and the semaphores of a dead shmdata, and the
    writer that recovers them. *)

Definition dead_kernel : kernel :=
  Kernel 0 1 {[1 := [0%Z; 0%Z]]} {[621%Z := 1]} {[1 := zeros 6]} {[622%Z := 1]} ∅
    (Net ∅ (-1) 1 {[$"/s" := File 2 None]} 3).
Definition recovered : outcome Writer * world kernel :=
  Writer_ctor (zeros 6) $"/s" 6 $"video/x-raw" 432 1 (World dead_kernel []).

(** What a reader of /s attaches. *)
Definition finds_members (W : world kernel) : bool :=
  match attach_members $"/s" W with
  | (Ret (shm, sem), _) => sysVShm_is_valid shm || sysVSem_is_valid sem
  | _ => false
  end.

Lemma recovered_checks :
  match recovered with
  | (Ret w, W) => wr_is_valid_ w && negb (keys_kept w (kern W)) && negb (finds_members W)
  | _ => false
  end = true.
Proof. by vm_compute. Qed.
