(* ===== verification/SystemTheorems.v ===== *)
(** * What a system of one writer and its readers guarantees

    The theorems of the protocol, said of the code: of the frames that the
    data callbacks of [Reader] objects are given when [copy_to_shm] and
    [on_update] run in any order on one kernel. *)

From S2P Require Import Prelude Logger StdLib Posix PosixModel SysVSem SysVShm SocketProtocol.
From S2P Require Import UnixSocketServer UnixSocketClient ServerTheorems Reader ReaderTheorems.
From S2P Require Import Writer WriterTheorems SystemCalls.
From S2P Require Import ShmProtocol ShmSystem ShmInvariant ShmRefinement ShmTheorems PublishRun.
From S2P Require Import ShmSimulation ServerRun ServerSimulation SystemRuns SystemStart.

Section system.
Context {K : Type} `{FileOS K} `{ErrnoOS K} `{SemOS K} `{ShmOS K} `{SockOS K} `{PeerOS K}
  `{!SemLaws K} `{!ShmLaws K} `{!SockLaws K} `{!FileLaws K} `{!FrameLaws K} `{!PeerLaws K}
  `{!SetupLaws K}.
Implicit Types (C : system K) (s : st) (e : endpoint).

(** The reader has read all that was sent to it. *)
Definition all_read C (c : nat) e : Prop :=
  ep_read e = length (out (kern (sy_world C)) (Z.of_nat c)).

Lemma all_read_queue C s c e : simulates C s -> sy_readers C !! c = Some e ->
  exists r, s_readers s !! c = Some r /\ (all_read C c e -> queue s r = []).
Proof.
  intros (_ & srv & sem & shm & p & m & _ & _ & Hr & _) He. destruct (Hr c e He) as (r & Hsr & Hrel).
  exists r. split; [done|]. intros Hall. pose proof (rr_stream _ _ _ _ _ _ _ _ _ _ Hrel) as Hst.
  unfold queue, undelivered. rewrite (rr_phase _ _ _ _ _ _ _ _ _ _ Hrel). unfold stream_rel in Hst.
  destruct (ep_data e).
  - destruct Hst as (_ & Hb & _). rewrite drop_ge in Hb by (unfold all_read, kern_of in *; lia).
    destruct (r_inbox r); [done|]. discriminate Hb.
  - destruct Hst as (_ & _ & (_ & -> & _) & _). done.
Qed.

(** C12: a new writer starts a well-formed system.  When the constructor
    returns a valid writer and the path still names its segment and its
    semaphores (as it does when the three objects are made at once), the writer
    and its server's thread, before any reader, are a system that the initial
    state of the protocol describes, and what greets readers is the description
    it was given. *)
Theorem new_writer_well_formed pad path memsize descr perm turns W w W' C :
  Writer_ctor pad path memsize descr perm turns W = (Ret w, W') -> wr_is_valid_ w = true ->
  keys_kept w (kern W') = true -> length pad = 6 -> (0 <= memsize < 2 ^ 64)%Z -> (0 <= perm < 512)%Z ->
  (Ascii.zero ∉ descr) -> start_system w W' = Some C ->
  well_formed C /\ sy_readers C = ∅ /\ c_str (user_data_ (sy_cnx C)) = descr.
Proof using All.
  intros E Hv Hk Hpad Hm Hp Hz Hs.
  destruct (writer_greeting pad path memsize descr perm turns W w W' E Hpad Hm Hz)
    as (d & Hd & Hok & Hsz & Htext).
  pose proof (writer_ctor_made pad path memsize descr perm turns d (proj1 Hm) Hp Hd W w W' I E) as [Hserves Hmade].
  destruct (start_facts w W' C Hs) as (Hr & Hc & _).
  destruct (Hmade Hv) as (_ & Hcd & _).
  split; [|split; [done|by rewrite Hc, Hcd]]. exists (start (Z.to_nat memsize)).
  split; [apply start_reachable|].
  exact (start_simulated pad path memsize d w W' C Hv Hserves Hmade Hk Hpad (proj1 Hm) Hok Hsz Hs).
Qed.

(** C1: the code refines the protocol.  Whatever sequence of publications,
    turns of the server's thread, readers that attach, messages that readers
    handle and ends of readers a system executes, the calls being those of the
    code, there is a run of the protocol that ends in a state describing the
    system, in which what is delivered to each reader that stays is what its
    data callback was given, and what is announced to it is what was published
    since the server made it a client. *)
Theorem code_refines_protocol os C C' s :
  reachable initial step s -> simulates C s -> Forall op_ok os -> do_ops os C = Some C' ->
  exists tr s', run s tr s' /\ simulates C' s' /\ sy_cnx C' = sy_cnx C /\
    accounts (fun c => Exit c ∉ os) C C' tr (published_by os).
Proof using All. intros Hs. by apply ops_simulated, inv_reachable. Qed.

(** C2: end to end.  However publications, turns of the server, connections,
    reads and deaths of other readers interleave, and whether the segment is
    replaced or not, the frames that a reader's data callback has been given
    are, byte for byte and in order, those published since the server made it
    a client (all of them when it is one from the start), but for at most one
    that it has not read yet at each end of the sequence; a reader that has
    read all its messages has been given all these frames. *)
Theorem frames_end_to_end os C C' c e :
  well_formed C -> Forall op_ok os -> do_ops os C = Some C' -> Exit c ∉ os ->
  sy_readers C !! c = Some e ->
  well_formed C' /\ exists e' early late fs, sy_readers C' !! c = Some e' /\
    ep_given e' ++ late = ep_given e ++ early ++ fs /\
    fs `suffix_of` published_by os /\
    (joined C c -> joined C' c /\ fs = published_by os) /\
    length early <= 1 /\ length late <= 1 /\
    (all_read C c e -> early = []) /\ (all_read C' c e' -> late = []).
Proof using All.
  intros Hwf Hok E Hc He. split; [by apply (ops_well_formed os C)|].
  destruct Hwf as (s & Hs & Hsim). pose proof (inv_reachable s Hs) as Hinv.
  destruct (ops_simulated os C C' s Hinv Hsim Hok E) as (tr & s' & Hrun & Hsim' & _ & Ha).
  destruct (Ha c e Hc He) as (e' & He' & Hg & Hn & Hsuf & Hj & _).
  destruct (all_read_queue C s c e Hsim He) as (r & Hr & Hearly).
  destruct (all_read_queue C' s' c e' Hsim' He') as (r' & Hr' & Hlate).
  destruct (spec_run_fifo _ _ _ c (queue s r) (run_refines _ _ _ Hinv Hrun) Hn) as (fs & Hfs & Eq);
    [by rewrite queues_lookup, Hr|].
  rewrite queues_lookup, Hr' in Hfs. injection Hfs as <-.
  exists e', (queue s r), (queue s' r'), (sent c tr). split; [done|]. split.
  - by rewrite Hg, <- app_assoc, <- Eq.
  - do 2 (split; [done|]). split; [by apply (queue_short s c)|]. split; [|done].
    apply (queue_short s' c); [by apply (run_inv s tr)|done].
Qed.

(** C23: what greets a reader is the description of the writer.  Whenever a
    reader has been greeted, the type description it was given is the one that
    the server's thread had from the start. *)
Theorem description_received os C C' c e d :
  well_formed C -> Forall op_ok os -> do_ops os C = Some C' ->
  sy_readers C' !! c = Some e -> ep_data e = Some d ->
  user_data_ d = user_data_ (sy_cnx C).
Proof using All.
  intros (s & Hs & Hsim) Hok E He Hd. pose proof (inv_reachable s Hs) as Hinv.
  destruct (ops_simulated os C C' s Hinv Hsim Hok E) as (tr & s' & _ & Hsim' & Hcnx & _).
  destruct Hsim' as (_ & srv & sem & shm & p & m & _ & _ & Hr & _).
  destruct (Hr c e He) as (r & _ & Hrel). rewrite <- Hcnx. by apply (rr_data _ _ _ _ _ _ _ _ _ _ Hrel).
Qed.

Lemma publish_returns C s f :
  reachable initial step s -> simulates C s -> ready C = true ->
  (Z.of_nat (length f) <= shm_size_ (connect_data_ (sy_writer C)))%Z -> is_Some (do_publish f C).
Proof using All.
  intros Hs (_ & srv & sem & shm & p & m & Hw & Hsv & _) Hready Hf. unfold kern_of in *. pose proof (inv_reachable s Hs) as Hinv.
  unfold do_publish. rewrite Hready. unfold ready in Hready.
  destruct Hw as [_ Hsrv [Hsem Hval] [Hshm _] _ _ _ Hv Hsize Hseg Hh _].
  pose proof (sv_clients _ _ _ _ _ Hsv) as Hcl.
  rewrite Hsem in Hready. apply bool_decide_eq_true in Hready.
  destruct (inv_clients _ Hinv) as [Hnd Hlen _ _ _ _ _ _ _].
  destruct (inv_seg _ Hinv) as (m0 & Hm0 & Hl & _). rewrite Hseg in Hm0. injection Hm0 as <-.
  destruct Hh as (Hp & Hb & _ & Ha & _).
  destruct (copy_to_shm_in_place f (sy_writer C) sem srv shm p m 0 (sy_world C))
    as (srv' & W' & E & _); try done; [| |lia|].
  - rewrite Hcl. by apply (NoDup_fmap_2 _).
  - rewrite Hcl, length_fmap. unfold SHRT_MAX, FD_SETSIZE in *. lia.
  - rewrite E. by eexists.
Qed.

Lemma receive_returns C s c e :
  reachable initial step s -> simulates C s -> sy_readers C !! c = Some e -> ~ all_read C c e ->
  ep_data e <> None -> um_size_ (update_of (next_message C c e)) = cur_size_ (ep_reader e) ->
  is_Some (do_receive c C).
Proof using All.
  intros Hs (_ & srv & sem & shm & p & m & Hw & _ & Hrs) He Hun Hgr Hsz. unfold kern_of in *.
  pose proof (inv_reachable s Hs) as Hinv.
  destruct (proj1 Hrs c e He) as (r & Hsr & Hrel). destruct (wr_msg _ _ _ _ _ _ _ _ Hw) as [_ Hpad].
  pose proof (do_receive_message c e r C s _ _ _ _ _ Hrel Hpad He Hgr) as Hm.
  pose proof (rr_stream _ _ _ _ _ _ _ _ _ _ Hrel) as Hst. unfold stream_rel in Hst.
  destruct (ep_data e) as [dt|]; [|done]. destruct Hst as (Hread & Hbytes & _).
  destruct (r_inbox r) as [|n rest] eqn:Hin; cbn [fmap list_fmap] in Hbytes.
  { destruct Hun. unfold all_read. apply (f_equal length) in Hbytes. rewrite length_drop in Hbytes.
    simpl in Hbytes. lia. }
  destruct Hm as [-> Hm]. rewrite Hm in Hsz. unfold handle_update.
  destruct (message_facts s c r n rest m) as (d & Hv & Hd & Hnm & Hfresh); try done;
    [apply Hw|apply Hrel|apply Hw|].
  destruct (rr_shm _ _ _ _ _ _ _ _ _ _ Hrel)
    as (old & q0 & m0 & Hold & _ & _ & Hq0 & _ & Ha0 & Hb0 & Hsg).
  pose proof (rr_sem _ _ _ _ _ _ _ _ _ _ Hrel) as Hsem.
  destruct (rd_sem_ (ep_reader e)) as [fsem|] eqn:Hfs; [|done]. injection Hsem as Hsem.
  pose proof (wr_vals _ _ _ _ _ _ _ _ Hw) as Hvals. rewrite Hv, <- Hsem in Hvals.
  pose proof (rr_cur _ _ _ _ _ _ _ _ _ _ Hrel) as Hcur. rewrite Hcur in Hsz. apply Nat2Z.inj in Hsz.
  assert (Hlen : n <= length m0).
  { destruct (Hfresh Hsz) as [Hs1| ->]; [|lia]. rewrite (Hsg Hs1) in Hb0.
    destruct (wr_holds _ _ _ _ _ _ _ _ Hw) as (_ & Hb & _). simpl in Hb. congruence || (rewrite Hb in Hb0; injection Hb0 as <-; done). }
  unfold on_update. rewrite Hcur, Hsz, Z.eqb_refl. cbn [negb].
  rewrite (bind_ret _ _ _ (rd_shm_ (ep_reader e)) (sy_world C) eq_refl).
  destruct (on_buffer_note (with_cur_size (Z.of_nat (r_cur_size r)) (rd_shm_ (ep_reader e)) (ep_reader e))
    fsem old q0 (shmid_ old) m0 (Z.of_nat (r_cur_size r)) (Z.of_nat (S d)) (sy_world C))
    as (W3 & E3 & _ & Hl & _); try done; [lia|].
  rewrite (bind_ret _ _ _ _ _ E3). cbn [mret M_ret]. rewrite Hl, last_snoc. by eexists.
Qed.

Lemma greet_returns C s c e :
  simulates C s -> sy_readers C !! c = Some e -> ~ all_read C c e ->
  ep_data e = None -> Z.of_nat c ∈ fds (kern_of C) -> is_Some (do_receive c C).
Proof.
  intros (Hcnx & srv & sem & shm & p & m & _ & Hsv & Hr & _) He Hun Hd Hfd.
  destruct (Hr c e He) as (r & Hsr & Hrel). pose proof (rr_stream _ _ _ _ _ _ _ _ _ _ Hrel) as Hst.
  unfold stream_rel in Hst. rewrite Hd in Hst. destruct Hst as (_ & Hread & _ & Hst).
  unfold do_receive. rewrite He. cbn [mbind option_bind]. rewrite Hd, bool_decide_true by done.
  unfold all_read, kern_of in *. case_bool_decide as Hp.
  - destruct (sv_pending _ _ _ _ _ Hsv c Hp) as (Ho & _). unfold greeting, kern_of.
    rewrite Hread, drop_0, Ho, take_ge by (by rewrite length_greeting).
    rewrite length_greeting, Nat.leb_refl by done. by eexists.
  - rewrite (Hst Hfd) in Hun. by destruct Hun.
Qed.

(** C9: the operations return.  In a well-formed system a publication that
    fits in the segment, made when no read is owed, returns; a reader with an
    unread message of the size it knows handles it, and so does a connected
    reader with the message that greets it: no undefined behaviour, no sleep,
    no failure. *)
Theorem operations_return C :
  well_formed C ->
  (forall f, ready C = true ->
     (Z.of_nat (length f) <= shm_size_ (connect_data_ (sy_writer C)))%Z ->
     is_Some (do_publish f C)) /\
  (forall c e, sy_readers C !! c = Some e -> ~ all_read C c e ->
     match ep_data e with
     | Some _ => um_size_ (update_of (next_message C c e)) = cur_size_ (ep_reader e)
     | None => Z.of_nat c ∈ fds (kern_of C)
     end -> is_Some (do_receive c C)).
Proof using All.
  intros (s & Hs & Hsim). split.
  - intros f. by apply (publish_returns C s f).
  - intros c e He Hun Hcase. destruct (ep_data e) eqn:Hd.
    + apply (receive_returns C s c e); try done. by rewrite Hd.
    + by apply (greet_returns C s c e).
Qed.
End system.

(** C36: a recovered shmdata may not be found.  The recovery makes the
    segment and the semaphores with the keys of the old socket file and then
    replaces the file: on a file system that gives the new file another inode,
    the writer is valid and no reader of the path finds its members. *)
Theorem recovery_hides_members : exists W w W',
  Writer_ctor (zeros 6) $"/s" 6 $"video/x-raw" 432 1 W = (Ret w, W') /\
  wr_is_valid_ w = true /\ keys_kept w (kern W') = false /\ finds_members W' = false.
Proof.
  exists (World dead_kernel []). pose proof recovered_checks as Hc. unfold recovered in Hc.
  destruct (Writer_ctor _ _ _ _ _ _ _) as [o W]. destruct o as [w|x| |]; [|discriminate Hc ..].
  exists w, W. split; [reflexivity|].
  apply andb_true_iff in Hc as [[Hv Hk]%andb_true_iff Hf].
  split; [exact Hv|]. split; [by apply negb_true_iff|by apply negb_true_iff].
Qed.

(** ** The system of [SystemStart.v] *)

Lemma new_writer_well_formed_witness : exists C, new_system = Some C /\ well_formed C /\
  c_str (user_data_ (sy_cnx C)) = $"video/x-raw".
Proof.
  pose proof new_writer_valid as Hv. unfold new_system.
  destruct new_writer as [o W] eqn:E. destruct o as [w|x| |]; [|discriminate Hv ..].
  apply andb_true_iff in Hv as [Hv Hk].
  destruct (start_system w W) as [C|] eqn:Es.
  - destruct (new_writer_well_formed (zeros 6) $"/s" 6 $"video/x-raw" 432 1 (World start_kernel []) w W C
      E Hv Hk eq_refl ltac:(lia) ltac:(lia) ltac:(by apply (bool_decide_unpack _); vm_compute) Es)
      as (Hw & _ & Ht).
    exists C. split; [reflexivity|]. split; [exact Hw|exact Ht].
  - exfalso. pose proof two_frames_given as Hx. unfold connected, new_system in Hx.
    rewrite E, Es in Hx. discriminate Hx.
Defined.

Lemma code_refines_protocol_witness : exists C C' s tr s',
  connected = Some C /\ do_ops two_frames C = Some C' /\ run s tr s' /\ simulates C' s' /\
  delivered 4 tr = [$"abc"; $"abcdefgh"].
Proof.
  pose proof two_frames_given as Hx. pose proof connected_starts as Hst.
  destruct connected as [C|] eqn:EC; [|discriminate Hx].
  destruct (connected_well_formed C EC) as (s & Hs & Hsim).
  cbn [mbind option_bind] in Hx. destruct (do_ops two_frames C) as [C'|] eqn:E; [|discriminate Hx].
  cbn [mbind option_bind] in Hx.
  destruct (code_refines_protocol two_frames C C' s Hs Hsim ltac:(by repeat constructor) E)
    as (tr & s' & Hr & Hs' & _ & Ha).
  destruct Hst as (e & He & Hg0 & _). cbn [mbind option_bind] in He.
  destruct (Ha 4 e) as (e' & He' & Hg & _); [by apply (bool_decide_unpack _); vm_compute|exact He|].
  exists C, C', s, tr, s'. split; [reflexivity|]. split; [exact E|]. split; [exact Hr|].
  split; [exact Hs'|]. rewrite He' in Hx. injection Hx as Hx _. rewrite Hg0 in Hg.
  rewrite app_nil_l in Hg. rewrite <- Hg. exact Hx.
Defined.

Lemma frames_end_to_end_witness : exists C C' e early late fs,
  connected = Some C /\ do_ops two_frames C = Some C' /\ sy_readers C' !! 5 = Some e /\
  ep_given e ++ late = early ++ fs /\ fs `suffix_of` [$"abc"; $"abcdefgh"] /\
  ep_given e = [$"abcdefgh"].
Proof.
  pose proof two_frames_given as Hx. pose proof connected_starts as Hst.
  destruct connected as [C|] eqn:EC; [|discriminate Hx].
  cbn [mbind option_bind] in Hx. destruct (do_ops two_frames C) as [C'|] eqn:E; [|discriminate Hx].
  cbn [mbind option_bind] in Hx.
  destruct Hst as (_ & _ & _ & e & He & Hg0).
  destruct (frames_end_to_end two_frames C C' 5 e (connected_well_formed C EC)
    ltac:(by repeat constructor) E ltac:(by apply (bool_decide_unpack _); vm_compute) He)
    as (_ & e' & early & late & fs & He' & Eq & Hsuf & _).
  exists C, C', e', early, late, fs. split; [reflexivity|]. split; [exact E|]. split; [exact He'|].
  rewrite Hg0 in Eq. split; [exact Eq|]. split; [exact Hsuf|].
  rewrite He' in Hx. by injection Hx.
Defined.

Lemma description_received_witness : exists C e d, connected = Some C /\
  sy_readers C !! 4 = Some e /\ ep_data e = Some d /\ user_data_ d = user_data_ (sy_cnx C).
Proof.
  pose proof connected_greeted as Hg. destruct connected as [C|] eqn:EC; [|discriminate Hg].
  destruct (sy_readers C !! 4) as [e|] eqn:He; [|discriminate Hg].
  destruct (ep_data e) as [d|] eqn:Hd; [|discriminate Hg].
  exists C, e, d. split; [reflexivity|]. split; [exact He|]. split; [exact Hd|].
  exact (description_received [] C C 4 e d (connected_well_formed C EC) (Forall_nil_2 _) eq_refl He Hd).
Defined.

Lemma operations_return_witness : exists C, connected = Some C /\ is_Some (do_publish $"abc" C).
Proof.
  pose proof connected_ready as Hr. destruct connected as [C|] eqn:EC; [|discriminate Hr].
  apply andb_true_iff in Hr as [Hr Hs%Z.leb_le]. exists C. split; [reflexivity|].
  exact (proj1 (operations_return C (connected_well_formed C EC)) $"abc" Hr Hs).
Defined.
