(* ===== verification/SystemStop.v ===== *)
(** * The end of a writer

    The destructor of [Writer] in a well-formed system: what it removes, what
    the readers are told, and what they can still do. *)

From S2P Require Import Prelude Logger StdLib Posix PosixModel SysVSem SysVShm SocketProtocol.
From S2P Require Import UnixSocketServer UnixSocketClient ServerTheorems Reader ReaderTheorems.
From S2P Require Import Writer WriterTheorems SystemCalls.
From S2P Require Import ShmProtocol ShmSystem ShmInvariant ShmRefinement ShmTheorems PublishRun.
From S2P Require Import ShmSimulation ServerRun ServerSimulation SystemRuns SystemStart SystemTheorems.

Section stop.
Context {K : Type} `{FileOS K} `{ErrnoOS K} `{SemOS K} `{ShmOS K} `{SockOS K} `{PeerOS K}
  `{!SemLaws K} `{!ShmLaws K} `{!SockLaws K} `{!FileLaws K} `{!FrameLaws K} `{!PeerLaws K}
  `{!SetupLaws K}.
Implicit Types (k : K) (w : Writer) (srv : UnixSocketServer) (shm : sysVShm) (sem : sysVSem)
  (W : world K).

(** ** The server *)

(** The quit that a descriptor of [cs] is sent when its peer is alive. *)
Definition quit_for k0 (cs : list Z) (d : Z) : cstr :=
  if bool_decide (d ∈ cs) && negb (peer_closed k0 d) then quit_bytes quit_msg else [].
Definition told_quit k0 (cs : list Z) k : Prop :=
  fds k = fds k0 /\ ipc_view k = ipc_view k0 /\ (forall d, peer_of k d = peer_of k0 d) /\
  forall d, out k d = out k0 d ++ quit_for k0 cs d.

Lemma told_none k : told_quit k [] k.
Proof.
  do 3 (split; [done|]). intros d. unfold quit_for. rewrite bool_decide_false, app_nil_r; [done|].
  apply not_elem_of_nil.
Qed.

Lemma quit_for_same k0 cs cs' d : (d ∈ cs <-> d ∈ cs') -> quit_for k0 cs d = quit_for k0 cs' d.
Proof. intros Hd. unfold quit_for. by rewrite (bool_decide_ext _ _ Hd). Qed.

Lemma told_one k0 c cs k r k' :
  c ∉ cs -> c ∈ fds k0 -> (0 <= c)%Z -> told_quit k0 cs k ->
  send c (quit_bytes quit_msg) k = (r, k') -> told_quit k0 (c :: cs) k'.
Proof using All.
  intros Hn Hfd Hc (E1 & E2 & E3 & E4) E. destruct (send_frame _ _ _ _ _ E) as [F1 F2].
  pose proof (peer_send c (quit_bytes quit_msg) k) as [_ Fp]. rewrite E in Fp. cbn [snd] in Fp.
  destruct (send_law _ _ _ _ _ E) as [Ef Ho].
  split; [congruence|]. split; [unfold ipc_view in *; congruence|].
  split; [intros d; rewrite <- E3; apply Fp|].
  assert (Hpc : peer_closed k c = peer_closed k0 c) by (unfold peer_closed; by rewrite E3).
  assert (Hq : quit_for k0 cs c = []) by (unfold quit_for; by rewrite bool_decide_false).
  intros d. destruct (decide (d = c)) as [->|Hd].
  - unfold quit_for at 1. rewrite bool_decide_true by left. rewrite <- Hpc. specialize (E4 c).
    rewrite Hq, app_nil_r in E4. destruct (peer_closed k c) eqn:Hcl.
    + pose proof (send_closed c (quit_bytes quit_msg) k Hcl) as Hr. rewrite E in Hr. cbn [fst] in Hr.
      destruct Ho as [[_ ->]|(Hr' & _)]; [by rewrite app_nil_r|lia].
    + pose proof (send_open c (quit_bytes quit_msg) k ltac:(by rewrite E1) Hc Hcl) as Hr.
      rewrite E in Hr. destruct Ho as [[-> _]|(_ & _ & _ & -> & _)]; [done|by rewrite E4].
  - rewrite (quit_for_same _ _ cs), <- E4 by (rewrite elem_of_cons; tauto). destruct Ho as [[_ ->]|(_ & _ & _ & _ & Ho)]; [done|].
    by apply Ho.
Qed.

Lemma send_quit_told k0 path cs done_ W :
  NoDup (cs ++ done_) -> (forall c, c ∈ cs -> c ∈ fds k0 /\ (0 <= c)%Z) ->
  told_quit k0 done_ (kern W) ->
  exists W', send_quit cs path W = (Ret tt, W') /\
    exists cs', cs' ≡ₚ cs ++ done_ /\ told_quit k0 cs' (kern W').
Proof using All.
  revert done_ W. induction cs as [|c cs IH]; intros done_ W Hnd Hcs Ht.
  - exists W. split; [done|]. by exists done_.
  - cbn [send_quit]. destruct (Hcs c ltac:(left)) as [Hfd Hc].
    cbn [app] in Hnd. apply NoDup_cons in Hnd as [Hn Hnd].
    destruct (send c (quit_bytes quit_msg) (kern W)) as [r k'] eqn:E.
    pose proof (told_one k0 c done_ (kern W) r k'
      ltac:(intros Hin; apply Hn, elem_of_app; by right) Hfd Hc Ht E) as Ht'.
    assert (Hstep : forall W1, kern W1 = k' -> exists W', send_quit cs path W1 = (Ret tt, W') /\
      exists cs', cs' ≡ₚ c :: cs ++ done_ /\ told_quit k0 cs' (kern W')).
    { intros W1 E1. destruct (IH (c :: done_) W1) as (W' & Es & cs' & Hp & Hq).
      - rewrite <- Permutation_middle. by apply NoDup_cons.
      - intros d Hd. apply Hcs. by right.
      - by rewrite E1.
      - exists W'. split; [done|]. exists cs'. split; [|done]. by rewrite Hp, <- Permutation_middle. }
    rewrite (bind_ret _ _ _ r (World k' (logs W))) by (unfold sys; by rewrite E).
    destruct (r =? -1)%Z; cbn [when].
    + unfold get_errno, log. munfold. by apply Hstep.
    + munfold. by apply Hstep.
Qed.

(** [UnixSocketServer::~UnixSocketServer]. *)
Lemma server_dtor_told srv W :
  serving srv = true -> NoDup (clients_ srv) -> (srv_fd_ srv ∉ clients_ srv) ->
  (forall c, c ∈ clients_ srv -> c ∈ fds (kern W) /\ (0 <= c)%Z) ->
  (srv_fd_ srv ∈ fds (kern W)) -> (0 <= srv_fd_ srv)%Z ->
  exists W', UnixSocketServer_dtor srv W = (Ret tt, W') /\
    fds (kern W') = fds (kern W) ∖ {[srv_fd_ srv]} /\ ipc_view (kern W') = ipc_view (kern W) /\
    forall d, d <> srv_fd_ srv -> out (kern W') d = out (kern W) d ++ quit_for (kern W) (clients_ srv) d.
Proof using All.
  intros Hs Hnd Hfd Hcs Hopen Hpos. unfold UnixSocketServer_dtor. rewrite Hs. cbn [when].
  destruct (unlink (c_str (srv_path_ srv)) (kern W)) as [u k1] eqn:Eu.
  pose proof (peer_unlink (c_str (srv_path_ srv)) (kern W)) as (U1 & U2 & U3 & U4).
  pose proof (unlink_frame (c_str (srv_path_ srv)) (kern W)) as U5. rewrite Eu in *. cbn [snd] in *.
  destruct (send_quit_told k1 (srv_path_ srv) (clients_ srv) [] (World k1 (logs W)))
    as (W2 & E2 & cs' & Hp & F1 & F2 & F3 & F4); [by rewrite app_nil_r|by rewrite U1|apply told_none|].
  rewrite (bind_ret _ _ _ tt W2).
  2:{ rewrite (bind_ret _ _ _ u (World k1 (logs W))); [exact E2|unfold sys; by rewrite Eu]. }
  unfold UnixSocket_dtor, UnixSocket_is_valid. rewrite (proj2 (Z.eqb_neq (srv_fd_ srv) (-1))) by lia.
  cbn [negb when]. destruct (close (srv_fd_ srv) (kern W2)) as [r k3] eqn:Ec.
  destruct (close_law _ _ _ _ Ec) as [C1 C2]. pose proof (close_frame (srv_fd_ srv) (kern W2)) as C3.
  rewrite Ec in C3. destruct C3 as (C3 & C4 & _). cbn [snd] in *.
  rewrite (bind_ret _ _ _ r (World k3 (logs W2))) by (unfold sys; by rewrite Ec).
  assert (Hend : forall W3, kern W3 = k3 -> fds (kern W3) = fds (kern W) ∖ {[srv_fd_ srv]} /\
    ipc_view (kern W3) = ipc_view (kern W) /\ forall d, d <> srv_fd_ srv ->
    out (kern W3) d = out (kern W) d ++ quit_for (kern W) (clients_ srv) d).
  { intros W3 ->. split; [congruence|]. split; [unfold ipc_view in *; congruence|]. intros d Hd.
    rewrite C2, F4, U2 by done. f_equal. rewrite app_nil_r in Hp.
    rewrite (quit_for_same k1 cs' (clients_ srv)) by (by rewrite Hp).
    unfold quit_for, peer_closed. by rewrite U4. }
  destruct (r =? 0)%Z; cbn [negb when]; (eexists; split; [reflexivity|]); by apply Hend.
Qed.

(** ** The semaphores *)

Lemma semaphores_dtor sem vs W :
  sysVSem_is_valid sem = true -> sem_owner_ sem = true -> sem_mine (kern W) (semid_ sem) = true ->
  sem_vals (kern W) (semid_ sem) = Some vs ->
  exists W', sysVSem_dtor sem W = (Ret tt, W') /\ logs W' = logs W /\
    sem_vals (kern W') (semid_ sem) = None /\
    (forall key, sem_key (kern W) key = Some (semid_ sem) -> sem_key (kern W') key = None) /\
    shm_view (kern W') = shm_view (kern W) /\ sock_view (kern W') = sock_view (kern W) /\
    peer_of (kern W') = peer_of (kern W).
Proof using All.
  intros Hv Ho Hm Hvals. destruct (rmid_law _ _ _ Hvals Hm) as (k' & E & H1' & _ & H2').
  pose proof (peer_rmid (semid_ sem) (kern W)) as Hf. rewrite E in Hf.
  exists (World k' (logs W)). unfold sysVSem_dtor. rewrite Hv, Ho. cbn [andb when].
  rewrite (bind_ret _ _ _ 0%Z (World k' (logs W))) by (unfold sys; by rewrite E). by split.
Qed.

(** A [ReadLock] on a removed set: the data callback is not called. *)
Lemma on_buffer_removed r sem n W :
  rd_sem_ r = Some sem -> sem_vals (kern W) (semid_ sem) = None ->
  exists W', forall cbs, on_buffer cbs r n W = (Ret false, W').
Proof using All.
  intros Hr Hv. destruct (semop_gone (kern W) (semid_ sem) read_start Hv) as (k' & E & _).
  eexists. intros cbs. unfold on_buffer. rewrite Hr.
  refine (eq_trans (bind_ret _ _ _ (mkReadLock sem false) _ _) _); [|reflexivity].
  unfold ReadLock_ctor. rewrite (bind_ret _ _ _ (-1)%Z (World k' (logs W)))
    by (unfold sys_wait; by rewrite E).
  reflexivity.
Qed.

Lemma keeps_attach_again r : keeps sem_view (attach_again r).
Proof using All.
  unfold attach_again.
  assert (Hshm : forall A (m : M (world K) A), keeps other_views m -> keeps sem_view m).
  { intros A m Hm x w a w' <- E. apply (keeps_run _ _ _ _ _ Hm), other_views_eq in E. apply E. }
  apply keeps_bind.
  - apply keeps_sys. intros k a k' E.
    pose proof (peer_ftok (c_str (rd_path_ r)) "n"%char k) as (_ & Hs & _). by rewrite E in Hs.
  - intros key. apply keeps_bind; [apply Hshm, keeps_sysVShm_ctor|]. intros shm.
    destruct (rd_shm_ r); [|apply keeps_bind; [apply keeps_ret|intros u; apply keeps_ret]].
    apply keeps_bind; [apply Hshm, keeps_sysVShm_dtor|]. intros u. apply keeps_ret.
Qed.

(** Nor by the update callback. *)
Lemma on_update_removed cbs cbs' r sem n W :
  rd_sem_ r = Some sem -> sem_vals (kern W) (semid_ sem) = None ->
  on_update cbs n r W = on_update cbs' n r W.
Proof using All.
  intros Hr Hv.
  assert (Hend : forall (shm : option sysVShm) W1, sem_view (kern W1) = sem_view (kern W) ->
    (_ ← on_buffer cbs (with_cur_size n shm r) n; mret (with_cur_size n shm r)) W1 =
    (_ ← on_buffer cbs' (with_cur_size n shm r) n; mret (with_cur_size n shm r)) W1).
  { intros shm W1 [= Hv1 _ _]. destruct (on_buffer_removed (with_cur_size n shm r) sem n W1) as (W2 & E);
      [done|by rewrite Hv1|]. by rewrite !(bind_ret _ _ _ _ _ (E _)). }
  unfold on_update. apply bind_ext. intros shm W1 E. apply Hend.
  destruct (negb (n =? cur_size_ r)%Z).
  - apply bind_inv in E as (s & W2 & E & [= _ <-]).
    by apply (keeps_run _ _ _ _ _ (keeps_attach_again r) E).
  - by injection E as _ <-.
Qed.

(** ** The writer *)

(** A mapping that readers have. *)
Lemma stays_view k k' k'' o :
  shm_view k' = shm_view k -> stays o k' k'' -> stays o k k''.
Proof. intros [= E1 _ E3 _] Hs q i m Ho Hq Hm. apply Hs; by rewrite ?E1, ?E3. Qed.

Definition path_key (C : system K) (kind : ascii) : Z :=
  file_key (kern_of C) (c_str (wr_path_ (sy_writer C))) kind.

(** What the destructor leaves. *)
Record stopped (C : system K) srv sem (p : Z) k : Prop := {
  st_sems : sem_vals k (semid_ sem) = None;
  st_semkey : sem_key k (path_key C "m"%char) = None;
  st_segkey id : seg_key (kern_of C) (path_key C "n"%char) = Some id -> (0 < id)%Z ->
    seg_key k (path_key C "n"%char) = None;
  st_stays : stays (Some p) (kern_of C) k;
  st_fds : fds k = fds (kern_of C) ∖ {[srv_fd_ srv]};
  st_out d : d <> srv_fd_ srv -> out k d = out (kern_of C) d ++ quit_for (kern_of C) (clients_ srv) d }.

(** The two first members. *)
Lemma members_stop C s srv sem shm p m :
  writer_rel (kern_of C) (sy_writer C) s srv sem shm p m ->
  exists W2, (sysVSem_dtor sem;; sysVShm_dtor shm) (sy_world C) = (Ret tt, W2) /\
    sem_vals (kern W2) (semid_ sem) = None /\
    sem_key (kern W2) (path_key C "m"%char) = None /\
    (forall id, seg_key (kern_of C) (path_key C "n"%char) = Some id -> (0 < id)%Z ->
       seg_key (kern W2) (path_key C "n"%char) = None) /\
    stays (Some p) (kern_of C) (kern W2) /\
    sock_view (kern W2) = sock_view (kern_of C) /\
    forall d, peer_of (kern W2) d = peer_of (kern_of C) d.
Proof using All.
  unfold kern_of.
  intros [_ Hsrv [_ Hval] [_ Ho] Hkey (Hsk & Hsm & Hso) Hmine Hvals _ _ Hh _].
  destruct (semaphores_dtor sem _ (sy_world C) Hval Hso Hsm Hvals)
    as (W1 & E1 & _ & S1 & S2 & S3 & S4 & S5).
  rewrite (bind_ret _ _ _ _ _ E1). assert (S3' := S3). injection S3 as V1 V2 V3 V4.
  destruct (dtor_spec shm p m W1) as (W2 & E2 & D1 & D2).
  { unfold shm_holds in *. cbn [kern] in Hh. by rewrite V1, V2, V3. }
  { by rewrite V4. }
  destruct (other_views_eq _ _ (keeps_run _ _ _ _ _ (keeps_sysVShm_dtor shm) E2)) as [[= O1 O2 _] O3].
  destruct (kpe_shm_dtor shm (kern W1) W1 tt W2 (same_peers_refl _) E2) as [_ _ _ O4 _].
  exists W2. split; [done|]. split; [congruence|]. split; [rewrite O2; by apply S2|]. split.
  - unfold path_key, kern_of. rewrite Hkey. intros id Hid Hpos.
    destruct Hh as (_ & _ & Hid' & _). cbn [kern] in Hid'. rewrite Hid' in Hid. injection Hid as <-.
    by rewrite Ho, (proj2 (Z.ltb_lt 0 _) Hpos) in D2.
  - split; [by apply (stays_view _ _ _ _ S3')|]. split; [congruence|]. intros d. by rewrite O4, S5.
Qed.

Lemma writer_dtor_stops C s srv sem shm p m :
  writer_rel (kern_of C) (sy_writer C) s srv sem shm p m ->
  server_rel (kern_of C) (sy_locals C) (sy_cnx C) s srv ->
  exists W', Writer_dtor (sy_writer C) (sy_world C) = (Ret tt, W') /\
    stopped C srv sem p (kern W').
Proof using All.
  intros Hw Hsv.
  destruct (members_stop C s srv sem shm p m Hw) as (W2 & E2 & M1 & M2 & M3 & M4 & [= L1 L2 _ _] & M5).
  destruct Hw as [_ Hsrv [Hsem _] [Hshm _] _ _ _ _ _ _ _ _].
  destruct (sv_inv _ _ _ _ _ Hsv) as [Hnd _ _ [Hl1 Hl2] Hwatch Hopen Hb].
  destruct (server_dtor_told srv W2) as (W3 & E3 & F1 & [= F2 F3 _ F4 F5 F6 _] & F7).
  - apply Hsv.
  - done.
  - intros Hin. apply Hl2, elem_of_app. by left.
  - intros c Hc. assert (Hc' : c ∈ allset (sy_locals C)) by (apply Hwatch, elem_of_app; by left).
    rewrite L1. split; [by apply Hopen|apply (Hb c Hc')].
  - rewrite L1. by apply Hopen.
  - apply (Hb _ Hl1).
  - exists W3. split.
    + unfold Writer_dtor. rewrite Hsem, Hshm, Hsrv. apply bind_inv in E2 as ([] & W1 & E1 & E2).
      by rewrite (bind_ret _ _ _ _ _ E1), (bind_ret _ _ _ _ _ E2).
    + split; rewrite ?F2, ?F3, ?F5; try done.
      * intros q i m' Hq Ha Hm. rewrite F4, F6. by apply M4.
      * by rewrite F1, L1.
      * intros d Hd. rewrite F7, L2 by done. f_equal. unfold quit_for, peer_closed. by rewrite M5.
Qed.
(** ** The readers *)

(** What a client has to read: at most one update. *)
Lemma client_stream C s srv sem shm p m c e :
  inv s -> writer_rel (kern_of C) (sy_writer C) s srv sem shm p m ->
  server_rel (kern_of C) (sy_locals C) (sy_cnx C) s srv ->
  readers_rel (kern_of C) (sy_readers C) s srv (sy_cnx C) (semid_ sem) shm p ->
  sy_readers C !! c = Some e -> Z.of_nat c ∈ clients_ srv ->
  exists pending, length pending <= 1 /\ Forall (fun z => 0 <= z < 2 ^ 64)%Z pending /\
    (pending = [] <-> all_read C c e) /\ ep_read e <= length (out (kern_of C) (Z.of_nat c)) /\
    drop (ep_read e) (out (kern_of C) (Z.of_nat c)) =
      update_stream (um_pad (srv_update_msg_ srv)) pending /\
    quit_for (kern_of C) (clients_ srv) (Z.of_nat c) = quit_bytes quit_msg.
Proof.
  intros Hinv Hw Hsv [Hr _] He Hc. destruct (Hr c e He) as (r & Hsr & Hrel).
  assert (Hcs : c ∈ s_clients s).
  { rewrite (sv_clients _ _ _ _ _ Hsv) in Hc. by apply list_elem_of_fmap in Hc as (c' & ->%Nat2Z.inj & Hc'). }
  pose proof (rr_stream _ _ _ _ _ _ _ _ _ _ Hrel) as Hst. unfold stream_rel in Hst.
  destruct (ep_data e) as [d|]; [|by destruct Hst].
  destruct Hst as (Hle & Hb & _). exists (Z.of_nat <$> r_inbox r).
  pose proof (queue_short s c r Hinv Hsr) as Hq. unfold queue, undelivered in Hq.
  rewrite length_replicate, (rr_phase _ _ _ _ _ _ _ _ _ _ Hrel) in Hq.
  split; [rewrite length_fmap; lia|]. split.
  { apply Forall_fmap, Forall_forall. intros n Hn. simpl.
    pose proof (rr_sizes _ _ _ _ _ _ _ _ _ _ Hrel n Hn). lia. }
  split.
  - unfold all_read, kern_of in *. split; intros Hall.
    + rewrite Hall in Hb. apply (f_equal length) in Hb. rewrite length_drop in Hb.
      cbn [update_stream length] in Hb. lia.
    + rewrite Hall, drop_all in Hb. by destruct (r_inbox r).
  - do 2 (split; [done|]). unfold quit_for. rewrite bool_decide_true by done.
    destruct (sv_client _ _ _ _ _ Hsv c Hcs) as (_ & Hcl & _).
    destruct (peer_closed (kern_of C) (Z.of_nat c)); [|done].
    rewrite (proj1 Hcl eq_refl) in Hsr. done.
Qed.

(** Then the quit. *)
Definition told (C : system K) (c : nat) (e : endpoint) (pending : list Z) k : Prop :=
  length pending <= 1 /\ (pending = [] <-> all_read C c e) /\
  forall fuel m, length (um_pad m) = 6 -> 1 < fuel ->
    events fuel m (drop (ep_read e) (out k (Z.of_nat c))) = (EUpdate <$> pending) ++ [EQuit].

Lemma client_told C s srv sem shm p m c e k :
  inv s -> writer_rel (kern_of C) (sy_writer C) s srv sem shm p m ->
  server_rel (kern_of C) (sy_locals C) (sy_cnx C) s srv ->
  readers_rel (kern_of C) (sy_readers C) s srv (sy_cnx C) (semid_ sem) shm p ->
  stopped C srv sem p k -> sy_readers C !! c = Some e -> Z.of_nat c ∈ clients_ srv ->
  exists pending, told C c e pending k.
Proof.
  intros Hinv Hw Hsv Hr Hst He Hc.
  destruct (client_stream C s srv sem shm p m c e) as (pending & P1 & P2 & P3 & P4 & P5 & P6); try done.
  exists pending. do 2 (split; [done|]). intros fuel m0 Hm Hf.
  rewrite (st_out _ _ _ _ _ Hst), P6, drop_app_le, P5 by
    (done || (intros E; rewrite E in Hc; apply (sv_inv _ _ _ _ _ Hsv), elem_of_app; by left)).
  apply stream_framing; [done|apply Hw|done|lia].
Qed.

(** C18: a writer stops.  The destructor of the writer of a well-formed system
    returns; the keys of the path no longer name semaphores nor, unless its
    identifier is 0, a segment; each client still alive has to read the update
    that it has not read, if any, then the quit, and nothing is sent to the
    others; every reader keeps its mapping with its bytes; and the only
    descriptor that is closed is the one that listens. *)
Theorem writer_stops C :
  well_formed C ->
  exists W' srv, Writer_dtor (sy_writer C) (sy_world C) = (Ret tt, W') /\
    srv_ (sy_writer C) = Some srv /\
    sem_key (kern W') (path_key C "m"%char) = None /\
    (forall id, seg_key (kern_of C) (path_key C "n"%char) = Some id -> (0 < id)%Z ->
       seg_key (kern W') (path_key C "n"%char) = None) /\
    fds (kern W') = fds (kern_of C) ∖ {[srv_fd_ srv]} /\
    (forall d, d <> srv_fd_ srv -> (d ∉ clients_ srv) -> out (kern W') d = out (kern_of C) d) /\
    forall c e, sy_readers C !! c = Some e ->
      (Z.of_nat c ∈ clients_ srv -> exists pending, told C c e pending (kern W')) /\
      exists q i b, address e = Some q /\
        seg_at (kern_of C) q = Some i /\ seg_bytes (kern_of C) i = Some b /\
        seg_at (kern W') q = Some i /\ seg_bytes (kern W') i = Some b.
Proof using All.
  intros (s & Hs & _ & srv & sem & shm & p & m & Hw & Hsv & Hr). pose proof (inv_reachable s Hs) as Hinv.
  destruct (writer_dtor_stops C s srv sem shm p m Hw Hsv) as (W' & E & Hst).
  exists W', srv. split; [done|]. split; [apply Hw|]. pose proof Hst as [_ Hsem Hseg Hstays Hfds Hout].
  do 3 (split; [done|]). split.
  { intros d Hd Hc. rewrite Hout by done. unfold quit_for. by rewrite bool_decide_false, app_nil_r. }
  intros c e He. split; [by apply (client_told C s srv sem shm p m)|].
  destruct Hr as [Hr _]. destruct (Hr c e He) as (r & _ & Hrel).
  destruct (rr_shm _ _ _ _ _ _ _ _ _ _ Hrel) as (old & q & b & E1 & _ & _ & E2 & Hq & Ha & Hb & _).
  destruct (Hstays q (shmid_ old) b) as [Ha' Hb']; [congruence|done..|].
  exists q, (shmid_ old), b. unfold address. by rewrite E1.
Qed.

(** C19: a frame can be lost at the end.  When the writer stops, a client that
    has not read the update of the last frame still has to read it, then the
    quit; but the semaphores are removed, and whatever its data callback,
    [on_buffer] returns false and the update is handled as if there was none. *)
Theorem unread_frame_lost C c e W' :
  well_formed C -> sy_readers C !! c = Some e -> joined C c -> ~ all_read C c e ->
  Writer_dtor (sy_writer C) (sy_world C) = (Ret tt, W') ->
  exists size, told C c e [size] (kern W') /\
    exists W'', forall cbs, on_buffer cbs (ep_reader e) size W' = (Ret false, W'') /\
      on_update cbs size (ep_reader e) W' =
      on_update (ReaderCbs None None None) size (ep_reader e) W'.
Proof using All.
  intros (s & Hs & _ & srv & sem & shm & p & m & Hw & Hsv & Hr) He (srv' & Hsrv & Hc) Hun E.
  assert (srv' = srv) as -> by (destruct Hw; congruence).
  destruct (writer_dtor_stops C s srv sem shm p m Hw Hsv) as (W1 & E1 & Hst).
  rewrite E in E1. injection E1 as <-.
  destruct (client_told C s srv sem shm p m c e (kern W')) as (pending & Ht); try done;
    [by apply inv_reachable|].
  destruct pending as [|size [|]]; [by destruct Ht as (_ & [Ht _] & _); destruct Hun; apply Ht| |
    destruct Ht as (Ht & _); simpl in Ht; lia].
  exists size. split; [done|]. destruct Hr as [Hr _]. destruct (Hr c e He) as (r & _ & Hrel).
  pose proof (rr_sem _ _ _ _ _ _ _ _ _ _ Hrel) as Hsem.
  destruct (rd_sem_ (ep_reader e)) as [fsem|] eqn:Hf; [|done]. injection Hsem as Hsem.
  assert (Hv : sem_vals (kern W') (semid_ fsem) = None) by (rewrite Hsem; apply Hst).
  destruct (on_buffer_removed (ep_reader e) fsem size W' Hf Hv) as (W'' & Eb). exists W''. intros cbs.
  split; [apply Eb|by apply (on_update_removed cbs _ _ fsem)].
Qed.
End stop.

(** ** A stop

    The writer of [connected] publishes a frame and stops before 4 reads it. *)

Definition published : option (system kernel) := C ← connected; do_ops [Publish $"abc"] C.

Lemma published_well_formed C : published = Some C -> well_formed C.
Proof.
  intros E. unfold published in E. apply bind_Some in E as (C0 & E0 & E).
  exact (ops_well_formed [Publish $"abc"] C0 C (connected_well_formed C0 E0)
    ltac:(by repeat constructor) E).
Qed.

Lemma published_unread :
  match published with
  | Some C =>
      match srv_ (sy_writer C), sy_readers C !! 4 with
      | Some srv, Some e => bool_decide (4%Z ∈ clients_ srv) &&
          (ep_read e <? length (out (kern_of C) 4))%nat
      | _, _ => false
      end
  | None => false
  end = true.
Proof. by vm_compute. Qed.

Lemma writer_stops_witness : exists C W' e pending, published = Some C /\
  Writer_dtor (sy_writer C) (sy_world C) = (Ret tt, W') /\
  sem_key (kern W') (path_key C "m"%char) = None /\
  sy_readers C !! 4 = Some e /\ told C 4 e pending (kern W').
Proof.
  pose proof published_unread as Hx. destruct published as [C|] eqn:EC; [|discriminate Hx].
  destruct (writer_stops C (published_well_formed C EC)) as (W' & srv & E & Hs & Hk & _ & _ & _ & Hr).
  rewrite Hs in Hx. destruct (sy_readers C !! 4) as [e|] eqn:He; [|discriminate Hx].
  apply andb_true_iff in Hx as [Hc%bool_decide_eq_true _].
  destruct (Hr 4 e He) as [Ht _]. destruct (Ht Hc) as (pending & Hp).
  exists C, W', e, pending. split; [reflexivity|]. split; [exact E|]. split; [exact Hk|].
  split; [exact He|exact Hp].
Defined.

Lemma unread_frame_lost_witness : exists C W' e size W'', published = Some C /\
  Writer_dtor (sy_writer C) (sy_world C) = (Ret tt, W') /\ sy_readers C !! 4 = Some e /\
  told C 4 e [size] (kern W') /\ on_buffer note_cbs (ep_reader e) size W' = (Ret false, W'').
Proof.
  pose proof published_unread as Hx. destruct published as [C|] eqn:EC; [|discriminate Hx].
  destruct (srv_ (sy_writer C)) as [srv|] eqn:Hs; [|discriminate Hx].
  destruct (sy_readers C !! 4) as [e|] eqn:He; [|discriminate Hx].
  apply andb_true_iff in Hx as [Hc%bool_decide_eq_true Hn%Nat.ltb_lt].
  destruct (published_well_formed C EC) as (s & _ & _ & srv' & sem & shm & p & m & Hw & Hsv & _).
  destruct (writer_dtor_stops C s srv' sem shm p m Hw Hsv) as (W' & E & _).
  destruct (unread_frame_lost C 4 e W' (published_well_formed C EC) He
    (ex_intro _ srv (conj Hs Hc)) (fun Ha => Nat.lt_neq _ _ Hn Ha) E)
    as (size & Ht & W'' & Hb).
  exists C, W', e, size, W''. split; [reflexivity|]. split; [exact E|]. split; [exact He|].
  split; [exact Ht|]. exact (proj1 (Hb note_cbs)).
Defined.
