(* ===== verification/GstSrc.v ===== *)
(** * The GStreamer source element (gst/gstshmdatasrc.c)

    The element runs in three threads: the data callback in the follower's
    thread, [gst_shmdata_src_create] in the streaming thread of the pipeline,
    and state changes in the application's thread; buffers are freed by any
    thread.  Each handler is a function on the fields of the element; [step]
    runs them one critical section at a time.  GStreamer is a parameter: the
    caps of a description, and whether a pad accepts caps. *)

From S2P Require Import Prelude.

(** ** The element *)

(** GstState, GstStateChange *)
Inductive gst_state := GST_STATE_NULL | GST_STATE_READY | GST_STATE_PAUSED | GST_STATE_PLAYING.
Inductive transition :=
| NULL_TO_READY | READY_TO_PAUSED | PAUSED_TO_PLAYING
| PLAYING_TO_PAUSED | PAUSED_TO_READY | READY_TO_NULL.

#[export] Instance gst_state_eq_dec : EqDecision gst_state.
Proof. solve_decision. Defined.

Definition source_state (t : transition) : gst_state :=
  match t with
  | NULL_TO_READY => GST_STATE_NULL | READY_TO_PAUSED | READY_TO_NULL => GST_STATE_READY
  | PAUSED_TO_PLAYING | PAUSED_TO_READY => GST_STATE_PAUSED
  | PLAYING_TO_PAUSED => GST_STATE_PLAYING
  end.
Definition target_state (t : transition) : gst_state :=
  match t with
  | READY_TO_NULL => GST_STATE_NULL | NULL_TO_READY | PAUSED_TO_READY => GST_STATE_READY
  | READY_TO_PAUSED | PLAYING_TO_PAUSED => GST_STATE_PAUSED
  | PAUSED_TO_PLAYING => GST_STATE_PLAYING
  end.

Inductive flow := GST_FLOW_OK | GST_FLOW_FLUSHING | GST_FLOW_ERROR.

Section src.
Context {Caps : Type}.

(** [struct _GstShmdataSrc]: handles are present or NULL, [on_data_mutex] is
    locked or free; the other mutex is held within a step only. *)
Record GstShmdataSrc := mkSrc {
  socket_path : option cstr;
  shmfollower : bool;
  shmlogger : bool;
  on_data_mutex : bool;
  on_data : bool;
  data_rendered : bool;
  current_data : Z;
  current_size : Z;
  is_first_read : bool;
  has_new_caps : bool;
  caps : option Caps;
  bytes_since_last_request : Z;
  buffers_since_last_request : Z;
  unlocked : bool;
  copy_buffers : bool;
  connected : bool;
  stop_read : bool }.

#[export] Instance src_settable : Settable GstShmdataSrc := fun s =>
  mkSrc (socket_path s) (shmfollower s) (shmlogger s) (on_data_mutex s) (on_data s)
    (data_rendered s) (current_data s) (current_size s) (is_first_read s) (has_new_caps s)
    (caps s) (bytes_since_last_request s) (buffers_since_last_request s) (unlocked s)
    (copy_buffers s) (connected s) (stop_read s).
Implicit Types (self : GstShmdataSrc).

(** The object is zeroed before [gst_shmdata_src_init]. *)
Definition gst_shmdata_src_init : GstShmdataSrc :=
  mkSrc None false false false false false 0 0 true false None 0 0 false false false false.

(** [gst_shmdata_src_set_property]: PROP_SOCKET_PATH, PROP_COPY_BUFFERS. *)
Definition set_socket_path (value : option cstr) self : GstShmdataSrc :=
  if shmfollower self then self else self <| socket_path := value |>.
Definition set_copy_buffers (value : bool) self : GstShmdataSrc := self <| copy_buffers := value |>.

(** [gst_shmdata_src_get_property] of the two counters. *)
Definition get_bytes self : Z * GstShmdataSrc :=
  (bytes_since_last_request self, self <| bytes_since_last_request := 0%Z |>).
Definition get_buffers self : Z * GstShmdataSrc :=
  (buffers_since_last_request self, self <| buffers_since_last_request := 0%Z |>).

(** The callbacks of the follower for connections. *)
Definition gst_shmdata_src_on_server_connect (gst_caps_from_string : cstr -> option Caps)
  (type_descr : cstr) self : GstShmdataSrc :=
  let self := self <| caps := gst_caps_from_string type_descr |> in
  let self := if caps self is Some _ then self <| has_new_caps := true |> else self in
  self <| connected := true |>.
Definition gst_shmdata_src_on_server_disconnect self : GstShmdataSrc :=
  self <| connected := false |>.

(** [gst_shmdata_src_start_reading], [gst_shmdata_src_stop_reading];
    [shmdata_make_follower] never gives NULL. *)
Definition gst_shmdata_src_start_reading self : bool * GstShmdataSrc :=
  match socket_path self with
  | None => (false, self)
  | Some _ => (true, self <| is_first_read := true |> <| shmlogger := true |> <| shmfollower := true |>)
  end.
Definition gst_shmdata_src_stop_reading self : GstShmdataSrc :=
  self <| shmfollower := false |> <| shmlogger := false |>.

(** [gst_shmdata_src_on_data] under [on_data_mutex], lines 382 to 387. *)
Definition on_data_store (data size : Z) self : GstShmdataSrc :=
  self <| current_data := data |> <| current_size := size |>
       <| bytes_since_last_request := to_size_t (bytes_since_last_request self + size) |>
       <| buffers_since_last_request := to_size_t (buffers_since_last_request self + 1) |>
       <| on_data := true |>.

(** The wait of [gst_shmdata_src_on_data], lines 389 to 393; [None] while it
    sleeps. *)
Definition on_data_wait self : option GstShmdataSrc :=
  if data_rendered self then Some (self <| data_rendered := false |>) else None.

Definition gst_shmdata_src_on_data_rendered self : GstShmdataSrc := self <| data_rendered := true |>.
Definition gst_shmdata_src_make_data_rendered self : GstShmdataSrc := self <| data_rendered := true |>.

(** [gst_shmdata_src_unlock], [gst_shmdata_src_unlock_stop] *)
Definition gst_shmdata_src_unlock self : GstShmdataSrc := self <| unlocked := true |>.
Definition gst_shmdata_src_unlock_stop self : GstShmdataSrc := self <| unlocked := false |>.

(** New caps in [gst_shmdata_src_create], lines 437 to 448; the boolean is
    false when the pad refuses them. *)
Definition create_caps (gst_pad_set_caps : option Caps -> bool) (state : gst_state) self
  : bool * GstShmdataSrc :=
  if has_new_caps self && (bool_decide (state = GST_STATE_PAUSED) ||
                           bool_decide (state = GST_STATE_PLAYING))
  then (gst_pad_set_caps (caps self), self <| has_new_caps := false |>)
  else (true, self).

(** [gst_shmdata_src_getcaps] *)
Definition gst_shmdata_src_getcaps (gst_caps_intersect_full : Caps -> Caps -> Caps)
  (gst_caps_any : Caps) (filter : option Caps) self : Caps :=
  match caps self with
  | Some c => match filter with Some f => gst_caps_intersect_full f c | None => c end
  | None => match filter with Some f => f | None => gst_caps_any end
  end.

(** ** The threads *)

(** A buffer wraps [b_size] bytes of the shared memory, or owns [b_copy].
    [b_frame] is, for the theorems, the frame it was made for. *)
Record buffer := Buffer { b_wraps : bool; b_size : nat; b_copy : cstr; b_frame : cstr }.

(** The data callback is given the frame; the program points are its entry,
    the lock of [on_data_mutex], and the wait. *)
Inductive client_pc := CIdle | CEnter (frame : cstr) | CLock (frame : cstr) | CWait (frame : cstr).

(** Program points of [gst_shmdata_src_create]: lines 420, 421, 425, 428, 437,
    468, 472 and 476. *)
Inductive stream_pc :=
| SIdle | SLock | SLoop | SAfter | SFlush
| SBody (frame : cstr) | SCopy (b : buffer) | SFirst (b : buffer) | SUnlock (b : buffer).

(** The element, its threads and the shared memory.  [stored] are the frames
    that the data callback has announced, [frame] the last one, [outs] those
    of the buffers that [create] returned, [lost] those of a failed [create]. *)
Record system := mkSys {
  obj : GstShmdataSrc;
  state : gst_state;
  shm : cstr;
  client : client_pc;
  streaming : stream_pc;
  stopping : bool;                    (* in gst_shmdata_src_stop_reading *)
  bufs : list buffer;
  frame : cstr;
  stored : list cstr;
  outs : list cstr;
  lost : list cstr;
  results : list flow }.

#[export] Instance sys_settable : Settable system := fun s =>
  mkSys (obj s) (state s) (shm s) (client s) (streaming s) (stopping s) (bufs s) (frame s)
    (stored s) (outs s) (lost s) (results s).
Implicit Types (s : system).

Definition initial : system :=
  mkSys gst_shmdata_src_init GST_STATE_NULL [] CIdle SIdle false [] [] [] [] [] [].

(** What the pipeline reads in a buffer. *)
Definition view (mem : cstr) (b : buffer) : cstr := if b_wraps b then take (b_size b) mem else b_copy b.

Definition returns_flow (r : flow) s : system :=
  s <| streaming := SIdle |> <| results := results s ++ [r] |>.

(** The address of the shared memory. *)
Context (address : Z).

(** The next step of [gst_shmdata_src_on_data]; [None] while it waits. *)
Definition gst_shmdata_src_on_data s : option system :=
  match client s with
  | CIdle => None
  | CEnter f => Some (s <| client := if stop_read (obj s) then CIdle else CLock f |>)
  | CLock f =>
      if on_data_mutex (obj s) then None
      else Some (s <| obj := on_data_store address (Z.of_nat (length f)) (obj s) |>
                   <| frame := f |> <| stored := stored s ++ [f] |> <| client := CWait f |>)
  | CWait f => self ← on_data_wait (obj s); Some (s <| obj := self |> <| client := CIdle |>)
  end.

Context (gst_pad_set_caps : option Caps -> bool).

(** The next step of [gst_shmdata_src_create]. *)
Definition gst_shmdata_src_create s : option system :=
  let self := obj s in
  match streaming s with
  | SIdle => Some (if unlocked self then returns_flow GST_FLOW_FLUSHING s else s <| streaming := SLock |>)
  | SLock =>
      if on_data_mutex self then None
      else Some (s <| obj := self <| on_data_mutex := true |> |> <| streaming := SLoop |>)
  | SLoop =>
      Some (if negb (on_data self) && negb (unlocked self)
            then s <| obj := self <| on_data_mutex := false |> |> <| streaming := SLock |>
            else s <| streaming := SAfter |>)
  | SAfter =>
      Some (if unlocked self
            then s <| obj := self <| on_data := false |> <| on_data_mutex := false |> |>
                   <| streaming := SFlush |>
            else if negb (on_data self)
            then returns_flow GST_FLOW_FLUSHING (s <| obj := self <| on_data_mutex := false |> |>)
            else s <| obj := self <| on_data := false |> |> <| streaming := SBody (frame s) |>)
  | SFlush => Some (returns_flow GST_FLOW_FLUSHING (s <| obj := gst_shmdata_src_make_data_rendered self |>))
  | SBody f =>
      let (accepted, self) := create_caps gst_pad_set_caps (state s) self in
      let size := Z.to_nat (current_size self) in
      Some (if negb accepted
            then returns_flow GST_FLOW_ERROR (s <| obj := self |> <| lost := lost s ++ [f] |>)
            else if negb (copy_buffers self)
            then s <| obj := self |> <| streaming := SFirst (Buffer true size [] f) |>
            else s <| obj := self |> <| streaming := SCopy (Buffer false size (take size (shm s)) f) |>)
  | SCopy b => Some (s <| obj := gst_shmdata_src_on_data_rendered self |> <| streaming := SFirst b |>)
  | SFirst b =>
      Some (if is_first_read self
            then s <| obj := (gst_shmdata_src_make_data_rendered self) <| is_first_read := false |> |>
                   <| streaming := SUnlock b |>
            else s <| streaming := SUnlock b |>)
  | SUnlock b =>
      Some (returns_flow GST_FLOW_OK
        (s <| obj := self <| on_data_mutex := false |> |> <| bufs := bufs s ++ [b] |>
           <| outs := outs s ++ [b_frame b] |>))
  end.

(** The last reference to a buffer is dropped. *)
Definition free_buffer (i : nat) s : option system :=
  b ← bufs s !! i;
  let s := s <| bufs := delete i (bufs s) |> in
  Some (if b_wraps b then s <| obj := gst_shmdata_src_on_data_rendered (obj s) |> else s).

(** [gst_shmdata_src_change_state]; [parent_ok] is the result of the parent
    class.  READY_TO_NULL then waits for the thread of the follower. *)
Definition gst_shmdata_src_change_state (t : transition) (parent_ok : bool) s : option system :=
  if negb (bool_decide (state s = source_state t)) || stopping s then None else
  let (ok, self) := match t with
                    | NULL_TO_READY => gst_shmdata_src_start_reading (obj s)
                    | _ => (true, obj s)
                    end in
  let s := s <| obj := self |> in
  Some (if negb ok then s
        else if negb parent_ok then s
        else match t with
             | PAUSED_TO_READY => s <| obj := self <| stop_read := true |> |> <| state := target_state t |>
             | READY_TO_NULL =>
                 s <| obj := gst_shmdata_src_make_data_rendered self |> <| stopping := true |>
             | _ => s <| state := target_state t |>
             end).
Definition join_follower s : option system :=
  if stopping s && (match client s with CIdle => true | _ => false end)
  then Some (s <| obj := gst_shmdata_src_stop_reading (obj s) |> <| stopping := false |>
               <| state := GST_STATE_NULL |>)
  else None.

Context (gst_caps_from_string : cstr -> option Caps).

(** One step of the system.  The writer alters the memory only while no data
    callback runs ([ShmTheorems.callback_sees_frame]). *)
Inductive label :=
| LWrite (bytes : cstr)               (* the writer is copying a frame *)
| LFrame (bytes : cstr)               (* a frame is complete: the callback is called *)
| LClient | LStream | LFree (i : nat)
| LUnlock | LUnlockStop
| LChange (t : transition) (parent_ok : bool) | LJoin
| LConnect (type_descr : cstr) | LDisconnect
| LSetPath (value : option cstr) | LSetCopy (value : bool) | LGetBytes | LGetBuffers.

Definition step (l : label) s : option system :=
  match l with
  | LWrite bytes => match client s with CIdle => Some (s <| shm := bytes |>) | _ => None end
  | LFrame bytes =>
      match client s with
      | CIdle => if shmfollower (obj s)
                 then Some (s <| shm := bytes |> <| client := CEnter bytes |>) else None
      | _ => None
      end
  | LClient => gst_shmdata_src_on_data s
  | LStream => gst_shmdata_src_create s
  | LFree i => free_buffer i s
  | LUnlock => Some (s <| obj := gst_shmdata_src_unlock (obj s) |>)
  | LUnlockStop => Some (s <| obj := gst_shmdata_src_unlock_stop (obj s) |>)
  | LChange t parent_ok => gst_shmdata_src_change_state t parent_ok s
  | LJoin => join_follower s
  | LConnect d => Some (s <| obj := gst_shmdata_src_on_server_connect gst_caps_from_string d (obj s) |>)
  | LDisconnect => Some (s <| obj := gst_shmdata_src_on_server_disconnect (obj s) |>)
  | LSetPath v => Some (s <| obj := set_socket_path v (obj s) |>)
  | LSetCopy v => Some (s <| obj := set_copy_buffers v (obj s) |>)
  | LGetBytes => Some (s <| obj := (get_bytes (obj s)).2 |>)
  | LGetBuffers => Some (s <| obj := (get_buffers (obj s)).2 |>)
  end.

Fixpoint run (ls : list label) s : option system :=
  match ls with
  | [] => Some s
  | l :: ls' => s' ← step l s; run ls' s'
  end.
End src.
