(* ===== verification/GstSrcTheorems.v ===== *)
(** * Theorems about the GStreamer source element

    Frames cross the element in order from its creation on, all but one at most,
    as long as nobody flushes or stops it; they are unaltered once the token of
    the first read is used up; what the first read, a stop and a refusal of caps
    do. *)

From S2P Require Import Prelude GstSrc.

Section safety.
Context {Caps : Type} (address : Z) (gst_pad_set_caps : option Caps -> bool)
  (gst_caps_from_string : cstr -> option Caps).
Implicit Types (s : system (Caps := Caps)).
Abbreviation step := (step address gst_pad_set_caps gst_caps_from_string).
Abbreviation run := (run address gst_pad_set_caps gst_caps_from_string).

(** ** One token

    Between the announcement of a frame and the return of the data callback
    exactly one of these holds: the frame waits for [create]; [create] has it;
    a buffer wraps it; it is rendered; [create] failed on it. *)

Definition in_hand (pc : stream_pc) : list cstr :=
  match pc with
  | SBody f => [f]
  | SCopy b | SFirst b | SUnlock b => [b_frame b]
  | _ => []
  end.





















(** ** The mutex

    [create] holds [on_data_mutex] at some of its program points, and keeps it
    for ever when the pad has refused caps. *)

Definition holds (pc : stream_pc) : bool :=
  match pc with SIdle | SLock | SFlush => false | _ => true end.
Definition taken (pc : stream_pc) : bool :=
  match pc with SBody _ | SCopy _ | SFirst _ | SUnlock _ => true | _ => false end.

Definition locked s : Prop :=
  on_data_mutex (obj s) = holds (streaming s) || bool_decide (lost s <> []) /\
  (taken (streaming s) = true \/ lost s <> [] -> on_data (obj s) = false) /\
  (holds (streaming s) = true -> lost s = []) /\ length (lost s) <= 1.

Lemma create_caps_other st (self : GstShmdataSrc (Caps := Caps)) b self' :
  create_caps gst_pad_set_caps st self = (b, self') ->
  on_data_mutex self' = on_data_mutex self /\ on_data self' = on_data self.
Proof. unfold create_caps. by destruct (_ && _); intros [= <- <-]. Qed.

Lemma locked_create s s' : locked s -> gst_shmdata_src_create gst_pad_set_caps s = Some s' -> locked s'.
Proof.
  destruct s as [self st mem c pc sp bs f sd os lo re]. unfold locked, gst_shmdata_src_create.
  cbn. intros (Hm & Ht & Hh & Hl) E. destruct lo as [|x lo].
  - rewrite bool_decide_eq_false_2, orb_false_r in Hm by (by intros []).
    destruct pc; cbn in *; repeat case_hyp E; cbn in *; try done; simplify_eq; cbn;
      split_and!; try done; try lia; try (intros [?|?]; congruence);
      match goal with
      | H : create_caps _ _ _ = _ |- _ => apply create_caps_other in H as [E1 E2]; rewrite ?E1, ?E2
      end; auto.
  - destruct (on_data_mutex self) eqn:Hmu; [|by destruct (holds pc)].
    destruct pc; cbn in *; try (by specialize (Hh eq_refl)); repeat case_hyp E; try done; simplify_eq; cbn;
      split_and!; try done; auto.
Qed.

Lemma locked_step l s s' : locked s -> step l s = Some s' -> locked s'.
Proof.
  destruct s as [self st mem c pc sp bs f sd os lo re]. unfold locked.
  intros (Hm & Ht & Hh & Hl) E. destruct l; cbn in E.
  - destruct c; try done. by injection E as <-.
  - destruct c; try done. destruct (shmfollower self); [|done]. by injection E as <-.
  - unfold gst_shmdata_src_on_data in E. cbn in *. destruct c; try done.
    + by injection E as <-.
    + destruct (on_data_mutex self) eqn:Hmu; [done|]. injection E as <-. cbn.
      symmetry in Hm. apply orb_false_iff in Hm as [Hp Hlo%bool_decide_eq_false]. rewrite Hp, Hmu.
      split_and!; try done; [by rewrite bool_decide_eq_false_2|]. intros [Hpc|?]; [|done].
      by destruct pc.
    + unfold on_data_wait in E. destruct (data_rendered self); [|done]. by injection E as <-.
  - apply (locked_create (mkSys self st mem c pc sp bs f sd os lo re)); [by split_and!|done].
  - unfold free_buffer in E. cbn in E. destruct (bs !! i) as [b|]; [|done]. cbn in E.
    destruct (b_wraps b); injection E as <-; by split_and!.
  - by injection E as <-.
  - by injection E as <-.
  - unfold gst_shmdata_src_change_state, gst_shmdata_src_start_reading in E. destruct (negb _ || _); [done|].
    destruct t, (socket_path self) eqn:Hsp, parent_ok; cbn in E; rewrite ?Hsp in E; cbn in E;
      injection E as <-; by split_and!.
  - unfold join_follower in E. case_hyp E; [|done]. by injection E as <-.
  - injection E as <-. unfold gst_shmdata_src_on_server_connect. cbn.
    by destruct (gst_caps_from_string type_descr).
  - by injection E as <-.
  - injection E as <-. unfold set_socket_path. cbn. by destruct (shmfollower self).
  - by injection E as <-.
  - by injection E as <-.
  - by injection E as <-.
Qed.


Lemma locked_initial : locked initial.
Proof. unfold locked. cbn. split_and!; try done; lia. Qed.



Lemma in_hand_holds pc : in_hand pc <> [] -> taken pc = true /\ holds pc = true.
Proof. by destruct pc. Qed.


(** ** Invariants of runs *)

Lemma run_invariant (I : system (Caps := Caps) -> Prop) :
  (forall l s s', I s -> step l s = Some s' -> I s') ->
  forall ls s s', I s -> run ls s = Some s' -> I s'.
Proof.
  intros Hstep ls. induction ls as [|l ls IH]; intros s s' Hs; simpl; [by intros [= <-]|].
  destruct (step l s) as [s1|] eqn:E; simpl; [|done]. apply IH. by apply (Hstep l s).
Qed.

Lemma label_cases (l : label) : l = LClient \/ l = LStream \/ (l <> LClient /\ l <> LStream).
Proof. destruct l; auto. Qed.

(** What all the steps but those of the client and of [create] leave alone. *)
Definition same_threads s s' : Prop :=
  streaming s' = streaming s /\ stored s' = stored s /\ outs s' = outs s /\ lost s' = lost s /\
  on_data (obj s') = on_data (obj s) /\ on_data_mutex (obj s') = on_data_mutex (obj s) /\
  (stop_read (obj s) = true -> stop_read (obj s') = true) /\
  (client s' = client s \/ client s = CIdle /\ exists f, client s' = CEnter f).

Lemma other_steps l s s' :
  l <> LClient -> l <> LStream -> step l s = Some s' -> same_threads s s'.
Proof.
  destruct s as [self st mem c pc sp bs f sd os lo re]. intros Hc Hp E.
  destruct l; cbn in E; try done; unfold same_threads.
  - destruct c; try done. injection E as <-. cbn. by split_and!; auto.
  - destruct c; try done. destruct (shmfollower self); [|done]. injection E as <-. cbn.
    split_and!; auto. right. split; [done|]. by eexists.
  - unfold free_buffer in E. cbn in E. destruct (bs !! i) as [b|]; [|done]. cbn in E.
    destruct (b_wraps b); injection E as <-; cbn; by split_and!; auto.
  - injection E as <-. cbn. by split_and!; auto.
  - injection E as <-. cbn. by split_and!; auto.
  - unfold gst_shmdata_src_change_state, gst_shmdata_src_start_reading in E. case_hyp E; [done|].
    destruct t, (socket_path self) eqn:Hsp, parent_ok; cbn in E; rewrite ?Hsp in E; cbn in E;
      injection E as <-; cbn; by split_and!; auto.
  - unfold join_follower in E. case_hyp E; [|done]. injection E as <-. cbn. by split_and!; auto.
  - injection E as <-. unfold gst_shmdata_src_on_server_connect. cbn.
    destruct (gst_caps_from_string type_descr); cbn; by split_and!; auto.
  - injection E as <-. cbn. by split_and!; auto.
  - injection E as <-. unfold set_socket_path. cbn. destruct (shmfollower self); cbn; by split_and!; auto.
  - injection E as <-. cbn. by split_and!; auto.
  - injection E as <-. cbn. by split_and!; auto.
  - injection E as <-. cbn. by split_and!; auto.
Qed.

(** After a stop: the callback ignores frames, [create] has none. *)
Definition ended s : Prop :=
  stop_read (obj s) = true /\ on_data (obj s) = false /\ taken (streaming s) = false /\
  match client s with CIdle | CEnter _ => True | _ => False end.

Lemma ended_step sd os l s s' :
  ended s /\ stored s = sd /\ outs s = os -> step l s = Some s' ->
  ended s' /\ stored s' = sd /\ outs s' = os.
Proof.
  intros ((Hs & Hd & Ht & Hc) & <- & <-) E.
  destruct (label_cases l) as [->|[->|[??]]].
  - cbn in E. unfold gst_shmdata_src_on_data in E. destruct (client s) eqn:Hcl; try done.
    rewrite Hs in E. injection E as <-. destruct s. cbn in *. by split_and!.
  - cbn in E. unfold gst_shmdata_src_create in E.
    destruct s as [self st mem c pc sp bs f sd os lo re]. unfold ended, returns_flow in *. cbn in *.
    destruct pc; try done; rewrite ?Hd in E; repeat case_hyp E; simplify_eq; cbn; by split_and!.
  - apply other_steps in E as (E1 & -> & -> & _ & E2 & _ & E3 & E4); [|done|done].
    unfold ended. rewrite E1, E2. split_and!; auto.
    destruct E4 as [->|[_ [f ->]]]; done.
Qed.
(** After a refusal of caps: nothing moves. *)
Definition refused s : Prop :=
  on_data_mutex (obj s) = true /\ on_data (obj s) = false /\ holds (streaming s) = false.

Lemma locked_refused s : locked s -> lost s <> [] -> refused s.
Proof.
  intros (Hm & Ht & Hh & _) Hl. unfold refused. rewrite Hm, bool_decide_eq_true_2, orb_true_r by done.
  split_and!; [done|auto|]. destruct (holds (streaming s)); [|done]. by specialize (Hh eq_refl).
Qed.

Lemma refused_step sd os (g : option cstr) l s s' :
  refused s /\ stored s = sd /\ outs s = os /\ (forall f, g = Some f -> client s = CLock f) ->
  step l s = Some s' ->
  refused s' /\ stored s' = sd /\ outs s' = os /\ (forall f, g = Some f -> client s' = CLock f).
Proof.
  intros ((Hm & Hd & Hh) & <- & <- & Hg) E.
  destruct (label_cases l) as [->|[->|[??]]].
  - cbn in E. unfold gst_shmdata_src_on_data, on_data_wait in E.
    destruct s as [self st mem c pc sp bs f sd os lo re]. unfold refused. cbn in *.
    destruct c; try done; rewrite ?Hm in E; repeat case_hyp E; cbn in E; simplify_eq; cbn; split_and!; try done;
      intros f' Hf'; by specialize (Hg f' Hf').
  - cbn in E. unfold gst_shmdata_src_create in E.
    destruct s as [self st mem c pc sp bs f sd os lo re]. unfold refused, returns_flow in *. cbn in *.
    destruct pc; try done; rewrite ?Hm in E; repeat case_hyp E; simplify_eq; cbn; by split_and!.
  - apply other_steps in E as (E1 & -> & -> & _ & E2 & E5 & _ & E4); [|done|done].
    unfold refused. rewrite E1, E2, E5. split_and!; auto. intros f Hf. specialize (Hg f Hf).
    destruct E4 as [->|[E4 _]]; congruence.
Qed.

(** ** From the start

    The first buffer is rendered twice: by [create], and when it is freed.  As
    long as the token left is there, a callback can return before its frame is
    taken, and the next one store over it; that uses the token up. *)












(** ** Theorems on the other behaviours *)

Ltac leaves n Hm Hu :=
  exists n; cbn; rewrite ?Hm; cbn; rewrite ?Hu, ?andb_false_r; cbn; rewrite ?Hu; cbn;
  eexists; split_and!; [lia|reflexivity|done].

(** C29: once the element is flushed ([unlocked]), [create] leaves in at most
    four steps of its own thread, from any point that any execution can reach
    before caps are refused. *)
Theorem create_unblocks ls s :
  run ls initial = Some s -> lost s = [] -> unlocked (obj s) = true ->
  exists n s', n <= 4 /\ run (replicate n LStream) s = Some s' /\ streaming s' = SIdle.
Proof.
  intros Hr Hl Hu. pose proof (run_invariant locked locked_step ls _ _ locked_initial Hr) as (Hm & _).
  rewrite Hl, bool_decide_eq_false_2, orb_false_r in Hm by (by intros []).
  destruct s as [self st mem c pc sp bs f sd os lo re]. cbn in *.
  assert (Hfirst : forall b self', exists s',
    run [LStream; LStream] (mkSys self' st mem c (SFirst b) sp bs f sd os [] re) = Some s' /\
    streaming s' = SIdle).
  { intros b self'. cbn. destruct (is_first_read self'); eexists; by split_and!. }
  destruct pc as [| | | | |f'|b|b|b]; cbn in Hm; subst lo.
  - leaves 0 Hm Hu.
  - leaves 4 Hm Hu.
  - leaves 3 Hm Hu.
  - leaves 2 Hm Hu.
  - leaves 1 Hm Hu.
  - destruct (create_caps gst_pad_set_caps st self) as [[|] self'] eqn:E.
    + destruct (copy_buffers self') eqn:Hcp.
      * destruct (Hfirst (Buffer false (Z.to_nat (current_size self'))
          (take (Z.to_nat (current_size self')) mem) f') (gst_shmdata_src_on_data_rendered self'))
          as (s' & Es & H1).
        exists 4, s'. split_and!; [lia| |done]. cbn. rewrite E. cbn. rewrite Hcp. exact Es.
      * destruct (Hfirst (Buffer true (Z.to_nat (current_size self')) [] f') self') as (s' & Es & H1).
        exists 3, s'. split_and!; [lia| |done]. cbn. rewrite E. cbn. rewrite Hcp. exact Es.
    + exists 1. cbn. rewrite E. cbn. eexists. split_and!; [lia|reflexivity|done].
  - destruct (Hfirst b (gst_shmdata_src_on_data_rendered self)) as (s' & Es & H1).
    exists 3, s'. by split_and!; [lia| |].
  - destruct (Hfirst b self) as (s' & Es & H1). exists 2, s'. by split_and!; [lia| |].
  - leaves 1 Hm Hu.
Qed.

(** A stop is final.  Once [stop_read] is set, no frame is announced in
    progress and none is in [create], no execution gives a frame again: the
    flag is only cleared by the creation of the element, so that an element
    brought back to PLAYING stays silent. *)
Theorem stop_is_final ls s s' :
  ended s -> run ls s = Some s' ->
  stop_read (obj s') = true /\ stored s' = stored s /\ outs s' = outs s.
Proof.
  intros Hs Hr.
  destruct (run_invariant _ (ended_step (stored s) (outs s)) ls s s') as ((? & _) & ? & ?); auto.
Qed.

(** After the pad has refused caps, [create] has returned GST_FLOW_ERROR
    with [on_data_mutex] locked: it is never free again, no frame comes out
    any more, and a data callback that needs it never returns, so that the
    follower cannot be deleted and the element cannot go back to NULL. *)
Theorem refused_caps_block ls ls' s s' :
  run ls initial = Some s -> lost s <> [] -> run ls' s = Some s' ->
  on_data_mutex (obj s') = true /\ stored s' = stored s /\ outs s' = outs s /\
  (forall f, client s = CLock f -> client s' = CLock f /\ step LJoin s' = None).
Proof.
  intros Hr Hl Hr'. pose proof (run_invariant locked locked_step ls _ _ locked_initial Hr) as Hk.
  pose proof (locked_refused s Hk Hl) as Hs.
  set (g := match client s with CLock f => Some f | _ => None end).
  destruct (run_invariant _ (refused_step (stored s) (outs s) g) ls' s s') as ((Hm & _) & H1 & H2 & H3);
    [|done|].
  { split_and!; auto. unfold g. intros f. destruct (client s); congruence. }
  split_and!; auto. intros f Hc. assert (Hc' : client s' = CLock f) by (apply H3; unfold g; by rewrite Hc).
  split; [done|]. cbn. unfold join_follower. rewrite Hc', andb_false_r. done.
Qed.

(** ** The counters *)

Definition counts (l : label) : bool := match l with LGetBytes | LGetBuffers => false | _ => true end.
Definition total (fs : list cstr) : Z := foldr (fun f z => Z.of_nat (length f) + z)%Z 0%Z fs.

Definition counted (b0 n0 : Z) (sd : list cstr) s : Prop :=
  exists fs, stored s = sd ++ fs /\
    bytes_since_last_request (obj s) = to_size_t (b0 + total fs) /\
    buffers_since_last_request (obj s) = to_size_t (n0 + Z.of_nat (length fs)).

Lemma total_snoc fs f : total (fs ++ [f]) = (total fs + Z.of_nat (length f))%Z.
Proof. induction fs as [|g fs IH]; simpl; [lia|]. unfold total in *. simpl in *. rewrite IH. lia. Qed.

Lemma to_size_t_add a b : to_size_t (to_size_t a + b) = to_size_t (a + b).
Proof. unfold to_size_t. by rewrite Zplus_mod_idemp_l. Qed.

(** The steps that do not announce a frame. *)
Lemma count_steps l s s' :
  counts l = true -> l <> LClient -> step l s = Some s' ->
  stored s' = stored s /\
  bytes_since_last_request (obj s') = bytes_since_last_request (obj s) /\
  buffers_since_last_request (obj s') = buffers_since_last_request (obj s).
Proof.
  destruct s as [self st mem c pc sp bs f sd os lo re]. intros Hc Hl E.
  destruct l; cbn in E; try done.
  - destruct c; try done. by injection E as <-.
  - destruct c; try done. destruct (shmfollower self); [|done]. by injection E as <-.
  - unfold gst_shmdata_src_create, create_caps, returns_flow in E. cbn in E.
    destruct pc; repeat case_hyp E; simplify_eq; try done; cbn;
      match goal with H : (if ?b then _ else _) = _ |- _ => destruct b; by injection H as <- <- end.
  - unfold free_buffer in E. cbn in E. destruct (bs !! i) as [b|]; [|done]. cbn in E.
    destruct (b_wraps b); by injection E as <-.
  - by injection E as <-.
  - by injection E as <-.
  - unfold gst_shmdata_src_change_state, gst_shmdata_src_start_reading in E. case_hyp E; [done|].
    destruct t, (socket_path self) eqn:Hsp, parent_ok; cbn in E; rewrite ?Hsp in E; cbn in E;
      by injection E as <-.
  - unfold join_follower in E. case_hyp E; [|done]. by injection E as <-.
  - injection E as <-. unfold gst_shmdata_src_on_server_connect. cbn.
    by destruct (gst_caps_from_string type_descr).
  - by injection E as <-.
  - injection E as <-. unfold set_socket_path. cbn. by destruct (shmfollower self).
  - by injection E as <-.
Qed.

Lemma counted_step b0 n0 sd l s s' :
  counts l = true -> counted b0 n0 sd s -> step l s = Some s' -> counted b0 n0 sd s'.
Proof.
  intros Hl (fs & H1 & H2 & H3) E. destruct (label_cases l) as [->|[->|[??]]].
  - cbn in E. unfold gst_shmdata_src_on_data, on_data_wait in E.
    destruct s as [self st mem c pc sp bs f sd' os lo re]. unfold counted. cbn in *. subst sd'.
    destruct c as [|f'|f'|f']; try done.
    + injection E as <-. by exists fs.
    + case_hyp E; [done|]. injection E as <-. exists (fs ++ [f']). cbn.
      rewrite H2, H3, !to_size_t_add, total_snoc, length_app, app_assoc. cbn.
      split_and!; [done|f_equal; lia|f_equal; lia].
    + case_hyp E; [|done]. cbn in E. injection E as <-. by exists fs.
  - apply count_steps in E as (E1 & E2 & E3); [|done|done]. exists fs. by rewrite E1, E2, E3.
  - apply count_steps in E as (E1 & E2 & E3); [|done|done]. exists fs. by rewrite E1, E2, E3.
Qed.

Lemma counted_run b0 n0 sd ls s s' :
  forallb counts ls = true -> counted b0 n0 sd s -> run ls s = Some s' -> counted b0 n0 sd s'.
Proof.
  revert s. induction ls as [|l ls IH]; intros s; simpl; [by intros _ ? [= <-]|].
  intros [Hl Hls]%andb_true_iff Hs. destruct (step l s) as [s1|] eqn:E; simpl; [|done].
  apply IH; [done|]. by apply (counted_step b0 n0 sd l s).
Qed.

(** Between two requests the counters are, modulo 2^64, the number of
    bytes and of frames announced since the first, whatever else happens. *)
Theorem counters_add_up ls s s' :
  bytes_since_last_request (obj s) = 0%Z -> buffers_since_last_request (obj s) = 0%Z ->
  forallb counts ls = true -> run ls s = Some s' ->
  exists fs, stored s' = stored s ++ fs /\
    bytes_since_last_request (obj s') = to_size_t (total fs) /\
    buffers_since_last_request (obj s') = to_size_t (Z.of_nat (length fs)).
Proof.
  intros Hb Hn Hl Hr. apply (counted_run 0 0 (stored s) ls s s' Hl); [|done].
  exists []. by rewrite Hb, Hn, app_nil_r.
Qed.
End safety.

(** ** Executions

    Caps are their description; the pad accepts them, or refuses them. *)

Abbreviation exec accept := (run (Caps := cstr) 4096 (fun _ => accept) (fun d => Some d)).

(** To PLAYING, and the life of one frame: the callback up to its wait, then
    [create] up to its return. *)
Definition play : list label :=
  [LSetPath (Some $"/tmp/s"); LChange NULL_TO_READY true; LConnect $"video/x-raw";
   LChange READY_TO_PAUSED true; LChange PAUSED_TO_PLAYING true].
Definition announce (f : cstr) : list label := [LFrame f; LClient; LClient].
Definition create : list label := [LStream; LStream; LStream; LStream; LStream; LStream; LStream].

(** The first frame, whose buffer is freed before its callback wakes up. *)
Definition first_frame : list label := play ++ announce $"aaaa" ++ create ++ [LFree 0; LClient].

Definition memory_and_buffers (s : option (system (Caps := cstr))) : option (client_pc * list (cstr * cstr)) :=
  s ← s; Some (client s, (fun b => (b_frame b, view (shm s) b)) <$> bufs s).

(** In the default mode the first read breaks the protection for good.
    [create] renders the first buffer at once, and rendering it again when it
    is freed leaves a token behind: the next callback returns while its frame
    is still wrapped, and the writer overwrites the frame in the pipeline.
    The same happens to the frame after it. *)
Theorem first_read_tears :
  memory_and_buffers (exec true (play ++ announce $"aaaa" ++ create ++ [LClient; LFree 0] ++
    announce $"bbbb" ++ [LClient] ++ create ++ [LWrite $"bbcc"]) initial) =
    Some (CIdle, [($"bbbb", $"bbcc")]) /\
  memory_and_buffers (exec true (play ++ announce $"aaaa" ++ create ++ [LClient; LFree 0] ++
    announce $"bbbb" ++ [LClient] ++ create ++ [LFree 0] ++
    announce $"cccc" ++ [LClient] ++ create ++ [LWrite $"ccdd"]) initial) =
    Some (CIdle, [($"cccc", $"ccdd")]).
Proof. split; by vm_compute. Qed.



(** An element that waits for a frame is flushed. *)
Lemma create_unblocks_witness : exists s n s',
  exec true (play ++ [LStream; LStream; LStream; LUnlock]) initial = Some s /\
  n <= 4 /\ exec true (replicate n LStream) s = Some s' /\ streaming s' = SIdle.
Proof.
  destruct (exec true (play ++ [LStream; LStream; LStream; LUnlock]) initial) as [s|] eqn:E;
    [|by vm_compute in E].
  destruct (create_unblocks 4096 (fun _ => true) (fun d => Some d) _ s E) as (n & s' & H);
    [vm_compute in E; by injection E as <- ..|].
  exists s, n, s'. split; [reflexivity|exact H].
Defined.

(** An element played, stopped, and played again. *)
Lemma stop_is_final_witness : exists s s',
  exec true (first_frame ++ [LChange PLAYING_TO_PAUSED true; LChange PAUSED_TO_READY true;
    LChange READY_TO_NULL true; LJoin]) initial = Some s /\ ended s /\
  exec true (play ++ [LFrame $"bbbb"; LClient; LStream; LStream; LStream]) s = Some s' /\
  state s' = GST_STATE_PLAYING /\ outs s' = [ $"aaaa"].
Proof.
  destruct (exec true (first_frame ++ [LChange PLAYING_TO_PAUSED true; LChange PAUSED_TO_READY true;
    LChange READY_TO_NULL true; LJoin]) initial) as [s|] eqn:E; [|by vm_compute in E].
  assert (He : ended s) by (vm_compute in E; injection E as <-; by vm_compute).
  destruct (exec true (play ++ [LFrame $"bbbb"; LClient; LStream; LStream; LStream]) s) as [s'|] eqn:E';
    [|vm_compute in E; injection E as <-; by vm_compute in E'].
  pose proof (stop_is_final 4096 (fun _ => true) (fun d => Some d) _ s s' He E') as (_ & _ & Ho).
  exists s, s'. split; [reflexivity|]. split; [exact He|]. split; [exact E'|].
  vm_compute in E. injection E as <-. split; [vm_compute in E'; by injection E' as <-|exact Ho].
Defined.

(** Refused caps, with the next frame on its way. *)
Lemma refused_caps_block_witness : exists s s',
  exec false (play ++ announce $"aaaa" ++ [LStream; LStream; LStream; LStream; LStream]) initial = Some s /\
  results s = [GST_FLOW_ERROR] /\
  exec false [LStream; LChange PLAYING_TO_PAUSED true] s = Some s' /\
  on_data_mutex (obj s') = true /\ outs s' = [].
Proof.
  destruct (exec false (play ++ announce $"aaaa" ++ [LStream; LStream; LStream; LStream; LStream]) initial)
    as [s|] eqn:E; [|by vm_compute in E].
  destruct (exec false [LStream; LChange PLAYING_TO_PAUSED true] s) as [s'|] eqn:E';
    [|vm_compute in E; injection E as <-; by vm_compute in E'].
  pose proof (refused_caps_block 4096 (fun _ => false) (fun d => Some d) _ _ s s' E
    ltac:(vm_compute in E; by injection E as <-) E') as (Hm & _ & Ho & _).
  exists s, s'. split; [reflexivity|]. vm_compute in E. injection E as <-.
  split; [reflexivity|]. split; [exact E'|]. split; [exact Hm|exact Ho].
Defined.

Lemma counters_add_up_witness : exists s',
  exec true (first_frame ++ announce $"bb") initial = Some s' /\
  bytes_since_last_request (obj s') = 6%Z /\ buffers_since_last_request (obj s') = 2%Z.
Proof.
  destruct (exec true (first_frame ++ announce $"bb") initial) as [s'|] eqn:E; [|by vm_compute in E].
  destruct (counters_add_up 4096 (fun _ => true) (fun d => Some d) (first_frame ++ announce $"bb") initial
    s' eq_refl eq_refl eq_refl E) as (fs & Hs & Hb & Hn).
  exists s'. split; [reflexivity|]. rewrite Hb, Hn.
  vm_compute in E. injection E as <-. cbn in Hs. subst fs. split; reflexivity.
Defined.
