(* ===== verification/GstAllocator.v ===== *)
(** * The allocator of the GStreamer sink (gst/gstshmdatasink.c)

    The memories that [shmdatasink] gives to the elements upstream: how a
    block is laid out, how a memory is shared, and who holds a reference on
    the allocators and on the sink.  The bytes are in [GstSink.v]. *)

From S2P Require Import Prelude.

(** GstAllocationParams *)
Record params := mkParams {
  p_prefix : Z; p_padding : Z; p_align : Z;
  p_zero_prefixed : bool; p_zero_padded : bool }.

(** [gst_allocation_params_init] *)
Definition default_params : params := mkParams 0 0 0 false false.

(** [GstShmdataSinkMemory]: the members of GstMemory, then [data], a base
    address and an offset ([None] is the address -1), and whether [sink] is
    set. *)
#[warnings="-register-all"]
Inductive GstShmdataSinkMemory := mkMemory {
  m_allocator : nat;
  m_parent : option GstShmdataSinkMemory;
  m_maxsize : Z;
  m_align : Z;
  m_offset : Z;
  m_size : Z;
  m_base : option Z;
  m_aoffset : Z;
  m_sink : bool }.

(** ** Layout (lines 244 to 289), modulo 2^64 *)

Section layout.
Context (gst_memory_alignment : Z).

(** Alignment of [data], the address of the segment. *)
Definition alloc_align (ps : params) : Z := Z.lor (p_align ps) gst_memory_alignment.
Definition alloc_aoffset (ps : params) (data : Z) : Z :=
  let aoffset := Z.land data (alloc_align ps) in
  if (aoffset =? 0)%Z then 0%Z else to_size_t (alloc_align ps + 1 - aoffset).
Definition alloc_maxsize (ps : params) (size data : Z) : Z :=
  to_size_t (size + p_prefix ps + p_padding ps + alloc_align ps - alloc_aoffset ps data).
Definition alloc_padding (ps : params) (size data : Z) : Z :=
  to_size_t (alloc_maxsize ps size data - (p_prefix ps + size)).

(** [gst_memory_init] at the end of [gst_shmdata_sink_allocator_alloc]. *)
Definition alloc_memory (allocator : nat) (ps : params) (size data : Z) (base : option Z)
  : GstShmdataSinkMemory :=
  mkMemory allocator None (alloc_maxsize ps size data) (alloc_align ps) (p_prefix ps) size
    base (alloc_aoffset ps data) true.
End layout.

(** [gst_shmdata_sink_allocator_mem_map], then [gst_memory_map]: where the
    bytes of a memory start, from the base address. *)
Definition mem_map (m : GstShmdataSinkMemory) : option Z * Z := (m_base m, m_aoffset m).
Definition mapped_offset (m : GstShmdataSinkMemory) : Z := ((mem_map m).2 + m_offset m)%Z.

(** [gst_shmdata_sink_allocator_mem_share] *)
Definition mem_share (m : GstShmdataSinkMemory) (offset size : Z) : GstShmdataSinkMemory :=
  let parent := default m (m_parent m) in
  let size := to_size_t (if (size =? -1)%Z then (m_size m - offset)%Z else size) in
  mkMemory (m_allocator m) (Some parent) (m_maxsize m) (m_align m) (to_size_t (m_offset m + offset)) size
    (m_base m) (m_aoffset m) false.

(** [gst_shmdata_sink_allocator_mem_is_span], with an offset to return. *)
Definition mem_is_span (m1 m2 : GstShmdataSinkMemory) : option (Z * bool) :=
  match m_parent m1 with
  | None => None
  | Some parent =>
      Some (to_size_t (m_offset m1 - m_offset parent),
            bool_decide (m_base m1 = m_base m2) &&
            (m_aoffset m1 + m_offset m1 + m_size m1 =? m_aoffset m2 + m_offset m2)%Z)
  end.

(** ** References *)

(** The references on the sink that allocators and memories hold, those on
    each allocator, and the memories.  [handles] are the allocators whose
    first reference has not been dropped; [criticals] counts the calls of
    [gst_object_unref] on NULL. *)
Record heap := mkHeap {
  sink_refs : Z;
  alloc_refs : gmap nat Z;
  memories : list GstShmdataSinkMemory;
  handles : gset nat;
  criticals : nat }.

Definition empty_heap : heap := mkHeap 0 ∅ [] ∅ 0.

#[export] Instance heap_settable : Settable heap := fun h =>
  mkHeap (sink_refs h) (alloc_refs h) (memories h) (handles h) (criticals h).
Implicit Types (h : heap) (m : GstShmdataSinkMemory).

(** [gst_shmdata_sink_allocator_new], [gst_shmdata_sink_allocator_dispose] *)
Definition gst_shmdata_sink_allocator_new h : nat * heap :=
  let a := fresh (dom (alloc_refs h)) in
  (a, h <| alloc_refs := <[a := 1%Z]> (alloc_refs h) |> <| sink_refs := (sink_refs h + 1)%Z |>
        <| handles := {[a]} ∪ handles h |>).
Definition gst_shmdata_sink_allocator_dispose (a : nat) h : heap :=
  h <| alloc_refs := delete a (alloc_refs h) |> <| sink_refs := (sink_refs h - 1)%Z |>.

(** [gst_object_ref], [gst_object_unref] on an allocator. *)
Definition ref_allocator (a : nat) h : heap :=
  match alloc_refs h !! a with
  | None => h
  | Some n => h <| alloc_refs := <[a := (n + 1)%Z]> (alloc_refs h) |>
  end.
Definition unref_allocator (a : nat) h : heap :=
  match alloc_refs h !! a with
  | None => h
  | Some n =>
      if (n =? 1)%Z then gst_shmdata_sink_allocator_dispose a h
      else h <| alloc_refs := <[a := (n - 1)%Z]> (alloc_refs h) |>
  end.

(** The references that [gst_shmdata_sink_allocator_alloc] and
    [gst_shmdata_sink_allocator_mem_share] take. *)
Definition add_memory m h : heap :=
  let h := if m_sink m then h <| sink_refs := (sink_refs h + 1)%Z |> else h in
  let h := ref_allocator (m_allocator m) h in
  h <| memories := memories h ++ [m] |>.

(** [gst_shmdata_sink_allocator_free] of the [i]-th memory; its data is never
    NULL. *)
Definition gst_shmdata_sink_allocator_free (i : nat) h : option heap :=
  m ← memories h !! i;
  let h := if m_sink m then h <| sink_refs := (sink_refs h - 1)%Z |>
           else h <| criticals := S (criticals h) |> in
  let h := unref_allocator (m_allocator m) h in
  Some (h <| memories := delete i (memories h) |>).

(** The element drops its allocator (line 568). *)
Definition drop_handle (a : nat) h : heap :=
  unref_allocator a (h <| handles := handles h ∖ {[a]} |>).

(** The steps of a program that uses allocators: a live allocator makes a
    block, a memory is shared, a memory is freed, a handle is dropped. *)
Inductive heap_op :=
| ONew
| OAlloc (a : nat) (ps : params) (size data : Z) (base : option Z)
| OShare (i : nat) (offset size : Z)
| OFree (i : nat)
| ODrop (a : nat).

Definition heap_step (alignment : Z) (o : heap_op) h : option heap :=
  match o with
  | ONew => Some (gst_shmdata_sink_allocator_new h).2
  | OAlloc a ps size data base =>
      if bool_decide (is_Some (alloc_refs h !! a))
      then Some (add_memory (alloc_memory alignment a ps size data base) h) else None
  | OShare i offset size => m ← memories h !! i; Some (add_memory (mem_share m offset size) h)
  | OFree i => gst_shmdata_sink_allocator_free i h
  | ODrop a => if bool_decide (a ∈ handles h) then Some (drop_handle a h) else None
  end.

Fixpoint heap_run (alignment : Z) (os : list heap_op) h : option heap :=
  match os with
  | [] => Some h
  | o :: os' => h' ← heap_step alignment o h; heap_run alignment os' h'
  end.

(** ** Theorems *)

(** The holders of a reference on an allocator, and of one on the sink. *)
Definition of_allocator (a : nat) (ms : list GstShmdataSinkMemory) : Z :=
  Z.of_nat (length (filter (fun m => m_allocator m = a) ms)).
Definition with_sink (ms : list GstShmdataSinkMemory) : Z :=
  Z.of_nat (length (filter (fun m => m_sink m = true) ms)).
Definition holders (a : nat) h : Z :=
  ((if bool_decide (a ∈ handles h) then 1 else 0) + of_allocator a (memories h))%Z.

Definition balanced h : Prop :=
  (forall a, alloc_refs h !! a = if (holders a h =? 0)%Z then None else Some (holders a h)) /\
  sink_refs h = (Z.of_nat (size (alloc_refs h)) + with_sink (memories h))%Z.

Lemma of_allocator_nonneg a ms : (0 <= of_allocator a ms)%Z.
Proof. unfold of_allocator. lia. Qed.

Lemma of_allocator_app a ms m :
  of_allocator a (ms ++ [m]) = (of_allocator a ms + if bool_decide (m_allocator m = a) then 1 else 0)%Z.
Proof.
  unfold of_allocator. rewrite filter_app, length_app, filter_cons, filter_nil.
  case_bool_decide; [rewrite decide_True by done|rewrite decide_False by done]; simpl; lia.
Qed.

Lemma of_allocator_delete a ms i m : ms !! i = Some m ->
  of_allocator a (delete i ms) = (of_allocator a ms - if bool_decide (m_allocator m = a) then 1 else 0)%Z.
Proof.
  unfold of_allocator. revert i. induction ms as [|m0 ms IH]; intros [|i]; simpl; try done.
  - intros [= ->]. destruct (decide (m_allocator m = a)).
    + rewrite filter_cons_True, bool_decide_eq_true_2 by done. cbn [length]. lia.
    + rewrite filter_cons_False, bool_decide_eq_false_2 by done. lia.
  - intros E. specialize (IH i E). destruct (decide (m_allocator m0 = a)).
    + rewrite !filter_cons_True by done. cbn [length]. lia.
    + by rewrite !filter_cons_False.
Qed.

Lemma with_sink_app ms m : with_sink (ms ++ [m]) = (with_sink ms + if m_sink m then 1 else 0)%Z.
Proof.
  unfold with_sink. rewrite filter_app, length_app, filter_cons, filter_nil.
  case_decide as H; destruct (m_sink m); try done; simpl; lia.
Qed.

Lemma with_sink_delete ms i m : ms !! i = Some m ->
  with_sink (delete i ms) = (with_sink ms - if m_sink m then 1 else 0)%Z.
Proof.
  unfold with_sink. revert i. induction ms as [|m0 ms IH]; intros [|i]; simpl; try done.
  - intros [= ->]. rewrite filter_cons. case_decide as H; destruct (m_sink m); try done; simpl; lia.
  - intros E. specialize (IH i E). rewrite !filter_cons. case_decide; cbn [length]; lia.
Qed.

(** Dropping one of the references of a live allocator. *)
Lemma unref_spec a n r s ms hs c :
  r !! a = Some n -> (0 < n)%Z ->
  exists r' s', unref_allocator a (mkHeap s r ms hs c) = mkHeap s' r' ms hs c /\
    r' !! a = (if (n =? 1)%Z then None else Some (n - 1)%Z) /\
    (forall b, b <> a -> r' !! b = r !! b) /\
    (s' - Z.of_nat (size r') = s - Z.of_nat (size r))%Z.
Proof.
  intros E Hn. unfold unref_allocator. cbn. rewrite E. destruct (Z.eqb_spec n 1) as [->|Hne].
  - exists (delete a r), (s - 1)%Z. split; [done|]. split; [apply lookup_delete_eq|].
    split; [intros b Hb; by apply lookup_delete_ne|].
    rewrite map_size_delete_Some by done. assert (size r <> 0).
    { intros Hz%map_size_empty_inv. by rewrite Hz in E. }
    lia.
  - exists (<[a := (n - 1)%Z]> r), s. split; [done|]. split; [apply lookup_insert_eq|].
    split; [intros b Hb; by apply lookup_insert_ne|].
    rewrite map_size_insert_Some by done. lia.
Qed.

Lemma balanced_live h a : balanced h -> is_Some (alloc_refs h !! a) ->
  (0 < holders a h)%Z /\ alloc_refs h !! a = Some (holders a h).
Proof.
  intros [Hr _] [n E]. specialize (Hr a). rewrite E in Hr.
  pose proof (of_allocator_nonneg a (memories h)).
  destruct (Z.eqb_spec (holders a h) 0); [done|]. split; [|congruence].
  unfold holders in *. case_bool_decide; lia.
Qed.

Lemma balanced_empty : balanced empty_heap.
Proof. split; [|done]. intros a. cbn. unfold holders. cbn. by rewrite lookup_empty. Qed.

Lemma balanced_new h : balanced h -> balanced (gst_shmdata_sink_allocator_new h).2.
Proof.
  intros [Hr Hs]. pose proof (is_fresh (dom (alloc_refs h))) as Hf. unfold gst_shmdata_sink_allocator_new.
  set (a := fresh _) in *. apply not_elem_of_dom in Hf. destruct h as [s r ms hs c]. cbn in *.
  split; cbn.
  - intros b. destruct (decide (b = a)) as [->|Hne].
    + rewrite lookup_insert_eq. specialize (Hr a). rewrite Hf in Hr. unfold holders in *. cbn in *.
      rewrite (bool_decide_eq_true_2 (a ∈ _)) by set_solver.
      pose proof (of_allocator_nonneg a ms).
      destruct (Z.eqb_spec ((if bool_decide (a ∈ hs) then 1 else 0) + of_allocator a ms) 0); [|done].
      replace (of_allocator a ms) with 0%Z by (case_bool_decide; lia). done.
    + rewrite lookup_insert_ne by done. rewrite Hr. unfold holders. cbn.
      by rewrite (bool_decide_ext (b ∈ {[a]} ∪ hs) (b ∈ hs)) by set_solver.
  - rewrite map_size_insert_None by done. lia.
Qed.

Lemma balanced_add h m :
  balanced h -> is_Some (alloc_refs h !! m_allocator m) -> balanced (add_memory m h).
Proof.
  intros Hb Hl. pose proof (balanced_live h _ Hb Hl) as [Hpos E]. destruct Hb as [Hr Hs].
  assert (Hb' : forall s, balanced (mkHeap s (<[m_allocator m := (holders (m_allocator m) h + 1)%Z]> (alloc_refs h))
    (memories h ++ [m]) (handles h) (criticals h)) <->
    s = (Z.of_nat (size (alloc_refs h)) + with_sink (memories h ++ [m]))%Z).
  { intros s. unfold balanced. cbn. rewrite map_size_insert_Some by done. split; [by intros [_ ?]|]. intros ->.
    split; [|done]. intros b. unfold holders. cbn. rewrite of_allocator_app.
    destruct (decide (b = m_allocator m)) as [->|Hne].
    - rewrite lookup_insert_eq. rewrite (bool_decide_eq_true_2 (m_allocator m = _)) by done.
      unfold holders in Hpos |- *. cbn in Hpos |- *. rewrite Z.add_assoc.
      set (n := ((if bool_decide _ then 1 else 0) + of_allocator _ _)%Z) in *.
      destruct (Z.eqb_spec (n + 1) 0); [lia|done].
    - rewrite lookup_insert_ne by done. rewrite Hr. unfold holders.
      rewrite (bool_decide_eq_false_2 (m_allocator m = b)) by done. by rewrite Z.add_0_r. }
  unfold add_memory, ref_allocator. destruct h as [s r ms hs c]. cbn in *.
  destruct (m_sink m) eqn:Hk; cbn; rewrite E; cbn; apply Hb'; cbn; rewrite with_sink_app, Hk; lia.
Qed.

(** A holder of [a] goes away: a memory, or the first reference. *)
Lemma balanced_unref s r ms (hs hs' : gset nat) a ms' c :
  (forall b, r !! b = if ((if bool_decide (b ∈ hs) then 1 else 0) + of_allocator b ms =? 0)%Z then None
     else Some ((if bool_decide (b ∈ hs) then 1 else 0) + of_allocator b ms)%Z) ->
  (forall b, (if bool_decide (b ∈ hs') then 1 else 0) + of_allocator b ms' =
     (if bool_decide (b ∈ hs) then 1 else 0) + of_allocator b ms - if bool_decide (a = b) then 1 else 0)%Z ->
  (0 < (if bool_decide (a ∈ hs) then 1 else 0) + of_allocator a ms)%Z ->
  (s = Z.of_nat (size r) + with_sink ms')%Z ->
  exists s' r', unref_allocator a (mkHeap s r ms hs' c) = mkHeap s' r' ms hs' c /\
    balanced (mkHeap s' r' ms' hs' c).
Proof.
  intros Hr Hd Hpos Hs. specialize (Hr a) as Ea. rewrite (proj2 (Z.eqb_neq _ 0)) in Ea by lia.
  destruct (unref_spec a _ r s ms hs' c Ea Hpos) as (r' & s' & E & Ha & Hb & Hsz).
  exists s', r'. split; [done|]. split; cbn; [|lia]. intros b. unfold holders. cbn. rewrite Hd.
  destruct (decide (b = a)) as [->|Hne].
  - rewrite Ha, (bool_decide_eq_true_2 (a = a)) by done.
    set (n := (_ + _)%Z) in *. destruct (Z.eqb_spec n 1), (Z.eqb_spec (n - 1) 0); done || lia.
  - rewrite Hb, Hr by done. rewrite (bool_decide_eq_false_2 (a = b)) by done. by rewrite Z.sub_0_r.
Qed.

Lemma balanced_free i h h' :
  balanced h -> gst_shmdata_sink_allocator_free i h = Some h' -> balanced h'.
Proof.
  intros [Hr Hs] E. unfold gst_shmdata_sink_allocator_free in E.
  destruct (memories h !! i) as [m|] eqn:Ei; [|done]. cbn in E. injection E as <-.
  pose proof (of_allocator_delete (m_allocator m) _ _ _ Ei) as Hd.
  rewrite bool_decide_eq_true_2 in Hd by done.
  pose proof (of_allocator_nonneg (m_allocator m) (delete i (memories h))) as Hn.
  pose proof (with_sink_delete _ _ _ Ei) as Hw.
  destruct h as [s r ms hs c]. cbn in *.
  destruct (balanced_unref (if m_sink m then s - 1 else s)%Z r ms hs hs
    (m_allocator m) (delete i ms) (if m_sink m then c else S c)) as (s' & r' & E & Hb).
  - exact Hr.
  - intros b. rewrite (of_allocator_delete b _ _ _ Ei). lia.
  - case_bool_decide; lia.
  - destruct (m_sink m); lia.
  - destruct (m_sink m); unfold set_member; cbn; rewrite E; exact Hb.
Qed.

Lemma balanced_drop a h :
  balanced h -> a ∈ handles h -> balanced (drop_handle a h).
Proof.
  intros [Hr Hs] Ha. destruct h as [s r ms hs c]. cbn in *. unfold drop_handle. cbn.
  pose proof (of_allocator_nonneg a ms) as Hn.
  destruct (balanced_unref s r ms hs (hs ∖ {[a]}) a ms c) as (s' & r' & E & Hb).
  - exact Hr.
  - intros b. destruct (decide (a = b)) as [<-|Hne].
    + rewrite (bool_decide_eq_true_2 (a ∈ hs)), (bool_decide_eq_true_2 (a = a)) by done.
      rewrite bool_decide_eq_false_2 by set_solver. lia.
    + rewrite (bool_decide_eq_false_2 (a = b)) by done.
      rewrite (bool_decide_ext (b ∈ hs ∖ {[a]}) (b ∈ hs)) by set_solver. lia.
  - rewrite bool_decide_eq_true_2 by done. lia.
  - done.
  - unfold set_member; cbn; rewrite E. exact Hb.
Qed.

Lemma mem_share_allocator m offset size : m_allocator (mem_share m offset size) = m_allocator m.
Proof. done. Qed.

Lemma balanced_step alignment o h h' :
  balanced h -> heap_step alignment o h = Some h' -> balanced h'.
Proof.
  intros Hb E. destruct o; cbn in E.
  - injection E as <-. by apply balanced_new.
  - case_bool_decide; [|done]. injection E as <-. by apply balanced_add.
  - destruct (memories h !! i) as [m|] eqn:Ei; [|done]. cbn in E. injection E as <-.
    apply balanced_add; [done|]. rewrite mem_share_allocator. destruct Hb as [Hr _]. rewrite Hr.
    pose proof (of_allocator_delete (m_allocator m) _ _ _ Ei) as Hd.
    rewrite bool_decide_eq_true_2 in Hd by done.
    pose proof (of_allocator_nonneg (m_allocator m) (delete i (memories h))).
    rewrite (proj2 (Z.eqb_neq _ 0)); [by eexists|]. unfold holders. case_bool_decide; lia.
  - by apply (balanced_free i h).
  - case_bool_decide; [|done]. injection E as <-. by apply balanced_drop.
Qed.

Lemma balanced_handle h a : balanced h -> a ∈ handles h -> is_Some (alloc_refs h !! a).
Proof.
  intros [Hr _] Ha. pose proof (of_allocator_nonneg a (memories h)). rewrite Hr. unfold holders.
  rewrite bool_decide_eq_true_2 by done. rewrite (proj2 (Z.eqb_neq _ 0)) by lia. by eexists.
Qed.

Lemma drop_handles a h : handles (drop_handle a h) = handles h ∖ {[a]}.
Proof.
  unfold drop_handle, unref_allocator. destruct (alloc_refs _ !! a) as [n|]; [|done].
  by destruct (n =? 1)%Z.
Qed.

Lemma balanced_run alignment os h h' :
  balanced h -> heap_run alignment os h = Some h' -> balanced h'.
Proof.
  revert h. induction os as [|o os IH]; intros h Hb; simpl; [by intros [= <-]|].
  destruct (heap_step alignment o h) as [h1|] eqn:E; simpl; [|done].
  apply IH. by apply (balanced_step alignment o h).
Qed.

(** C30: after any sequence of allocations, shares, frees and drops, a live
    allocator has exactly as many references as it has holders, the sink as
    many as there are live allocators and memories that keep it; so that when
    every memory is freed and every handle dropped, every allocator has been
    disposed of and the sink has all its references back; but an allocator
    whose handle is not dropped stays, with a reference on the sink. *)
Theorem references_balanced alignment os h :
  heap_run alignment os empty_heap = Some h ->
  balanced h /\
  (memories h = [] -> handles h = ∅ -> alloc_refs h = ∅ /\ sink_refs h = 0%Z) /\
  (forall a, a ∈ handles h -> is_Some (alloc_refs h !! a) /\ (1 <= sink_refs h)%Z).
Proof.
  intros E. assert (Hb : balanced h) by (by apply (balanced_run alignment os empty_heap h balanced_empty)).
  split; [done|]. destruct Hb as [Hr Hs]. split.
  - intros Hm Hh. assert (alloc_refs h = ∅) as Hz.
    { apply map_empty. intros a. rewrite Hr. unfold holders. by rewrite Hm, Hh. }
    split; [done|]. by rewrite Hs, Hz, Hm, map_size_empty.
  - intros a Ha.
    assert (Hl : is_Some (alloc_refs h !! a)) by (by apply balanced_handle).
    split; [done|]. destruct Hl as [n Hl].
    assert (size (alloc_refs h) <> 0) by (intros Hz%map_size_empty_inv; by rewrite Hz in Hl).
    unfold with_sink in Hs. lia.
Qed.

(** Cutting a memory in two consecutive parts and asking whether they are
    contiguous gives yes, at the place of the first part in the root memory;
    the parts name the same bytes as the whole, and with the size -1 the second
    part goes to the end. *)
Theorem shares_are_span m o s1 s2 :
  (0 <= m_offset m)%Z -> (0 <= o)%Z -> (0 <= s1)%Z -> (s2 = -1 \/ 0 <= s2)%Z ->
  (o + s1 + Z.max 0 s2 <= m_size m)%Z -> (m_offset m + m_size m < 2 ^ 64)%Z ->
  let root := default m (m_parent m) in
  let first := mem_share m o s1 in
  let second := mem_share m (o + s1) s2 in
  mem_is_span first second = Some (to_size_t (m_offset m + o - m_offset root), true) /\
  mapped_offset first = (mapped_offset m + o)%Z /\ m_size first = s1 /\
  mapped_offset second = (mapped_offset m + o + s1)%Z /\
  m_size second = (if (s2 =? -1)%Z then m_size m - o - s1 else s2)%Z /\
  m_parent first = Some root /\ m_parent second = Some root.
Proof.
  intros Hm Ho H1 H2 Hf Hmax. cbv zeta. unfold mem_is_span, mem_share, mapped_offset, mem_map. cbn.
  rewrite (proj2 (Z.eqb_neq s1 (-1))), bool_decide_eq_true_2 by (done || lia). cbn.
  unfold to_size_t.
  rewrite (Z.mod_small (m_offset m + o)), (Z.mod_small s1), (Z.mod_small (m_offset m + (o + s1))) by lia.
  rewrite (proj2 (Z.eqb_eq _ _)) by lia. split_and!; try done; try lia.
  case_match; rewrite Z.mod_small; lia.
Qed.

(** ** Concrete instances *)

(** Two allocators, the first one forgotten, as when caps are set twice; a
    block cut in two. *)
Definition two_caps : list heap_op :=
  [ONew; ONew; OAlloc 1 default_params 16 4096 (Some 2%Z); OShare 0 0 8; OShare 0 8 (-1);
   OFree 2; OFree 1; OFree 0; ODrop 1].

Lemma references_balanced_witness : exists h,
  heap_run 7 two_caps empty_heap = Some h /\ balanced h /\ memories h = [] /\
  is_Some (alloc_refs h !! 0) /\ alloc_refs h !! 1 = None /\ sink_refs h = 1%Z /\ criticals h = 2.
Proof.
  destruct (heap_run 7 two_caps empty_heap) as [h|] eqn:E; [|by vm_compute in E].
  destruct (references_balanced 7 two_caps h E) as (Hb & _ & Hl).
  vm_compute in E. injection E as <-. eexists. split; [reflexivity|]. split; [exact Hb|].
  split; [reflexivity|]. split; [apply (Hl 0); apply (bool_decide_unpack _); by vm_compute|].
  split; [by vm_compute|]. split; reflexivity.
Defined.

Definition example_memory : GstShmdataSinkMemory :=
  alloc_memory 7 0 default_params 16 4096 (Some 2%Z).

Lemma shares_are_span_witness :
  mem_is_span (mem_share example_memory 4 8) (mem_share example_memory (4 + 8) (-1)) = Some (4%Z, true) /\
  m_size (mem_share example_memory (4 + 8) (-1)) = 4%Z.
Proof.
  destruct (shares_are_span example_memory 4 8 (-1) ltac:(done) ltac:(done) ltac:(done)
    ltac:(by left) ltac:(done) ltac:(done)) as (E & _ & _ & _ & Hs & _).
  split; [exact E|exact Hs].
Defined.
