(* ===== verification/GstSink.v ===== *)
(** * The GStreamer sink element (gst/gstshmdatasink.c)

    The element writes buffers through the C interface: [render] runs in the
    streaming thread under the object lock.  GStreamer is a parameter: what a
    buffer is made of, how its bytes are copied out, and the text of caps.  A
    pointer in the segment is a base address and an offset. *)

From S2P Require Import Prelude Logger StdLib Posix PosixModel SysVSem SysVShm KernelLimits.
From S2P Require Import SocketProtocol UnixSocketServer UnixSocketClient Reader ReaderTheorems.
From S2P Require Import Writer WriterTheorems Follower CInterface GstSrc GstAllocator.

(** ** Bytes at an offset in a segment *)

Section bytes.
Context {K : Type} `{ShmOS K}.

(** A store and a load of bytes at [base + off]; undefined outside of the
    mapping and for the address -1. *)
Definition write_at (base : option Z) (off : Z) (bs : cstr) : M (world K) unit := fun w =>
  match base with
  | None => (Undef, w)
  | Some p =>
      match load p (Z.to_nat off) (kern w) with
      | Some before => store_at p (before ++ bs) w
      | None => (Undef, w)
      end
  end.
Definition read_at (base : option Z) (off size : Z) : M (world K) cstr := fun w =>
  match base with
  | None => (Undef, w)
  | Some p =>
      match load p (Z.to_nat (off + size)) (kern w) with
      | Some bs => (Ret (drop (Z.to_nat off) bs), w)
      | None => (Undef, w)
      end
  end.
End bytes.

(** ** GStreamer buffers *)

(** The memory of a buffer with one memory: of this element's allocators, or
    of another one. *)
Inductive gst_memory := Own (m : GstShmdataSinkMemory) | Foreign.

Class GstBuffers (K B : Type) := {
  gst_buffer_n_memory : B -> nat;
  gst_buffer_peek_memory : B -> option gst_memory;   (* the first one, None is NULL *)
  gst_buffer_get_size : B -> Z;
  (** Copy of all the bytes to an address. *)
  gst_buffer_extract : B -> option Z -> Z -> M (world K) unit }.

(** ** The element *)

(** [struct _GstShmdataSink]; [refs] are the references of [GstAllocator.v],
    [posted] the errors posted on the bus. *)
Record GstShmdataSink (K : Type) := mkSink {
  sk_socket_path : option cstr;
  sk_caps : option cstr;
  extra_caps_properties : option cstr;
  sk_bytes_since_last_request : Z;
  sk_buffers_since_last_request : Z;
  shmwriter : option (CWriter K);
  access : option OneWriteAccess;
  sk_shmlogger : bool;
  sk_size : Z;
  sk_stop : bool;
  sk_unlock : bool;
  allocator : option nat;
  sk_params : params;
  refs : heap;
  posted : list cstr }.
Arguments mkSink {K}.
Arguments sk_socket_path {K}.
Arguments sk_caps {K}.
Arguments extra_caps_properties {K}.
Arguments sk_bytes_since_last_request {K}.
Arguments sk_buffers_since_last_request {K}.
Arguments shmwriter {K}.
Arguments access {K}.
Arguments sk_shmlogger {K}.
Arguments sk_size {K}.
Arguments sk_stop {K}.
Arguments sk_unlock {K}.
Arguments allocator {K}.
Arguments sk_params {K}.
Arguments refs {K}.
Arguments posted {K}.

#[export] Instance sink_settable (K : Type) : Settable (GstShmdataSink K) := fun s =>
  mkSink (sk_socket_path s) (sk_caps s) (extra_caps_properties s) (sk_bytes_since_last_request s)
    (sk_buffers_since_last_request s) (shmwriter s) (access s) (sk_shmlogger s) (sk_size s)
    (sk_stop s) (sk_unlock s) (allocator s) (sk_params s) (refs s) (posted s).

Definition DEFAULT_INITIAL_SIZE : Z := 1.

Section sink.
Context {K : Type} `{ErrnoOS K, SemOS K, ShmOS K, FileOS K, SockOS K, StdioOS K}.
Context {B : Type} `{!GstBuffers K B}.
Context {Caps : Type} (gst_caps_to_string : Caps -> option cstr)
  (gst_caps_from_string : cstr -> option Caps).
Context (gst_memory_alignment : Z) (addr : option Z -> Z).
Implicit Types (self : GstShmdataSink K).

Definition gst_shmdata_sink_init : GstShmdataSink K :=
  mkSink None None None 0 0 None None false DEFAULT_INITIAL_SIZE false false None default_params
    empty_heap [].

Definition post (text : cstr) self : GstShmdataSink K := self <| posted := posted self ++ [text] |>.

(** The greatest value of the property initial-size. *)
Definition initial_size_limit : M (world K) Z :=
  shmmax ← shmdata_get_shmmax false;
  mret (if (0 =? shmmax)%Z || (268435456 <? shmmax)%Z then 268435456%Z else shmmax).

(** [gst_shmdata_sink_set_property] *)
Definition sink_set_socket_path (value : option cstr) self := self <| sk_socket_path := value |>.
Definition sink_set_extra_caps (value : option cstr) self := self <| extra_caps_properties := value |>.
Definition sink_set_size (value : Z) self := self <| sk_size := value |>.

(** [gst_shmdata_sink_get_property] of the two counters. *)
Definition sink_get_bytes self : Z * GstShmdataSink K :=
  (sk_bytes_since_last_request self, self <| sk_bytes_since_last_request := 0%Z |>).
Definition sink_get_buffers self : Z * GstShmdataSink K :=
  (sk_buffers_since_last_request self, self <| sk_buffers_since_last_request := 0%Z |>).

Definition gst_shmdata_sink_start self : GstShmdataSink K := self <| sk_stop := false |>.

Definition gst_shmdata_sink_stop self : M (world K) (GstShmdataSink K) :=
  let self := self <| sk_stop := true |> in
  let self := match allocator self with
              | Some a => self <| refs := drop_handle a (refs self) |>
              | None => self
              end in
  let self := self <| allocator := None |> in
  shmdata_delete_writer (shmwriter self);;
  mret (self <| shmwriter := None |>).

Definition gst_shmdata_sink_unlock self : GstShmdataSink K := self <| sk_unlock := true |>.
Definition gst_shmdata_sink_unlock_stop self : GstShmdataSink K := self <| sk_unlock := false |>.

(** The allocator that [gst_shmdata_sink_propose_allocation] adds to a query. *)
Definition gst_shmdata_sink_propose_allocation self : option nat := allocator self.

(** [gst_shmdata_sink_allocator_alloc].  The address of a mapping is never
    NULL, so that the standard allocator is not used. *)
Definition gst_shmdata_sink_allocator_alloc (a : nat) (size : Z) (ps : params) self
  : M (world K) (GstShmdataSinkMemory * GstShmdataSink K) :=
  self ← (if (sk_size self <? size)%Z
          then
            '(resized, acc, wr) ← shmdata_shm_resize (shmwriter self) (access self) size;
            let self := self <| access := acc |> <| shmwriter := wr |> in
            let self := if (0 =? resized)%Z then post $"Cannot resize shared memory area" self
                        else self in
            mret (self <| sk_size := size |>)
          else mret self);
  data ← shmdata_get_mem (access self);
  let m := alloc_memory gst_memory_alignment a ps size (addr data) data in
  let padding := alloc_padding gst_memory_alignment ps size (addr data) in
  when (negb (p_prefix ps =? 0)%Z && p_zero_prefixed ps)
    (write_at data (m_aoffset m) (zeros (Z.to_nat (p_prefix ps))));;
  when (negb (padding =? 0)%Z && p_zero_padded ps)
    (write_at data (m_aoffset m + p_prefix ps + size)%Z (zeros (Z.to_nat padding)));;
  mret (m, self <| refs := add_memory m (refs self) |>).

(** Lines 592 to 604; a buffer without memory is undefined. *)
Definition need_new_memory (buf : B) self : M (world K) bool :=
  if (1 <? gst_buffer_n_memory buf)%nat then mret true
  else match gst_buffer_peek_memory buf with
       | None => undef
       | Some Foreign => mret true
       | Some (Own m) => mret (negb (bool_decide (Some (m_allocator m) = allocator self)))
       end.

(** Lines 592 to 637: the size to announce, and whether it is that of a new
    memory, the last of the heap; [None] when the buffer is too large. *)
Definition send_buffer (buf : B) self : M (world K) (option (Z * bool) * GstShmdataSink K) :=
  need ← need_new_memory buf self;
  if (need : bool)
  then
    shmmax ← shmdata_get_shmmax false;
    if (shmmax <? gst_buffer_get_size buf)%Z
    then
      _ ← shmdata_get_shmmax false;
      mret (None, post $"Shared memory area is too small" self)
    else
      match allocator self with
      | None => undef
      | Some a =>
          '(m, self) ← gst_shmdata_sink_allocator_alloc a (gst_buffer_get_size buf) (sk_params self) self;
          gst_buffer_extract buf (m_base m) (mapped_offset m);;
          mret (Some (m_size m, true), self)
      end
  else mret (Some (gst_buffer_get_size buf, false), self).

(** The last reference to the copy is dropped (line 655). *)
Definition free_copy self : GstShmdataSink K :=
  let last := pred (length (memories (refs self))) in
  self <| refs := default (refs self) (gst_shmdata_sink_allocator_free last (refs self)) |>.

(** Lines 642 to 645. *)
Definition announce_buffer (size : Z) self : M (world K) (GstShmdataSink K) :=
  '(_, acc, wr) ← shmdata_notify_clients (shmwriter self) (access self) size;
  shmdata_release_one_write_access acc;;
  mret (self <| access := acc |> <| shmwriter := wr |>
             <| sk_bytes_since_last_request := to_size_t (sk_bytes_since_last_request self + size) |>
             <| sk_buffers_since_last_request := to_size_t (sk_buffers_since_last_request self + 1) |>).

(** [gst_shmdata_sink_render] *)
Definition gst_shmdata_sink_render (buf : B) self : M (world K) (flow * GstShmdataSink K) :=
  '(sent, self) ← send_buffer buf self;
  match sent with
  | None => mret (GST_FLOW_ERROR, self)
  | Some (size, copied) =>
      self ← announce_buffer size self;
      acc ← shmdata_get_one_write_access (shmwriter self);
      let self := self <| access := acc |> in
      mret (GST_FLOW_OK, if copied : bool then free_copy self else self)
  end.

(** Lines 738 to 765. *)
Definition merge_caps (str_caps extra : option cstr) : option cstr :=
  match extra with
  | None => str_caps
  | Some e =>
      match str_caps with
      | None => Some e
      | Some s =>
          match gst_caps_from_string (s ++ $"," ++ e) with
          | Some merged => gst_caps_to_string merged
          | None => str_caps        (* and a warning on the bus *)
          end
      end
  end.

(** [gst_shmdata_sink_on_caps]; [pad] and [turns] are for the writer. *)
Definition gst_shmdata_sink_on_caps (pad : cstr) (turns : nat)
  (on_connected on_disconnected : option (Z -> Z -> M (world K) unit)) (user_data : Z)
  (caps : Caps) self : M (world K) (bool * GstShmdataSink K) :=
  match sk_socket_path self with
  | None => mret (false, post $"Could not make writer with no path." self)
  | Some path =>
      let self := self <| sk_caps := merge_caps (gst_caps_to_string caps) (extra_caps_properties self) |>
                       <| sk_shmlogger := true |> in
      shmdata_delete_writer (shmwriter self);;
      wr ← shmdata_make_writer pad path (sk_size self) (default $"unknown" (sk_caps self))
             on_connected on_disconnected user_data 384 turns;
      let self := self <| shmwriter := wr |> in
      match wr with
      | None => mret (false, post $"Could not make shmdata writer." self)
      | Some _ =>
          acc ← shmdata_get_one_write_access wr;
          let (a, h) := gst_shmdata_sink_allocator_new (refs self) in
          mret (true, self <| access := acc |> <| refs := h |> <| allocator := Some a |>)
      end
  end.
End sink.
