(* ===== verification/GstSinkTheorems.v ===== *)
(** * Theorems about the GStreamer sink element

    The blocks of the allocator, what [render] publishes, and what the
    element does with sizes, offsets and caps. *)

From S2P Require Import Prelude Logger StdLib Posix PosixModel SysVSem SysVShm KernelLimits.
From S2P Require Import SocketProtocol UnixSocketServer UnixSocketClient Reader ReaderTheorems.
From S2P Require Import Writer WriterTheorems Follower CInterface GstSrc GstAllocator GstSink.

(** ** Layout *)

Lemma lor_ones j k : (0 <= j)%Z -> (0 <= k)%Z -> Z.lor (Z.ones j) (Z.ones k) = Z.ones (Z.max j k).
Proof.
  intros Hj Hk. apply Z.bits_inj'. intros n Hn. rewrite Z.lor_spec, !Z.testbit_ones_nonneg by lia.
  destruct (Z.ltb_spec n j), (Z.ltb_spec n k), (Z.ltb_spec n (Z.max j k)); simpl; lia || done.
Qed.

(** The layout of a block, for masks of alignment, when the sum of what is
    asked for fits in a size.  The data are aligned; the offset stays below
    the alignment; prefix, data and padding make the block, with at least the
    padding asked for; it extends [size + prefix + padding + align] bytes from
    the address of the segment: more than the segment has after a resize to
    [size], unless nothing is asked for beside the data. *)
Theorem block_layout (j k : Z) ps size data :
  (0 <= j)%Z -> (0 <= k)%Z -> p_align ps = Z.ones j ->
  (0 <= p_prefix ps)%Z -> (0 <= p_padding ps)%Z -> (0 <= size)%Z ->
  (size + p_prefix ps + p_padding ps + Z.ones (Z.max j k) < 2 ^ 64)%Z ->
  let alignment := Z.ones k in
  let align := alloc_align alignment ps in
  let padding := alloc_padding alignment ps size data in
  let m := alloc_memory alignment 0 ps size data None in
  align = Z.ones (Z.max j k) /\
  Z.land (data + m_aoffset m) align = 0%Z /\ (0 <= m_aoffset m <= align)%Z /\
  (Z.land data align = 0%Z -> m_aoffset m = 0%Z) /\
  (m_offset m + m_size m + padding = m_maxsize m)%Z /\ (p_padding ps <= padding)%Z /\
  (m_aoffset m + m_maxsize m = size + p_prefix ps + p_padding ps + align)%Z.
Proof.
  intros Hj Hk Ha Hpr Hpa Hs. cbv zeta.
  unfold alloc_memory, alloc_padding, alloc_maxsize, alloc_aoffset, alloc_align.
  cbn [m_aoffset m_offset m_size m_maxsize]. rewrite Ha, lor_ones by done.
  set (l := Z.max j k). assert (Hl : (0 <= l)%Z) by lia. intros Hmax.
  rewrite !Z.land_ones by done. pose proof (Z.mod_pos_bound data (2 ^ l) ltac:(lia)) as Hb.
  assert (Ho : (Z.ones l + 1 = 2 ^ l)%Z) by (rewrite Z.ones_equiv; lia).
  split; [done|].
  set (aoffset := if (_ =? 0)%Z then 0%Z else _).
  assert (Hoff : (0 <= aoffset <= Z.ones l)%Z /\ ((data + aoffset) mod 2 ^ l = 0)%Z /\
    (data mod 2 ^ l = 0 -> aoffset = 0)%Z).
  { unfold aoffset. destruct (Z.eqb_spec (data mod 2 ^ l) 0) as [Hz|Hz].
    - rewrite Z.add_0_r. split_and!; try done; lia.
    - unfold to_size_t. rewrite Ho, (Z.mod_small _ (2 ^ 64)) by lia. split_and!; try lia.
      replace (data + (2 ^ l - data mod 2 ^ l))%Z with (2 ^ l * (data / 2 ^ l + 1))%Z.
      + by rewrite Z.mul_comm, Z.mod_mul by lia.
      + pose proof (Z.div_mod data (2 ^ l) ltac:(lia)). lia. }
  clearbody aoffset. destruct Hoff as (Hoff & Hal & Hz). unfold to_size_t.
  rewrite (Z.mod_small (size + _ + _ + _ - _)), (Z.mod_small (size + _ + _ + _ - _ - _)) by lia.
  split_and!; done || lia.
Qed.

(** ** Rendering *)

Section render.
Context {K : Type} `{FileOS K} `{ErrnoOS K} `{SemOS K} `{ShmOS K} `{SockOS K} `{StdioOS K}
  `{!SemLaws K} `{!ShmLaws K} `{!SockLaws K} `{!FileLaws K} `{!FrameLaws K}.
Context {B : Type} `{!GstBuffers K B} (gst_memory_alignment : Z) (addr : option Z -> Z).
Implicit Types (self : GstShmdataSink K) (k : K).
Abbreviation render := (gst_shmdata_sink_render gst_memory_alignment addr).
Abbreviation send := (send_buffer gst_memory_alignment addr).

(** The limit is read without touching semaphores, segments and sockets. *)
Definition reads_shmmax (shmmax : Z) : Prop :=
  forall w, exists w', shmdata_get_shmmax (K := K) false w = (Ret shmmax, w') /\
    sem_view (kern w') = sem_view (kern w) /\ shm_view (kern w') = shm_view (kern w) /\
    sock_view (kern w') = sock_view (kern w).

(** A buffer with the bytes [data], in memory of another allocator. *)
Definition foreign_buffer (buf : B) (data : cstr) : Prop :=
  gst_buffer_n_memory buf = 1 /\ gst_buffer_peek_memory buf = Some Foreign /\
  gst_buffer_get_size buf = Z.of_nat (length data) /\
  forall base off w, gst_buffer_extract buf base off w = write_at base off data w.

(** The element between two buffers: it holds the lock through its access. *)
Definition ready self (c : CWriter K) (sem : sysVSem) (shm : sysVShm) (srv : UnixSocketServer)
  (p : Z) (m : cstr) (k : K) : Prop :=
  shmwriter self = Some c /\ access self = Some (mkAccess (mkWriteLock sem true) (Some p) false) /\
  wr_sem_ (writer_ c) = Some sem /\ wr_shm_ (writer_ c) = Some shm /\ srv_ (writer_ c) = Some srv /\
  get_mem shm = Some p /\ NoDup (clients_ srv) /\
  (Z.of_nat (length (clients_ srv)) < SHRT_MAX)%Z /\
  sem_vals k (semid_ sem) = Some [1%Z; 1%Z] /\ seg_at k p = Some (shmid_ shm) /\
  seg_bytes k (shmid_ shm) = Some m.

Lemma write_at_start p data id m (w : world K) :
  seg_at (kern w) p = Some id -> seg_bytes (kern w) id = Some m -> length data <= length m ->
  exists w', write_at (Some p) 0 data w = (Ret tt, w') /\
    seg_bytes (kern w') id = Some (data ++ drop (length data) m) /\
    seg_at (kern w') = seg_at (kern w) /\ sem_view (kern w') = sem_view (kern w) /\
    sock_view (kern w') = sock_view (kern w).
Proof using All.
  intros Ha Hm Hl. unfold write_at.
  rewrite (load_law _ _ _ _ _ Ha Hm) by (simpl; lia). rewrite take_0. cbn [app].
  destruct (store_total p id m data w Ha Hm Hl) as (w' & E & Hb & (_ & Hat & _) & HS & HK).
  by exists w'.
Qed.

(** An allocation of the default parameters that fits. *)
Lemma alloc_fits a size self c sem shm srv p m (w : world K) :
  ready self c sem shm srv p m (kern w) -> (size <= sk_size self)%Z ->
  Z.land (addr (Some p)) gst_memory_alignment = 0%Z ->
  let mem := alloc_memory gst_memory_alignment a default_params size (addr (Some p)) (Some p) in
  gst_shmdata_sink_allocator_alloc gst_memory_alignment addr a size default_params self w =
    (Ret (mem, self <| refs := add_memory mem (refs self) |>), w) /\
  mapped_offset mem = 0%Z /\ m_size mem = size /\ m_base mem = Some p.
Proof using All.
  intros (_ & Hacc & _) Hs Hal. cbv zeta. split.
  - unfold gst_shmdata_sink_allocator_alloc. rewrite (proj2 (Z.ltb_ge _ _) Hs).
    rewrite (bind_ret _ _ _ self w eq_refl). rewrite (bind_ret _ _ _ (Some p) w) by (by rewrite Hacc).
    rewrite andb_false_r. done.
  - unfold mapped_offset, mem_map, alloc_memory, alloc_aoffset, alloc_align.
    cbn [m_base m_aoffset m_offset m_size snd p_align p_prefix default_params].
    by rewrite Z.lor_0_l, Hal.
Qed.

(** A memory that was just added is freed. *)
Lemma free_added m n self :
  m_sink m = true -> alloc_refs (refs self) !! m_allocator m = Some n -> (0 < n)%Z ->
  free_copy (self <| refs := add_memory m (refs self) |>) = self.
Proof using All.
  intros Hm E Hn. unfold free_copy, add_memory, gst_shmdata_sink_allocator_free. rewrite Hm.
  destruct self as [? ? ? ? ? ? ? ? ? ? ? ? ? [s r ms hs cr] ?]. cbn in *.
  unfold ref_allocator, set_member. cbn. rewrite E. cbn.
  rewrite length_app, Nat.add_comm. cbn. rewrite list_lookup_middle by done. cbn. rewrite Hm.
  unfold unref_allocator, set_member. cbn. rewrite lookup_insert_eq. cbn.
  rewrite (proj2 (Z.eqb_neq (n + 1) 1)) by lia. cbn.
  rewrite insert_insert_eq. replace (n + 1 - 1)%Z with n by lia. rewrite insert_id by done.
  rewrite delete_middle, app_nil_r. f_equal. f_equal. lia.
Qed.
(** The announcement, from a world that differs from [k0] by the data. *)
Lemma announce_spec size self c sem shm srv p m k0 (w : world K) :
  ready self c sem shm srv p m k0 -> sem_view (kern w) = sem_view k0 -> out (kern w) = out k0 ->
  exists srv' w', let c' := with_writer (with_srv (Some srv') (writer_ c)) c in
    let n := Z.of_nat (length (clients_notified_ srv')) in
    announce_buffer size self w =
      (Ret (self <| access := Some (mkAccess (mkWriteLock sem true) (Some p) true) |>
                 <| shmwriter := Some c' |>
                 <| sk_bytes_since_last_request := to_size_t (sk_bytes_since_last_request self + size) |>
                 <| sk_buffers_since_last_request := to_size_t (sk_buffers_since_last_request self + 1) |>),
       w') /\
    (n < SEMVMX)%Z /\ sem_vals (kern w') (semid_ sem) = Some [n; 0%Z] /\
    shm_view (kern w') = shm_view (kern w) /\
    clients_notified_ srv' ⊆ clients_ srv /\ clients_ srv' = clients_ srv /\
    forall d, out (kern w') d =
      if decide (d ∈ clients_notified_ srv')
      then out k0 d ++ update_bytes (mkUpdateMsg (um_msg_type_ (srv_update_msg_ srv))
                                       (um_pad (srv_update_msg_ srv)) size)
      else out k0 d.
Proof using All.
  intros (Hw & Hacc & Hsem & Hshm & Hsrv & Hp & Hnd & Hl & Hv & _) Hs Ho.
  destruct (notify_release_spec size c sem srv (Some p) (kern w) w Hsrv Hnd Hl)
    as (srv' & w1 & w2 & E1 & E2 & Hn & Hv2 & HU2 & Hsub & Hcl & Ho2).
  { split; [|done]. by injection Hs as ->. }
  exists srv', w2. split.
  - unfold announce_buffer. rewrite Hw, Hacc. rewrite (bind_ret _ _ _ _ _ E1). cbn beta iota.
    by rewrite (bind_ret _ _ _ _ _ E2).
  - split; [done|]. split; [done|]. split; [done|]. split; [done|]. split; [done|].
    intros d. by rewrite Ho2, Ho.
Qed.

(** The access taken again: the lock is held, the memory unchanged. *)
Lemma regain_spec c sem shm n (w : world K) :
  wr_sem_ (writer_ c) = Some sem -> wr_shm_ (writer_ c) = Some shm -> (0 <= n)%Z ->
  sem_vals (kern w) (semid_ sem) = Some [n; 0%Z] ->
  exists w', shmdata_get_one_write_access (Some c) w =
      (Ret (Some (mkAccess (mkWriteLock sem true) (get_mem shm) false)), w') /\
    sem_vals (kern w') (semid_ sem) = Some [1%Z; 1%Z] /\
    shm_view (kern w') = shm_view (kern w) /\ out (kern w') = out (kern w).
Proof using All.
  intros Hsem Hshm Hn Hv.
  destruct (ktotal_run _ _ _ w (kt_WriteLock_ctor sem n (kern w) Hn)) as (l & w1 & E1 & -> & Hv1 & HU & HK).
  { by split. }
  exists w1. split.
  - unfold shmdata_get_one_write_access, deref, get_one_write_access. rewrite Hsem, Hshm.
    unfold mbind at 1, M_bind at 1. by rewrite (bind_ret _ _ _ _ _ E1).
  - split; [exact Hv1|]. split; [done|]. by injection HK as _ -> _ _.
Qed.

(** A buffer of another allocator is copied in the segment. *)
Lemma send_foreign buf data self a shmmax c sem shm srv p m (W : world K) :
  reads_shmmax shmmax -> (Z.of_nat (length data) <= shmmax)%Z -> foreign_buffer buf data ->
  ready self c sem shm srv p m (kern W) -> allocator self = Some a ->
  sk_params self = default_params -> (Z.of_nat (length data) <= sk_size self)%Z ->
  length data <= length m -> Z.land (addr (Some p)) gst_memory_alignment = 0%Z ->
  exists mem w1, m_sink mem = true /\ m_allocator mem = a /\
    send buf self W =
      (Ret (Some (Z.of_nat (length data), true), self <| refs := add_memory mem (refs self) |>), w1) /\
    seg_bytes (kern w1) (shmid_ shm) = Some (data ++ drop (length data) m) /\
    seg_at (kern w1) = seg_at (kern W) /\ sem_view (kern w1) = sem_view (kern W) /\
    out (kern w1) = out (kern W).
Proof using All.
  intros Hmax Hle (Hn1 & Hpk & Hsz & Hex) Hr Ha Hps Hfit Hdm Hal.
  destruct (Hmax W) as (w0 & E0 & HS0 & HU0 & HK0).
  assert (Hr0 : ready self c sem shm srv p m (kern w0)).
  { unfold ready in *. injection HS0 as -> _ _. by injection HU0 as -> _ -> _. }
  destruct (alloc_fits a (Z.of_nat (length data)) self c sem shm srv p m w0 Hr0 Hfit Hal)
    as (E1 & Ho & Hms & Hmb).
  set (mem := alloc_memory _ a _ _ _ _) in *.
  pose proof Hr0 as (_ & _ & _ & _ & _ & _ & _ & _ & _ & Hat & Hm).
  destruct (write_at_start p data (shmid_ shm) m w0 Hat Hm Hdm) as (w1 & E2 & Hb & Hat1 & HS1 & HK1).
  exists mem, w1. split; [done|]. split; [done|]. split.
  - unfold send_buffer. rewrite (bind_ret _ _ _ true W) by (unfold need_new_memory; by rewrite Hn1, Hpk).
    cbv iota. rewrite (bind_ret _ _ _ _ _ E0), Hsz.
    rewrite (proj2 (Z.ltb_ge _ _) Hle), Ha, Hps, (bind_ret _ _ _ _ _ E1). cbv iota beta.
    rewrite Ho, Hmb, Hms. rewrite (bind_ret _ _ _ tt w1) by (by rewrite Hex). done.
  - split; [done|]. injection HK1 as _ Ho1 _ _. injection HK0 as _ Ho0 _ _. injection HU0 as _ _ Ha0 _.
    split; [by rewrite Hat1, Ha0|]. split; [by rewrite HS1, HS0|]. by rewrite Ho1, Ho0.
Qed.

(** C22: [render] of a buffer in foreign memory that fits: the segment starts
    with the bytes of the buffer when the element releases the lock, every
    client notified is sent one update with their number, and is owed a read;
    the element counts the buffer, holds the lock again, frees its copy and
    returns GST_FLOW_OK. *)
Theorem render_publishes buf data self a n shmmax c sem shm srv p m (W : world K) :
  reads_shmmax shmmax -> (Z.of_nat (length data) <= shmmax)%Z -> foreign_buffer buf data ->
  ready self c sem shm srv p m (kern W) -> allocator self = Some a ->
  alloc_refs (refs self) !! a = Some n -> (0 < n)%Z ->
  sk_params self = default_params -> (Z.of_nat (length data) <= sk_size self)%Z ->
  length data <= length m -> Z.land (addr (Some p)) gst_memory_alignment = 0%Z ->
  exists s1 w1 s2 W1 srv' self' W',
    send buf self W = (Ret (Some (Z.of_nat (length data), true), s1), w1) /\
    announce_buffer (Z.of_nat (length data)) s1 w1 = (Ret s2, W1) /\
    in_place data sem shm m srv srv' (kern W) (kern W1) /\
    render buf self W = (Ret (GST_FLOW_OK, self'), W') /\
    ready self' (with_writer (with_srv (Some srv') (writer_ c)) c) sem shm srv' p
      (data ++ drop (length data) m) (kern W') /\
    sk_bytes_since_last_request self' =
      to_size_t (sk_bytes_since_last_request self + Z.of_nat (length data)) /\
    sk_buffers_since_last_request self' = to_size_t (sk_buffers_since_last_request self + 1) /\
    refs self' = refs self /\ posted self' = posted self /\ sk_size self' = sk_size self.
Proof using All.
  intros Hmax Hle Hbuf Hr Ha Href Hn Hps Hfit Hdm Hal.
  destruct (send_foreign buf data self a shmmax c sem shm srv p m W Hmax Hle Hbuf Hr Ha Hps Hfit Hdm Hal)
    as (mem & w1 & Hsink & Hma & E1 & Hb1 & Hat1 & HS1 & Ho1).
  set (s1 := self <| refs := add_memory mem (refs self) |>) in *.
  assert (Hr1 : ready s1 c sem shm srv p m (kern W)) by exact Hr.
  destruct (announce_spec (Z.of_nat (length data)) s1 c sem shm srv p m (kern W) w1 Hr1 HS1 Ho1)
    as (srv' & W1 & E2 & Hns & Hv2 & HU2 & Hsub & Hcl & Ho2).
  pose proof Hr as (Hw & Hacc & Hsem & Hshm & Hsrv & Hp & Hnd & Hl & Hv & Hat & Hm).
  match type of E2 with _ = (Ret ?s, _) => set (s2 := s) in * end.
  set (c' := with_writer (with_srv (Some srv') (writer_ c)) c) in *.
  destruct (regain_spec c' sem shm _ W1 Hsem Hshm (Nat2Z.is_nonneg _) Hv2) as (W' & E3 & Hv3 & HU3 & Ho3).
  injection HU2 as Eb2 _ Ea2 _. injection HU3 as Eb3 _ Ea3 _.
  set (s3 := s2 <| access := Some (mkAccess (mkWriteLock sem true) (Some p) false) |>).
  exists s1, w1, s2, W1, srv', (free_copy s3), W'. split; [exact E1|]. split; [exact E2|].
  split.
  { split; [exact Hv2|]. split; [by rewrite Eb2|]. split; [by rewrite Ea2, Hat1|]. done. }
  split.
  { unfold gst_shmdata_sink_render. rewrite (bind_ret _ _ _ _ _ E1). cbv iota beta.
    rewrite (bind_ret _ _ _ _ _ E2). change (shmwriter s2) with (Some c').
    rewrite (bind_ret _ _ _ _ _ E3). by rewrite Hp. }
  assert (Hf : free_copy s3 = s3 <| refs := refs self |>).
  { transitivity (free_copy ((s3 <| refs := refs self |>)
      <| refs := add_memory mem (refs (s3 <| refs := refs self |>)) |>)); [done|].
    apply (free_added mem n); [done| |done]. by rewrite Hma. }
  rewrite Hf. split_and!; try done.
  - unfold ready. cbn. split_and!; try done; [by rewrite Hcl|by rewrite Hcl|by rewrite Ea3, Ea2, Hat1|].
    by rewrite Eb3, Eb2.
Qed.
(** [render] of a buffer larger than the limit of the kernel, which is 0
    when it cannot be read: GST_FLOW_ERROR and one error on the bus; nothing
    is announced, the lock stays held, and the element is as before. *)
Theorem render_too_large buf data self shmmax (W : world K) :
  reads_shmmax shmmax -> foreign_buffer buf data -> (shmmax < Z.of_nat (length data))%Z ->
  exists W', render buf self W =
      (Ret (GST_FLOW_ERROR, post $"Shared memory area is too small" self), W') /\
    sem_view (kern W') = sem_view (kern W) /\ shm_view (kern W') = shm_view (kern W) /\
    sock_view (kern W') = sock_view (kern W).
Proof using All.
  intros Hmax (Hn1 & Hpk & Hsz & _) Hlt.
  destruct (Hmax W) as (w0 & E0 & HS0 & HU0 & HK0). destruct (Hmax w0) as (w1 & E1 & HS1 & HU1 & HK1).
  exists w1. split; [|by rewrite HS1, HU1, HK1].
  unfold gst_shmdata_sink_render.
  rewrite (bind_ret _ _ _ (None, post $"Shared memory area is too small" self) w1); [done|].
  unfold send_buffer. rewrite (bind_ret _ _ _ true W) by (unfold need_new_memory; by rewrite Hn1, Hpk).
  cbv iota. rewrite (bind_ret _ _ _ _ _ E0), Hsz, (proj2 (Z.ltb_lt _ _) Hlt).
  by rewrite (bind_ret _ _ _ _ _ E1).
Qed.

(** [render] of a buffer whose memory is a block of the element itself,
    or a part of one: nothing is copied, and its size is announced; so that
    the readers are given the first bytes of the segment, whatever the offset
    of the memory is: they are the bytes of the buffer when the offset is 0. *)
Theorem render_in_segment buf mem self a c sem shm srv p m (W : world K) :
  gst_buffer_n_memory buf = 1 -> gst_buffer_peek_memory buf = Some (Own mem) ->
  gst_buffer_get_size buf = m_size mem -> allocator self = Some a -> m_allocator mem = a ->
  ready self c sem shm srv p m (kern W) -> m_base mem = Some p ->
  (0 <= mapped_offset mem)%Z -> (0 <= m_size mem)%Z ->
  (mapped_offset mem + m_size mem <= Z.of_nat (length m))%Z ->
  exists s2 W1 srv' self' W',
    let frame := take (Z.to_nat (m_size mem)) m in
    announce_buffer (m_size mem) self W = (Ret s2, W1) /\
    in_place frame sem shm m srv srv' (kern W) (kern W1) /\
    render buf self W = (Ret (GST_FLOW_OK, self'), W') /\
    read_at (m_base mem) (mapped_offset mem) (m_size mem) W =
      (Ret (take (Z.to_nat (m_size mem)) (drop (Z.to_nat (mapped_offset mem)) m)), W) /\
    (mapped_offset mem = 0%Z ->
     read_at (m_base mem) (mapped_offset mem) (m_size mem) W = (Ret frame, W)).
Proof using All.
  intros Hn1 Hpk Hsz Ha Hma Hr Hb Ho Hs Hfit.
  destruct (announce_spec (m_size mem) self c sem shm srv p m (kern W) W Hr eq_refl eq_refl)
    as (srv' & W1 & E2 & Hns & Hv2 & HU2 & Hsub & Hcl & Ho2).
  pose proof Hr as (Hw & Hacc & Hsem & Hshm & Hsrv & Hp & Hnd & Hl & Hv & Hat & Hm).
  match type of E2 with _ = (Ret ?s, _) => set (s2 := s) in * end.
  set (c' := with_writer (with_srv (Some srv') (writer_ c)) c) in *.
  destruct (regain_spec c' sem shm _ W1 Hsem Hshm (Nat2Z.is_nonneg _) Hv2) as (W' & E3 & _).
  exists s2, W1, srv'. do 2 eexists. split; [exact E2|]. injection HU2 as Eb2 _ Ea2 _.
  assert (Hrd : read_at (m_base mem) (mapped_offset mem) (m_size mem) W =
    (Ret (take (Z.to_nat (m_size mem)) (drop (Z.to_nat (mapped_offset mem)) m)), W)).
  { unfold read_at. rewrite Hb, (load_law _ _ _ _ _ Hat Hm) by lia.
    rewrite Z2Nat.inj_add, firstn_skipn_comm by lia. done. }
  split.
  { assert (Hlen : length (take (Z.to_nat (m_size mem)) m) = Z.to_nat (m_size mem))
      by (rewrite length_take; lia).
    split; [exact Hv2|]. split; [rewrite Eb2, Hlen, take_drop; exact Hm|]. split; [done|].
    split; [done|]. split; [done|]. rewrite Hlen, Z2Nat.id by lia. exact Ho2. }
  split.
  { unfold gst_shmdata_sink_render.
    rewrite (bind_ret _ _ _ (Some (m_size mem, false), self) W).
    - cbv iota beta. rewrite (bind_ret _ _ _ _ _ E2). change (shmwriter s2) with (Some c').
      rewrite (bind_ret _ _ _ _ _ E3). reflexivity.
    - unfold send_buffer. rewrite (bind_ret _ _ _ false W).
      + by rewrite Hsz.
      + unfold need_new_memory. rewrite Hn1, Hpk, Hma, Ha. by rewrite bool_decide_eq_true_2. }
  split; [exact Hrd|]. intros Hz. rewrite Hrd, Hz. done.
Qed.
End render.

(** ** Caps *)

Section caps.
Context {K : Type} `{ErrnoOS K, SemOS K, ShmOS K, FileOS K, SockOS K}.
Context {Caps : Type} (to_string : Caps -> option cstr) (from_string : cstr -> option Caps).

(** The results of [on_caps] and of [stop]. *)
Lemma on_caps_success pad turns con dis ud caps (self self' : GstShmdataSink K) W W' :
  gst_shmdata_sink_on_caps to_string from_string pad turns con dis ud caps self W =
    (Ret (true, self'), W') ->
  exists c acc, shmwriter self' = Some c /\ wr_is_valid_ (writer_ c) = true /\
    access self' = Some acc /\
    (Some (gst_shmdata_sink_allocator_new (refs self)).1 = allocator self') /\
    refs self' = (gst_shmdata_sink_allocator_new (refs self)).2.
Proof.
  unfold gst_shmdata_sink_on_caps. destruct (sk_socket_path self) as [path|]; [|done].
  intros ([] & W1 & _ & E)%bind_inv. apply bind_inv in E as (wr & W2 & Em & E).
  destruct wr as [c|]; [|done]. apply bind_inv in E as (acc & W3 & Ea & E).
  apply bind_inv in Ea as (acc' & W4 & _ & Ea). injection Ea as <- <-.
  injection E as <- <-. exists c, acc'. split; [done|].
  split; [by apply make_writer_valid in Em|]. done.
Qed.

Lemma stop_refs (self self' : GstShmdataSink K) W W' :
  gst_shmdata_sink_stop self W = (Ret self', W') ->
  refs self' = match allocator self with Some a => drop_handle a (refs self) | None => refs self end.
Proof.
  unfold gst_shmdata_sink_stop. intros ([] & W1 & _ & E)%bind_inv. injection E as <- <-.
  by destruct (allocator self).
Qed.

Lemma new_allocator h :
  balanced h ->
  (forall a, a ∈ handles h -> a ∈ handles (gst_shmdata_sink_allocator_new h).2 /\
                              (gst_shmdata_sink_allocator_new h).1 <> a) /\
  (gst_shmdata_sink_allocator_new h).1 ∈ handles (gst_shmdata_sink_allocator_new h).2.
Proof.
  intros Hb. pose proof (is_fresh (dom (alloc_refs h))) as Hf.
  unfold gst_shmdata_sink_allocator_new. set (b := fresh _) in *. cbn. split; [|set_solver].
  intros a Ha. split; [set_solver|]. intros <-. apply Hf, elem_of_dom. by apply balanced_handle.
Qed.

(** Each success of [on_caps] makes an allocator and forgets the previous
    one without dropping its reference: the element then has a writer and
    holds its access, and [stop] disposes of the new allocator only, so that
    the old one keeps the sink alive. *)
Theorem on_caps_forgets_allocator pad turns con dis ud caps (self self' : GstShmdataSink K) a W W' :
  gst_shmdata_sink_on_caps to_string from_string pad turns con dis ud caps self W =
    (Ret (true, self'), W') ->
  allocator self = Some a -> balanced (refs self) -> a ∈ handles (refs self) ->
  exists c acc b, shmwriter self' = Some c /\ wr_is_valid_ (writer_ c) = true /\
    access self' = Some acc /\ allocator self' = Some b /\ b <> a /\
    balanced (refs self') /\ a ∈ handles (refs self') /\ b ∈ handles (refs self') /\
    forall W1 self'' W2, gst_shmdata_sink_stop self' W1 = (Ret self'', W2) ->
      a ∈ handles (refs self'') /\ balanced (refs self'').
Proof.
  intros (c & acc & Hw & Hv & Hacc & Hal & Hrefs)%on_caps_success Ha Hb Hin.
  destruct (new_allocator _ Hb) as [Hold Hnew]. destruct (Hold a Hin) as [Hin' Hne].
  pose proof (balanced_new _ Hb) as Hb'. rewrite <- Hrefs in *.
  exists c, acc, (gst_shmdata_sink_allocator_new (refs self)).1. split_and!; try done.
  intros W1 self'' W2 ->%stop_refs. rewrite <- Hal. split; [rewrite drop_handles; set_solver|].
  by apply balanced_drop.
Qed.
End caps.

(** ** Concrete instances *)

(** The limit is the text [t] of a file, or there is no file. *)
Definition limit_files (t : option cstr) : StdioOS kernel := {|
  fopen _ k := (match t with Some _ => Some 0%Z | None => None end, k);
  fclose _ k := (0%Z, k);
  file_bytes _ _ := t;
  KernelLimits.stream _ _ := t |}.

(** A buffer of bytes, in foreign memory or in a block. *)
Record test_buffer := TestBuffer { tb_bytes : cstr; tb_memory : gst_memory }.
#[export] Instance test_buffers : GstBuffers kernel test_buffer := {
  gst_buffer_n_memory _ := 1;
  gst_buffer_peek_memory b := Some (tb_memory b);
  gst_buffer_get_size b := match tb_memory b with Own m => m_size m
                           | Foreign => Z.of_nat (length (tb_bytes b)) end;
  gst_buffer_extract b base off := write_at base off (tb_bytes b) }.

Definition page (base : option Z) : Z := match base with Some p => (4096 * p)%Z | None => (2 ^ 64 - 1)%Z end.

Definition test_access : OneWriteAccess := mkAccess (mkWriteLock writer_sem true) (Some 2%Z) false.
Definition test_sink : GstShmdataSink kernel :=
  mkSink (Some $"/s") None None 0 0 (Some example_cwriter) (Some test_access) true 6 false false
    (Some 0) default_params (gst_shmdata_sink_allocator_new empty_heap).2 [].

Lemma test_ready :
  ready test_sink example_cwriter writer_sem shared_shm shared_server 2 $"abcdef"
    (kern (shared_world 1 [1; 1]%Z)).
Proof. destruct shared_clients as [Hnd Hl]. unfold ready. split_and!; try done; by vm_compute. Qed.

Module Limited.
#[local] Instance files : StdioOS kernel := limit_files (Some $"18446744073692774399").

Lemma render_publishes_witness : exists self' W',
  gst_shmdata_sink_render 7 page (TestBuffer $"xyz" Foreign) test_sink (shared_world 1 [1; 1]%Z) =
    (Ret (GST_FLOW_OK, self'), W') /\
  seg_bytes (kern W') 1 = Some $"xyzdef" /\ sem_vals (kern W') 1 = Some [1; 1]%Z /\
  sk_bytes_since_last_request self' = 3%Z /\ sk_buffers_since_last_request self' = 1%Z.
Proof.
  destruct (render_publishes (K := kernel) 7 page (TestBuffer $"xyz" Foreign) $"xyz" test_sink 0 1
    18446744073692774399 example_cwriter writer_sem shared_shm shared_server 2 $"abcdef"
    (shared_world 1 [1; 1]%Z)) as (s1 & w1 & s2 & W1 & srv' & self' & W' & _ & _ & _ & E & Hr & Hb & Hn & _).
  - intros [k l]. exists (World k l). split; [|done]. by vm_compute.
  - simpl. lia.
  - done.
  - exact test_ready.
  - done.
  - by vm_compute.
  - lia.
  - done.
  - simpl. lia.
  - simpl. lia.
  - by vm_compute.
  - exists self', W'. split; [exact E|]. destruct Hr as (_ & _ & _ & _ & _ & _ & _ & _ & Hs & _ & Hm).
    split; [exact Hm|]. split; [exact Hs|]. split; [exact Hb|exact Hn].
Defined.

(** The second half of a block: the readers get the first half. *)
Definition half : GstShmdataSinkMemory :=
  mem_share (alloc_memory 7 0 default_params 6 (page (Some 2%Z)) (Some 2%Z)) 3 3.

Lemma render_in_segment_witness : exists s2 W1 self' W',
  announce_buffer 3 test_sink (shared_world 1 [1; 1]%Z) = (Ret s2, W1) /\
  gst_shmdata_sink_render 7 page (TestBuffer [] (Own half)) test_sink (shared_world 1 [1; 1]%Z) =
    (Ret (GST_FLOW_OK, self'), W') /\
  option_map (take 3) (seg_bytes (kern W1) 1) = Some $"abc" /\
  read_at (m_base half) (mapped_offset half) 3 (shared_world 1 [1; 1]%Z) =
    (Ret $"def", shared_world 1 [1; 1]%Z).
Proof.
  destruct (render_in_segment (K := kernel) 7 page (TestBuffer [] (Own half)) half test_sink 0
    example_cwriter writer_sem shared_shm shared_server 2 $"abcdef" (shared_world 1 [1; 1]%Z)
    ltac:(done) ltac:(done) ltac:(done) ltac:(done) ltac:(done) test_ready ltac:(done)
    ltac:(by vm_compute) ltac:(by vm_compute) ltac:(by vm_compute)) as (s2 & W1 & srv' & self' & W' & E & (_ & Hb & _) & Er & Hrd & _).
  exists s2, W1, self', W'. split; [exact E|]. split; [exact Er|]. split; [|exact Hrd].
  change (shmid_ shared_shm) with 1%Z in Hb. rewrite Hb. by vm_compute.
Defined.

(** Zeroed padding is written past the end of the segment. *)
Example padding_overruns :
  fst (gst_shmdata_sink_allocator_alloc 7 page 0 6 (mkParams 0 0 7 false true) test_sink
         (shared_world 1 [1; 1]%Z)) = Undef.
Proof. by vm_compute. Qed.
End Limited.

Module Unlimited.
#[local] Instance files : StdioOS kernel := limit_files None.

Lemma render_too_large_witness : exists self' W',
  gst_shmdata_sink_render 7 page (TestBuffer $"xyz" Foreign) test_sink (shared_world 1 [1; 1]%Z) =
    (Ret (GST_FLOW_ERROR, self'), W') /\ posted self' = [ $"Shared memory area is too small"].
Proof.
  destruct (render_too_large (K := kernel) 7 page (TestBuffer $"xyz" Foreign) $"xyz" test_sink 0
    (shared_world 1 [1; 1]%Z)) as (W' & E & _).
  - intros [k l]. exists (World k l). split; [|done]. by vm_compute.
  - done.
  - simpl. lia.
  - eexists _, W'. split; [exact E|]. by vm_compute.
Defined.
End Unlimited.

(** Caps set on an element that has an allocator already. *)
Lemma on_caps_forgets_allocator_witness : exists self' W' c,
  gst_shmdata_sink_on_caps Some Some (zeros 6) 1 None None 7 $"video/x-raw"
    (gst_shmdata_sink_init <| sk_socket_path := Some $"/t" |> <| allocator := Some 0 |>
       <| refs := (gst_shmdata_sink_allocator_new empty_heap).2 |>) (boot 1) = (Ret (true, self'), W') /\
  shmwriter self' = Some c /\ wr_is_valid_ (writer_ c) = true /\ 0 ∈ handles (refs self') /\
  allocator self' <> Some 0.
Proof.
  destruct (gst_shmdata_sink_on_caps Some Some (zeros 6) 1 None None 7 $"video/x-raw"
    (gst_shmdata_sink_init <| sk_socket_path := Some $"/t" |> <| allocator := Some 0 |>
       <| refs := (gst_shmdata_sink_allocator_new empty_heap).2 |>) (boot 1))
    as [[[[|] self']|e| |] W'] eqn:E; [|vm_compute in E; discriminate ..].
  destruct (on_caps_forgets_allocator Some Some _ _ _ _ _ _ _ self' 0 _ W' E eq_refl
    (balanced_new _ balanced_empty) ltac:(by apply (bool_decide_unpack _); vm_compute))
    as (c & acc & b & Hw & Hv & _ & Hb & Hne & _ & Hin & _).
  exists self', W', c. split; [reflexivity|]. split; [exact Hw|]. split; [exact Hv|].
  split; [exact Hin|]. rewrite Hb. congruence.
Defined.

Lemma block_layout_witness :
  let ps := mkParams 16 4 3 false false in
  let m := alloc_memory 7 0 ps 100 4098 None in
  m_aoffset m = 6%Z /\ (m_aoffset m + m_maxsize m = 127)%Z.
Proof.
  destruct (block_layout 2 3 (mkParams 16 4 3 false false) 100 4098 ltac:(lia) ltac:(lia) eq_refl
    ltac:(simpl; lia) ltac:(simpl; lia) ltac:(lia) ltac:(by vm_compute)) as (_ & _ & _ & _ & _ & _ & E).
  split; [reflexivity|exact E].
Defined.
