(* ===== verification/GstProps.v ===== *)
(** * The properties of the GStreamer elements (gstshmdatasink.c, gstshmdatasrc.c)

    The properties that the classes install, the whole [set_property] and
    [get_property] of both elements, the signals of the sink, and the strings
    that the elements allocate and free.  The other files have strings by
    value; here they are blocks of the heap, and the handlers with pointers
    refine those by value. *)

From S2P Require Import Prelude Logger StdLib Posix PosixModel SysVSem SysVShm KernelLimits.
From S2P Require Import SocketProtocol UnixSocketServer UnixSocketClient Reader Writer.
From S2P Require Import Follower CInterface GstSrc GstAllocator GstSink.

(** ** Values and their specifications *)

(** GValue, and GParamSpec with its range and its default. *)
Inductive gvalue :=
| VString (s : option cstr) | VUint64 (z : Z) | VUlong (z : Z) | VBoolean (b : bool).
Inductive param_type :=
| SpecString (default : option cstr) | SpecUint64 (minimum maximum default : Z)
| SpecUlong (minimum maximum default : Z) | SpecBoolean (default : bool).

Record param_spec (Id : Type) := ParamSpec {
  ps_id : Id; ps_name : cstr; ps_type : param_type; ps_readable : bool; ps_writable : bool }.
Arguments ParamSpec {Id}.
Arguments ps_id {Id}.
Arguments ps_name {Id}.
Arguments ps_type {Id}.
Arguments ps_readable {Id}.
Arguments ps_writable {Id}.

(** A value that an object with this property is given, or gives. *)
Definition accepts (t : param_type) (v : gvalue) : bool :=
  match t, v with
  | SpecString _, VString _ | SpecBoolean _, VBoolean _ => true
  | SpecUint64 a b _, VUint64 z | SpecUlong a b _, VUlong z => (a <=? z)%Z && (z <=? b)%Z
  | _, _ => false
  end.
Definition default_value (t : param_type) : gvalue :=
  match t with
  | SpecString d => VString d | SpecUint64 _ _ d => VUint64 d
  | SpecUlong _ _ d => VUlong d | SpecBoolean d => VBoolean d
  end.

Definition G_MAXUINT64 : Z := 2 ^ 64 - 1.

(** ** Strings of the heap *)

Section heap.
Context {A : Type}.
(** [g_malloc] gives a new block. *)
Context (g_malloc : gmap nat A -> nat).
Implicit Types (h : gmap nat A) (p : option nat) (s : option A).

(** [g_strdup], [g_value_dup_string] and the functions that return a new
    string; [g_free], undefined for what is not a block; the string at a
    pointer.  NULL is a pointer to no string. *)
Definition g_strdup s h : option nat * gmap nat A :=
  match s with Some bs => (Some (g_malloc h), <[g_malloc h := bs]> h) | None => (None, h) end.
Definition g_free p h : option (gmap nat A) :=
  match p with
  | None => Some h
  | Some b => match h !! b with Some _ => Some (delete b h) | None => None end
  end.
Definition g_string p h : option (option A) :=
  match p with None => Some None | Some b => Some <$> h !! b end.

(** The heap has exactly the strings of these pointers, a block for each. *)
Inductive holds : list (option nat * option A) -> gmap nat A -> Prop :=
| holds_nil : holds [] ∅
| holds_null l h : holds l h -> holds ((None, None) :: l) h
| holds_block b bs l h : h !! b = None -> holds l h -> holds ((Some b, Some bs) :: l) (<[b := bs]> h).

Lemma holds_permutation l l' h : l ≡ₚ l' -> holds l h -> holds l' h.
Proof.
  intros Hp. revert h. induction Hp as [|x l l' _ IH|x y l|l1 l2 l3 _ IH1 _ IH2]; intros h Hh; [done| | |auto].
  - inversion Hh; subst; constructor; auto.
  - inversion Hh as [|? ? Hh'|? ? ? ? Hb Hh']; subst; inversion Hh'; subst.
    + by do 2 constructor.
    + apply holds_block; [done|]. by constructor.
    + apply holds_null. by constructor.
    + rewrite lookup_insert_None in Hb. destruct Hb as [Hb Hne]. rewrite insert_insert_ne by done.
      apply holds_block; [by rewrite lookup_insert_ne|]. by constructor.
Qed.

Lemma holds_free p s l h : holds ((p, s) :: l) h -> exists h', g_free p h = Some h' /\ holds l h'.
Proof.
  intros Hh. inversion Hh as [|? ? Hl|b bs ? h' Hb Hl]; subst; [by exists h|].
  exists h'. cbn. rewrite lookup_insert_eq. by rewrite delete_insert_id.
Qed.

Lemma holds_string p s l h : holds l h -> (p, s) ∈ l -> g_string p h = Some s.
Proof.
  induction 1 as [|l h Hl IH|b bs l h Hb Hl IH]; [by intros []%not_elem_of_nil| |].
  - intros [[= -> ->]|Hin]%elem_of_cons; [done|auto].
  - intros [[= -> ->]|Hin]%elem_of_cons; [cbn; by rewrite lookup_insert_eq|].
    specialize (IH Hin). destruct p as [c|]; [|done]. cbn in *.
    rewrite lookup_insert_ne; [done|]. intros ->. by rewrite Hb in IH.
Qed.

Context (g_malloc_new : forall h, h !! g_malloc h = None).

Lemma holds_dup s l h : holds l h -> holds ((fst (g_strdup s h), s) :: l) (snd (g_strdup s h)).
Proof using All. intros Hl. destruct s; by constructor. Qed.
End heap.

(** ** The sink *)

Module Sink.
Inductive prop :=
| PROP_0 | PROP_SOCKET_PATH | PROP_CAPS | PROP_EXTRA_CAPS_PROPERTIES
| PROP_BYTES_SINCE_LAST_REQUEST | PROP_BUFFERS_SINCE_LAST_REQUEST | PROP_INITIAL_SHM_SIZE.
Inductive signal := SIGNAL_CLIENT_CONNECTED | SIGNAL_CLIENT_DISCONNECTED.

#[global] Instance prop_eq_dec : EqDecision prop.
Proof. solve_decision. Defined.

(** [gst_shmdata_sink_class_init] *)
Definition properties (shmmax : Z) : list (param_spec prop) := [
  ParamSpec PROP_SOCKET_PATH $"socket-path" (SpecString None) true true;
  ParamSpec PROP_CAPS $"caps" (SpecString None) true false;
  ParamSpec PROP_EXTRA_CAPS_PROPERTIES $"extra-caps-properties" (SpecString None) true true;
  ParamSpec PROP_BYTES_SINCE_LAST_REQUEST $"bytes" (SpecUint64 0 G_MAXUINT64 0) true false;
  ParamSpec PROP_BUFFERS_SINCE_LAST_REQUEST $"buffers" (SpecUint64 0 G_MAXUINT64 0) true false;
  ParamSpec PROP_INITIAL_SHM_SIZE $"initial-size" (SpecUlong 1 shmmax DEFAULT_INITIAL_SIZE) true true ].

Section class.
Context {K : Type} `{ErrnoOS K, StdioOS K}.
Definition class_init : M (world K) (list (param_spec prop)) :=
  shmmax ← initial_size_limit; mret (properties shmmax).

(** The callbacks of the writer; [g_signal_emit] is GObject's. *)
Definition gst_shmdata_sink_on_client_connected (g_signal_emit : signal -> Z -> M (world K) unit)
  (user_data id : Z) : M (world K) unit := g_signal_emit SIGNAL_CLIENT_CONNECTED id.
Definition gst_shmdata_sink_on_client_disconnected (g_signal_emit : signal -> Z -> M (world K) unit)
  (user_data id : Z) : M (world K) unit := g_signal_emit SIGNAL_CLIENT_DISCONNECTED id.

Implicit Types (self : GstShmdataSink K).

(** Strings by value; [None] for a value of another type, whose contents
    GObject does not give. *)
Definition set_property (prop_id : prop) (value : gvalue) self : option (GstShmdataSink K) :=
  match prop_id, value with
  | PROP_SOCKET_PATH, VString s => Some (sink_set_socket_path s self)
  | PROP_EXTRA_CAPS_PROPERTIES, VString s => Some (sink_set_extra_caps s self)
  | PROP_INITIAL_SHM_SIZE, VUlong z => Some (sink_set_size z self)
  | PROP_SOCKET_PATH, _ | PROP_EXTRA_CAPS_PROPERTIES, _ | PROP_INITIAL_SHM_SIZE, _ => None
  | _, _ => Some self
  end.

(** No value, and a warning, for a property that is not there. *)
Definition get_property (prop_id : prop) self : option gvalue * GstShmdataSink K :=
  match prop_id with
  | PROP_SOCKET_PATH => (Some (VString (sk_socket_path self)), self)
  | PROP_CAPS => (Some (VString (sk_caps self)), self)
  | PROP_EXTRA_CAPS_PROPERTIES => (Some (VString (extra_caps_properties self)), self)
  | PROP_BYTES_SINCE_LAST_REQUEST => let (z, self) := sink_get_bytes self in (Some (VUint64 z), self)
  | PROP_BUFFERS_SINCE_LAST_REQUEST => let (z, self) := sink_get_buffers self in (Some (VUint64 z), self)
  | PROP_INITIAL_SHM_SIZE => (Some (VUlong (sk_size self)), self)
  | PROP_0 => (None, self)
  end.
End class.

(** *** With pointers *)

(** The members that properties and caps change, and the strings of the
    process that belong to the element. *)
Record object := Object {
  socket_path : option nat;
  caps : option nat;
  extra_caps : option nat;
  size : Z;
  bytes : Z;
  buffers : Z;
  strings : gmap nat cstr }.

#[export] Instance object_settable : Settable object := fun o =>
  Object (socket_path o) (caps o) (extra_caps o) (size o) (bytes o) (buffers o) (strings o).

Section pointers.
Context (g_malloc : gmap nat cstr -> nat).
Implicit Types (o : object).

Definition init : object := Object None None None DEFAULT_INITIAL_SIZE 0 0 ∅.

(** The new string is duplicated after the old one is freed. *)
Definition replace_string (old : option nat) (value : option cstr) (h : gmap nat cstr)
  : option (option nat * gmap nat cstr) :=
  h ← g_free old h; Some (g_strdup g_malloc value h).

Definition gst_shmdata_sink_set_property (prop_id : prop) (value : gvalue) o : option object :=
  match prop_id, value with
  | PROP_SOCKET_PATH, VString s =>
      '(p, h) ← replace_string (socket_path o) s (strings o); Some (o <| socket_path := p |> <| strings := h |>)
  | PROP_EXTRA_CAPS_PROPERTIES, VString s =>
      '(p, h) ← replace_string (extra_caps o) s (strings o); Some (o <| extra_caps := p |> <| strings := h |>)
  | PROP_INITIAL_SHM_SIZE, VUlong z => Some (o <| size := z |>)
  | PROP_SOCKET_PATH, _ | PROP_EXTRA_CAPS_PROPERTIES, _ | PROP_INITIAL_SHM_SIZE, _ => None
  | _, _ => Some o
  end.

(** [None] outside is an access to a string that was freed. *)
Definition gst_shmdata_sink_get_property (prop_id : prop) o : option (option gvalue * object) :=
  match prop_id with
  | PROP_SOCKET_PATH => s ← g_string (socket_path o) (strings o); Some (Some (VString s), o)
  | PROP_CAPS => s ← g_string (caps o) (strings o); Some (Some (VString s), o)
  | PROP_EXTRA_CAPS_PROPERTIES => s ← g_string (extra_caps o) (strings o); Some (Some (VString s), o)
  | PROP_BYTES_SINCE_LAST_REQUEST => Some (Some (VUint64 (bytes o)), o <| bytes := 0%Z |>)
  | PROP_BUFFERS_SINCE_LAST_REQUEST => Some (Some (VUint64 (buffers o)), o <| buffers := 0%Z |>)
  | PROP_INITIAL_SHM_SIZE => Some (Some (VUlong (size o)), o)
  | PROP_0 => Some (None, o)
  end.

Context {Caps : Type} (gst_caps_to_string : Caps -> option cstr)
  (gst_caps_from_string : cstr -> option Caps).

(** [gst_shmdata_sink_on_caps], lines 742 to 765: the new string, from the
    caps that were printed and the extra properties. *)
Definition expose_caps (str_caps extra : option nat) (h : gmap nat cstr)
  : option (option nat * gmap nat cstr) :=
  match extra with
  | None => s ← g_string str_caps h; Some (g_strdup g_malloc s h)
  | Some _ =>
      e ← g_string extra h;
      s ← g_string str_caps h;
      match s with
      | None => Some (g_strdup g_malloc e h)
      | Some text =>
          let (merged, h) := g_strdup g_malloc (Some (text ++ $"," ++ default [] e)) h in
          m ← g_string merged h;
          let (p, h) := match gst_caps_from_string (default [] m) with
                        | Some c => g_strdup g_malloc (gst_caps_to_string c) h
                        | None => g_strdup g_malloc s h
                        end in
          h ← g_free merged h; Some (p, h)
      end
  end.

(** Lines 726 to 767: caps are refused while there is no path. *)
Definition on_caps (c : Caps) o : option (bool * object) :=
  match socket_path o with
  | None => Some (false, o)
  | Some _ =>
      h ← g_free (caps o) (strings o);
      let (str_caps, h) := g_strdup g_malloc (gst_caps_to_string c) h in
      '(p, h) ← expose_caps str_caps (extra_caps o) h;
      h ← g_free str_caps h;
      Some (true, o <| caps := p |> <| strings := h |>)
  end.

(** What is left of the strings. *)
Definition gst_shmdata_sink_finalize o : option (gmap nat cstr) :=
  h ← g_free (socket_path o) (strings o);
  h ← g_free (extra_caps o) h;
  g_free (caps o) h.
End pointers.
End Sink.

(** ** The source *)

Module Src.
Inductive prop :=
| PROP_0 | PROP_SOCKET_PATH | PROP_CAPS | PROP_BYTES_SINCE_LAST_REQUEST
| PROP_BUFFERS_SINCE_LAST_REQUEST | PROP_COPY_BUFFERS | PROP_CONNECTED.

#[global] Instance prop_eq_dec : EqDecision prop.
Proof. solve_decision. Defined.

(** [gst_shmdata_src_class_init] *)
Definition properties : list (param_spec prop) := [
  ParamSpec PROP_SOCKET_PATH $"socket-path" (SpecString None) true true;
  ParamSpec PROP_CAPS $"caps" (SpecString None) true false;
  ParamSpec PROP_BYTES_SINCE_LAST_REQUEST $"bytes" (SpecUint64 0 G_MAXUINT64 0) true false;
  ParamSpec PROP_BUFFERS_SINCE_LAST_REQUEST $"buffers" (SpecUint64 0 G_MAXUINT64 0) true false;
  ParamSpec PROP_COPY_BUFFERS $"copy-buffers" (SpecBoolean false) true true;
  ParamSpec PROP_CONNECTED $"connected" (SpecBoolean false) true false ].

Section class.
Context {Caps : Type} (gst_caps_to_string : Caps -> option cstr)
  (gst_caps_from_string : cstr -> option Caps).
Implicit Types (self : @GstShmdataSrc Caps).

(** Strings and caps by value.  The boolean is the warning of an invalid
    property; GObject does not ask for those that cannot be written. *)
Definition set_property (prop_id : prop) (value : gvalue) self : option (bool * GstShmdataSrc) :=
  match prop_id, value with
  | PROP_SOCKET_PATH, VString s => Some (false, set_socket_path s self)
  | PROP_COPY_BUFFERS, VBoolean b => Some (false, set_copy_buffers b self)
  | PROP_SOCKET_PATH, _ | PROP_COPY_BUFFERS, _ => None
  | _, _ => Some (true, self)
  end.

Definition get_property (prop_id : prop) self : option gvalue * GstShmdataSrc :=
  match prop_id with
  | PROP_SOCKET_PATH => (Some (VString (GstSrc.socket_path self)), self)
  | PROP_CAPS => (Some (VString (c ← GstSrc.caps self; gst_caps_to_string c)), self)
  | PROP_BYTES_SINCE_LAST_REQUEST => let (z, self) := get_bytes self in (Some (VUint64 z), self)
  | PROP_BUFFERS_SINCE_LAST_REQUEST => let (z, self) := get_buffers self in (Some (VUint64 z), self)
  | PROP_COPY_BUFFERS => (Some (VBoolean (GstSrc.copy_buffers self)), self)
  | PROP_CONNECTED => (Some (VBoolean (GstSrc.connected self)), self)
  | PROP_0 => (None, self)
  end.
End class.

(** *** With pointers *)

(** The members that properties and connections change, the strings of the
    process that belong to the element, and its references on caps. *)
Record object (Caps : Type) := Object {
  socket_path : option nat;
  caps : option nat;
  shmfollower : bool;
  has_new_caps : bool;
  connected : bool;
  copy_buffers : bool;
  bytes : Z;
  buffers : Z;
  strings : gmap nat cstr;
  caps_refs : gmap nat Caps }.
Arguments Object {Caps}.
Arguments socket_path {Caps}.
Arguments caps {Caps}.
Arguments shmfollower {Caps}.
Arguments has_new_caps {Caps}.
Arguments connected {Caps}.
Arguments copy_buffers {Caps}.
Arguments bytes {Caps}.
Arguments buffers {Caps}.
Arguments strings {Caps}.
Arguments caps_refs {Caps}.

#[export] Instance object_settable (Caps : Type) : Settable (object Caps) := fun o =>
  Object (socket_path o) (caps o) (shmfollower o) (has_new_caps o) (connected o) (copy_buffers o)
    (bytes o) (buffers o) (strings o) (caps_refs o).

Section pointers.
Context {Caps : Type} (gst_caps_to_string : Caps -> option cstr)
  (gst_caps_from_string : cstr -> option Caps).
Context (g_malloc : gmap nat cstr -> nat) (new_caps : gmap nat Caps -> nat).
Implicit Types (o : object Caps).

Definition init : object Caps := Object None None false false false false 0 0 ∅ ∅.

Definition gst_shmdata_src_set_property (prop_id : prop) (value : gvalue) o : option (bool * object Caps) :=
  match prop_id, value with
  | PROP_SOCKET_PATH, VString s =>
      if shmfollower o then Some (false, o)        (* and a warning: the element is playing *)
      else
        h ← g_free (socket_path o) (strings o);
        let (p, h) := g_strdup g_malloc s h in
        Some (false, o <| socket_path := p |> <| strings := h |>)
  | PROP_COPY_BUFFERS, VBoolean b => Some (false, o <| copy_buffers := b |>)
  | PROP_SOCKET_PATH, _ | PROP_COPY_BUFFERS, _ => None
  | _, _ => Some (true, o)
  end.

(** The text of the caps is freed once it is copied in the value. *)
Definition gst_shmdata_src_get_property (prop_id : prop) o : option (option gvalue * object Caps) :=
  match prop_id with
  | PROP_SOCKET_PATH => s ← g_string (socket_path o) (strings o); Some (Some (VString s), o)
  | PROP_CAPS =>
      c ← g_string (caps o) (caps_refs o);
      match c with
      | Some c =>
          let (caps_str, h) := g_strdup g_malloc (gst_caps_to_string c) (strings o) in
          s ← g_string caps_str h;
          h ← g_free caps_str h;
          Some (Some (VString s), o <| strings := h |>)
      | None => Some (Some (VString None), o)
      end
  | PROP_BYTES_SINCE_LAST_REQUEST => Some (Some (VUint64 (bytes o)), o <| bytes := 0%Z |>)
  | PROP_BUFFERS_SINCE_LAST_REQUEST => Some (Some (VUint64 (buffers o)), o <| buffers := 0%Z |>)
  | PROP_COPY_BUFFERS => Some (Some (VBoolean (copy_buffers o)), o)
  | PROP_CONNECTED => Some (Some (VBoolean (connected o)), o)
  | PROP_0 => Some (None, o)
  end.

(** [gst_caps_unref] gives a reference of the element back. *)
Definition on_server_connect (type_descr : cstr) o : option (object Caps) :=
  refs ← g_free (caps o) (caps_refs o);
  let (c, refs) := g_strdup new_caps (gst_caps_from_string type_descr) refs in
  let o := o <| caps := c |> <| caps_refs := refs |> in
  let o := if c is Some _ then o <| has_new_caps := true |> else o in
  Some (o <| connected := true |>).
Definition on_server_disconnect o : object Caps := o <| connected := false |>.

(** Whether there is a follower, after the element is started and stopped. *)
Definition start_reading o : object Caps :=
  match socket_path o with None => o | Some _ => o <| shmfollower := true |> end.
Definition stop_reading o : object Caps := o <| shmfollower := false |>.

(** The references on caps and the strings that are left. *)
Definition gst_shmdata_src_finalize o : option (gmap nat Caps * gmap nat cstr) :=
  refs ← g_free (caps o) (caps_refs o); Some (refs, strings o).
End pointers.
End Src.

(** ** The properties are served *)

(** The cases of a property: what it gives, what it takes, its default. *)
Ltac each_property Hin :=
  apply list_elem_of_In in Hin; cbn in Hin;
  repeat match type of Hin with _ \/ _ => destruct Hin as [<-|Hin] | False => destruct Hin end;
  cbn [ps_id ps_type ps_writable accepts default_value];
  (split; [|split; [|split]]);
  match goal with
  | |- exists v self', _ => eexists _, _; split; [reflexivity|]
  | |- forall v, _ =>
      let v := fresh "v" in let Hv := fresh "Hv" in
      intros v Hv; destruct v; try discriminate Hv; try (apply andb_true_iff in Hv as [? ?]); eexists;
      split; [reflexivity|]
  | _ => try reflexivity
  end;
  unfold DEFAULT_INITIAL_SIZE, G_MAXUINT64 in *; cbn; try split_and!; try done; try lia; try (apply andb_true_intro; lia); try (by apply Z.leb_le);
  try (intros [] ?; (reflexivity || congruence)).

Section served_src.
Context {Caps : Type} (gst_caps_to_string : Caps -> option cstr).
Implicit Types (self : @GstShmdataSrc Caps).

Definition src_in_range self : Prop :=
  (0 <= bytes_since_last_request self <= G_MAXUINT64)%Z /\
  (0 <= buffers_since_last_request self <= G_MAXUINT64)%Z.

(** The properties of the source.  As for the sink, but that its path
    cannot be changed while it has a follower: the new one is then ignored;
    and that a property which can only be read gives a warning when set. *)
Theorem src_properties_served self spec :
  src_in_range self -> spec ∈ Src.properties ->
  (exists v self', Src.get_property gst_caps_to_string (ps_id spec) self = (Some v, self') /\
     accepts (ps_type spec) v = true /\ src_in_range self') /\
  (forall v, accepts (ps_type spec) v = true -> exists self',
     Src.set_property (ps_id spec) v self = Some (negb (ps_writable spec), self') /\ src_in_range self' /\
     (if ps_writable spec && negb (bool_decide (ps_id spec = Src.PROP_SOCKET_PATH) && shmfollower self)
      then fst (Src.get_property gst_caps_to_string (ps_id spec) self') = Some v
      else self' = self) /\
     forall id, id <> ps_id spec -> fst (Src.get_property gst_caps_to_string id self') =
       fst (Src.get_property gst_caps_to_string id self)) /\
  accepts (ps_type spec) (default_value (ps_type spec)) = true /\
  fst (Src.get_property gst_caps_to_string (ps_id spec) gst_shmdata_src_init) =
    Some (default_value (ps_type spec)).
Proof.
  intros (Hb & Hn) Hin. unfold src_in_range, G_MAXUINT64 in *. each_property Hin.
  all: unfold set_socket_path; destruct (shmfollower self); rewrite ?bool_decide_eq_true_2 by done; cbn;
    try done; try lia; intros [] ?; done.
Qed.
End served_src.

(** ** Who owns the strings *)

(** A sequence of calls, with what each returns. *)
Fixpoint calls {C S : Type} (call : C -> S -> option (option gvalue * S)) (cs : list C) (s : S)
  : option (list (option gvalue) * S) :=
  match cs with
  | [] => Some ([], s)
  | c :: cs' => '(r, s) ← call c s; '(rs, s) ← calls call cs' s; Some (r :: rs, s)
  end.

Lemma calls_refine {C S T : Type} (call : C -> S -> option (option gvalue * S))
  (call' : C -> T -> option (option gvalue * T)) (R : T -> S -> Prop) :
  (forall c o s r s', R o s -> call c s = Some (r, s') -> exists o', call' c o = Some (r, o') /\ R o' s') ->
  forall cs o s rs s', R o s -> calls call cs s = Some (rs, s') ->
  exists o', calls call' cs o = Some (rs, o') /\ R o' s'.
Proof.
  intros Hc. induction cs as [|c cs IH]; intros o s rs s' HR E; cbn [calls] in *.
  - injection E as <- <-. by exists o.
  - destruct (call c s) as [[r s1]|] eqn:E1; [|done]. cbn [mbind option_bind] in E.
    destruct (calls call cs s1) as [[rs1 s2]|] eqn:E2; [|done]. cbn [mbind option_bind] in E.
    injection E as <- <-. destruct (Hc c o s r s1 HR E1) as (o1 & E1' & HR1).
    destruct (IH o1 s1 rs1 s2 HR1 E2) as (o' & E2' & HR'). exists o'. by rewrite E1'; cbn [mbind option_bind]; rewrite E2'.
Qed.

Section owned.
Context (g_malloc : gmap nat cstr -> nat) (g_malloc_new : forall h, h !! g_malloc h = None).
Context {Caps : Type} (gst_caps_to_string : Caps -> option cstr)
  (gst_caps_from_string : cstr -> option Caps).

Lemma holds_replace p old s l h : holds ((p, old) :: l) h ->
  exists p' h', Sink.replace_string g_malloc p s h = Some (p', h') /\ holds ((p', s) :: l) h'.
Proof using All.
  intros (h1 & E & Hl)%holds_free. unfold Sink.replace_string. rewrite E. cbn [mbind option_bind].
  pose proof (holds_dup g_malloc g_malloc_new s l h1 Hl) as Hd.
  destruct (g_strdup g_malloc s h1) as [p' h']. eauto.
Qed.

Lemma holds_null_iff {A} p (s : option A) l h : holds l h -> (p, s) ∈ l -> p = None <-> s = None.
Proof.
  induction 1 as [|l h Hl IH|b bs l h Hb Hl IH]; [by intros []%not_elem_of_nil| |];
    intros [[= -> ->]|Hin]%elem_of_cons; auto; done.
Qed.

(** The text that the element keeps is that of [merge_caps], and the strings
    made on the way are freed. *)
Lemma expose_caps_spec sc s ex e l h : holds ((sc, s) :: l) h -> (ex, e) ∈ l ->
  exists p h', Sink.expose_caps g_malloc gst_caps_to_string gst_caps_from_string sc ex h = Some (p, h') /\
    holds ((p, merge_caps gst_caps_to_string gst_caps_from_string s e) :: (sc, s) :: l) h'.
Proof using All.
  intros Hh Hin. pose proof (holds_null_iff ex e _ h Hh ltac:(by right)) as Hnull.
  assert (Hs : g_string sc h = Some s) by (eapply holds_string; [done|left]).
  assert (He : g_string ex h = Some e) by (eapply holds_string; [done|by right]).
  assert (Hdup : forall s' l' h', holds l' h' ->
    exists p h'', g_strdup g_malloc s' h' = (p, h'') /\ holds ((p, s') :: l') h'').
  { intros s' l' h' Hl'. pose proof (holds_dup g_malloc g_malloc_new s' l' h' Hl') as Hd.
    destruct (g_strdup g_malloc s' h'). eauto. }
  unfold Sink.expose_caps, merge_caps. destruct ex as [b|], e as [etext|];
    [|by specialize (proj2 Hnull eq_refl)|by specialize (proj1 Hnull eq_refl)|].
  - rewrite Hs, He. cbn [mbind option_bind]. destruct s as [text|].
    2: { destruct (Hdup (Some etext) _ _ Hh) as (p & h' & -> & Hh'). eauto. }
    change (default [] (Some etext)) with etext. destruct (Hdup (Some (text ++ $"," ++ etext)) _ _ Hh) as (m & h1 & -> & Hh1).
    rewrite (holds_string m (Some (text ++ $"," ++ etext)) _ _ Hh1) by left.
    cbn [mbind option_bind]. change (default [] (Some ?x)) with x.
    set (exposed := match gst_caps_from_string (text ++ $"," ++ etext) with
                    | Some merged => gst_caps_to_string merged | None => Some text end).
    assert (Hd : exists p h2, match gst_caps_from_string (text ++ $"," ++ etext) with
        | Some c => g_strdup g_malloc (gst_caps_to_string c) h1
        | None => g_strdup g_malloc (Some text) h1 end = (p, h2) /\
      holds ((p, exposed) :: (m, Some (text ++ $"," ++ etext)) :: (sc, Some text) :: l) h2).
    { unfold exposed. destruct (gst_caps_from_string _) as [c|]; by apply Hdup. }
    destruct Hd as (p & h2 & -> & Hh2). eapply holds_permutation in Hh2; [|apply perm_swap].
    apply holds_free in Hh2 as (h3 & -> & Hh3). cbn [mbind option_bind]. eauto.
  - rewrite Hs. cbn [mbind option_bind]. destruct (Hdup s _ _ Hh) as (p & h' & -> & Hh'). eauto.
Qed.

(** *** The sink *)

Context {K : Type}.
Implicit Types (self : GstShmdataSink K) (o : Sink.object).

Inductive sink_call := SinkSet (p : Sink.prop) (v : gvalue) | SinkGet (p : Sink.prop) | SinkCaps (c : Caps).

Definition sink_values (c : sink_call) self : option (option gvalue * GstShmdataSink K) :=
  match c with
  | SinkSet p v => pair None <$> Sink.set_property p v self
  | SinkGet p => Some (Sink.get_property p self)
  | SinkCaps c =>
      Some (None, match sk_socket_path self with
                  | None => self
                  | Some _ => self <| sk_caps := merge_caps gst_caps_to_string gst_caps_from_string
                      (gst_caps_to_string c) (extra_caps_properties self) |>
                  end)
  end.
Definition sink_pointers (c : sink_call) o : option (option gvalue * Sink.object) :=
  match c with
  | SinkSet p v => pair None <$> Sink.gst_shmdata_sink_set_property g_malloc p v o
  | SinkGet p => Sink.gst_shmdata_sink_get_property p o
  | SinkCaps c => '(_, o) ← Sink.on_caps g_malloc gst_caps_to_string gst_caps_from_string c o; Some (None, o)
  end.

(** The object shows the values; its strings are all those of the heap. *)
Definition sink_shows o self : Prop :=
  holds [(Sink.socket_path o, sk_socket_path self); (Sink.caps o, sk_caps self);
         (Sink.extra_caps o, extra_caps_properties self)] (Sink.strings o) /\
  Sink.size o = sk_size self /\ Sink.bytes o = sk_bytes_since_last_request self /\
  Sink.buffers o = sk_buffers_since_last_request self.

Lemma sink_call_refines c o self r self' : sink_shows o self -> sink_values c self = Some (r, self') ->
  exists o', sink_pointers c o = Some (r, o') /\ sink_shows o' self'.
Proof using All.
  intros (Hh & Hsz & Hby & Hbu) E. destruct c as [p v|p|c]; cbn [sink_values sink_pointers] in *.
  - destruct p, v; cbn in E; try discriminate E; injection E as <- <-; cbn; try (by exists o);
      [| |by eexists].
    + destruct (holds_replace _ _ s _ _ Hh) as (p & h & -> & Hh'). by eexists.
    + apply (holds_permutation _ [_; _; _] _ ltac:(apply Permutation_sym, (Permutation_cons_append [_; _]))) in Hh.
      destruct (holds_replace _ _ s _ _ Hh) as (p & h & -> & Hh'). eexists. split; [done|].
      split; [|done]. by apply (holds_permutation _ [_; _; _] _ (Permutation_cons_append [_; _] _)) in Hh'.
  - destruct p; cbn in E; injection E as <- <-; cbn; try (by exists o); try (by rewrite Hsz; exists o).
    + rewrite (holds_string _ _ _ _ Hh) by left. by exists o.
    + rewrite (holds_string _ _ _ _ Hh) by (right; left). by exists o.
    + rewrite (holds_string _ _ _ _ Hh) by (right; right; left). by exists o.
    + rewrite Hby. by eexists.
    + rewrite Hbu. by eexists.
  - injection E as <- <-. unfold Sink.on_caps.
    pose proof (holds_null_iff _ _ _ _ Hh ltac:(left)) as Hnull.
    destruct (Sink.socket_path o) as [b|] eqn:Epo, (sk_socket_path self) as [path|] eqn:Eps;
      [|by specialize (proj2 Hnull eq_refl)|by specialize (proj1 Hnull eq_refl)|];
      [|exists o; split; [done|]; split; [by rewrite Epo, Eps|done]].
    apply (holds_permutation _ _ _ (perm_swap _ _ _)) in Hh.
    destruct (holds_free _ _ _ _ Hh) as (h1 & -> & Hh1). cbn [mbind option_bind].
    pose proof (holds_dup g_malloc g_malloc_new (gst_caps_to_string c) _ _ Hh1) as Hh2.
    destruct (g_strdup g_malloc (gst_caps_to_string c) h1) as [sc h2]. cbn [fst snd] in Hh2.
    destruct (expose_caps_spec _ _ (Sink.extra_caps o) (extra_caps_properties self) _ _ Hh2) as (p & h3 & -> & Hh3);
      [by right; left|].
    cbn [mbind option_bind]. apply (holds_permutation _ _ _ (perm_swap _ _ _)) in Hh3.
    destruct (holds_free _ _ _ _ Hh3) as (h4 & -> & Hh4). cbn.
    apply (holds_permutation _ _ _ (perm_swap _ _ _)) in Hh4. eexists. split; [done|].
    split; [|done]. cbn. by rewrite Epo, Eps.
Qed.

(** C31: the sink with strings in the heap does what the sink with strings by
    value does, whatever the sequence of properties set and read and of caps
    received: no string is read or freed after it was freed, every string that
    the element made and did not free is one of its three members, and none is
    left when it is finalized. *)
Theorem sink_strings_owned cs rs self' :
  calls sink_values cs gst_shmdata_sink_init = Some (rs, self') ->
  exists o', calls sink_pointers cs Sink.init = Some (rs, o') /\ sink_shows o' self' /\
    Sink.gst_shmdata_sink_finalize o' = Some ∅.
Proof using All.
  intros E.
  assert (H0 : sink_shows Sink.init gst_shmdata_sink_init) by (split; [repeat constructor|done]).
  destruct (calls_refine _ _ sink_shows sink_call_refines cs _ _ _ _ H0 E) as (o' & E' & Hh & Hr).
  exists o'. split; [done|]. split; [by split|]. unfold Sink.gst_shmdata_sink_finalize.
  destruct (holds_free _ _ _ _ Hh) as (h1 & -> & Hh1). cbn [mbind option_bind].
  apply (holds_permutation _ _ _ (perm_swap _ _ _)) in Hh1.
  destruct (holds_free _ _ _ _ Hh1) as (h2 & -> & Hh2). cbn [mbind option_bind].
  destruct (holds_free _ _ _ _ Hh2) as (h3 & -> & Hh3). by inversion Hh3.
Qed.
End owned.

(** *** The source *)

Section owned_src.
Context (g_malloc : gmap nat cstr -> nat) (g_malloc_new : forall h, h !! g_malloc h = None).
Context {Caps : Type} (gst_caps_to_string : Caps -> option cstr)
  (gst_caps_from_string : cstr -> option Caps).
Context (new_caps : gmap nat Caps -> nat) (new_caps_new : forall h, h !! new_caps h = None).

Inductive src_call :=
| SrcSet (p : Src.prop) (v : gvalue) | SrcGet (p : Src.prop) | SrcConnect (type_descr : cstr)
| SrcDisconnect | SrcStart | SrcStop.

Definition src_values (c : src_call) (self : @GstShmdataSrc Caps)
  : option (option gvalue * @GstShmdataSrc Caps) :=
  match c with
  | SrcSet p v => '(_, self) ← Src.set_property p v self; Some (None, self)
  | SrcGet p => Some (Src.get_property gst_caps_to_string p self)
  | SrcConnect d => Some (None, gst_shmdata_src_on_server_connect gst_caps_from_string d self)
  | SrcDisconnect => Some (None, gst_shmdata_src_on_server_disconnect self)
  | SrcStart => Some (None, snd (gst_shmdata_src_start_reading self))
  | SrcStop => Some (None, gst_shmdata_src_stop_reading self)
  end.
Definition src_pointers (c : src_call) (o : Src.object Caps) : option (option gvalue * Src.object Caps) :=
  match c with
  | SrcSet p v => '(_, o) ← Src.gst_shmdata_src_set_property g_malloc p v o; Some (None, o)
  | SrcGet p => Src.gst_shmdata_src_get_property gst_caps_to_string g_malloc p o
  | SrcConnect d => pair None <$> Src.on_server_connect gst_caps_from_string new_caps d o
  | SrcDisconnect => Some (None, Src.on_server_disconnect o)
  | SrcStart => Some (None, Src.start_reading o)
  | SrcStop => Some (None, Src.stop_reading o)
  end.

Definition src_shows (o : Src.object Caps) (self : @GstShmdataSrc Caps) : Prop :=
  holds [(Src.socket_path o, socket_path self)] (Src.strings o) /\
  holds [(Src.caps o, caps self)] (Src.caps_refs o) /\
  Src.shmfollower o = shmfollower self /\ Src.has_new_caps o = has_new_caps self /\
  Src.connected o = connected self /\ Src.copy_buffers o = copy_buffers self /\
  Src.bytes o = bytes_since_last_request self /\ Src.buffers o = buffers_since_last_request self.

Lemma src_get_refines p o self : src_shows o self ->
  exists o', Src.gst_shmdata_src_get_property gst_caps_to_string g_malloc p o =
      Some (fst (Src.get_property gst_caps_to_string p self), o') /\
    src_shows o' (snd (Src.get_property gst_caps_to_string p self)).
Proof using All.
  intros (Hh & Hc & Hf & Hn & Hco & Hcp & Hby & Hbu). pose proof (conj Hh Hc) as Hhc.
  destruct p; cbn; rewrite ?Hco, ?Hcp, ?Hby, ?Hbu; try (eexists; split; [reflexivity|by split_and!]).
  - rewrite (holds_string _ _ _ _ Hh) by left. eexists. by split_and!.
  - rewrite (holds_string _ _ _ _ Hc) by left. cbn [mbind option_bind].
    destruct (caps self) as [c|] eqn:Ec; [|eexists; split; [reflexivity|by split_and!; rewrite ?Ec]].
    pose proof (holds_dup g_malloc g_malloc_new (gst_caps_to_string c) _ _ Hh) as Hh2.
    destruct (g_strdup g_malloc (gst_caps_to_string c) (Src.strings o)) as [sc h2]. cbn [fst snd] in Hh2.
    rewrite (holds_string sc _ _ _ Hh2) by left. cbn [mbind option_bind].
    destruct (holds_free _ _ _ _ Hh2) as (h3 & -> & Hh3). cbn [mbind option_bind].
    eexists. split; [reflexivity|]. by split_and!; rewrite ?Ec.
Qed.

Lemma src_call_refines c o self r self' : src_shows o self -> src_values c self = Some (r, self') ->
  exists o', src_pointers c o = Some (r, o') /\ src_shows o' self'.
Proof using All.
  intros Hs E. pose proof Hs as (Hh & Hc & Hf & Hn & Hco & Hcp & Hby & Hbu).
  destruct c as [p v|p|d| | |]; cbn [src_values src_pointers] in *.
  - destruct p, v; cbn in E; try discriminate E; injection E as <- <-; cbn; try (by exists o);
      [|by eexists].
    unfold set_socket_path. rewrite Hf. destruct (shmfollower self) eqn:Ef; [by exists o|].
    destruct (holds_free _ _ _ _ Hh) as (h1 & -> & Hh1). cbn [mbind option_bind].
    pose proof (holds_dup g_malloc g_malloc_new s _ _ Hh1) as Hh2.
    destruct (g_strdup g_malloc s h1) as [p h2]. cbn. eexists. split; [done|]. split_and!; try done.
    cbn. congruence.
  - injection E as E. destruct (src_get_refines p o self Hs) as (o' & Eo & Hs'). rewrite E in Eo, Hs'.
    by exists o'.
  - injection E as <- <-. unfold Src.on_server_connect, gst_shmdata_src_on_server_connect.
    destruct (holds_free _ _ _ _ Hc) as (h1 & -> & Hh1). cbn [mbind option_bind].
    pose proof (holds_dup new_caps new_caps_new (gst_caps_from_string d) _ _ Hh1) as Hh2.
    pose proof (holds_null_iff _ _ _ _ Hh2 ltac:(left)) as Hnull.
    destruct (g_strdup new_caps (gst_caps_from_string d) h1) as [c h2]. cbn [fst snd] in *. cbn.
    eexists. split; [done|]. destruct c, (gst_caps_from_string d) eqn:Ed; cbn;
      try (by specialize (proj2 Hnull eq_refl)); try (by specialize (proj1 Hnull eq_refl)); by split_and!.
  - injection E as <- <-. eexists. by split_and!.
  - injection E as <- <-. pose proof (holds_null_iff _ _ _ _ Hh ltac:(left)) as Hnull.
    unfold Src.start_reading, gst_shmdata_src_start_reading.
    destruct (Src.socket_path o) eqn:Ep, (socket_path self) eqn:Es; cbn;
      try (by specialize (proj2 Hnull eq_refl)); try (by specialize (proj1 Hnull eq_refl));
      eexists; (split; [reflexivity|]); split_and!; cbn; rewrite ?Ep, ?Es; done.
  - injection E as <- <-. eexists. by split_and!.
Qed.

(** C33: the source with strings and caps in the heap does what the source by
    value does, whatever the sequence of properties set and read, of
    connections, starts and stops: nothing is accessed after it was freed, and
    the reference on the caps is given back when the element is finalized; but
    its path, when it has one, is never freed. *)
Theorem src_path_stays cs rs self' :
  calls src_values cs gst_shmdata_src_init = Some (rs, self') ->
  exists o' left, calls src_pointers cs Src.init = Some (rs, o') /\ src_shows o' self' /\
    Src.gst_shmdata_src_finalize o' = Some (∅, left) /\
    match socket_path self' with Some s => exists b, left = {[b := s]} | None => left = ∅ end.
Proof using All.
  intros E.
  assert (H0 : src_shows Src.init gst_shmdata_src_init) by (split_and!; repeat constructor).
  destruct (calls_refine _ _ src_shows src_call_refines cs _ _ _ _ H0 E) as (o' & E' & Hs).
  pose proof Hs as (Hh & Hc & _). exists o', (Src.strings o'). split; [done|]. split; [done|].
  unfold Src.gst_shmdata_src_finalize. destruct (holds_free _ _ _ _ Hc) as (h1 & -> & Hh1).
  cbn [mbind option_bind]. split; [by inversion Hh1|].
  inversion Hh as [|? ? Hl|b bs ? h' Hb Hl]; subst; inversion Hl; subst; [done|].
  exists b. by rewrite insert_empty.
Qed.
End owned_src.

(** ** Witnesses *)

Definition first_free {A} (h : gmap nat A) : nat := fresh (dom h).
Lemma first_free_new {A} (h : gmap nat A) : h !! first_free h = None.
Proof. apply not_elem_of_dom, is_fresh. Qed.

(** Caps are texts, and those that begin with a comma are not caps. *)
Definition text_caps (s : cstr) : option cstr := match s with ","%char :: _ => None | _ => Some s end.

Lemma src_properties_served_witness : exists self',
  Src.set_property Src.PROP_SOCKET_PATH (VString (Some $"/s")) (@gst_shmdata_src_init cstr) = Some (false, self') /\
  fst (Src.get_property Some Src.PROP_SOCKET_PATH self') = Some (VString (Some $"/s")).
Proof.
  set (spec := ParamSpec Src.PROP_SOCKET_PATH $"socket-path" (SpecString None) true true).
  destruct (src_properties_served Some (@gst_shmdata_src_init cstr) spec) as (_ & Hset & _);
    [unfold src_in_range, G_MAXUINT64; cbn; lia|by left|].
  destruct (Hset (VString (Some $"/s")) eq_refl) as (self' & E & _ & Hget & _).
  exists self'. split; [exact E|exact Hget].
Defined.

Definition sink_program : list sink_call := [ SinkCaps $"video";
  SinkSet Sink.PROP_SOCKET_PATH (VString (Some $"/s")); SinkCaps $"audio"; SinkGet Sink.PROP_CAPS;
  SinkSet Sink.PROP_EXTRA_CAPS_PROPERTIES (VString (Some $"rate=1")); SinkCaps $"audio";
  SinkGet Sink.PROP_CAPS; SinkSet Sink.PROP_SOCKET_PATH (VString (Some $"/t")) ].
Lemma sink_strings_owned_witness : exists rs o',
  calls (sink_pointers first_free Some text_caps) sink_program Sink.init = Some (rs, o') /\
  nth 6 rs None = Some (VString (Some $"audio,rate=1")) /\
  Sink.gst_shmdata_sink_finalize o' = Some ∅.
Proof.
  destruct (calls (sink_values (K := kernel) Some text_caps) sink_program gst_shmdata_sink_init)
    as [[rs self']|] eqn:E; [|by vm_compute in E].
  destruct (sink_strings_owned first_free first_free_new Some text_caps sink_program rs self' E)
    as (o' & E' & _ & Hf).
  exists rs, o'. split; [exact E'|]. split; [|exact Hf]. vm_compute in E. by injection E as <- _.
Defined.

Definition src_program : list src_call := [
  SrcSet Src.PROP_SOCKET_PATH (VString (Some $"/s")); SrcStart; SrcConnect $"audio";
  SrcSet Src.PROP_SOCKET_PATH (VString (Some $"/t")); SrcGet Src.PROP_CAPS; SrcConnect $"video";
  SrcDisconnect; SrcStop; SrcSet Src.PROP_SOCKET_PATH (VString (Some $"/u")) ].
Lemma src_path_stays_witness : exists rs o' b,
  calls (src_pointers first_free Some text_caps first_free) src_program Src.init = Some (rs, o') /\
  nth 4 rs None = Some (VString (Some $"audio")) /\
  Src.gst_shmdata_src_finalize o' = Some (∅, {[b := $"/u"]}).
Proof.
  destruct (calls (src_values Some text_caps) src_program gst_shmdata_src_init) as [[rs self']|] eqn:E;
    [|by vm_compute in E].
  destruct (src_path_stays first_free first_free_new Some text_caps first_free first_free_new src_program
    rs self' E) as (o' & left & E' & _ & Hf & Hl).
  vm_compute in E. injection E as <- <-. cbn in Hl. destruct Hl as [b ->].
  exists (  [None; None; None; None; Some (VString (Some $"audio")); None; None; None; None]), o', b.
  split; [exact E'|]. split; [reflexivity|exact Hf].
Defined.
