(* ===== verification/GstSinkProps.v ===== *)
(** * What the properties of the sink give (gstshmdatasink.c)

    The life of the element as a sequence of the calls that GStreamer and the
    application make, with what each returns; and a specification of its
    properties, whose state is what can be read: the element refines it. *)

From S2P Require Import Prelude Logger StdLib Posix PosixModel SysVSem SysVShm KernelLimits.
From S2P Require Import SocketProtocol UnixSocketServer UnixSocketClient Reader ReaderTheorems.
From S2P Require Import Writer WriterTheorems Follower CInterface GstSrc GstAllocator GstSink GstSinkTheorems.
From S2P Require Import GstProps.

Section life.
Context {K : Type} `{ErrnoOS K, SemOS K, ShmOS K, FileOS K, SockOS K, StdioOS K}.
Context {B : Type} `{!GstBuffers K B}.
Context {Caps : Type} (gst_caps_to_string : Caps -> option cstr)
  (gst_caps_from_string : cstr -> option Caps).
Context (gst_memory_alignment : Z) (addr : option Z -> Z).
Context (pad : cstr) (turns : nat) (on_connected on_disconnected : option (Z -> Z -> M (world K) unit))
  (user_data : Z).
Implicit Types (self : GstShmdataSink K).

(** ** The calls *)

(** [OpAlloc] is the allocation of a buffer by an element upstream, with the
    allocator that the sink has proposed. *)
Inductive sink_op :=
| OpSet (p : Sink.prop) (v : gvalue) | OpGet (p : Sink.prop) | OpCaps (c : Caps)
| OpAlloc (a : nat) (size : Z) (ps : params) | OpRender (buf : B)
| OpStart | OpStop | OpUnlock | OpUnlockStop.
Inductive sink_reply := Done | Value (v : option gvalue) | Accepted (ok : bool) | Flow (r : flow).

(** GObject does not set a property to a value of another type. *)
Definition sink_do (op : sink_op) self : M (world K) (sink_reply * GstShmdataSink K) :=
  match op with
  | OpSet p v => match Sink.set_property p v self with Some self => mret (Done, self) | None => undef end
  | OpGet p => let (v, self) := Sink.get_property p self in mret (Value v, self)
  | OpCaps c =>
      '(ok, self) ← gst_shmdata_sink_on_caps gst_caps_to_string gst_caps_from_string pad turns
                      on_connected on_disconnected user_data c self;
      mret (Accepted ok, self)
  | OpAlloc a size ps =>
      '(_, self) ← gst_shmdata_sink_allocator_alloc gst_memory_alignment addr a size ps self;
      mret (Done, self)
  | OpRender buf =>
      '(r, self) ← gst_shmdata_sink_render gst_memory_alignment addr buf self; mret (Flow r, self)
  | OpStart => mret (Done, gst_shmdata_sink_start self)
  | OpStop => self ← gst_shmdata_sink_stop self; mret (Done, self)
  | OpUnlock => mret (Done, gst_shmdata_sink_unlock self)
  | OpUnlockStop => mret (Done, gst_shmdata_sink_unlock_stop self)
  end.

Fixpoint sink_life (ops : list sink_op) self : M (world K) (list sink_reply * GstShmdataSink K) :=
  match ops with
  | [] => mret ([], self)
  | op :: ops' =>
      '(r, self) ← sink_do op self;
      '(rs, self) ← sink_life ops' self;
      mret (r :: rs, self)
  end.

(** ** The specification *)

Record shown := Shown {
  sh_path : option cstr;
  sh_caps : option cstr;
  sh_extra : option cstr;
  sh_bytes : Z;
  sh_buffers : Z;
  sh_size : Z }.

#[export] Instance shown_settable : Settable shown := fun P =>
  Shown (sh_path P) (sh_caps P) (sh_extra P) (sh_bytes P) (sh_buffers P) (sh_size P).
Implicit Types (P : shown).

Definition new_shown : shown := Shown None None None 0 0 DEFAULT_INITIAL_SIZE.

Definition value_of (p : Sink.prop) P : option gvalue :=
  match p with
  | Sink.PROP_SOCKET_PATH => Some (VString (sh_path P))
  | Sink.PROP_CAPS => Some (VString (sh_caps P))
  | Sink.PROP_EXTRA_CAPS_PROPERTIES => Some (VString (sh_extra P))
  | Sink.PROP_BYTES_SINCE_LAST_REQUEST => Some (VUint64 (sh_bytes P))
  | Sink.PROP_BUFFERS_SINCE_LAST_REQUEST => Some (VUint64 (sh_buffers P))
  | Sink.PROP_INITIAL_SHM_SIZE => Some (VUlong (sh_size P))
  | Sink.PROP_0 => None
  end.

(** One call.  A value set is kept; a counter starts again when it is read, and
    counts the buffers rendered; caps are those of the last caps received since
    there is a path; the size is at least that of the buffers allocated. *)
Inductive serves : sink_op -> sink_reply -> shown -> shown -> Prop :=
| serves_path s P : serves (OpSet Sink.PROP_SOCKET_PATH (VString s)) Done P (P <| sh_path := s |>)
| serves_extra s P : serves (OpSet Sink.PROP_EXTRA_CAPS_PROPERTIES (VString s)) Done P (P <| sh_extra := s |>)
| serves_size z P : serves (OpSet Sink.PROP_INITIAL_SHM_SIZE (VUlong z)) Done P (P <| sh_size := z |>)
| serves_read_only p v P :
    p ∈ [Sink.PROP_0; Sink.PROP_CAPS; Sink.PROP_BYTES_SINCE_LAST_REQUEST;
         Sink.PROP_BUFFERS_SINCE_LAST_REQUEST] -> serves (OpSet p v) Done P P
| serves_get_bytes P :
    serves (OpGet Sink.PROP_BYTES_SINCE_LAST_REQUEST) (Value (Some (VUint64 (sh_bytes P)))) P
      (P <| sh_bytes := 0%Z |>)
| serves_get_buffers P :
    serves (OpGet Sink.PROP_BUFFERS_SINCE_LAST_REQUEST) (Value (Some (VUint64 (sh_buffers P)))) P
      (P <| sh_buffers := 0%Z |>)
| serves_get p P :
    p <> Sink.PROP_BYTES_SINCE_LAST_REQUEST -> p <> Sink.PROP_BUFFERS_SINCE_LAST_REQUEST ->
    serves (OpGet p) (Value (value_of p P)) P P
| serves_no_path c P : sh_path P = None -> serves (OpCaps c) (Accepted false) P P
| serves_caps c ok path P : sh_path P = Some path ->
    serves (OpCaps c) (Accepted ok) P (P <| sh_caps := merge_caps gst_caps_to_string gst_caps_from_string
      (gst_caps_to_string c) (sh_extra P) |>)
| serves_alloc a size ps P : serves (OpAlloc a size ps) Done P (P <| sh_size := Z.max (sh_size P) size |>)
| serves_render buf n P : n = sh_size P \/ n = Z.max (sh_size P) (gst_buffer_get_size buf) ->
    serves (OpRender buf) (Flow GST_FLOW_OK) P
      (P <| sh_bytes := to_size_t (sh_bytes P + gst_buffer_get_size buf) |>
         <| sh_buffers := to_size_t (sh_buffers P + 1) |> <| sh_size := n |>)
| serves_refused buf P : serves (OpRender buf) (Flow GST_FLOW_ERROR) P P
| serves_other op P : op ∈ [OpStart; OpStop; OpUnlock; OpUnlockStop] -> serves op Done P P.

Inductive serves_all : list sink_op -> list sink_reply -> shown -> shown -> Prop :=
| serves_nil P : serves_all [] [] P P
| serves_cons op ops r rs P P1 P' :
    serves op r P P1 -> serves_all ops rs P1 P' -> serves_all (op :: ops) (r :: rs) P P'.

(** What the element shows. *)
Definition shows self : shown :=
  Shown (sk_socket_path self) (sk_caps self) (extra_caps_properties self)
    (sk_bytes_since_last_request self) (sk_buffers_since_last_request self) (sk_size self).

(** ** Each call refines it *)

Lemma alloc_shows a size ps self :
  returns (gst_shmdata_sink_allocator_alloc gst_memory_alignment addr a size ps self)
    (fun '(m, self') => m_size m = size /\
       shows self' = (shows self) <| sh_size := Z.max (sk_size self) size |>).
Proof.
  unfold gst_shmdata_sink_allocator_alloc.
  eapply (returns_bind _ _ (fun s => shows s = (shows self) <| sh_size := Z.max (sk_size self) size |>)).
  - destruct (Z.ltb_spec (sk_size self) size).
    + apply returns_skip. intros [[resized acc] wr]. apply returns_ret. rewrite Z.max_r by lia.
      by destruct self, (0 =? resized)%Z.
    + apply returns_ret. rewrite Z.max_l by lia. by destruct self.
  - intros s Hs. apply returns_skip. intros data. do 2 (apply returns_skip; intros _).
    apply returns_ret. split; [done|]. rewrite <- Hs. by destruct s.
Qed.

Lemma send_shows buf self :
  returns (send_buffer gst_memory_alignment addr buf self) (fun '(sent, self') =>
    match sent with
    | None => shows self' = shows self
    | Some (size, _) => size = gst_buffer_get_size buf /\
        exists n, (n = sk_size self \/ n = Z.max (sk_size self) (gst_buffer_get_size buf)) /\
          shows self' = (shows self) <| sh_size := n |>
    end).
Proof.
  unfold send_buffer. apply returns_skip. intros [|].
  - apply returns_skip. intros shmmax. destruct (_ <? _)%Z.
    + apply returns_skip. intros _. apply returns_ret. by destruct self.
    + destruct (allocator self) as [a|]; [|apply returns_undef].
      eapply returns_bind; [apply alloc_shows|]. intros [m s] [Hm Hs]. apply returns_skip. intros _.
      apply returns_ret. split; [done|]. eauto.
  - apply returns_ret. split; [done|]. exists (sk_size self). split; [by left|by destruct self].
Qed.

Lemma announce_shows size self :
  returns (announce_buffer size self) (fun self' => shows self' =
    (shows self) <| sh_bytes := to_size_t (sk_bytes_since_last_request self + size) |>
                 <| sh_buffers := to_size_t (sk_buffers_since_last_request self + 1) |>).
Proof.
  unfold announce_buffer. apply returns_skip. intros [[x acc] wr]. apply returns_skip. intros _.
  apply returns_ret. by destruct self.
Qed.

Lemma render_shows buf self :
  returns (gst_shmdata_sink_render gst_memory_alignment addr buf self) (fun '(r, self') =>
    serves (OpRender buf) (Flow r) (shows self) (shows self')).
Proof.
  unfold gst_shmdata_sink_render. eapply returns_bind; [apply send_shows|].
  intros [[[size copied]|] s]; [intros (-> & n & Hn & Hs)|intros Hs].
  - eapply returns_bind; [apply announce_shows|]. intros s1 Hs1. apply returns_skip. intros acc.
    apply returns_ret.
    assert (E : forall s', shows s' = shows s1 -> serves (OpRender buf) (Flow GST_FLOW_OK) (shows self) (shows s')).
    { intros s' ->. rewrite Hs1, Hs. destruct s, self. injection Hs as -> -> -> -> -> ->.
      by apply (serves_render buf n). }
    destruct copied; apply E; unfold free_copy; by destruct s1.
  - apply returns_ret. rewrite Hs. constructor.
Qed.

Lemma caps_shows c self :
  returns (gst_shmdata_sink_on_caps gst_caps_to_string gst_caps_from_string pad turns
             on_connected on_disconnected user_data c self)
    (fun '(ok, self') => serves (OpCaps c) (Accepted ok) (shows self) (shows self')).
Proof.
  unfold gst_shmdata_sink_on_caps. destruct (sk_socket_path self) as [path|] eqn:Ep.
  - cbv zeta. do 2 (apply returns_skip; intros ?).
    assert (E : forall ok s', shows s' = (shows self) <| sh_caps := merge_caps gst_caps_to_string
        gst_caps_from_string (gst_caps_to_string c) (extra_caps_properties self) |> ->
      serves (OpCaps c) (Accepted ok) (shows self) (shows s')).
    { intros ok s' ->. apply (serves_caps c ok path (shows self)). exact Ep. }
    case_match.
    + apply returns_skip. intros acc. destruct (gst_shmdata_sink_allocator_new _) as [al h].
      apply returns_ret. apply E. by destruct self.
    + apply returns_ret. apply E. by destruct self.
  - apply returns_ret. pose proof (serves_no_path c (shows self) Ep). by destruct self.
Qed.

Lemma do_shows op self :
  returns (sink_do op self) (fun '(r, self') => serves op r (shows self) (shows self')).
Proof.
  destruct op as [p v|p|c|a size ps|buf| | | |]; cbn [sink_do].
  - destruct (Sink.set_property p v self) as [self'|] eqn:E; [|apply returns_undef].
    apply returns_ret. destruct self, p, v; try discriminate E; injection E as <-;
      try apply serves_path; try apply serves_extra; try apply serves_size;
      apply serves_read_only; set_solver.
  - destruct (Sink.get_property p self) as [v self'] eqn:E. apply returns_ret.
    destruct p; injection E as <- <-;
      first [apply (serves_get_bytes (shows self))|apply (serves_get_buffers (shows self))|idtac];
      match goal with |- serves (OpGet ?p) _ _ _ => by apply (serves_get p (shows self)) end.
  - eapply returns_bind; [apply caps_shows|]. intros [ok self'] Hs. by apply returns_ret.
  - eapply returns_bind; [apply alloc_shows|]. intros [m self'] [_ Hs]. apply returns_ret.
    rewrite Hs. apply serves_alloc.
  - eapply returns_bind; [apply render_shows|]. intros [r self'] Hs. by apply returns_ret.
  - apply returns_ret. destruct self. apply serves_other. set_solver.
  - eapply (returns_bind _ _ (fun s => shows s = shows self)).
    + unfold gst_shmdata_sink_stop. cbv zeta. apply returns_skip. intros _. apply returns_ret.
      destruct self as [???????????[a|]???]; done.
    + intros s Hs. apply returns_ret. rewrite Hs. apply serves_other. set_solver.
  - apply returns_ret. destruct self. apply serves_other. set_solver.
  - apply returns_ret. destruct self. apply serves_other. set_solver.
Qed.

Lemma life_shows ops self :
  returns (sink_life ops self) (fun '(rs, self') => serves_all ops rs (shows self) (shows self')).
Proof.
  revert self. induction ops as [|op ops IH]; intros self; cbn [sink_life].
  - apply returns_ret. constructor.
  - eapply returns_bind; [apply do_shows|]. intros [r s] Hr. eapply returns_bind; [apply IH|].
    intros [rs s'] Hrs. apply returns_ret. by econstructor.
Qed.

(** ** The ranges of the properties *)

(** What the application may set, and the buffers of at most [shmmax] bytes. *)
Definition settable (shmmax : Z) (op : sink_op) : Prop :=
  forall p v, op = OpSet p v -> exists spec, spec ∈ Sink.properties shmmax /\ ps_id spec = p /\
    ps_writable spec = true /\ accepts (ps_type spec) v = true.
Definition small (shmmax : Z) (op : sink_op) : Prop :=
  match op with
  | OpAlloc _ size _ => (size <= shmmax)%Z
  | OpRender buf => (gst_buffer_get_size buf <= shmmax)%Z
  | _ => True
  end.

Definition counters_in_range P : Prop :=
  (0 <= sh_bytes P <= G_MAXUINT64)%Z /\ (0 <= sh_buffers P <= G_MAXUINT64)%Z.
Definition size_in_range (shmmax : Z) P : Prop := (1 <= sh_size P <= shmmax)%Z.

Lemma to_size_t_range z : (0 <= to_size_t z <= G_MAXUINT64)%Z.
Proof. unfold to_size_t, G_MAXUINT64. pose proof (Z.mod_pos_bound z (2 ^ 64) ltac:(lia)). lia. Qed.

Lemma serves_counters op r P P' : serves op r P P' -> counters_in_range P -> counters_in_range P'.
Proof.
  unfold counters_in_range. intros Hs [Hb Hn]. destruct Hs; cbn; auto;
    try (split; auto; unfold G_MAXUINT64; lia). split; apply to_size_t_range.
Qed.

Lemma serves_size_range shmmax op r P P' :
  serves op r P P' -> settable shmmax op -> small shmmax op ->
  size_in_range shmmax P -> size_in_range shmmax P'.
Proof.
  unfold size_in_range. intros Hs Hset Hsm Hr. destruct Hs; cbn in *; try lia.
  destruct (Hset _ _ eq_refl) as (spec & Hin & Hid & _ & Ha).
  apply list_elem_of_In in Hin. cbn in Hin.
  repeat destruct Hin as [<-|Hin]; try done. cbn in Ha. lia.
Qed.

(** The value read is one of the type and range of the property. *)
Definition well_read (shmmax : Z) (op : sink_op) (r : sink_reply) : Prop :=
  forall spec, spec ∈ Sink.properties shmmax -> op = OpGet (ps_id spec) ->
  exists v, r = Value (Some v) /\ accepts (ps_type spec) v = true.

Lemma serves_value p r P P' : serves (OpGet p) r P P' -> r = Value (value_of p P).
Proof. intros Hs. inversion Hs; subst; try done. set_solver. Qed.

Lemma serves_well_read shmmax op r P P' : serves op r P P' ->
  counters_in_range P -> size_in_range shmmax P -> well_read shmmax op r.
Proof.
  unfold counters_in_range, size_in_range. intros Hs [Hb Hn] Hz spec Hin ->.
  apply list_elem_of_In in Hin. cbn in Hin.
  pose proof (serves_value _ _ _ _ Hs) as ->.
  assert (Hv : exists v, value_of (ps_id spec) P = Some v)
    by (repeat destruct Hin as [<-|Hin]; try done; by eexists).
  destruct Hv as (v & Hv). rewrite Hv. exists v. split; [done|].
  repeat destruct Hin as [<-|Hin]; try done; injection Hv as <-; cbn;
    try done; apply andb_true_iff; split; apply Z.leb_le; lia.
Qed.

Lemma serves_all_read shmmax ops rs P P' : serves_all ops rs P P' ->
  Forall (settable shmmax) ops -> Forall (small shmmax) ops ->
  counters_in_range P -> size_in_range shmmax P -> Forall2 (well_read shmmax) ops rs.
Proof.
  induction 1 as [|op ops r rs P P1 P' Hs _ IH]; intros Hset Hsm Hc Hz; [constructor|].
  apply Forall_cons in Hset as [Hset Hsets]. apply Forall_cons in Hsm as [Hsm Hsms]. constructor.
  - by apply (serves_well_read shmmax op r P P1).
  - apply IH; try done; [by apply (serves_counters op r P)|by apply (serves_size_range shmmax op r P)].
Qed.

(** ** Theorems *)

(** C32: the properties of the sink over its whole life.  Whatever the calls made
    from its creation on, what is read is what the specification gives: the
    last value set; the caps of the last caps event; the buffers and bytes
    rendered since the counter was read; the size last set, or that of a larger
    buffer allocated since.  Every value read is one of the type and range that
    the class declares, as long as no buffer is larger than the maximum of
    initial-size; and a new element gives the defaults. *)
Theorem sink_properties_served shmmax ops rs self' (w w' : world K) :
  (1 <= shmmax)%Z -> Forall (settable shmmax) ops ->
  sink_life ops gst_shmdata_sink_init w = (Ret (rs, self'), w') ->
  serves_all ops rs new_shown (shows self') /\
  (Forall (small shmmax) ops -> Forall2 (well_read shmmax) ops rs) /\
  forall spec, spec ∈ Sink.properties shmmax ->
    value_of (ps_id spec) new_shown = Some (default_value (ps_type spec)).
Proof.
  intros Hm Hset E.
  pose proof (life_shows ops gst_shmdata_sink_init w (rs, self') w' I E) as Hs. cbn beta iota in Hs.
  split; [exact Hs|]. split.
  - intros Hsm. apply (serves_all_read shmmax ops rs _ _ Hs Hset Hsm).
    + unfold counters_in_range, G_MAXUINT64. cbn. lia.
    + unfold size_in_range. cbn. unfold DEFAULT_INITIAL_SIZE. lia.
  - intros spec Hin. apply list_elem_of_In in Hin. cbn in Hin. by repeat destruct Hin as [<-|Hin].
Qed.

(** A buffer larger than the size makes the property initial-size its size,
    the maximum of the property notwithstanding. *)
Theorem initial_size_overrun shmmax a size ps self m self' (w w' : world K) :
  (sk_size self < size)%Z -> (shmmax < size)%Z ->
  gst_shmdata_sink_allocator_alloc gst_memory_alignment addr a size ps self w = (Ret (m, self'), w') ->
  fst (Sink.get_property Sink.PROP_INITIAL_SHM_SIZE self') = Some (VUlong size) /\
  accepts (SpecUlong 1 shmmax DEFAULT_INITIAL_SIZE) (VUlong size) = false.
Proof.
  intros Hlt Hmax E. destruct (alloc_shows a size ps self w (m, self') w' I E) as [_ Hs].
  apply (f_equal sh_size) in Hs. cbn in Hs. cbn [Sink.get_property fst]. rewrite Hs, Z.max_r by lia.
  split; [done|]. cbn. apply andb_false_iff. right. apply Z.leb_gt. lia.
Qed.
End life.

(** ** A life *)

#[local] Instance files : StdioOS kernel := limit_files (Some $"18446744073692774399").

(** Caps without a path and with one, a buffer, and one that is larger than
    the segment. *)
Definition life_ops : list (sink_op (B := test_buffer) (Caps := cstr)) := [
  OpCaps $"video/x-raw"; OpSet Sink.PROP_SOCKET_PATH (VString (Some $"/t"));
  OpSet Sink.PROP_INITIAL_SHM_SIZE (VUlong 4); OpCaps $"video/x-raw"; OpGet Sink.PROP_CAPS;
  OpRender (TestBuffer $"xyz" Foreign); OpGet Sink.PROP_BYTES_SINCE_LAST_REQUEST;
  OpRender (TestBuffer $"xyzzy" Foreign); OpGet Sink.PROP_BUFFERS_SINCE_LAST_REQUEST;
  OpGet Sink.PROP_BUFFERS_SINCE_LAST_REQUEST; OpGet Sink.PROP_INITIAL_SHM_SIZE; OpStop ].
Definition life_replies : list sink_reply := [
  Accepted false; Done; Done; Accepted true; Value (Some (VString (Some $"video/x-raw")));
  Flow GST_FLOW_OK; Value (Some (VUint64 3)); Flow GST_FLOW_OK; Value (Some (VUint64 2));
  Value (Some (VUint64 0)); Value (Some (VUlong 5)); Done ].
Abbreviation live w := (sink_life Some text_caps 7 page (zeros 6) 1 None None 7 life_ops gst_shmdata_sink_init w).

Lemma life_returns : exists self' w', live (boot 1) = (Ret (life_replies, self'), w').
Proof.
  assert (E : match (live (boot 1)).1 with Ret (rs, _) => Some rs | _ => None end = Some life_replies)
    by (by vm_compute).
  destruct (live (boot 1)) as [[[rs self']|e| |] w']; try discriminate E.
  injection E as ->. by exists self', w'.
Qed.

Lemma sink_properties_served_witness : exists self' w',
  live (boot 1) = (Ret (life_replies, self'), w') /\
  serves_all Some text_caps life_ops life_replies new_shown (shows self') /\
  Forall2 (well_read 8) life_ops life_replies.
Proof.
  destruct life_returns as (self' & w' & E). exists self', w'. split; [exact E|].
  destruct (sink_properties_served Some text_caps 7 page (zeros 6) 1 None None 7 8 life_ops life_replies
    self' (boot 1) w' ltac:(lia)) as (Hs & Hr & _); [|exact E|].
  - clear E. repeat (apply Forall_cons; split; [intros p v [= <- <-] || (by intros p v E')|]); [| |constructor].
    + exists (ParamSpec Sink.PROP_SOCKET_PATH $"socket-path" (SpecString None) true true).
      split; [by left|done].
    + exists (ParamSpec Sink.PROP_INITIAL_SHM_SIZE $"initial-size" (SpecUlong 1 8 DEFAULT_INITIAL_SIZE) true true).
      split; [by do 5 right; left|done].
  - split; [exact Hs|]. apply Hr. clear. repeat (apply Forall_cons; split; [cbn; done || lia|]). constructor.
Defined.

(** A buffer of 7 bytes, when the maximum is 6. *)
Lemma initial_size_overrun_witness : exists m self' w',
  gst_shmdata_sink_allocator_alloc 7 page 0 7 default_params test_sink (shared_world 1 [1; 1]%Z) =
    (Ret (m, self'), w') /\
  fst (Sink.get_property Sink.PROP_INITIAL_SHM_SIZE self') = Some (VUlong 7).
Proof.
  destruct (gst_shmdata_sink_allocator_alloc 7 page 0 7 default_params test_sink (shared_world 1 [1; 1]%Z))
    as [[[m self']|e| |] w'] eqn:E; [|vm_compute in E; discriminate ..].
  destruct (initial_size_overrun 7 page 6 0 7 default_params test_sink m self' _ w' ltac:(simpl; lia)
    ltac:(lia) E) as [Hg _].
  exists m, self', w'. split; [reflexivity|exact Hg].
Defined.
